(* ===== verification/_CoqProject ===== *)
-Q . S2P
Prelude.v
RStr.v
Float.v
Externals.v
Metric.v
Origin.v
Aggregator.v
Actor.v
AggregatorService.v
Contexts.v
Flusher.v
Intake.v
DogStatsD.v
ApiKey.v
Signature.v
ScoreSampler.v
LogsAggregator.v
LogsFlusher.v
LogsPipeline.v
TraceAggregator.v
TraceProcessor.v
TraceConfig.v
Stats.v
ProxyFlusher.v
EnvVerifier.v
MiniAgent.v
Serde.v
AgentDeserializers.v
AgentConfig.v
AgentSources.v
AgentConfigSpec.v
AppServices.v
MetricsCollector.v
MetricsPipeline.v
Metadata.v
Logging.v
Fips.v
DogStatsDServer.v
AgentServer.v
TraceFlusher.v
TracesPipeline.v
StatsPipeline.v
TraceAgent.v
CompatMain.v
MockSummary.v
MockIntake.v
