(* ===== verification/Prelude.v ===== *)
(** * Verification of the Datadog serverless agents

    The repository holds the agents that run beside a serverless function: a DogStatsD
    server ([src/crates/dogstatsd]), a trace agent ([src/crates/datadog-trace-agent])
    with its error sampler ([src/crates/datadog-agent-trace-sampler]) and a log agent
    ([src/crates/datadog-logs-agent]).  This library models their own logic as
    executable definitions and proves what makes each part correct.  Every file below
    opens with the source files it models; a definition has the name of the function
    it translates unless that name is taken.

    ** How the parts fit

    - Metrics.  The server ([DogStatsD]) reads packets, splits them into lines and parses
      each line ([Metric]); the metrics go through a channel to the task that owns the
      aggregator ([AggregatorService], [Aggregator]), which is asked for batches by the
      flusher ([Flusher]), which gets its key from [ApiKey], its URLs from [Intake], and
      adds [Origin] metadata to the series.
    - Traces.  A request goes through [TraceProcessor], which decodes it with libdatadog,
      rewrites its chunks, sends them to the statistics ([Stats]), asks the sampler
      ([ScoreSampler], [Signature]) which errors to rescue, splits what is too big and
      hands the pieces to the aggregator and flusher ([TraceAggregator]).  [MiniAgent]
      dispatches the requests and supervises the tasks, [TraceConfig]
      reads the configuration, [EnvVerifier] decides whether the agent may run, and
      [ProxyFlusher] forwards profiles and pipeline statistics.
    - Logs.  [LogsAggregator] holds the HTTP intake, the task that owns the batches and
      the batches; [LogsFlusher] sends them to the primary and the additional intakes.
    - Configuration.  The crate shared by the agents reads the environment and
      [datadog.yaml] with one deserializer per setting ([AgentDeserializers]), merges
      them over the defaults ([AgentSources], [AgentConfig]) and completes the result.
    - Around the agents, [MetricsCollector] submits the enhanced metrics of Azure
      Functions to the aggregator of the metrics, [Metadata] reports the identity of
      the workload, [Logging] builds the filter of the log levels, and the HTTP clients
      of the metrics and of the logs are made by [Fips].
    - The parts are composed in four transition systems, one for each kind of data:
      [MetricsPipeline], [LogsPipeline], [TracesPipeline] and [StatsPipeline] join the
      definitions of the components above along the channels of the code and follow every
      datum from the answer of its intake to the request that sends it, under all their
      interleavings.  [TraceAgent] joins the last two around the concentrator they share
      and puts them under the server of [AgentServer], up to its orderly shutdown.
    - [CompatMain] is the binary that starts the agents and runs their timers: it composes
      the definitions above.  [MockIntake] and [MockSummary] are the intake the tests of
      the agents send to.

    ** The files

    - [Prelude]: results and their [let?] notation, machine integers, lists, sorting.
    - [RStr]: Rust's string operations on UTF-8 bytes (split, trim, white space,
      validation, integers).
    - [Float]: 64- and 32-bit floats as [spec_float], their parsing and conversions, and
      the exact product of a rate with [u64::MAX].
    - [Externals]: the third-party crates used by the metrics, as classes with laws
      ([Ustr], hashers, sketches, hash tables) and one simple instance of each, used only
      by the witnesses.
    - [Actor]: a task that owns its state and serves a channel; every interleaving is a
      sequential run of the accepted commands ([reach_sequential]).  It is instantiated
      by the metric, log and statistics services.
    - [Metric]: [metric.rs].  The parser is equivalent to one that splits the line and
      folds over its fields; what it accepts is well formed; rendering round trips;
      timestamps fall in ten-second buckets.
    - [Origin]: [origin.rs], the decision table of origins.
    - [Aggregator]: [aggregator/core.rs].  Insertion refines insertion in a finite map;
      consuming returns every metric once in batches within the limits.
    - [AggregatorService]: [aggregator/service.rs], and the flush command.
    - [Contexts]: the abstract specification of the two files above: the sequence of the
      metrics received since the last flush, grouped by context up to the capacity.  The
      task refines it under every interleaving ([service_refines]), and inserting is
      grouping ([aggregation_by_context]).
    - [Flusher]: [flusher.rs] and [datadog/shipping.rs], over an arbitrary network:
      attempts, early stops, what is returned for a retry.
    - [Intake]: [datadog/intake.rs] and [util.rs]: the URL prefixes are valid.
    - [DogStatsD]: [dogstatsd.rs]: packets to metrics; the reader, the bounded queue with
      its pool of buffers and the processor as a transition system; the reassembly of
      named-pipe reads.
    - [ApiKey]: [api_key.rs]: the callers of [get_api_key] as a transition system: one
      loader at a time, only loaded answers, and a return always possible.
    - [Signature], [ScoreSampler]: signatures depend on the set of span hashes; rotation
      of the six buckets; the sampler never panics and is bounded in signatures.  Sampling by
      rate keeps a known number of identifiers, and more at a greater rate.
    - [LogsAggregator], [LogsFlusher]: batches within the limits and complete, under every
      interleaving; the intake's answers; retries and redriving.
    - [LogsPipeline]: the listener, the connections, the task of the aggregator and the
      flusher.  A log answered 200 is dropped when it is too large or cannot be serialized;
      any other is in one place until its request is settled or the task is shut down; the
      work begun ends; while the task runs all of them can be delivered.
    - [TraceAggregator]: batches of a flush, and its end.
    - [TraceProcessor]: a request is always answered, loses no chunk and changes nothing
      when refused; rescue stamps the roots the sampler keeps, and nothing else.
    - [TraceConfig]: the configuration from the environment, its errors and panics; the
      tags round trip.
    - [Stats]: isolation of the metadata in the concentrators, flush answers,
      conservation of the statistics of the tracers.
    - [ProxyFlusher]: the headers and tags of a proxied request, attempts and pauses, and
      the loop over the channel, which always ends.
    - [EnvVerifier]: exactly when the agent goes on.
    - [MiniAgent]: each request acts on one component only; the shutdown drains the
      transports before the last flush of the statistics.
    - [Serde]: the values the formats hand to the deserializers (figment's, whose integers
      have up to 128 bits), the class of the deserializers of serde with their laws, that
      of [serde_json::Value] included, which refuses the integers of more than 64 bits, and
      the readers of derived structures.
    - [AgentDeserializers]: [deserializers/]: which fail only where the conversion to a JSON
      value does and on what the others do, round trips of strategies, levels and tags, bounds of durations.
    - [AgentConfig], [AgentSources]: [lib.rs], [sources/env.rs] and [sources/yaml.rs], a
      definition for every structure, deserializer and merge of the code.
    - [AgentConfigSpec]: the specification: layers of settings and their composition; the
      loaded configuration refines it; exactly when a source is refused; what the completed
      configuration satisfies.
    - [AppServices]: the metadata of Azure App Services, a class.
    - [MetricsCollector]: the collectors: readings to metrics, exactly one for each
      consecutive pair; tags; conversions of CPU times.
    - [MetricsPipeline]: packets, collectors, the task of the aggregator and the flushes the
      timer spawns, which may overlap: each flush ships the contexts of its own segment of
      the metrics.  A spawned flush resolves its key afresh, as the main loop clones a
      flusher whose cell is still empty.
    - [Metadata]: identities from the environment and the metadata server, payload,
      attempts and pauses of a report.
    - [Logging]: which entries of [DD_LOG_LEVEL_BY_TARGET] are accepted, what the filter
      is, and the round trip of the entries.
    - [Fips]: the client of FIPS mode uses the FIPS provider, and never accepts a chain with a
      distrusted key nor trusts one as an anchor; the eight keys are in the file.
    - [DogStatsDServer]: the rest of [dogstatsd.rs]: the set-up of the transports, and the
      UDP reader, the pipe server, its clients, their supervisor and the processor as a
      transition system over the queue of [DogStatsD].
    - [AgentServer]: the start of the trace agent, its two accept loops and the supervisor
      as a transition system.
    - [TraceFlusher]: [trace_flusher.rs]: the receiving task and the flushes over the
      shared aggregator, and the HTTP client.
    - [TracesPipeline]: the requests with the ten permits that bound them, the tasks they
      spawn, the flusher and the concentrator: no piece of a request that got a permit and
      was answered with success is lost, repeated or reordered, and the permits come back.
      A request that gets no permit in time is shed: answered with success, its traces
      dropped.
    - [StatsPipeline]: the statistics of the tracers and those of the concentrator through
      the loop of the flusher to its last, forced flush.
    - [TraceAgent]: [start_mini_agent] as a whole.  Its runs are runs of its parts; an end
      without an error has sent all the statistics, those of every trace answered with
      success and not shed among them, as the comments of [mini_agent.rs] intend; such an end can
      always be reached after the shutdown, and does not wait for the traces themselves.
      A task that was aborted takes no further step, and a connection serves one request
      at a time, as HTTP/1 does.
    - [CompatMain]: [datadog-serverless-compat/src/main.rs]: how the start ends, what runs
      in a started agent, and what the loop keeps, flushes and submits.
    - [MockSummary]: the hits by key are those of the payload, and the text of a key tells
      it from the others.
    - [MockIntake]: [datadog-mock-intake/src/lib.rs]: the requests in flight as a
      transition system: what the queries give, which attempts fail by injection; bodies
      decoded within the cap; dumps that never overwrite; no connection after the drop.

    ** Conventions

    - A machine integer is a [Z]; wrap-around and saturation are written where the code
      relies on them ([wrap64], [saturating_sub], [to_i64]).  A [&str] is a [string] of
      bytes, a byte slice a [list ascii].  A float is a [spec_float] with the operations
      of its width.
    - [Result] is [result]; a panic is [None] in the definitions that may panic, and
      theorems show where it cannot happen.  Logging is left out.
    - A task with its channel is an [Actor]; finer concurrency is an inductive step
      relation, with invariants by induction on its reflexive transitive closure.
    - The iteration order of a hash map is a parameter (a class with a permutation law),
      or is shown not to matter.
    - Clocks, networks, file systems and resolvers are arbitrary functions.

    ** Fuel

    Recursion that is not structural has fuel, and a theorem that it suffices: the fields
    of a line ([parse_loop], its length), batches ([all_batches], [flush], one turn per
    message and one more), attempts ([send_loop], the configured maximum), bisection
    ([split_fuel], the number of chunks; [split_unfold] is the equation of the code),
    white space ([split_whitespace], the length), names of a dump ([dump_loop], 1001).
    Concurrent runs end by a measure that their steps lower ([measure_sn],
    [measure_reaches]): [begun_work_ends], [buffered_can_be_sent],
    [shutdown_sends_everything], [agent_can_end].

    ** What is not modelled

    Sockets, timers and the HTTP clients are inputs of the models; protobuf, JSON, zstd, obfuscation and libdatadog are parameters.
    Whether the trace agent is built with the Windows pipes is a parameter of its
    configuration.  Whether a request gets a permit is the parameter [permit] of
    [process_traces]; the semaphore itself is in [TracesPipeline], where a request that
    passes the checks may only be shed while no permit is free; the length of its wait and
    the draining of its body are not.  The fairness of the scheduler is not
    modelled: the theorems on progress say that the tasks can finish by themselves.  The
    parsing of YAML and of the environment by figment, serde and serde_json are classes.
    reqwest, rustls, hyper, flate2, zstd and tracing are classes or arguments, and
    what the agents read of the world while they start is the class [StartupEnv]. *)
From Stdlib Require Export ZArith Lia.
From stdpp Require Export sorting.
From stdpp Require Export base numbers strings gmap list.

#[global] Open Scope Z_scope.

(** * Results *)

(** Rust's [Result<T, E>]. *)
Inductive result (T E : Type) : Type :=
  | Ok (v : T)
  | Err (e : E).
Arguments Ok {T E} v.
Arguments Err {T E} e.

Definition result_bind {T U E} (r : result T E) (k : T → result U E) : result U E :=
  match r with Ok v => k v | Err e => Err e end.

Definition is_ok {T E} (r : result T E) : bool :=
  match r with Ok _ => true | Err _ => false end.

Definition ok_or {T E} (o : option T) (e : E) : result T E :=
  match o with Some v => Ok v | None => Err e end.

Definition result_ok {T E} (r : result T E) : option T :=
  match r with Ok v => Some v | Err _ => None end.

Declare Scope rust_scope.
Delimit Scope rust_scope with rust.
#[global] Open Scope rust_scope.

(** The [?] operator: bind a successful result, return the error otherwise. *)
Notation "'let?' x ':=' c 'in' k" := (result_bind c (λ x, k))
  (at level 10, x name, c at level 100, k at level 200) : rust_scope.
Notation "'let?' ' p ':=' c 'in' k" := (result_bind c (λ p, k))
  (at level 10, p strict pattern, c at level 100, k at level 200) : rust_scope.

#[global] Instance result_eq_dec {T E} `{EqDecision T, EqDecision E} : EqDecision (result T E).
Proof. solve_decision. Defined.

(** * Machine integers

    A machine integer is a [Z]; [usize] and [isize] are 64 bits wide, as on the
    targets the agents are built for. *)

Definition u16_max : Z := 2 ^ 16 - 1.
Definition u32_max : Z := 2 ^ 32 - 1.
Definition u64_max : Z := 2 ^ 64 - 1.
Definition i32_max : Z := 2 ^ 31 - 1.
Definition i32_min : Z := - 2 ^ 31.
Definition i64_max : Z := 2 ^ 63 - 1.
Definition i64_min : Z := - 2 ^ 63.
Definition usize_max : Z := u64_max.
(** No Rust allocation, hence no [Vec], [String] or slice, is larger. *)
Definition isize_max : Z := i64_max.

Definition wrap32 (z : Z) : Z := z mod 2 ^ 32.
Definition wrap64 (z : Z) : Z := z mod 2 ^ 64.
Definition saturating_sub (a b : Z) : Z := Z.max 0 (a - b).
Definition clamp (lo hi z : Z) : Z := Z.max lo (Z.min hi z).

(** Length of a vector as a machine integer. *)
Notation zlen l := (Z.of_nat (length l)).

Lemma wrap64_small z : 0 ≤ z < 2 ^ 64 → wrap64 z = z.
Proof. apply Z.mod_small. Qed.
Lemma wrap64_range z : 0 ≤ wrap64 z < 2 ^ 64.
Proof. apply Z.mod_pos_bound. lia. Qed.
Lemma wrap32_range z : 0 ≤ wrap32 z < 2 ^ 32.
Proof. apply Z.mod_pos_bound. lia. Qed.
Lemma clamp_range lo hi z : lo ≤ hi → lo ≤ clamp lo hi z ≤ hi.
Proof. unfold clamp. lia. Qed.

(** * Tactics *)

(** Case analysis on every [match] and boolean test of the goal, closing the
    contradictory branches. *)
Ltac split_ifs :=
  repeat (case_match || case_decide); simplify_eq/=.

(** Turn boolean comparisons of the context into propositions. *)
Ltac zify_bool :=
  repeat match goal with
  | H : (_ && _) = true |- _ => apply andb_prop in H as [? ?]
  | H : (_ || _) = false |- _ => apply orb_false_elim in H as [? ?]
  | H : (_ <=? _) = true |- _ => apply Z.leb_le in H
  | H : (_ <=? _) = false |- _ => apply Z.leb_gt in H
  | H : (_ <? _) = true |- _ => apply Z.ltb_lt in H
  | H : (_ <? _) = false |- _ => apply Z.ltb_ge in H
  | H : (_ =? _) = true |- _ => apply Z.eqb_eq in H
  | H : (_ =? _) = false |- _ => apply Z.eqb_neq in H
  | H : negb _ = true |- _ => apply negb_true_iff in H
  | H : negb _ = false |- _ => apply negb_false_iff in H
  | H : bool_decide _ = true |- _ => apply bool_decide_eq_true in H
  | H : bool_decide _ = false |- _ => apply bool_decide_eq_false in H
  end.

(** * Lists *)

Section ListFacts.
Context {A : Type}.
Implicit Types (l : list A) (x : A).

(** Sum of a size over a list. *)
Fixpoint sum_size (f : A → Z) (l : list A) : Z :=
  match l with
  | [] => 0
  | x :: l => f x + sum_size f l
  end.

Lemma sum_size_app f l1 l2 : sum_size f (l1 ++ l2) = sum_size f l1 + sum_size f l2.
Proof. induction l1; simpl; lia. Qed.

Lemma sum_size_nonneg f l : (∀ x, x ∈ l → 0 ≤ f x) → 0 ≤ sum_size f l.
Proof.
  induction l as [|x l IH]; simpl; intros Hf; [done|].
  pose proof (Hf x (list_elem_of_here _ _)).
  assert (0 ≤ sum_size f l) by (apply IH; intros; apply Hf; by right). lia.
Qed.

Lemma sum_size_elem f l x :
  (∀ y, y ∈ l → 0 ≤ f y) → x ∈ l → f x ≤ sum_size f l.
Proof.
  intros Hf (l1 & l2 & ->)%list_elem_of_split.
  rewrite sum_size_app; simpl.
  assert (0 ≤ sum_size f l1) by (apply sum_size_nonneg; intros; apply Hf; set_solver).
  assert (0 ≤ sum_size f l2) by (apply sum_size_nonneg; intros; apply Hf; set_solver).
  lia.
Qed.

Lemma last_default l x d d' : List.last (x :: l) d = List.last (x :: l) d'.
Proof. revert x. induction l as [|y l IH]; intros x; [done|]. apply (IH y). Qed.
Lemma last_shift l x d : List.last (x :: l) d = List.last l x.
Proof. destruct l; [done|]. apply (last_default l a d x). Qed.

(** [Vec::dedup]: drop every element equal to the one just before it. *)
Context `{EqDecision A}.
Fixpoint dedup_from (prev : A) (l : list A) : list A :=
  match l with
  | [] => []
  | x :: l => if decide (x = prev) then dedup_from prev l else x :: dedup_from x l
  end.
Definition dedup (l : list A) : list A :=
  match l with [] => [] | x :: l => x :: dedup_from x l end.

Lemma dedup_from_elem prev l x : x ∈ prev :: dedup_from prev l ↔ x ∈ prev :: l.
Proof.
  revert prev. induction l as [|y l IH]; intros prev; simpl; [done|].
  case_decide; subst.
  - rewrite IH. set_solver.
  - specialize (IH y). set_solver.
Qed.
Lemma dedup_elem l x : x ∈ dedup l ↔ x ∈ l.
Proof. destruct l; [done|]. apply dedup_from_elem. Qed.

Lemma dedup_from_length prev l : (length (dedup_from prev l) ≤ length l)%nat.
Proof.
  revert prev. induction l as [|y l IH]; intros prev; simpl; [lia|].
  case_decide; simpl; [pose proof (IH prev)|pose proof (IH y)]; lia.
Qed.
Lemma dedup_length l : (length (dedup l) ≤ length l)%nat.
Proof. destruct l; simpl; [lia|]. pose proof (dedup_from_length a l). lia. Qed.

Lemma dedup_from_nodup prev l : NoDup (prev :: l) → dedup_from prev l = l.
Proof.
  revert prev. induction l as [|y l IH]; intros prev Hnd; simpl; [done|].
  inversion Hnd as [|?? Hnin Hnd']; subst.
  rewrite decide_False by set_solver. by rewrite IH.
Qed.
Lemma dedup_nodup l : NoDup l → dedup l = l.
Proof. destruct l; [done|]. intros. simpl. by rewrite dedup_from_nodup. Qed.
End ListFacts.

(** Sorting with a total order: the result only depends on the multiset of the
    elements, so it is the result of any of Rust's [sort] and [sort_unstable]. *)
Section Sorting.
Context {A : Type} (R : relation A) `{!RelDecision R}.
Context `{!Total R, !Transitive R, !AntiSymm (=) R}.

Lemma sort_perm_eq (l1 l2 : list A) : l1 ≡ₚ l2 → merge_sort R l1 = merge_sort R l2.
Proof.
  intros Hp.
  apply (StronglySorted_unique R).
  - by apply StronglySorted_merge_sort.
  - by apply StronglySorted_merge_sort.
  - by rewrite !merge_sort_Permutation.
Qed.

Lemma sort_elem (l : list A) x : x ∈ merge_sort R l ↔ x ∈ l.
Proof. by rewrite merge_sort_Permutation. Qed.
End Sorting.

Create HintDb rust.
Lemma omap_imap {A B B' C} (f : B → option C) (f' : B' → option C) (g : nat → A → B) (g' : nat → A → B') l :
  (∀ i x, f (g i x) = f' (g' i x)) → omap f (imap g l) = omap f' (imap g' l).
Proof.
  revert g g'. induction l as [|x l IH]; intros g g' H; [done|].
  rewrite !imap_cons. cbn [omap list_omap]. rewrite <- (H 0%nat x), (IH (g ∘ S) (g' ∘ S)); [done|].
  intros i y. apply H.
Qed.

(** * Finite maps *)

(** The values of a filtered map. *)
Lemma map_values_filter {K A} `{Countable K} (p : A → bool) (M : gmap K A) :
  (map_to_list (filter (λ kv, p kv.2 = true) M)).*2 ≡ₚ filter (λ x, p x = true) (map_to_list M).*2.
Proof.
  transitivity ((filter (λ kv : K * A, p kv.2 = true) (map_to_list M)).*2).
  - apply fmap_Permutation. rewrite map_filter_alt. apply map_to_list_to_map.
    pose proof (NoDup_fst_map_to_list M) as Hnd.
    induction (map_to_list M) as [|[k x] l IH]; [constructor|].
    apply NoDup_cons in Hnd as [Hnin Hnd]. rewrite filter_cons. case_decide; [|auto].
    simpl. constructor; [|auto]. intros (kv & Hk & [_ Hin]%list_elem_of_filter)%list_elem_of_fmap.
    apply Hnin. simpl. rewrite Hk. by apply list_elem_of_fmap_2.
  - induction (map_to_list M) as [|[k x] l IH]; [done|].
    rewrite fmap_cons, !filter_cons. simpl. case_decide; simpl; by rewrite IH.
Qed.

Lemma fmap_alter_same {A B} (f : A → B) (g : A → A) (i : nat) (l : list A) :
  (∀ x, f (g x) = f x) → f <$> alter g i l = f <$> l.
Proof.
  intros Hfg. revert i. induction l as [|x l IH]; intros [|i]; [done..| |].
  - cbn. by rewrite Hfg.
  - cbn. f_equal. apply IH.
Qed.

(** * Relations that terminate *)

Section Measure.
Context {A : Type} (R : A → A → Prop) (f : A → nat).

Lemma measure_sn : (∀ x y, R x y → (f y < f x)%nat) → ∀ x, sn R x.
Proof.
  intros Hdec x. remember (f x) as n eqn:En. revert x En. induction (lt_wf n) as [n _ IH].
  intros x ->. constructor. intros y Hxy. by apply (IH (f y)); [apply Hdec|].
Qed.

(** Where a step lowers the measure unless [Q] holds, a state with [Q] can be reached. *)
Lemma measure_reaches (I Q : A → Prop) :
  (∀ x, I x → (∃ y, R x y ∧ I y ∧ (f y < f x)%nat) ∨ Q x) →
  ∀ x, I x → ∃ y, rtc R x y ∧ I y ∧ Q y.
Proof.
  intros Hstep x. remember (f x) as n eqn:En. revert x En. induction (lt_wf n) as [n _ IH].
  intros x -> Hx. destruct (Hstep x Hx) as [(y & Hxy & Hy & Hlt)|HQ]; [|by exists x].
  destruct (IH (f y) Hlt y eq_refl Hy) as (z & Hz & ?). exists z. split; [by eapply rtc_l|done].
Qed.
End Measure.

#[export] Hint Resolve wrap64_range wrap32_range : rust.
#[export] Hint Rewrite @sum_size_app @dedup_elem : rust.
