(* ===== verification/RStr.v ===== *)
(** Rust strings.

    A [&str] is the sequence of its UTF-8 bytes, a [string] here; a byte slice
    is a [list ascii].  This file models the operations of the standard library
    the agents use on them: splitting, trimming, prefixes, UTF-8 validation and
    integer parsing. *)
From Stdlib Require Import Ascii.
From stdpp Require Import pretty.
From S2P Require Import Prelude.

Abbreviation bytes_of := String.list_ascii_of_string.
Abbreviation str_of := String.string_of_list_ascii.

Definition byte_val (c : ascii) : Z := Z.of_N (N_of_ascii c).

(** [str::len]: the number of bytes. *)
Definition str_len (s : string) : Z := Z.of_nat (String.length s).

Definition is_empty (s : string) : bool :=
  match s with EmptyString => true | _ => false end.

(** * Searching and splitting *)

(** [str::split_once(c)]: before and after the first [c]. *)
Fixpoint split_once (c : ascii) (s : string) : option (string * string) :=
  match s with
  | EmptyString => None
  | String a s' =>
      if decide (a = c) then Some (EmptyString, s')
      else match split_once c s' with
           | Some (h, t) => Some (String a h, t)
           | None => None
           end
  end.

(** First piece and remaining pieces of a split on the characters of [p]. *)
Fixpoint split_aux (p : ascii → bool) (s : string) : string * list string :=
  match s with
  | EmptyString => (EmptyString, [])
  | String a s' =>
      let ht := split_aux p s' in
      if p a then (EmptyString, ht.1 :: ht.2) else (String a ht.1, ht.2)
  end.

(** [str::split] with a predicate on (ASCII) characters, and with a character. *)
Definition split_by (p : ascii → bool) (s : string) : list string :=
  let ht := split_aux p s in ht.1 :: ht.2.
Definition split (c : ascii) (s : string) : list string :=
  split_by (λ a, bool_decide (a = c)) s.

#[global] Arguments split : simpl never.

(** [[_]::join]. *)
Fixpoint join (sep : string) (l : list string) : string :=
  match l with
  | [] => EmptyString
  | [s] => s
  | s :: l => s +:+ sep +:+ join sep l
  end.

(** [str::strip_prefix] and [str::starts_with]. *)
Fixpoint strip_prefix (p s : string) : option string :=
  match p, s with
  | EmptyString, _ => Some s
  | String a p', String b s' => if decide (a = b) then strip_prefix p' s' else None
  | String _ _, EmptyString => None
  end.
Definition starts_with (p s : string) : bool :=
  match strip_prefix p s with Some _ => true | None => false end.

(** [str::contains] with a string pattern. *)
Fixpoint contains (pat s : string) : bool :=
  starts_with pat s ||
  match s with EmptyString => false | String _ s' => contains pat s' end.

Fixpoint contains_char (c : ascii) (s : string) : bool :=
  match s with
  | EmptyString => false
  | String a s' => bool_decide (a = c) || contains_char c s'
  end.

(** [str::replace(c, "")]. *)
Fixpoint remove_char (c : ascii) (s : string) : string :=
  match s with
  | EmptyString => EmptyString
  | String a s' => if decide (a = c) then remove_char c s' else String a (remove_char c s')
  end.

(** [str::replace(c, d)] for single characters. *)
Fixpoint replace_char (c d : ascii) (s : string) : string :=
  match s with
  | EmptyString => EmptyString
  | String a s' => String (if decide (a = c) then d else a) (replace_char c d s')
  end.

(** * White space

    [str::trim] removes the characters with the Unicode property White_Space:
    U+0009-000D, U+0020, U+0085, U+00A0, U+1680, U+2000-200A, U+2028, U+2029,
    U+202F, U+205F and U+3000, here by their UTF-8 encodings. *)

Definition ws1 (a : Z) : bool := ((9 <=? a) && (a <=? 13)) || (a =? 32).
Definition ws2 (a b : Z) : bool := (a =? 194) && ((b =? 133) || (b =? 160)).
Definition ws3 (a b c : Z) : bool :=
  ((a =? 225) && (b =? 154) && (c =? 128)) ||
  ((a =? 226) && (b =? 128) &&
     (((128 <=? c) && (c <=? 138)) || (c =? 168) || (c =? 169) || (c =? 175))) ||
  ((a =? 226) && (b =? 129) && (c =? 159)) ||
  ((a =? 227) && (b =? 128) && (c =? 128)).

(** Drop the white space at the front of a byte sequence; [rev] tells that the
    bytes of a character come last byte first. *)
Fixpoint drop_ws (rev : bool) (l : list ascii) : list ascii :=
  match l with
  | [] => []
  | a :: l1 =>
      if ws1 (byte_val a) then drop_ws rev l1 else
      match l1 with
      | [] => l
      | b :: l2 =>
          if (if rev then ws2 (byte_val b) (byte_val a) else ws2 (byte_val a) (byte_val b))
          then drop_ws rev l2 else
          match l2 with
          | [] => l
          | c :: l3 =>
              if (if rev then ws3 (byte_val c) (byte_val b) (byte_val a)
                  else ws3 (byte_val a) (byte_val b) (byte_val c))
              then drop_ws rev l3 else l
          end
      end
  end.

Definition trim (s : string) : string :=
  str_of (rev (drop_ws true (rev (drop_ws false (bytes_of s))))).

(** [str::trim_end_matches(c)]. *)
Fixpoint drop_char (c : ascii) (l : list ascii) : list ascii :=
  match l with
  | [] => []
  | a :: l' => if decide (a = c) then drop_char c l' else l
  end.
Definition trim_end_char (c : ascii) (s : string) : string :=
  str_of (rev (drop_char c (rev (bytes_of s)))).

(** [str::split_whitespace]: the maximal runs of non white space. *)
Fixpoint split_ws_aux (fuel : nat) (cur : list ascii) (l : list ascii) : list string :=
  let push (rest : list string) := match cur with [] => rest | _ => str_of (rev cur) :: rest end in
  match fuel, l with
  | O, _ | _, [] => push []
  | S n, a :: l1 =>
      if decide (length (drop_ws false l) = length l) then split_ws_aux n (a :: cur) l1
      else push (split_ws_aux n [] (drop_ws false l))
  end.
Definition split_whitespace (s : string) : list string :=
  split_ws_aux (S (String.length s)) [] (bytes_of s).

(** * Case *)

Definition is_upper (a : Z) : bool := (65 <=? a) && (a <=? 90).
Definition is_lower (a : Z) : bool := (97 <=? a) && (a <=? 122).
Definition is_digit (a : Z) : bool := (48 <=? a) && (a <=? 57).
Definition is_ascii_alphabetic (c : ascii) : bool :=
  is_upper (byte_val c) || is_lower (byte_val c).
Definition is_ascii_alphanumeric (c : ascii) : bool :=
  is_ascii_alphabetic c || is_digit (byte_val c).

Definition lower_char (c : ascii) : ascii :=
  if is_upper (byte_val c) then ascii_of_N (N_of_ascii c + 32) else c.

(** ASCII lower case.  [str::to_lowercase] also maps other scripts, but no
    character outside ASCII has one of the letters compared against below as its
    lower case (only U+212A, whose lower case is [k], and U+0130 have an ASCII
    letter in theirs), so comparisons with the words the agents use agree. *)
Fixpoint to_lowercase (s : string) : string :=
  match s with
  | EmptyString => EmptyString
  | String a s' => String (lower_char a) (to_lowercase s')
  end.

(** * UTF-8 validation ([std::str::from_utf8]) *)

Definition in_range (lo hi : Z) (c : ascii) : bool := (lo <=? byte_val c) && (byte_val c <=? hi).
Definition cont_byte : ascii → bool := in_range 128 191.

Fixpoint utf8_valid (l : list ascii) : bool :=
  match l with
  | [] => true
  | a :: l1 =>
      if in_range 0 127 a then utf8_valid l1 else
      match l1 with
      | [] => false
      | b :: l2 =>
          if in_range 194 223 a then cont_byte b && utf8_valid l2 else
          match l2 with
          | [] => false
          | c :: l3 =>
              if in_range 224 224 a then in_range 160 191 b && cont_byte c && utf8_valid l3
              else if in_range 237 237 a then in_range 128 159 b && cont_byte c && utf8_valid l3
              else if in_range 225 239 a then cont_byte b && cont_byte c && utf8_valid l3 else
              match l3 with
              | [] => false
              | d :: l4 =>
                  if in_range 240 240 a then in_range 144 191 b && cont_byte c && cont_byte d && utf8_valid l4
                  else if in_range 244 244 a then in_range 128 143 b && cont_byte c && cont_byte d && utf8_valid l4
                  else if in_range 241 243 a then cont_byte b && cont_byte c && cont_byte d && utf8_valid l4
                  else false
              end
          end
      end
  end.

Definition from_utf8 (l : list ascii) : option string :=
  if utf8_valid l then Some (str_of l) else None.

(** * Integers *)

Definition digit_val (c : ascii) : option Z :=
  if is_digit (byte_val c) then Some (byte_val c - 48) else None.

(** Value of a non-empty run of decimal digits. *)
Fixpoint digits_val (acc : Z) (s : string) : option Z :=
  match s with
  | EmptyString => Some acc
  | String c s' =>
      match digit_val c with
      | Some d => digits_val (10 * acc + d) s'
      | None => None
      end
  end.

(** [str::parse] for an unsigned type with the given maximum: an optional [+],
    then digits; a value that does not fit is an error. *)
Definition parse_uint (max : Z) (s : string) : option Z :=
  let s := default s (strip_prefix "+" s) in
  if is_empty s then None else
  match digits_val 0 s with
  | Some v => if v <=? max then Some v else None
  | None => None
  end.

(** [str::parse] for a signed type with the given bounds. *)
Definition parse_int (min max : Z) (s : string) : option Z :=
  match strip_prefix "-" s with
  | Some s =>
      if is_empty s then None else
      match digits_val 0 s with
      | Some v => if min <=? - v then Some (- v) else None
      | None => None
      end
  | None => parse_uint max s
  end.

(** Decimal printing ([Display]) of integers. *)
Definition show_Z (z : Z) : string := pretty z.

(** * Facts *)

Lemma app_cons a (s t : string) : String a s +:+ t = String a (s +:+ t).
Proof. done. Qed.
Lemma app_nil_l (t : string) : EmptyString +:+ t = t.
Proof. done. Qed.
#[export] Hint Rewrite app_cons app_nil_l : rust.

Lemma strip_prefix_spec p s t : strip_prefix p s = Some t ↔ s = p +:+ t.
Proof.
  revert s. induction p as [|a p IH]; intros s; simpl.
  - rewrite app_nil_l. naive_solver.
  - destruct s as [|b s]; rewrite app_cons; [naive_solver|].
    case_decide; subst.
    + rewrite IH. naive_solver.
    + naive_solver.
Qed.

Lemma starts_with_spec p s : starts_with p s = true ↔ ∃ t, s = p +:+ t.
Proof.
  unfold starts_with. destruct (strip_prefix p s) eqn:E.
  - apply strip_prefix_spec in E. naive_solver.
  - split; [done|]. intros [t Ht]. apply strip_prefix_spec in Ht. congruence.
Qed.

Lemma split_once_some c s h t :
  split_once c s = Some (h, t) ↔ s = h +:+ String c t ∧ contains_char c h = false.
Proof.
  revert h. induction s as [|a s IH]; intros h; simpl.
  - split; [done|]. intros [Hs _]. by destruct h.
  - case_decide as Ha.
    + subst. split.
      * intros [= <- <-]. done.
      * intros [Hs Hc]. destruct h as [|b h]; rewrite ?app_cons, ?app_nil_l in Hs; [naive_solver|].
        simplify_eq/=. by rewrite bool_decide_true in Hc.
    + destruct h as [|b h]; rewrite ?app_cons, ?app_nil_l.
      * destruct (split_once c s) as [[??]|]; naive_solver.
      * specialize (IH h). simpl.
        destruct (split_once c s) as [[h' t']|]; split.
        -- intros [= -> -> ->]. destruct IH as [[-> ->] _]; [done|].
           by rewrite bool_decide_false.
        -- intros [[= -> ->] [_ Hc]%orb_false_elim].
           destruct IH as [_ IH]. by specialize (IH (conj eq_refl Hc)) as [= -> ->].
        -- done.
        -- intros [[= -> ->] [_ Hc]%orb_false_elim].
           destruct IH as [_ IH]. by specialize (IH (conj eq_refl Hc)).
Qed.

Lemma split_once_none c s : split_once c s = None ↔ contains_char c s = false.
Proof.
  induction s as [|a s IH]; simpl; [done|].
  case_decide; [by rewrite bool_decide_true|].
  rewrite bool_decide_false by done. simpl. rewrite <- IH.
  destruct (split_once c s) as [[??]|]; naive_solver.
Qed.

Lemma contains_char_app c s t :
  contains_char c (s +:+ t) = contains_char c s || contains_char c t.
Proof.
  induction s as [|a s IH]; [done|]. rewrite app_cons. simpl. rewrite IH.
  by rewrite orb_assoc.
Qed.

Lemma join_cons sep s l : l ≠ [] → join sep (s :: l) = s +:+ sep +:+ join sep l.
Proof. by destruct l. Qed.

Lemma split_nonempty c s : split c s ≠ [].
Proof. done. Qed.

Lemma split_aux_cons c a s :
  split c (String a s) =
    if decide (a = c) then EmptyString :: split c s
    else String a (split_aux (λ b, bool_decide (b = c)) s).1
           :: (split_aux (λ b, bool_decide (b = c)) s).2.
Proof.
  unfold split, split_by. simpl. case_decide.
  - by rewrite bool_decide_true.
  - by rewrite bool_decide_false.
Qed.

(** Splitting on a character loses nothing. *)
Lemma join_split c s : join (String c EmptyString) (split c s) = s.
Proof.
  induction s as [|a s IH]; [done|].
  rewrite split_aux_cons. case_decide; subst.
  - rewrite join_cons by done. rewrite IH. done.
  - unfold split, split_by in IH.
    destruct (split_aux _ s) as [h [|x t]]; simpl in *.
    + congruence.
    + rewrite app_cons. by rewrite IH.
Qed.

Lemma split_no_sep c s x : x ∈ split c s → contains_char c x = false.
Proof.
  revert x. induction s as [|a s IH]; intros x.
  - intros [->|?%elem_of_nil]%elem_of_cons; done.
  - rewrite split_aux_cons. case_decide; subst.
    + intros [->|?]%elem_of_cons; [done|]. auto.
    + unfold split, split_by in IH. destruct (split_aux _ s) as [h t]; simpl in *.
      intros [->|?]%elem_of_cons; [|apply IH; by right].
      simpl. rewrite bool_decide_false by done. apply IH. by left.
Qed.

Lemma split_app_sep c h s :
  contains_char c h = false → split c (h +:+ String c s) = h :: split c s.
Proof.
  induction h as [|a h IH]; intros Hc.
  - rewrite app_nil_l, split_aux_cons. by rewrite decide_True.
  - simpl in Hc. apply orb_false_elim in Hc as [Ha Hc]. apply bool_decide_eq_false in Ha.
    rewrite app_cons, split_aux_cons, decide_False by done.
    specialize (IH Hc). unfold split, split_by in IH.
    destruct (split_aux _ (h +:+ String c s)) as [h' t']; cbn in *. unfold split, split_by. cbn. congruence.
Qed.

Lemma split_single c h : contains_char c h = false → split c h = [h].
Proof.
  induction h as [|a h IH]; intros Hc; [done|].
  simpl in Hc. apply orb_false_elim in Hc as [Ha Hc]. apply bool_decide_eq_false in Ha.
  rewrite split_aux_cons, decide_False by done.
  specialize (IH Hc). unfold split, split_by in IH.
  destruct (split_aux _ h) as [h' t']; cbn in *. congruence.
Qed.

(** First piece of a split ([split(c).next()]). *)
Lemma split_head c h :
  contains_char c h = false → (split_aux (λ a, bool_decide (a = c)) h).1 = h.
Proof.
  intros Hs%split_single. exact (f_equal (λ l, default EmptyString (head l)) Hs).
Qed.

(** And joining pieces free of the separator is inverted by [split]. *)
Lemma split_join c l :
  l ≠ [] → (∀ x, x ∈ l → contains_char c x = false) →
  split c (join (String c EmptyString) l) = l.
Proof.
  induction l as [|x l IH]; intros Hne Hl; [done|].
  destruct l as [|y l].
  - apply split_single. apply Hl. by left.
  - rewrite join_cons by done. rewrite app_cons, app_nil_l.
    rewrite split_app_sep by (apply Hl; by left).
    f_equal. apply IH; [done|]. intros z ?. apply Hl. by right.
Qed.

Lemma remove_char_id c s : contains_char c s = false → remove_char c s = s.
Proof.
  induction s as [|a s IH]; [done|]; simpl.
  intros [Ha Hs]%orb_false_elim. apply bool_decide_eq_false in Ha.
  rewrite decide_False by done. by rewrite IH.
Qed.

Local Ltac utf8_step IH :=
  repeat match goal with H : _ && _ = true |- _ => apply andb_prop in H as [? ?] end;
  repeat match goal with H : ?x = true |- context [?x && _] => rewrite H; clear H; simpl end;
  eapply IH; [|done|done]; simpl; lia.

(** Validity of a concatenation after a valid sequence. *)
Lemma utf8_valid_app l1 l2 : utf8_valid l1 = true → utf8_valid (l1 ++ l2) = utf8_valid l2.
Proof.
  remember (length l1) as n eqn:En. revert l1 En.
  induction (lt_wf n) as [n _ IH]; intros l1 -> Hv.
  destruct l1 as [|a l1]; [done|]. simpl in *.
  destruct (in_range 0 127 a); [utf8_step IH|].
  destruct l1 as [|b l1]; [done|]. simpl in *.
  destruct (in_range 194 223 a); [utf8_step IH|].
  destruct l1 as [|c l1]; [done|]. simpl in *.
  destruct (in_range 224 224 a); [utf8_step IH|].
  destruct (in_range 237 237 a); [utf8_step IH|].
  destruct (in_range 225 239 a); [utf8_step IH|].
  destruct l1 as [|d l1]; [done|]. simpl in *.
  destruct (in_range 240 240 a); [utf8_step IH|].
  destruct (in_range 244 244 a); [utf8_step IH|].
  destruct (in_range 241 243 a); [utf8_step IH|done].
Qed.

Lemma split_app c s t : split c (s +:+ String c t) = split c s ++ split c t.
Proof.
  induction s as [|a s IH].
  - rewrite app_nil_l, split_aux_cons. by rewrite decide_True.
  - rewrite app_cons, !split_aux_cons. case_decide; [by rewrite IH|].
    unfold split, split_by in IH.
    destruct (split_aux _ (s +:+ String c t)) as [h1 t1], (split_aux _ s) as [h2 t2]; cbn in *.
    by injection IH as -> ->.
Qed.

Lemma str_of_app l1 l2 : str_of (l1 ++ l2) = str_of l1 +:+ str_of l2.
Proof. induction l1 as [|a l1 IH]; [done|]. simpl. by rewrite IH. Qed.

Lemma parse_uint_range max s n : parse_uint max s = Some n → 0 ≤ n ≤ max.
Proof.
  assert (∀ s acc v, 0 ≤ acc → digits_val acc s = Some v → 0 ≤ v) as Hd.
  { intros s'. induction s' as [|c s' IH]; intros acc v Ha; simpl; [congruence|].
    unfold digit_val. destruct (is_digit (byte_val c)) eqn:E; [|done]. apply IH.
    unfold is_digit in E. zify_bool. lia. }
  unfold parse_uint. case_match; [done|]. destruct (digits_val 0 _) as [v|] eqn:E; [|done].
  destruct (Z.leb_spec v max); [|done]. intros [= <-]. apply Hd in E; lia.
Qed.

(** ** White space *)

(** Whether a byte sequence starts with a white space character. *)
Definition head_ws (l : list ascii) : bool :=
  match l with
  | [] => false
  | a :: l1 =>
      ws1 (byte_val a) ||
      match l1 with
      | [] => false
      | b :: l2 =>
          ws2 (byte_val a) (byte_val b) ||
          match l2 with
          | [] => false
          | c :: _ => ws3 (byte_val a) (byte_val b) (byte_val c)
          end
      end
  end.

Lemma drop_ws_le rev l : (length (drop_ws rev l) ≤ length l)%nat.
Proof.
  remember (length l) as n eqn:En. revert l En.
  induction (lt_wf n) as [n _ IH]; intros l ->. destruct l as [|a l1]; [done|]. cbn [drop_ws].
  destruct (ws1 _); [pose proof (IH (length l1) ltac:(simpl; lia) l1 eq_refl); simpl; lia|].
  destruct l1 as [|b l2]; [done|].
  destruct (if rev then _ else _); [pose proof (IH (length l2) ltac:(simpl; lia) l2 eq_refl); simpl; lia|].
  destruct l2 as [|c l3]; [done|].
  destruct (if rev then _ else _); [pose proof (IH (length l3) ltac:(simpl; lia) l3 eq_refl); simpl; lia|done].
Qed.

Lemma drop_ws_head l :
  (head_ws l = false → drop_ws false l = l) ∧
  (head_ws l = true → (length (drop_ws false l) < length l)%nat).
Proof.
  destruct l as [|a [|b [|c l]]]; cbn [head_ws drop_ws]; [done|..].
  - destruct (ws1 _); simpl; split; done || lia.
  - destruct (ws1 _); simpl; [split; [done|intros _; pose proof (drop_ws_le false [b]); simpl in *; lia]|].
    destruct (ws2 _ _); simpl; split; done || lia.
  - destruct (ws1 _); simpl; [split; [done|intros _; pose proof (drop_ws_le false (b :: c :: l)); simpl in *; lia]|].
    destruct (ws2 _ _); simpl; [split; [done|intros _; pose proof (drop_ws_le false (c :: l)); simpl in *; lia]|].
    destruct (ws3 _ _ _); simpl; split; try done. intros _. pose proof (drop_ws_le false l). lia.
Qed.

Lemma head_ws_app l r : head_ws l = true → head_ws (l ++ r) = true.
Proof.
  destruct l as [|a [|b [|c l]]]; simpl; [done|..]; destruct (ws1 _); simpl; try done.
  destruct (ws2 _ _); simpl; done.
Qed.

(** A byte of ASCII does not complete the encoding of a white space character. *)
Lemma head_ws_ascii l x r :
  byte_val x < 128 → l ≠ [] → head_ws l = false → head_ws (l ++ x :: r) = false.
Proof.
  intros Hx.
  assert (∀ a, ws2 a (byte_val x) = false) as H2 by (intros a; unfold ws2; lia).
  assert (∀ a b, ws3 a b (byte_val x) = false) as H3 by (intros a b; unfold ws3; lia).
  assert (∀ a c, ws3 a (byte_val x) c = false) as H4 by (intros a c; unfold ws3; lia).
  destruct l as [|a [|b [|c l]]]; simpl; [done|..]; intros _; destruct (ws1 _); try done; simpl.
  - rewrite H2. destruct r; [done|]. by rewrite H4.
  - destruct (ws2 _ _); [done|]. simpl. by rewrite H3.
Qed.
Lemma head_ws_space l r : l ≠ [] → head_ws l = false → head_ws (l ++ " "%char :: r) = false.
Proof. by apply head_ws_ascii. Qed.

(** No white space starts in [p], when [p] is followed by [r]. *)
Fixpoint ws_free (p r : list ascii) : Prop :=
  match p with
  | [] => True
  | a :: p' => head_ws (p ++ r) = false ∧ ws_free p' r
  end.

Lemma ws_free_alone p r : ws_free p r → ws_free p [].
Proof.
  induction p as [|a p IH]; [done|]. intros [Ha Hp]. split; [|by apply IH]. rewrite app_nil_r.
  destruct (head_ws (a :: p)) eqn:E; [|done]. by rewrite (head_ws_app _ r) in Ha.
Qed.
Lemma ws_free_space p r : ws_free p [] → ws_free p (" "%char :: r).
Proof.
  induction p as [|a p IH]; [done|]. intros [Ha Hp]. rewrite app_nil_r in Ha.
  split; [by apply head_ws_space|by apply IH].
Qed.
Lemma ws_free_snoc p a r : ws_free p (a :: r) → head_ws (a :: r) = false → ws_free (p ++ [a]) r.
Proof.
  induction p as [|b p IH]; [done|]. intros [Hb Hp] Ha. split; [|by apply IH].
  change ((b :: (p ++ [a])) ++ r) with (b :: ((p ++ [a]) ++ r)). by rewrite <- app_assoc.
Qed.

(** A piece of [split_whitespace]. *)
Definition word (t : string) : Prop := t ≠ EmptyString ∧ ws_free (bytes_of t) [].

Lemma split_ws_aux_words fuel cur l :
  ws_free (rev cur) l → Forall word (split_ws_aux fuel cur l).
Proof.
  assert (∀ cur l rest, ws_free (rev cur) l → Forall word rest →
    Forall word (match cur with [] => rest | _ => str_of (rev cur) :: rest end)) as Hpush.
  { intros c l' rest Hc Hr. destruct c as [|a c]; [done|]. constructor; [|done]. split.
    - simpl. by destruct (rev c).
    - rewrite String.list_ascii_of_string_of_list_ascii. by eapply ws_free_alone. }
  revert cur l. induction fuel as [|n IH]; intros cur l Hc; cbn [split_ws_aux]; [by eapply Hpush|].
  destruct l as [|a l]; [by eapply Hpush|]. destruct (drop_ws_head (a :: l)) as [H1 H2].
  case_decide as Hd.
  - apply IH. simpl. apply ws_free_snoc; [done|]. destruct (head_ws (a :: l)); [|done].
    specialize (H2 eq_refl). lia.
  - eapply Hpush; [done|]. by apply IH.
Qed.
Lemma split_whitespace_words s : Forall word (split_whitespace s).
Proof. by apply split_ws_aux_words. Qed.

Lemma drop_ws_forall (P : ascii → Prop) rev l : Forall P l → Forall P (drop_ws rev l).
Proof.
  remember (length l) as n eqn:En. revert l En.
  induction (lt_wf n) as [n _ IH]; intros l -> Hl. destruct l as [|a l1]; [done|]. cbn [drop_ws].
  inversion Hl as [|? ? _ Hl1]; subst.
  destruct (ws1 _); [by apply (IH (length l1)); [simpl; lia|..]|]. destruct l1 as [|b l2]; [done|].
  inversion Hl1 as [|? ? _ Hl2]; subst.
  destruct (if rev then _ else _); [by apply (IH (length l2)); [simpl; lia|..]|].
  destruct l2 as [|c l3]; [done|]. inversion Hl2 as [|? ? _ Hl3]; subst.
  destruct (if rev then _ else _); [by apply (IH (length l3)); [simpl; lia|..]|done].
Qed.

(** The pieces only have bytes of the string. *)
Lemma split_ws_aux_forall (P : ascii → Prop) fuel cur l :
  Forall P cur → Forall P l → Forall (λ t, Forall P (bytes_of t)) (split_ws_aux fuel cur l).
Proof.
  assert (∀ cur rest, Forall P cur → Forall (λ t, Forall P (bytes_of t)) rest →
    Forall (λ t, Forall P (bytes_of t)) (match cur with [] => rest | _ => str_of (rev cur) :: rest end)) as Hpush.
  { intros c rest Hc Hr. destruct c as [|a c]; [done|]. constructor; [|done].
    rewrite String.list_ascii_of_string_of_list_ascii. by apply Forall_rev. }
  revert cur l. induction fuel as [|n IH]; intros cur l Hc Hl; cbn [split_ws_aux]; [by apply Hpush|].
  destruct l as [|a l]; [by apply Hpush|]. case_decide.
  - inversion Hl; subst. apply IH; [by constructor|done].
  - apply Hpush; [done|]. apply IH; [constructor|by apply drop_ws_forall].
Qed.

(** Reading one word. *)
Lemma split_ws_word n cur t l :
  ws_free t l → split_ws_aux (length t + n) cur (t ++ l) = split_ws_aux n (rev t ++ cur) l.
Proof.
  revert cur. induction t as [|a t IH]; intros cur Hw; [done|]. destruct Hw as [Ha Hw].
  cbn [length Nat.add split_ws_aux app]. apply drop_ws_head in Ha. cbn [app] in Ha. rewrite Ha.
  rewrite decide_True by done. rewrite IH by done. simpl. by rewrite <- app_assoc.
Qed.

Lemma bytes_of_app s t : bytes_of (s +:+ t) = bytes_of s ++ bytes_of t.
Proof. induction s as [|a s IH]; [done|]. rewrite app_cons. simpl. by rewrite IH. Qed.
Lemma length_bytes_of s : length (bytes_of s) = String.length s.
Proof. induction s as [|a s IH]; [done|]. simpl. by rewrite IH. Qed.

Lemma word_bytes t : word t → ∃ a r, rev (bytes_of t) = a :: r.
Proof.
  intros [Hne _]. destruct (rev (bytes_of t)) as [|a r] eqn:E; [|eauto].
  apply (f_equal (@length _)) in E. rewrite length_rev in E. by destruct t.
Qed.

(** Words separated by spaces are the pieces. *)
Lemma split_ws_join n ts :
  Forall word ts → (String.length (join " " ts) < n)%nat →
  split_ws_aux n [] (bytes_of (join " " ts)) = ts.
Proof.
  revert n. induction ts as [|t ts IH]; intros n Hw Hn; [by destruct n|].
  apply Forall_cons in Hw as [Ht Hw]. destruct (word_bytes t Ht) as (a & r & Er).
  assert (str_of (rev (a :: r)) = t) as Et
    by (rewrite <- Er, rev_involutive; apply String.string_of_list_ascii_of_string).
  destruct ts as [|t2 ts].
  - cbn [join] in *. replace n with (length (bytes_of t) + S (n - S (length (bytes_of t))))%nat
      by (rewrite length_bytes_of in *; lia).
    pose proof (split_ws_word (S (n - S (length (bytes_of t)))) [] (bytes_of t) [] (proj2 Ht)) as Hs.
    rewrite !app_nil_r in Hs. rewrite Hs, Er. cbn [split_ws_aux]. by rewrite Et.
  - rewrite join_cons in Hn |- * by done. rewrite <- !length_bytes_of, !bytes_of_app, !length_app in Hn.
    rewrite !bytes_of_app. change (bytes_of " ") with [" "%char] in *. cbn [length app] in *.
    rewrite length_bytes_of in Hn.
    replace n with (length (bytes_of t) + S (n - S (length (bytes_of t))))%nat
      by (rewrite length_bytes_of in *; lia).
    rewrite split_ws_word by (apply ws_free_space, Ht). rewrite app_nil_r, Er. cbn [split_ws_aux].
    set (rest := bytes_of (join " " (t2 :: ts))) in *.
    assert (drop_ws false (" "%char :: rest) = rest) as Hd.
    { change (drop_ws false rest = rest). apply drop_ws_head.
      apply Forall_cons in Hw as [[Hne Hf] _]. unfold rest. destruct t2 as [|b t2]; [done|].
      destruct Hf as [Hf _]. rewrite app_nil_r in Hf. destruct ts as [|t3 ts]; [exact Hf|].
      rewrite join_cons by done. rewrite !bytes_of_app. by apply head_ws_space. }
    rewrite Hd, decide_False by (simpl; lia). rewrite Et. f_equal. apply IH; [done|].
    unfold rest in Hn. rewrite length_bytes_of in Hn. rewrite length_bytes_of. lia.
Qed.

Lemma split_whitespace_join ts : Forall word ts → split_whitespace (join " " ts) = ts.
Proof. intros Hw. apply split_ws_join; [done|lia]. Qed.

Lemma replace_char_app c d s t : replace_char c d (s +:+ t) = replace_char c d s +:+ replace_char c d t.
Proof. induction s as [|a s IH]; [done|]. rewrite app_cons. cbn [replace_char]. by rewrite IH. Qed.

Lemma replace_char_id c d s : Forall (λ a, a ≠ c) (bytes_of s) → replace_char c d s = s.
Proof.
  induction s as [|a s IH]; [done|]. cbn [String.list_ascii_of_string replace_char].
  intros [Ha Hs]%Forall_cons. rewrite decide_False by done. by rewrite IH.
Qed.

Lemma replace_char_none c d s : c ≠ d → Forall (λ a, a ≠ c) (bytes_of (replace_char c d s)).
Proof.
  intros Hcd. induction s as [|a s IH]; [constructor|]. cbn [replace_char String.list_ascii_of_string].
  constructor; [|done]. by case_decide; subst.
Qed.

Lemma replace_join c d l :
  Forall (λ s, Forall (λ a, a ≠ c) (bytes_of s)) l →
  replace_char c d (join (String c EmptyString) l) = join (String d EmptyString) l.
Proof.
  induction l as [|s l IH]; [done|]. intros [Hs Hl]%Forall_cons. destruct l as [|s2 l].
  - by apply replace_char_id.
  - rewrite !join_cons, !replace_char_app, (replace_char_id c d s), (IH Hl) by done.
    cbn [replace_char]. by rewrite decide_True.
Qed.

Lemma digit_val_pretty d : (d < 10)%N → digit_val (pretty_N_char d) = Some (Z.of_N d).
Proof.
  intros Hd. assert (d ∈ [0;1;2;3;4;5;6;7;8;9]%N) as Hin.
  { destruct d as [|p]; [set_solver|]. do 4 (destruct p as [p|p|]; try lia; try set_solver). }
  repeat (apply elem_of_cons in Hin as [->|Hin]; [reflexivity|]). by apply elem_of_nil in Hin.
Qed.
(** Printing then parsing. *)
Lemma digits_val_pretty x s : (0 < x)%N → digits_val 0 (pretty_N_go x s) = digits_val (Z.of_N x) s.
Proof.
  revert s. induction (N.lt_wf_0 x) as [x _ IH]; intros s Hx.
  rewrite pretty_N_go_step by done.
  assert (∀ acc, digits_val acc (String (pretty_N_char (x `mod` 10)) s) =
     digits_val (10 * acc + Z.of_N (x `mod` 10)) s) as Hstep.
  { intros acc. cbn [digits_val]. by rewrite digit_val_pretty by (apply N.mod_lt; lia). }
  pose proof (N.div_mod x 10 ltac:(done)) as Hdm.
  destruct (decide (x < 10)%N) as [Hs|Hs].
  - rewrite N.div_small, pretty_N_go_0, Hstep, N.mod_small by done. f_equal.
  - assert (0 < x `div` 10)%N by (apply N.div_str_pos; lia).
    rewrite IH by (try apply N.div_lt; lia). rewrite Hstep. f_equal. lia.
Qed.

Lemma digits_val_show n : 0 ≤ n → digits_val 0 (show_Z n) = Some n.
Proof.
  intros Hn. destruct n as [|p|p]; [done| |lia]. unfold show_Z, pretty, pretty_Z, pretty, pretty_positive, pretty, pretty_N.
  rewrite decide_False by done. by rewrite digits_val_pretty by lia.
Qed.

(** A string of digits has no other character. *)
Lemma digits_val_no_char acc s n c : digits_val acc s = Some n → digit_val c = None → contains_char c s = false.
Proof.
  intros Hs Hc. revert acc Hs. induction s as [|a s IH]; intros acc Hs; [done|]. cbn in *.
  destruct (digit_val a) as [d|] eqn:Ea; [|done].
  rewrite bool_decide_false by congruence. by apply (IH (10 * acc + d)).
Qed.

Lemma parse_uint_show max n : 0 ≤ n ≤ max → parse_uint max (show_Z n) = Some n.
Proof.
  intros Hn. pose proof (digits_val_show n ltac:(lia)) as Hd. unfold parse_uint.
  destruct (strip_prefix "+" (show_Z n)) as [t|] eqn:E.
  { apply strip_prefix_spec in E. rewrite E in Hd. done. }
  cbn [default from_option id]. destruct (is_empty (show_Z n)) eqn:Ee.
  { destruct n as [|p|p]; [done| |lia]. destruct (show_Z (Z.pos p)); done. }
  rewrite Hd. by destruct (Z.leb_spec n max); [|lia].
Qed.

(** Splitting on a set of characters inverts joining with one of them. *)
Definition free_of (p : ascii → bool) (s : string) : Prop := Forall (λ a, p a = false) (bytes_of s).

Lemma split_by_cons p a s :
  split_by p (String a s) =
    if p a then EmptyString :: split_by p s
    else match split_by p s with h :: t => String a h :: t | [] => [] end.
Proof. unfold split_by. simpl. by destruct (p a). Qed.

Lemma split_by_app_sep p c h s :
  p c = true → free_of p h → split_by p (h +:+ String c s) = h :: split_by p s.
Proof.
  intros Hc. induction h as [|a h IH]; intros Hh.
  - rewrite app_nil_l, split_by_cons. by rewrite Hc.
  - apply Forall_cons in Hh as [Ha Hh]. rewrite app_cons, split_by_cons, Ha. by rewrite IH.
Qed.

Lemma split_by_single p h : free_of p h → split_by p h = [h].
Proof.
  induction h as [|a h IH]; intros Hh; [done|].
  apply Forall_cons in Hh as [Ha Hh]. rewrite split_by_cons, Ha. by rewrite IH.
Qed.

Lemma split_by_join p c l :
  p c = true → l ≠ [] → Forall (free_of p) l → split_by p (join (String c EmptyString) l) = l.
Proof.
  intros Hc. induction l as [|x l IH]; intros Hne Hl; [done|].
  apply Forall_cons in Hl as [Hx Hl]. destruct l as [|y l]; [by apply split_by_single|].
  rewrite join_cons by done. rewrite app_cons, app_nil_l, split_by_app_sep by done. by rewrite IH.
Qed.

Lemma trim_spaces_example : trim "  my app	 " = "my app".
Proof. reflexivity. Qed.

Lemma contains_char_bytes c s : contains_char c s = false ↔ Forall (λ a, a ≠ c) (bytes_of s).
Proof.
  induction s as [|a s IH]; [done|]. cbn [contains_char]. cbn. rewrite Forall_cons.
  rewrite <- IH. case_decide; naive_solver.
Qed.

(** ** Trimming *)

(** Whether a white space character occurs ([str::contains(char::is_whitespace)]). *)
Fixpoint has_ws (l : list ascii) : bool :=
  match l with [] => false | _ :: l' => head_ws l || has_ws l' end.

Lemma has_ws_free l : has_ws l = false ↔ ws_free l [].
Proof.
  induction l as [|a l IH]; [done|]. cbn [has_ws ws_free]. rewrite app_nil_r.
  by rewrite orb_false_iff, IH.
Qed.

(** Text without white space at its ends. *)
Definition tight (s : string) : Prop :=
  s ≠ EmptyString ∧ head_ws (bytes_of s) = false ∧
  drop_ws true (rev (bytes_of s)) = rev (bytes_of s).

Lemma ws_free_app p q r : ws_free (p ++ q) r → ws_free q r.
Proof. induction p as [|a p IH]; [done|]. intros [_ Hp]. by apply IH. Qed.

Lemma drop_ws_rev_free l : ws_free l [] → drop_ws true (rev l) = rev l.
Proof.
  intros Hl. rewrite <- (rev_involutive l) in Hl. destruct (rev l) as [|a l1]; [done|]. cbn [rev] in Hl.
  assert (ws1 (byte_val a) = false) as Ha.
  { apply ws_free_app in Hl as [Hl _]. cbn in Hl. by rewrite orb_false_r in Hl. }
  cbn [drop_ws]. rewrite Ha. destruct l1 as [|b l2]; [done|]. cbn [rev] in Hl. rewrite <- !app_assoc in Hl.
  assert (ws2 (byte_val b) (byte_val a) = false) as Hb.
  { apply ws_free_app in Hl as [Hl _]. cbn in Hl. by apply orb_false_iff in Hl as [_ [? _]%orb_false_iff]. }
  rewrite Hb. destruct l2 as [|c l3]; [done|]. cbn [rev] in Hl. rewrite <- !app_assoc in Hl.
  apply ws_free_app in Hl as [Hl _]. cbn in Hl. apply orb_false_iff in Hl as [_ Hl].
  apply orb_false_iff in Hl as [_ Hl]. by rewrite Hl.
Qed.

Lemma word_tight s : word s → tight s.
Proof.
  intros [Hne Hf]. split_and!; [done| |by apply drop_ws_rev_free].
  destruct s as [|a s]; [done|]. destruct Hf as [Hf _]. by rewrite app_nil_r in Hf.
Qed.

(** [n] spaces. *)
Definition spaces (n : nat) : string := str_of (replicate n " "%char).

Lemma drop_ws_spaces rev n l : drop_ws rev (replicate n " "%char ++ l) = drop_ws rev l.
Proof. induction n as [|n IH]; [done|exact IH]. Qed.

Lemma head_ws_spaces n l : l ≠ [] → head_ws l = false → head_ws (l ++ replicate n " "%char) = false.
Proof. destruct n as [|n]; intros Hne Hl; [by rewrite app_nil_r|by apply head_ws_space]. Qed.

Lemma bytes_of_spaces n : bytes_of (spaces n) = replicate n " "%char.
Proof. apply String.list_ascii_of_string_of_list_ascii. Qed.

Lemma rev_spaces n : rev (replicate n " "%char) = replicate n " "%char.
Proof.
  induction n as [|n IH]; [done|]. cbn [replicate rev]. rewrite IH.
  by rewrite <- (replicate_cons_app n).
Qed.

Lemma trim_tight n m s : tight s → trim (spaces n +:+ s +:+ spaces m) = s.
Proof.
  intros (Hne & Hh & Ht). unfold trim. rewrite !bytes_of_app, !bytes_of_spaces, drop_ws_spaces.
  rewrite (proj1 (drop_ws_head _)) by (apply head_ws_spaces; [by destruct s|done]).
  rewrite rev_app_distr, rev_spaces, drop_ws_spaces, Ht, rev_involutive.
  apply String.string_of_list_ascii_of_string.
Qed.

(** Letters. *)
Lemma alphabetic_range a : is_ascii_alphabetic a = true → 65 ≤ byte_val a ≤ 122.
Proof. unfold is_ascii_alphabetic, is_upper, is_lower. lia. Qed.

Lemma lower_alphabetic a : is_ascii_alphabetic (lower_char a) = is_ascii_alphabetic a.
Proof. by destruct a as [[] [] [] [] [] [] [] []]. Qed.

Lemma bytes_of_lower s : bytes_of (to_lowercase s) = lower_char <$> bytes_of s.
Proof. induction s as [|a s IH]; [done|]. cbn. by rewrite IH. Qed.

Lemma alphabetic_word s :
  s ≠ EmptyString → Forall (λ a, is_ascii_alphabetic a = true) (bytes_of s) → word s.
Proof.
  intros Hne Hs. split; [done|]. clear Hne. induction Hs as [|a l Ha Hs IH]; [done|]. split; [|exact IH].
  apply alphabetic_range in Ha. rewrite app_nil_r. cbn [head_ws].
  assert (ws1 (byte_val a) = false) as -> by (unfold ws1; lia).
  destruct l as [|b [|c l]]; [done|..]; cbn [orb]; unfold ws2, ws3; lia.
Qed.

Lemma alphabetic_tail a l : is_ascii_alphabetic a = true → drop_ws true (a :: l) = a :: l.
Proof.
  intros Ha%alphabetic_range. cbn [drop_ws].
  assert (ws1 (byte_val a) = false) as -> by (unfold ws1; lia). destruct l as [|b l]; [done|].
  assert (ws2 (byte_val b) (byte_val a) = false) as -> by (unfold ws2; lia). destruct l as [|c l]; [done|].
  by assert (ws3 (byte_val c) (byte_val b) (byte_val a) = false) as -> by (unfold ws3; lia).
Qed.

Lemma app_assoc_str (s t u : string) : (s +:+ t) +:+ u = s +:+ (t +:+ u).
Proof. induction s as [|a s IH]; [done|]. by rewrite !app_cons, IH. Qed.

Lemma app_nil_str (s : string) : s +:+ EmptyString = s.
Proof. induction s as [|a s IH]; [done|]. by rewrite app_cons, IH. Qed.

Lemma trim_word s : word s → trim s = s.
Proof.
  intros Hs. pose proof (trim_tight 0 0 s (word_tight s Hs)) as H. cbn in H.
  by rewrite app_nil_str in H.
Qed.

#[export] Hint Resolve split_nonempty split_no_sep : rust.
#[export] Hint Rewrite join_split contains_char_app : rust.
