(* ===== verification/Float.v ===== *)
(** IEEE-754 floating point numbers, as Rust's [f64] and [f32].

    The values and the arithmetic are the Standard Library's [SpecFloat]:
    binary64 is precision 53 and exponent bound 1024, binary32 precision 24 and
    bound 128, every operation rounding to nearest, ties to even.  On top of it
    this file models the conversions between floats and integers ([as] casts
    truncate and saturate), [f64::round] and [f64::from_str]. *)
From Stdlib Require Import Ascii SpecFloat.
From S2P Require Import Prelude RStr.

Abbreviation f64 := spec_float.
Abbreviation f32 := spec_float.

#[global] Instance spec_float_eq_dec : EqDecision spec_float.
Proof. solve_decision. Defined.

Module F64.
Definition add : f64 → f64 → f64 := SFadd 53 1024.
Definition sub : f64 → f64 → f64 := SFsub 53 1024.
Definition mul : f64 → f64 → f64 := SFmul 53 1024.
Definition div : f64 → f64 → f64 := SFdiv 53 1024.
Definition zero : f64 := S754_zero false.
(** [i as f64] for an integer [i]. *)
Definition of_Z (z : Z) : f64 := binary_normalize 53 1024 z 0 false.
Definition one : f64 := S754_finite false 4503599627370496 (-52).
End F64.

Module F32.
Definition add : f32 → f32 → f32 := SFadd 24 128.
Definition zero : f32 := S754_zero false.
(** [x as f32] for an [f64]. *)
Definition of_f64 (x : f64) : f32 :=
  match x with
  | S754_finite s m e => binary_round 24 128 s m e
  | _ => x
  end.
End F32.

(** [f64::from(x)] for an [f32]. *)
Definition f64_of_f32 (x : f32) : f64 :=
  match x with
  | S754_finite s m e => binary_round 53 1024 s m e
  | _ => x
  end.

(** The comparisons [<], [<=] and [==]; all are false on a NaN. *)
Definition flt (x y : spec_float) : bool := SFltb x y.
Definition fle (x y : spec_float) : bool := SFleb x y.
Definition feq (x y : spec_float) : bool := SFeqb x y.

(** [f32::max]: a NaN operand is ignored. *)
Definition fmax (x y : spec_float) : spec_float :=
  match x, y with
  | S754_nan, _ => y
  | _, S754_nan => x
  | _, _ => if flt x y then y else x
  end.

Definition is_nan (x : spec_float) : bool :=
  match x with S754_nan => true | _ => false end.
Definition is_finite (x : spec_float) : bool :=
  match x with S754_zero _ | S754_finite _ _ _ => true | _ => false end.

(** Truncation of the magnitude towards zero. *)
Definition magnitude (m : positive) (e : Z) : Z :=
  if 0 <=? e then Z.pos m * 2 ^ e else Z.pos m / 2 ^ (- e).

(** [x as iN] / [x as uN]: truncate, saturate at the bounds, NaN is 0. *)
Definition to_int (lo hi : Z) (x : f64) : Z :=
  match x with
  | S754_nan | S754_zero _ => 0
  | S754_infinity s => if s then lo else hi
  | S754_finite s m e => clamp lo hi (if s then - magnitude m e else magnitude m e)
  end.
Definition to_i64 : f64 → Z := to_int i64_min i64_max.
Definition to_u64 : f64 → Z := to_int 0 u64_max.

(** [f64::round]: to the nearest integer, halves away from zero. *)
Definition f64_round (x : f64) : f64 :=
  match x with
  | S754_finite s m e =>
      if 0 <=? e then x
      else match (Z.pos m + 2 ^ (- e - 1)) / 2 ^ (- e) with
           | Z.pos p => binary_round 53 1024 s p 0
           | _ => S754_zero s
           end
  | _ => x
  end.

(** * Decimal literals

    The correctly rounded value of [m * 10 ^ e]. *)
Definition f64_of_decimal (s : bool) (m e : Z) : f64 :=
  match m with
  | Z.pos p =>
      if 0 <=? e then binary_round 53 1024 s (Z.to_pos (Z.pos p * 10 ^ e)) 0
      else let '(mz, ez, lz) := SFdiv_core_binary 53 1024 (Z.pos p) 0 (10 ^ (- e)) 0 in
           binary_round_aux 53 1024 s mz ez lz
  | _ => S754_zero s
  end.

(** Read decimal digits: the accumulated value, how many were read, the rest. *)
Fixpoint scan_digits (acc n : Z) (s : string) : Z * Z * string :=
  match s with
  | EmptyString => (acc, n, EmptyString)
  | String c s' =>
      match digit_val c with
      | Some d => scan_digits (10 * acc + d) (n + 1) s'
      | None => (acc, n, s)
      end
  end.

(** Exponent part: nothing, or [e], an optional sign and at least one digit. *)
Definition scan_exponent (s : string) : option Z :=
  match s with
  | EmptyString => Some 0
  | String c s =>
      if decide (lower_char c = "e"%char) then
        let '(neg, s) :=
          match s with
          | String "+" t => (false, t)
          | String "-" t => (true, t)
          | _ => (false, s)
          end in
        match scan_digits 0 0 s with
        | (v, n, EmptyString) => if n =? 0 then None else Some (if neg then - v else v)
        | _ => None
        end
      else None
  end.

(** [Number ::= ( Digit+ | Digit+ '.' Digit* | Digit* '.' Digit+ ) Exp?]. *)
Definition parse_number (neg : bool) (s : string) : option f64 :=
  let '(m, n1, s) := scan_digits 0 0 s in
  let '(m, n2, s) :=
    match s with
    | String "." t => scan_digits m 0 t
    | _ => (m, 0, s)
    end in
  if (n1 =? 0) && (n2 =? 0) then None else
  match scan_exponent s with
  | Some e => Some (f64_of_decimal neg m (e - n2))
  | None => None
  end.

(** [ParseFloatError]. *)
Inductive parse_float_error := FloatEmpty | FloatInvalid.
Definition show_parse_float_error (e : parse_float_error) : string :=
  match e with
  | FloatEmpty => "cannot parse float from empty string"
  | FloatInvalid => "invalid float literal"
  end.

(** [f64::from_str]: an optional sign, then [inf], [infinity] or [nan] in any
    case, or a number. *)
Definition parse_f64 (s : string) : result f64 parse_float_error :=
  match s with
  | EmptyString => Err FloatEmpty
  | _ =>
      let '(neg, t) :=
        match s with
        | String "+" t => (false, t)
        | String "-" t => (true, t)
        | _ => (false, s)
        end in
      let l := to_lowercase t in
      if decide (l = "inf" ∨ l = "infinity") then Ok (S754_infinity neg)
      else if decide (l = "nan") then Ok S754_nan
      else ok_or (parse_number neg t) FloatInvalid
  end.

(** * Checks against known encodings *)

Example one_is_one : F64.of_Z 1 = F64.one. Proof. reflexivity. Qed.
Example parse_tenth : parse_f64 "0.1" = Ok (S754_finite false 7205759403792794 (-56)).
Proof. vm_compute. reflexivity. Qed.
Example parse_exp : parse_f64 "-1.25e2" = Ok (F64.of_Z (-125)).
Proof. vm_compute. reflexivity. Qed.
Example parse_dot : parse_f64 "." = Err FloatInvalid. Proof. vm_compute. reflexivity. Qed.
Example parse_trailing : parse_f64 "5." = Ok (F64.of_Z 5). Proof. vm_compute. reflexivity. Qed.
Example parse_inf : parse_f64 "-INFinity" = Ok (S754_infinity true).
Proof. vm_compute. reflexivity. Qed.
Example parse_max_u64 : F64.of_Z u64_max = F64.of_Z (2 ^ 64). Proof. reflexivity. Qed.
Example parse_overflow : parse_f64 "1e400" = Ok (S754_infinity false).
Proof. vm_compute. reflexivity. Qed.
Example parse_subnormal : parse_f64 "5e-324" = Ok (S754_finite false 1 (-1074)).
Proof. vm_compute. reflexivity. Qed.
Example round_half : to_i64 (f64_round (F64.div (F64.of_Z (-5)) (F64.of_Z 2))) = -3.
Proof. reflexivity. Qed.

(** * Facts about comparisons *)

Lemma compare_pos_refl m : Pos.compare_cont Eq m m = Eq.
Proof. apply Pos.compare_refl. Qed.

Lemma flt_irrefl x : flt x x = false.
Proof.
  destruct x as [[]|[]| |[] m e]; try done;
    unfold flt, SFltb; simpl; by rewrite Z.compare_refl, compare_pos_refl.
Qed.

Lemma fle_refl x : is_nan x = false → fle x x = true.
Proof.
  destruct x as [[]|[]| |[] m e]; try done;
    unfold fle, SFleb; simpl; by rewrite Z.compare_refl, compare_pos_refl.
Qed.

(** A strict comparison that holds rules out NaNs and the converse. *)
Lemma flt_not_nan x y : flt x y = true → is_nan x = false ∧ is_nan y = false.
Proof. by destruct x as [[]|[]| |[] ? ?], y as [[]|[]| |[] ? ?]. Qed.

Lemma flt_nan_l x : is_nan x = true → ∀ y, flt x y = false.
Proof. by destruct x. Qed.

(** Without NaNs, [≤] is the negation of the converse strict order. *)
Lemma fle_not_flt x y :
  is_nan x = false → is_nan y = false → fle x y = negb (flt y x).
Proof.
  unfold fle, flt, SFleb, SFltb.
  destruct x as [[]|[]| |[] m e], y as [[]|[]| |[] m' e']; try done; simpl;
    intros _ _; rewrite (Z.compare_antisym e e');
    destruct (Z.compare e e'); simpl; try done;
    change (Pos.compare_cont Eq m' m) with (Pos.compare m' m);
    change (Pos.compare_cont Eq m m') with (Pos.compare m m');
    rewrite (Pos.compare_antisym m m'); by destruct (Pos.compare m m').
Qed.

Lemma to_int_range lo hi x : lo ≤ 0 ≤ hi → lo ≤ to_int lo hi x ≤ hi.
Proof.
  intros. destruct x as [| | |s m e]; simpl; try lia.
  - destruct s; lia.
  - apply clamp_range. lia.
Qed.

(** * Scaling by [u64::MAX]

    The largest [u64] rounds to 2^64, so the product is exact unless it overflows. *)

(** A binary64 value: its mantissa is canonical for its exponent. *)
Definition valid (x : f64) : bool := valid_binary 53 1024 x.

Lemma digits2_bounds p : 2 ^ (Z.pos (digits2_pos p) - 1) ≤ Z.pos p < 2 ^ Z.pos (digits2_pos p).
Proof.
  induction p as [p IH|p IH|]; cbn [digits2_pos]; [| |done];
    rewrite Pos2Z.inj_succ, Z.sub_1_r, Z.pred_succ, Z.pow_succ_r by lia;
    assert (2 ^ Z.pos (digits2_pos p) = 2 * 2 ^ (Z.pos (digits2_pos p) - 1)) by
      (rewrite <- Z.pow_succ_r by lia; f_equal; lia); lia.
Qed.

Lemma digits2_unique p d : 0 < d → 2 ^ (d - 1) ≤ Z.pos p < 2 ^ d → Z.pos (digits2_pos p) = d.
Proof.
  intros Hd [Hlo Hhi]. pose proof (digits2_bounds p) as [Hlo' Hhi'].
  assert (d - 1 < Z.pos (digits2_pos p)) by (apply (Z.pow_lt_mono_r_iff 2); lia).
  assert (Z.pos (digits2_pos p) - 1 < d) by (apply (Z.pow_lt_mono_r_iff 2); lia). lia.
Qed.

(** A shift that drops only zeros is exact. *)
Lemma shr_1_even p : shr_1 {| shr_m := Z.pos p~0; shr_r := false; shr_s := false |} =
  {| shr_m := Z.pos p; shr_r := false; shr_s := false |}.
Proof. done. Qed.

Lemma iter_pos_nat {A} (f : A → A) n x : SpecFloat.iter_pos f n x = Nat.iter (Pos.to_nat n) f x.
Proof.
  revert x. induction n as [n IH|n IH|]; intros x; cbn [SpecFloat.iter_pos]; [| |done]; rewrite !IH, <- Nat.iter_add.
  - rewrite Pos2Nat.inj_xI. rewrite <- Nat.iter_succ_r. f_equal. lia.
  - rewrite Pos2Nat.inj_xO. f_equal. lia.
Qed.

Lemma shr_exact n p :
  Nat.iter n shr_1 {| shr_m := Z.pos p * 2 ^ Z.of_nat n; shr_r := false; shr_s := false |} =
  {| shr_m := Z.pos p; shr_r := false; shr_s := false |}.
Proof.
  induction n as [|n IH]; [by rewrite Z.mul_1_r|].
  rewrite Nat.iter_succ_r. etrans; [|exact IH]. f_equal.
  rewrite Nat2Z.inj_succ, Z.pow_succ_r by lia.
  destruct (Z.pos p * 2 ^ Z.of_nat n) as [|q|q] eqn:E; [lia| |lia].
  replace (Z.pos p * (2 * 2 ^ Z.of_nat n)) with (Z.pos q~0) by lia. done.
Qed.

(** Rounding keeps a mantissa of 53 digits after trailing zeros. *)
Lemma round_exact s p k e :
  0 ≤ k → -1074 ≤ e + k → Z.pos (digits2_pos p) = 53 →
  binary_round_aux 53 1024 s (Z.pos p * 2 ^ k) e loc_Exact =
    if e + k <=? 971 then S754_finite s p (e + k) else S754_infinity s.
Proof.
  intros Hk He Hd. unfold binary_round_aux, shr_fexp.
  pose proof (digits2_bounds p) as Hb. rewrite Hd in Hb.
  assert (Zdigits2 (Z.pos p * 2 ^ k) = 53 + k) as Hz.
  { assert (0 < 2 ^ k) by (apply Z.pow_pos_nonneg; lia).
    destruct (Z.pos p * 2 ^ k) as [|q|q] eqn:E; [nia| |nia]. cbn [Zdigits2].
    apply digits2_unique; [lia|]. rewrite <- E.
    replace (53 + k - 1) with ((53 - 1) + k) by lia. rewrite !Z.pow_add_r by lia. nia. }
  rewrite Hz. assert (fexp 53 1024 (53 + k + e) - e = k) as ->.
  { unfold fexp, emin. lia. }
  assert (shr (shr_record_of_loc (Z.pos p * 2 ^ k) loc_Exact) e k =
          ({| shr_m := Z.pos p; shr_r := false; shr_s := false |}, e + k)) as ->.
  { unfold shr, shr_record_of_loc. destruct k as [|k|k]; [by rewrite Z.mul_1_r, Z.add_0_r| |lia].
    rewrite iter_pos_nat. f_equal. rewrite <- (shr_exact (Pos.to_nat k) p). do 3 f_equal. lia. }
  cbn [shr_m loc_of_shr_record round_nearest_even Zdigits2].
  rewrite Hd. assert (fexp 53 1024 (53 + (e + k)) - (e + k) = 0) as -> by (unfold fexp, emin; lia).
  reflexivity.
Qed.

Lemma magnitude_scaled m e K : 0 ≤ K → 0 ≤ e + K → magnitude m e = (Z.pos m * 2 ^ (e + K)) / 2 ^ K.
Proof.
  intros HK He. unfold magnitude. destruct (Z.leb_spec 0 e).
  - rewrite Z.pow_add_r, Z.mul_assoc, Z.div_mul by lia. done.
  - assert (2 ^ K = 2 ^ (e + K) * 2 ^ (- e)) as -> by (rewrite <- Z.pow_add_r by lia; f_equal; lia).
    rewrite (Z.mul_comm (Z.pos m)), Z.div_mul_cancel_l; [done|lia..].
Qed.

Lemma valid_finite s m e :
  valid (S754_finite s m e) = true →
  -1074 ≤ e ≤ 971 ∧ 1 ≤ Z.pos (digits2_pos m) ≤ 53 ∧ (-1074 < e → Z.pos (digits2_pos m) = 53).
Proof.
  unfold valid, valid_binary, bounded, canonical_mantissa. intros [Hc%Z.eqb_eq He%Z.leb_le]%andb_true_iff.
  unfold fexp, emin in Hc. lia.
Qed.

(** The product with [u64::MAX] of a rate, as a [u64]. *)
Definition scaled (m : positive) (e : Z) : Z := Z.pos m * 2 ^ (e + 64 + 1074) / 2 ^ 1074.

Lemma u64_max_float : F64.of_Z u64_max = S754_finite false 4503599627370496 12.
Proof. reflexivity. Qed.

Lemma to_u64_scaled s m e :
  valid (S754_finite s m e) = true →
  to_u64 (F64.mul (S754_finite s m e) (F64.of_Z u64_max)) = if s then 0 else Z.min u64_max (scaled m e).
Proof.
  intros (He & Hd & Hn)%valid_finite. rewrite u64_max_float. unfold F64.mul, SFmul. rewrite xorb_false_r.
  set (d := Z.pos (digits2_pos m)) in *.
  assert (∃ p, Z.pos p = Z.pos m * 2 ^ (53 - d) ∧ Z.pos (digits2_pos p) = 53) as (p & Hp & Hdp).
  { assert (0 < 2 ^ (53 - d)) by (apply Z.pow_pos_nonneg; lia).
    exists (Z.to_pos (Z.pos m * 2 ^ (53 - d))). rewrite Z2Pos.id by lia. split; [done|].
    apply digits2_unique; [lia|]. rewrite Z2Pos.id by lia.
    pose proof (digits2_bounds m) as Hb. fold d in Hb.
    replace (53 - 1) with ((d - 1) + (53 - d)) by lia. replace 53 with (d + (53 - d)) at 4 by lia.
    rewrite !Z.pow_add_r by lia. nia. }
  assert (Z.pos (m * 4503599627370496) = Z.pos p * 2 ^ (d - 1)) as ->.
  { rewrite Hp, <- Z.mul_assoc, <- Z.pow_add_r by lia. replace (53 - d + (d - 1)) with 52 by lia. lia. }
  rewrite round_exact by lia.
  assert (magnitude p (e + 12 + (d - 1)) = scaled m e) as Hm.
  { rewrite (magnitude_scaled _ _ 1074), Hp, <- Z.mul_assoc, <- Z.pow_add_r by lia. unfold scaled. do 3 f_equal. lia. }
  assert (0 ≤ scaled m e ∧ 0 ≤ u64_max) as [? ?] by (split; [apply Z.div_pos; lia|done]).
  destruct (Z.leb_spec (e + 12 + (d - 1)) 971) as [Hfit|Hover]; unfold to_u64, to_int, clamp; destruct s.
  - rewrite Hm. lia.
  - rewrite Hm. lia.
  - done.
  - assert (u64_max ≤ scaled m e); [|lia]. unfold scaled. apply Z.div_le_lower_bound; [lia|].
    transitivity (2 ^ (64 + 1074)).
    { rewrite Z.pow_add_r by lia. rewrite (Z.mul_comm (2 ^ 1074)). apply Z.mul_le_mono_nonneg_r; [lia|done]. }
    transitivity (2 ^ (e + 64 + 1074)); [apply Z.pow_le_mono_r; lia|].
    assert (0 < 2 ^ (e + 64 + 1074)) by (apply Z.pow_pos_nonneg; lia). nia.
Qed.

(** The order of the positive values is that of their mantissas once aligned. *)
Lemma scaled_mono s m e s' m' e' :
  valid (S754_finite s m e) = true → valid (S754_finite s' m' e') = true →
  e < e' ∨ e = e' ∧ Z.pos m ≤ Z.pos m' → scaled m e ≤ scaled m' e'.
Proof.
  intros (He & Hd & _)%valid_finite (He' & Hd' & Hn')%valid_finite Hle.
  apply Z.div_le_mono; [lia|]. destruct Hle as [Hlt|[<- Hle]]; [|apply Z.mul_le_mono_nonneg_r; lia].
  pose proof (digits2_bounds m) as [_ Hb]. pose proof (digits2_bounds m') as [Hb' _].
  rewrite Hn' in Hb' by lia.
  assert (2 ^ Z.pos (digits2_pos m) ≤ 2 ^ 53) by (apply Z.pow_le_mono_r; lia).
  assert (2 * 2 ^ (e + 64 + 1074) ≤ 2 ^ (e' + 64 + 1074)).
  { rewrite <- Z.pow_succ_r by lia. apply Z.pow_le_mono_r; lia. }
  change (2 ^ 53) with (2 * 2 ^ 52) in *. change (53 - 1) with 52 in *. nia.
Qed.

(** The order of two positive values. *)
Lemma compare_pos m e m' e' :
  SFcompare (S754_finite false m e) (S754_finite false m' e') =
    Some (match e ?= e' with Eq => Z.pos m ?= Z.pos m' | c => c end).
Proof. by cbn; destruct (e ?= e'). Qed.

Lemma fle_pos m e m' e' :
  fle (S754_finite false m e) (S754_finite false m' e') = true ↔ e < e' ∨ e = e' ∧ Z.pos m ≤ Z.pos m'.
Proof.
  unfold fle, SFleb. rewrite compare_pos.
  destruct (Z.compare_spec e e'); [destruct (Z.compare_spec (Z.pos m) (Z.pos m'))|..]; (split; [done || lia|]); lia || done.
Qed.
Lemma flt_pos m e m' e' :
  flt (S754_finite false m e) (S754_finite false m' e') = true ↔ e < e' ∨ e = e' ∧ Z.pos m < Z.pos m'.
Proof.
  unfold flt, SFltb. rewrite compare_pos.
  destruct (Z.compare_spec e e'); [destruct (Z.compare_spec (Z.pos m) (Z.pos m'))|..]; (split; [done || lia|]); lia || done.
Qed.

Lemma to_u64_mono x y :
  valid x = true → valid y = true → fle x y = true →
  to_u64 (F64.mul x (F64.of_Z u64_max)) ≤ to_u64 (F64.mul y (F64.of_Z u64_max)).
Proof.
  assert (∀ z, 0 ≤ to_u64 z ≤ u64_max) as Hr by (intros z; by apply to_int_range).
  intros Hx Hy Hle. destruct x as [sx|[]| |[] m e].
  - apply Hr.
  - apply Hr.
  - by destruct y as [|[]| |].
  - done.
  - rewrite to_u64_scaled by done. apply Hr.
  - destruct y as [[]|[]| |[] m' e']; try done.
    + rewrite (to_u64_scaled false m e) by done. change (to_u64 _) with u64_max at 1. lia.
    + rewrite !to_u64_scaled by done. apply fle_pos in Hle.
      pose proof (scaled_mono _ _ _ _ _ _ Hx Hy Hle). lia.
Qed.

(** What is at most a value below one is below one. *)
Lemma fle_flt_one x y : fle x y = true → flt y F64.one = true → flt x F64.one = true.
Proof.
  destruct x as [[]|[]| |[] m e], y as [[]|[]| |[] m' e']; try done.
  unfold F64.one. rewrite fle_pos, !flt_pos. lia.
Qed.

(** Below one the product is the floor of the rate times 2^64. *)
Lemma to_u64_below_one m e :
  valid (S754_finite false m e) = true → flt (S754_finite false m e) F64.one = true →
  to_u64 (F64.mul (S754_finite false m e) (F64.of_Z u64_max)) = magnitude m (e + 64).
Proof.
  intros Hv Hlt%flt_pos. rewrite to_u64_scaled by done. destruct (valid_finite _ _ _ Hv) as (He & Hd & Hn).
  rewrite (magnitude_scaled m (e + 64) 1074) by lia. change (Z.min u64_max (scaled m e) = scaled m e).
  apply Z.min_r. pose proof (digits2_bounds m) as [Hlo Hhi].
  assert (e ≤ -53) as Hneg.
  { destruct (decide (e = -52)) as [->|]; [|lia]. rewrite Hn in Hlo by lia.
    change (2 ^ (53 - 1)) with 4503599627370496 in Hlo. lia. }
  assert (2 ^ Z.pos (digits2_pos m) ≤ 2 ^ 53) by (apply Z.pow_le_mono_r; lia).
  assert (2 ^ (e + 64 + 1074) ≤ 2 ^ (11 + 1074)) by (apply Z.pow_le_mono_r; lia).
  unfold scaled. apply Z.lt_succ_r, Z.div_lt_upper_bound; [lia|].
  apply Z.le_lt_trans with ((2 ^ 53 - 1) * 2 ^ (11 + 1074)); [|done].
  apply Z.mul_le_mono_nonneg; lia.
Qed.
