(* ===== verification/Externals.v ===== *)
(** Interfaces of third-party crates.

    The code under [src/crates] relies on crates that are not part of the
    repository.  Each one is a class: the operations the code calls, and the
    documented behaviour the theorems use as laws.  The components are proved
    against these classes; module [Concrete] gives one simple implementation of
    each, used only to evaluate the models on concrete inputs. *)
From Stdlib Require Import Ascii SpecFloat.
From S2P Require Import Prelude RStr Float.

(** [ustr::Ustr]: an interned string.  Two [Ustr] are equal exactly when their
    contents are, so a [Ustr] is its contents; its [Ord] is some total order. *)
Class UstrOrd := {
  ustr_le : relation string;
  ustr_le_dec :: RelDecision ustr_le;
  ustr_le_total :: Total ustr_le;
  ustr_le_trans :: Transitive ustr_le;
  ustr_le_antisymm :: AntiSymm (=) ustr_le;
}.

(** [fnv::FnvHasher] as a [std::hash::Hasher], and [Ustr]'s [Hash]. *)
Class Hasher := {
  hstate : Type;
  hasher_default : hstate;
  hasher_write : list Z → hstate → hstate;
  hasher_finish : hstate → Z;
  ustr_hash : string → hstate → hstate;
}.

(** [ddsketch_agent::DDSketch]. *)
Class DDSketch := {
  sketch : Type;
  sketch_default : sketch;
  sketch_insert : f64 → sketch → sketch;
  sketch_merge : sketch → sketch → sketch;
}.

(** [hashbrown::hash_table::HashTable<T>].  An entry is stored under the hash it
    was inserted with; lookups see the entries with that hash which satisfy the
    equality closure.  The iteration order is not specified. *)
Class HashTable (T : Type) := {
  htable : Type;
  ht_entries : htable → list (Z * T);
  ht_new : htable;
  ht_len : htable → Z;
  ht_find : htable → Z → (T → bool) → option T;
  ht_insert : Z → T → htable → htable;
  ht_modify : Z → (T → bool) → (T → T) → htable → htable;
  ht_extract_if : (T → bool) → htable → list T * htable;
}.
Arguments htable T {_}.

(** [HashTable::iter]. *)
Definition ht_iter {T} `{!HashTable T} (t : htable T) : list T := (ht_entries t).*2.

Class HashTableLaws (T : Type) `{!HashTable T} := {
  ht_entries_new : ht_entries ht_new = [];
  ht_len_entries t : ht_len t = zlen (ht_entries t);
  ht_find_some t h eq x :
    ht_find t h eq = Some x → (h, x) ∈ ht_entries t ∧ eq x = true;
  ht_find_none t h eq x :
    ht_find t h eq = None → (h, x) ∈ ht_entries t → eq x = false;
  ht_entries_insert t h x : ht_entries (ht_insert h x t) ≡ₚ (h, x) :: ht_entries t;
  ht_entries_modify t h eq f x :
    ht_find t h eq = Some x →
    ∃ l, ht_entries t ≡ₚ (h, x) :: l ∧ ht_entries (ht_modify h eq f t) ≡ₚ (h, f x) :: l;
  ht_extract_fst t p :
    (ht_extract_if p t).1 ≡ₚ filter (λ x, p x = true) (ht_iter t);
  ht_extract_snd t p :
    ht_entries (ht_extract_if p t).2 ≡ₚ filter (λ e, p e.2 = false) (ht_entries t);
}.

(** * Simple implementations *)
Module Concrete.
#[local] Set Default Proof Using "Type".

Definition ustr_ord : UstrOrd.
Proof. refine {| ustr_le := String.le |}. Defined.

(** FNV-1a on 64 bits. *)
Definition fnv_step (h b : Z) : Z := (Z.lxor h b * 1099511628211) mod 2 ^ 64.
Definition fnv_write (l : list Z) (h : Z) : Z := foldl fnv_step h l.
Definition hasher : Hasher :=
  {| hstate := Z;
     hasher_default := 14695981039346656037;
     hasher_write := fnv_write;
     hasher_finish := id;
     ustr_hash s := fnv_write (byte_val <$> bytes_of s) |}.

(** A sketch that remembers the values inserted. *)
Definition ddsketch : DDSketch :=
  {| sketch := list f64;
     sketch_default := [];
     sketch_insert v l := l ++ [v];
     sketch_merge l1 l2 := l1 ++ l2 |}.

(** A hash table as the list of its entries. *)
Section Table.
Context {T : Type}.
Definition matches (h : Z) (eq : T → bool) (e : Z * T) : bool :=
  (e.1 =? h) && eq e.2.

Definition find (l : list (Z * T)) (h : Z) (eq : T → bool) : option T :=
  snd <$> List.find (matches h eq) l.

Fixpoint modify (h : Z) (eq : T → bool) (f : T → T) (l : list (Z * T)) : list (Z * T) :=
  match l with
  | [] => []
  | e :: l => if matches h eq e then (e.1, f e.2) :: l else e :: modify h eq f l
  end.

Definition table : HashTable T :=
  {| htable := list (Z * T);
     ht_entries := id;
     ht_new := [];
     ht_len l := zlen l;
     ht_find := find;
     ht_insert h x l := l ++ [(h, x)];
     ht_modify := modify;
     ht_extract_if p l := (filter (λ x, p x = true) l.*2, filter (λ e, p e.2 = false) l) |}.

Lemma find_spec l h eq x :
  find l h eq = Some x →
  ∃ l1 l2, l = l1 ++ (h, x) :: l2 ∧ eq x = true ∧
           ∀ f, modify h eq f l = l1 ++ (h, f x) :: l2.
Proof.
  unfold find. induction l as [|[h' y] l IH]; simpl; [done|].
  destruct (matches h eq (h', y)) eqn:E.
  - intros [= <-]. unfold matches in E. simpl in E. zify_bool. subst. by exists [], l.
  - intros Hf. destruct (IH Hf) as (l1 & l2 & -> & ? & Hm).
    exists ((h', y) :: l1), l2. split_and!; try done. intros f. by rewrite Hm.
Qed.

Lemma table_laws : @HashTableLaws T table.
Proof.
  split; simpl; try done.
  - intros t h eq x (l1 & l2 & -> & ? & _)%find_spec. split; [set_solver|done].
  - intros t h eq x Hf Hin. unfold find in Hf.
    destruct (List.find _ t) eqn:E; [done|].
    apply list_elem_of_In in Hin.
    pose proof (List.find_none _ _ E _ Hin) as Hm. unfold matches in Hm. simpl in Hm.
    by rewrite Z.eqb_refl in Hm.
  - intros t h x. by rewrite Permutation_app_comm.
  - intros t h eq f x (l1 & l2 & -> & ? & Hm)%find_spec. exists (l1 ++ l2).
    change (id (l1 ++ (h, x) :: l2)) with (l1 ++ (h, x) :: l2).
    change (id (modify h eq f (l1 ++ (h, x) :: l2))) with (modify h eq f (l1 ++ (h, x) :: l2)).
    rewrite Hm. split; by rewrite Permutation_middle.
Qed.
End Table.
End Concrete.
