(* ===== verification/Metric.v ===== *)
(** DogStatsD metrics: [dogstatsd/src/metric.rs] (and its constants and errors).

    Tag sets ([SortedTags]), the metric record, its identifier, the timestamp
    buckets and the parser of the DogStatsD text protocol. *)
From Stdlib Require Import Ascii SpecFloat.
From S2P Require Import Prelude RStr Float Externals.

(** * Constants and errors *)

Definition MAX_TAGS : Z := 100.
Definition CONTEXTS : Z := 10240.
Definition MAX_CONTEXTS : Z := 65536.
Definition MB : Z := 1024 * 1024.
Definition MAX_ENTRIES_SINGLE_METRIC : Z := 1000.
Definition MAX_SIZE_BYTES_SINGLE_METRIC : Z := 5 * MB.
Definition MAX_ENTRIES_SKETCH_METRIC : Z := 1000.
Definition MAX_SIZE_SKETCH_METRIC : Z := 62 * MB.

Inductive ParseError :=
  | Raw (msg : string)
  | UnsupportedType (ty : string).

(** Split input by the next pipe delimiter. *)
Definition next_field (input : string) : string * option string :=
  match split_once "|" input with
  | Some (field, rest) => (field, Some rest)
  | None => (input, None)
  end.

(** * Tags *)

Record SortedTags := { values : list (string * string) }.

#[export] Instance SortedTags_eq_dec : EqDecision SortedTags.
Proof. solve_decision. Defined.

Definition EMPTY_TAGS : SortedTags := {| values := [] |}.

Record Resource := { resource_name : string; resource_kind : string }.

(** One tag of a tags section: [key:value], or a key alone. *)
Definition tag_of_part (part : string) : string * string :=
  match split_once ":" part with
  | Some (k, v) => (k, v)
  | None => (part, EmptyString)
  end.

(** The tags of a section in order of appearance, empty parts skipped. *)
Definition section_tags (s : string) : list (string * string) :=
  tag_of_part <$> filter (λ p, is_empty p = false) (split "," s).

Definition render_tag (kv : string * string) : string :=
  if is_empty kv.2 then kv.1 else kv.1 +:+ ":" +:+ kv.2.

Section Tags.
Context `{!UstrOrd}.

(** The derived order of pairs. *)
Definition tag_le (a b : string * string) : Prop :=
  (a.1 = b.1 ∧ ustr_le a.2 b.2) ∨ (a.1 ≠ b.1 ∧ ustr_le a.1 b.1).
#[export] Instance tag_le_dec : RelDecision tag_le.
Proof. intros a b. unfold tag_le. apply _. Defined.

Definition sort_tags : list (string * string) → list (string * string) := merge_sort tag_le.

Definition extend (self other : SortedTags) : SortedTags :=
  {| values := sort_tags (dedup (values self ++ values other)) |}.

Definition tags_is_empty (self : SortedTags) : bool :=
  match values self with [] => true | _ => false end.

Definition parse_tags (tags_section : string) : result SortedTags ParseError :=
  let parsed_tags := dedup (section_tags tags_section) in
  if MAX_TAGS <? zlen parsed_tags then
    Err (Raw ("Too many tags, more than " +:+ show_Z MAX_TAGS))
  else Ok {| values := sort_tags parsed_tags |}.

Definition to_chars (self : SortedTags) : list string := render_tag <$> values self.
Definition to_strings (self : SortedTags) : list string := render_tag <$> values self.

Definition find_all (self : SortedTags) (tag_key : string) : list string :=
  omap (λ kv, if decide (kv.1 = tag_key) then Some kv.2 else None) (values self).

Definition to_resources (self : SortedTags) : list Resource :=
  omap (λ kv,
    if decide (kv.1 = "dd.internal.resource") then
      match split_once ":" kv.2 with
      | Some (n, k) => Some {| resource_name := n; resource_kind := k |}
      | None => None
      end
    else None) (values self).
End Tags.

(** * Timestamps *)

(** The clock as whole seconds in an [i64] ([as_secs().try_into().unwrap_or_default()]). *)
Definition clock_secs (secs : Z) : Z := if secs <=? i64_max then secs else 0.

(** [clock] is the reading of [UNIX_EPOCH.elapsed().as_secs()]. *)
Definition timestamp_to_bucket (clock timestamp : Z) : Z :=
  let now_seconds := clock_secs clock in
  if now_seconds <? timestamp then Z.quot now_seconds 10 * 10
  else Z.quot timestamp 10 * 10.

(** * Metrics *)

Section Metrics.
Context `{!UstrOrd, !Hasher, !DDSketch}.

Inductive MetricValue :=
  | Count (v : f64)
  | Gauge (v : f64)
  | Distribution (d : sketch).

Definition distribution (v : f64) : MetricValue :=
  Distribution (sketch_insert v sketch_default).

Record Metric := {
  m_name : string;
  m_value : MetricValue;
  m_tags : option SortedTags;
  m_id : Z;
  m_timestamp : Z;
}.

(** Little-endian bytes of an integer ([to_ne_bytes] on the supported targets). *)
Fixpoint le_bytes (n : nat) (z : Z) : list Z :=
  match n with O => [] | S n => z mod 256 :: le_bytes n (z / 256) end.

(** [<[u8] as Hash>::hash]: the length, then the bytes. *)
Definition hash_bytes (s : string) (h : hstate) : hstate :=
  hasher_write (byte_val <$> bytes_of s) (hasher_write (le_bytes 8 (str_len s)) h).

Definition metric_id (name : string) (tags : option SortedTags) (timestamp : Z) : Z :=
  let h := ustr_hash name hasher_default in
  let h := hasher_write (le_bytes 8 (wrap64 timestamp)) h in
  let h :=
    match tags with
    | Some ts => foldl (λ h kv, hash_bytes kv.2 (hash_bytes kv.1 h)) h (values ts)
    | None => h
    end in
  hasher_finish h.

(** [Metric::new]; [now] and [clock] are the successive clock readings. *)
Definition metric_new (now clock : Z) (nm : string) (v : MetricValue)
    (ts : option SortedTags) (t : option Z) : Metric :=
  let parsed_timestamp := timestamp_to_bucket clock (default (clock_secs now) t) in
  {| m_name := nm; m_value := v; m_tags := ts;
     m_id := metric_id nm ts parsed_timestamp; m_timestamp := parsed_timestamp |}.

Definition first_value (vals : string) : result f64 ParseError :=
  match parse_f64 (split_aux (λ a, bool_decide (a = ":"%char)) vals).1 with
  | Ok v => Ok v
  | Err e => Err (Raw ("Invalid value " +:+ show_parse_float_error e))
  end.

Definition parse_value (metric_type : string) (val : f64) : result MetricValue ParseError :=
  if decide (metric_type = "c") then Ok (Count val)
  else if decide (metric_type = "g") then Ok (Gauge val)
  else if decide (metric_type = "d") then Ok (distribution val)
  else if decide (metric_type = "h" ∨ metric_type = "s" ∨ metric_type = "ms")
  then Err (UnsupportedType metric_type)
  else Err (Raw ("Invalid metric type: " +:+ metric_type)).

(** What the optional fields set; the sample rate and the container id are
    checked or skipped, not kept. *)
Record Optional := { opt_tags : option SortedTags; opt_timestamp : option Z }.

Definition parse_timestamp (ts_str : string) : result Z ParseError :=
  if is_empty ts_str then Err (Raw "Empty timestamp field: T")
  else match parse_f64 ts_str with
       | Ok x => Ok (to_i64 (f64_round x))
       | Err _ => Err (Raw ("Invalid timestamp: T" +:+ ts_str))
       end.

(** One iteration of the loop over the optional fields. *)
Definition parse_optional (o : Optional) (field : string) : result Optional ParseError :=
  if is_empty field then Ok o else
  match strip_prefix "#" field with
  | Some tags_str =>
      let? t := parse_tags tags_str in
      Ok {| opt_tags := Some t; opt_timestamp := opt_timestamp o |}
  | None =>
  match strip_prefix "T" field with
  | Some ts_str =>
      let? sec := parse_timestamp ts_str in
      Ok {| opt_tags := opt_tags o; opt_timestamp := Some sec |}
  | None =>
  match strip_prefix "@" field with
  | Some sr_str =>
      match parse_f64 sr_str with
      | Ok _ => Ok o
      | Err _ => Err (Raw ("Invalid sample rate: @" +:+ sr_str))
      end
  | None => Ok o
  end end end.

(** [while let Some(field_remaining) = current]; [None] when out of fuel. *)
Fixpoint parse_loop (fuel : nat) (o : Optional) (current : option string)
    : option (result Optional ParseError) :=
  match current with
  | None => Some (Ok o)
  | Some field_remaining =>
      match fuel with
      | O => None
      | S fuel =>
          let '(field, next) := next_field field_remaining in
          match parse_optional o field with
          | Ok o => parse_loop fuel o next
          | Err e => Some (Err e)
          end
      end
  end.

Definition parse_fuel (input : string) : nat := S (String.length input).

(** [metric::parse]; [now] and [clock] are the successive clock readings. *)
Definition parse (now clock : Z) (input : string) : result Metric ParseError :=
  let invalid := Raw ("Invalid metric format " +:+ input) in
  let '(name_and_value, remaining) := next_field input in
  let? '(nm, vals) := ok_or (split_once ":" name_and_value) invalid in
  if is_empty nm || is_empty vals then Err invalid else
  let? remaining := ok_or remaining invalid in
  let '(metric_type, remaining) := next_field remaining in
  if is_empty metric_type then Err invalid else
  let? val := first_value vals in
  let? metric_value := parse_value metric_type val in
  let? o := default (Err invalid)
              (parse_loop (parse_fuel input) {| opt_tags := None; opt_timestamp := None |}
                 remaining) in
  let parsed_timestamp := timestamp_to_bucket clock (default (clock_secs now) (opt_timestamp o)) in
  Ok {| m_name := nm; m_value := metric_value; m_tags := opt_tags o;
        m_id := metric_id nm (opt_tags o) parsed_timestamp;
        m_timestamp := parsed_timestamp |}.
End Metrics.

(** * Facts about tags *)

Section TagFacts.
Context `{!UstrOrd}.

#[export] Instance tag_le_total : Total tag_le.
Proof.
  intros [k1 v1] [k2 v2]. unfold tag_le. simpl.
  destruct (decide (k1 = k2)) as [->|Hk].
  - destruct (total ustr_le v1 v2); naive_solver.
  - destruct (total ustr_le k1 k2); naive_solver.
Qed.

#[export] Instance tag_le_trans : Transitive tag_le.
Proof.
  intros [k1 v1] [k2 v2] [k3 v3]. unfold tag_le. simpl.
  intros [[-> ?]|[? ?]] [[-> ?]|[? ?]].
  - left. split; [done|]. by etrans.
  - right. done.
  - right. done.
  - destruct (decide (k1 = k3)) as [->|].
    + assert (k3 = k2) by (by apply (anti_symm ustr_le)). done.
    + right. split; [done|]. by etrans.
Qed.

#[export] Instance tag_le_antisymm : AntiSymm (=) tag_le.
Proof.
  intros [k1 v1] [k2 v2]. unfold tag_le. simpl.
  intros [[-> ?]|[? ?]] [[? ?]|[? ?]]; try congruence.
  - f_equal. by apply (anti_symm ustr_le).
  - by assert (k1 = k2) by (by apply (anti_symm ustr_le)).
Qed.

Lemma sort_tags_sorted l : StronglySorted tag_le (sort_tags l).
Proof. apply StronglySorted_merge_sort; apply _. Qed.
Lemma sort_tags_perm l : sort_tags l ≡ₚ l.
Proof. apply merge_sort_Permutation. Qed.
Lemma sort_tags_perm_eq l1 l2 : l1 ≡ₚ l2 → sort_tags l1 = sort_tags l2.
Proof. apply sort_perm_eq; apply _. Qed.
Lemma sort_tags_sorted_id l : StronglySorted tag_le l → sort_tags l = l.
Proof.
  intros. apply (StronglySorted_unique tag_le); [apply sort_tags_sorted|done|].
  apply sort_tags_perm.
Qed.

(** Well-formed tag sets: sorted and within the limit. *)
Definition tags_wf (t : SortedTags) : Prop :=
  StronglySorted tag_le (values t) ∧ zlen (values t) ≤ MAX_TAGS.

Lemma parse_tags_ok s t :
  parse_tags s = Ok t →
  tags_wf t ∧ values t ≡ₚ dedup (section_tags s).
Proof.
  unfold parse_tags, tags_wf. destruct (Z.ltb_spec MAX_TAGS (zlen (dedup (section_tags s))));
    intros [= <-]; simpl.
  split_and!; [apply sort_tags_sorted| |apply sort_tags_perm].
  by rewrite (Permutation_length (sort_tags_perm _)).
Qed.

Lemma parse_tags_limit s :
  zlen (section_tags s) ≤ MAX_TAGS → is_ok (parse_tags s) = true.
Proof.
  intros. unfold parse_tags. pose proof (dedup_length (section_tags s)).
  destruct (Z.ltb_spec MAX_TAGS (zlen (dedup (section_tags s)))); [lia|done].
Qed.
End TagFacts.

(** * Facts about the parser *)

(** The optional fields as the pieces between pipes. *)
Section ParserFacts.
Context `{!UstrOrd, !Hasher, !DDSketch}.

Fixpoint parse_fields (o : Optional) (fields : list string) : result Optional ParseError :=
  match fields with
  | [] => Ok o
  | f :: fs => let? o := parse_optional o f in parse_fields o fs
  end.

Definition no_options : Optional := {| opt_tags := None; opt_timestamp := None |}.

Lemma next_field_split s :
  match next_field s with
  | (f, Some rest) => split "|" s = f :: split "|" rest
  | (f, None) => split "|" s = [f] ∧ f = s
  end.
Proof.
  unfold next_field. destruct (split_once "|" s) as [[f rest]|] eqn:E.
  - apply split_once_some in E as [-> ?]. by apply split_app_sep.
  - apply split_once_none in E. by rewrite split_single.
Qed.

Lemma parse_loop_fields fuel o s :
  (length (split "|" s) ≤ fuel)%nat →
  parse_loop fuel o (Some s) = Some (parse_fields o (split "|" s)).
Proof.
  revert o s. induction fuel as [|fuel IH]; intros o s Hlen.
  { unfold split, split_by in Hlen. simpl in Hlen. lia. }
  pose proof (next_field_split s) as Hs. cbn [parse_loop].
  destruct (next_field s) as [f [rest|]].
  - rewrite Hs in Hlen |- *. cbn [parse_fields].
    destruct (parse_optional o f); simpl; [|done].
    apply IH. by apply le_S_n.
  - destruct Hs as [Hs _]. rewrite Hs. cbn [parse_fields].
    destruct (parse_optional o f); simpl; by destruct fuel.
Qed.

Lemma split_length c s : (length (split c s) ≤ S (String.length s))%nat.
Proof.
  induction s as [|a s IH]; [simpl; lia|].
  rewrite split_aux_cons. unfold split, split_by in IH |- *.
  case_decide; simpl in *; lia.
Qed.

Lemma app_length (s t : string) :
  String.length (s +:+ t) = (String.length s + String.length t)%nat.
Proof. induction s; [done|]. rewrite app_cons. simpl. by rewrite IHs. Qed.

Lemma next_field_shorter s f rest :
  next_field s = (f, Some rest) → (String.length rest < String.length s)%nat.
Proof.
  unfold next_field. destruct (split_once "|" s) as [[??]|] eqn:E; [|done].
  apply split_once_some in E as [-> _]. intros [= -> ->].
  rewrite app_length. simpl. lia.
Qed.

(** The fuel given by [parse] is always enough. *)
Lemma parse_loop_enough input rest o :
  (String.length rest ≤ String.length input)%nat →
  parse_loop (parse_fuel input) o (Some rest) = Some (parse_fields o (split "|" rest)).
Proof.
  intros. apply parse_loop_fields. unfold parse_fuel.
  pose proof (split_length "|" rest). lia.
Qed.
End ParserFacts.

(** * Properties *)

Section Properties.
Context `{!UstrOrd, !Hasher, !DDSketch}.

(** The parser without its loop: the message split on pipes. *)
Definition parse_reference (now clock : Z) (input : string) : result Metric ParseError :=
  let invalid := Raw ("Invalid metric format " +:+ input) in
  match split "|" input with
  | name_and_value :: metric_type :: fields =>
      match split_once ":" name_and_value with
      | Some (nm, vals) =>
          if is_empty nm || is_empty vals || is_empty metric_type then Err invalid else
          let? val := first_value vals in
          let? v := parse_value metric_type val in
          let? o := parse_fields no_options fields in
          Ok (metric_new now clock nm v (opt_tags o) (opt_timestamp o))
      | None => Err invalid
      end
  | _ => Err invalid
  end.

Lemma parse_tail_fields input rest f next :
  next_field rest = (f, next) → (String.length rest ≤ String.length input)%nat →
  parse_loop (parse_fuel input) no_options next =
    Some (parse_fields no_options (tail (split "|" rest))).
Proof.
  intros Hn Hlen. pose proof (next_field_split rest) as Hs. rewrite Hn in Hs.
  destruct next as [next|].
  - rewrite Hs. apply parse_loop_enough.
    pose proof (next_field_shorter _ _ _ Hn). lia.
  - destruct Hs as [-> _]. by destruct (parse_fuel input).
Qed.

Lemma parse_is_reference now clock input :
  parse now clock input = parse_reference now clock input.
Proof.
  unfold parse, parse_reference.
  pose proof (next_field_split input) as Hs.
  destruct (next_field input) as [nv [rest|]] eqn:E1; cbn [ok_or result_bind].
  - rewrite Hs. pose proof (next_field_shorter _ _ _ E1).
    destruct (split_once ":" nv) as [[nm vals]|] eqn:E2; cbn [ok_or result_bind];
      [|by destruct (split "|" rest)].
    pose proof (next_field_split rest) as Hr.
    destruct (next_field rest) as [ty next] eqn:E3.
    assert (split "|" rest = ty :: tail (split "|" rest)) as Hty.
    { destruct next; [by rewrite Hr|]. by destruct Hr as [-> _]. }
    rewrite Hty.
    destruct (is_empty nm || is_empty vals) eqn:E4; [done|]; cbn [orb].
    destruct (is_empty ty); [done|].
    destruct (first_value vals) as [val|]; [|done]; cbn [result_bind].
    destruct (parse_value ty val) as [v|]; [|done]; cbn [result_bind].
    erewrite (parse_tail_fields input rest) by (done || lia). done.
  - destruct Hs as [-> _].
    destruct (split_once ":" nv) as [[nm vals]|]; cbn [ok_or result_bind]; [|done].
    by destruct (_ || _).
Qed.

Lemma first_field_shape input nv fields :
  split "|" input = nv :: fields → contains_char "|" nv = false.
Proof. intros Hs. apply (split_no_sep "|" input). rewrite Hs. by left. Qed.

Lemma bucket_bounds clock t :
  0 ≤ clock →
  timestamp_to_bucket clock t ≤ clock_secs clock ∧ timestamp_to_bucket clock t mod 10 = 0.
Proof.
  intros Hc. assert (0 ≤ clock_secs clock) by (unfold clock_secs; case_match; lia).
  unfold timestamp_to_bucket. split.
  - destruct (Z.ltb_spec (clock_secs clock) t).
    + pose proof (Z.quot_rem' (clock_secs clock) 10).
      pose proof (Z.rem_bound_pos (clock_secs clock) 10). lia.
    + destruct (decide (0 ≤ t)).
      * pose proof (Z.quot_rem' t 10). pose proof (Z.rem_bound_pos t 10). lia.
      * rewrite <- (Z.opp_involutive t), Z.quot_opp_l by lia.
        assert (0 ≤ Z.quot (- t) 10) by (apply Z.quot_pos; lia). lia.
  - case_match; apply Z_mod_mult.
Qed.

(** C14: The optional fields are read by a loop that always ends, and the parser
    is the one that splits the message on pipes: [name:value], a type, then
    the optional fields in order, the first error being returned. *)
Theorem parse_split_equiv now clock input :
  parse now clock input = parse_reference now clock input.
Proof. apply parse_is_reference. Qed.

(** What every metric the parser accepts satisfies. *)
Definition metric_wf (clock : Z) (m : Metric) : Prop :=
  m_name m ≠ EmptyString ∧
  contains_char ":" (m_name m) = false ∧ contains_char "|" (m_name m) = false ∧
  (∀ t, m_tags m = Some t → tags_wf t) ∧
  m_id m = metric_id (m_name m) (m_tags m) (m_timestamp m) ∧
  m_timestamp m ≤ clock_secs clock ∧ m_timestamp m mod 10 = 0.

Lemma parse_optional_tags o f o' :
  (∀ t, opt_tags o = Some t → tags_wf t) → parse_optional o f = Ok o' →
  ∀ t, opt_tags o' = Some t → tags_wf t.
Proof.
  intros Ho. unfold parse_optional. destruct (is_empty f); [naive_solver|].
  destruct (strip_prefix "#" f).
  { destruct (parse_tags _) eqn:E; [|done]. intros [= <-] t [= <-].
    by apply parse_tags_ok in E as [? _]. }
  destruct (strip_prefix "T" f).
  { destruct (parse_timestamp _); [|done]. intros [= <-]. apply Ho. }
  destruct (strip_prefix "@" f); [|naive_solver].
  destruct (parse_f64 _); naive_solver.
Qed.

Lemma parse_fields_tags fs o o' :
  (∀ t, opt_tags o = Some t → tags_wf t) → parse_fields o fs = Ok o' →
  ∀ t, opt_tags o' = Some t → tags_wf t.
Proof.
  revert o. induction fs as [|f fs IH]; intros o Ho; cbn [parse_fields].
  - intros [= <-]. apply Ho.
  - destruct (parse_optional o f) eqn:E; cbn [result_bind]; [|done].
    apply IH. by eapply parse_optional_tags.
Qed.

Lemma parse_id now clock input m :
  parse now clock input = Ok m → m_id m = metric_id (m_name m) (m_tags m) (m_timestamp m).
Proof.
  rewrite parse_is_reference. unfold parse_reference.
  destruct (split "|" input) as [|nv [|ty fields]]; try done.
  destruct (split_once ":" nv) as [[nm vals]|]; [|done].
  destruct (_ || _); [done|].
  destruct (first_value vals); [|done]; cbn [result_bind].
  destruct (parse_value ty v); [|done]; cbn [result_bind].
  destruct (parse_fields no_options fields); [|done]; cbn [result_bind].
  by intros [= <-].
Qed.

(** C15: An accepted metric is well formed: its name is not empty and free of the
    delimiters, its tags are sorted and within [MAX_TAGS], its identifier is
    the hash of its name, tags and timestamp, and its timestamp is a ten
    second bucket not after the clock. *)
Theorem parse_wf now clock input m :
  0 ≤ clock → parse now clock input = Ok m → metric_wf clock m.
Proof.
  intros Hc. rewrite parse_is_reference. unfold parse_reference.
  destruct (split "|" input) as [|nv [|ty fields]] eqn:Es; try done.
  destruct (split_once ":" nv) as [[nm vals]|] eqn:En; [|done].
  destruct (is_empty nm) eqn:Enm; [done|]; cbn [orb].
  destruct (_ || _); [done|].
  destruct (first_value vals); [|done]; cbn [result_bind].
  destruct (parse_value ty v); [|done]; cbn [result_bind].
  destruct (parse_fields no_options fields) as [o|] eqn:Eo; [|done]; cbn [result_bind].
  intros [= <-]. apply split_once_some in En as [-> Hcol].
  pose proof (first_field_shape _ _ _ Es) as Hpipe.
  rewrite contains_char_app in Hpipe. apply orb_false_elim in Hpipe as [Hpipe _].
  unfold metric_wf, metric_new; simpl. split_and!; try done.
  - by destruct nm.
  - eapply parse_fields_tags; [|done]. done.
  - by apply bucket_bounds.
  - by apply bucket_bounds.
Qed.

(** The order of the tags of a section does not matter when it has no
    duplicate: the sorted tags, hence the identifier, are the same. *)
Theorem tags_order_insensitive nm ts s1 s2 :
  NoDup (section_tags s1) → section_tags s1 ≡ₚ section_tags s2 →
  parse_tags s1 = parse_tags s2 ∧
  (∀ t1 t2, parse_tags s1 = Ok t1 → parse_tags s2 = Ok t2 →
     metric_id nm (Some t1) ts = metric_id nm (Some t2) ts).
Proof.
  intros Hnd Hp. assert (parse_tags s1 = parse_tags s2) as Heq.
  { assert (NoDup (section_tags s2)) by (by rewrite <- Hp).
    unfold parse_tags. rewrite !dedup_nodup by done.
    rewrite (Permutation_length Hp), (sort_tags_perm_eq _ _ Hp). done. }
  split; [done|]. intros t1 t2 H1' H2'. congruence.
Qed.

(** Only adjacent duplicates are removed: a tag that comes back after
    another one is kept twice. *)
Theorem separated_duplicates_kept s x y :
  x ≠ y → section_tags s = [x; y; x] →
  ∃ t, parse_tags s = Ok t ∧ values t ≡ₚ [x; y; x] ∧ ¬ NoDup (values t).
Proof.
  intros Hxy Hs. unfold parse_tags. rewrite Hs. simpl.
  rewrite decide_False by done. rewrite decide_False by done.
  eexists. split; [done|]. simpl. rewrite sort_tags_perm. split; [done|].
  intros Hnd. inversion_clear Hnd. set_solver.
Qed.

(** A bucket starts at a multiple of ten seconds, at most ten seconds before
    the earlier of the timestamp and the clock; a timestamp before 1970 is
    rounded towards zero, up. *)
Theorem timestamp_to_bucket_spec clock t :
  0 ≤ clock →
  (0 ≤ t → timestamp_to_bucket clock t ≤ Z.min t (clock_secs clock)
           < timestamp_to_bucket clock t + 10) ∧
  (t < 0 → t ≤ timestamp_to_bucket clock t < t + 10) ∧
  timestamp_to_bucket clock t mod 10 = 0.
Proof.
  intros Hc. assert (0 ≤ clock_secs clock) by (unfold clock_secs; case_match; lia).
  split_and!; [| |by apply bucket_bounds]; unfold timestamp_to_bucket.
  - intros Ht. destruct (Z.ltb_spec (clock_secs clock) t).
    + pose proof (Z.quot_rem' (clock_secs clock) 10).
      pose proof (Z.rem_bound_pos (clock_secs clock) 10). lia.
    + pose proof (Z.quot_rem' t 10). pose proof (Z.rem_bound_pos t 10). lia.
  - intros Ht. destruct (Z.ltb_spec (clock_secs clock) t); [lia|].
    pose proof (Z.quot_rem' t 10). pose proof (Z.rem_bound_pos_neg t 10). lia.
Qed.

(** ** Printing and parsing back *)

(** A tag that can be written in a tags section and read back. *)
Definition tag_clean (kv : string * string) : Prop :=
  kv.1 ≠ EmptyString ∧ contains_char ":" kv.1 = false ∧
  contains_char "," kv.1 = false ∧ contains_char "," kv.2 = false.

Lemma render_tag_parse kv : tag_clean kv → tag_of_part (render_tag kv) = kv.
Proof.
  destruct kv as [k v]. intros (_ & Hk & _ & _). simpl in Hk.
  unfold render_tag, tag_of_part. simpl. destruct (is_empty v) eqn:Ev.
  - destruct v; [|done]. by apply split_once_none in Hk as ->.
  - assert (split_once ":" (k +:+ ":" +:+ v) = Some (k, v)) as ->; [|done].
    by apply split_once_some.
Qed.

Lemma render_tag_clean kv :
  tag_clean kv → contains_char "," (render_tag kv) = false ∧ is_empty (render_tag kv) = false.
Proof.
  destruct kv as [k v]. intros (Hne & Hk & H1' & H2'). unfold render_tag. simpl in *.
  destruct (is_empty v); [by destruct k|].
  rewrite !contains_char_app, H1', H2'. by destruct k.
Qed.

Lemma section_tags_render l :
  Forall tag_clean l → section_tags (join "," (render_tag <$> l)) = l.
Proof.
  intros Hl. unfold section_tags. destruct l as [|kv l]; [done|].
  rewrite split_join; [|done|].
  - induction Hl as [|kv' l' Hc Hl IH]; [done|]. rewrite fmap_cons, filter_cons.
    rewrite decide_True by (by apply render_tag_clean). simpl.
    rewrite render_tag_parse by done. by f_equal.
  - intros x (kv' & -> & Hin)%list_elem_of_fmap.
    by apply render_tag_clean, (proj1 (Forall_forall _ _) Hl).
Qed.

Lemma parse_tags_render t :
  tags_wf t → NoDup (values t) → Forall tag_clean (values t) →
  parse_tags (join "," (to_strings t)) = Ok t.
Proof.
  intros [Hs Hlen] Hnd Hc. unfold parse_tags, to_strings.
  rewrite section_tags_render by done. rewrite dedup_nodup by done.
  destruct (Z.ltb_spec MAX_TAGS (zlen (values t))); [lia|].
  rewrite sort_tags_sorted_id by done. by destruct t.
Qed.

(** The wire format of a metric: [name:value|type|#tags|Ttimestamp]. *)
Definition render_metric (nm vtxt ty : string) (t : SortedTags) (tstxt : string) : string :=
  join "|" [nm +:+ ":" +:+ vtxt; ty; "#" +:+ join "," (to_strings t); "T" +:+ tstxt].

(** C16: A metric written in the wire format is parsed back to itself: its name,
    its value, its tags and the bucket of its timestamp. *)
Theorem parse_render now clock nm vtxt ty t tstxt x v sec :
  nm ≠ EmptyString → contains_char ":" nm = false → contains_char "|" nm = false →
  vtxt ≠ EmptyString → contains_char ":" vtxt = false → contains_char "|" vtxt = false →
  parse_f64 vtxt = Ok x → contains_char "|" ty = false → ty ≠ EmptyString →
  parse_value ty x = Ok v →
  tags_wf t → NoDup (values t) → Forall tag_clean (values t) →
  Forall (λ s, contains_char "|" s = false) (to_strings t) →
  contains_char "|" tstxt = false → parse_timestamp tstxt = Ok sec →
  parse now clock (render_metric nm vtxt ty t tstxt) =
    Ok (metric_new now clock nm v (Some t) (Some sec)).
Proof.
  intros Hnm Hnc Hnp Hv Hvc Hvp Hx Htyp Hty Hpv Hwf Hnd Hcl Htp Htsp Hts.
  rewrite parse_is_reference. unfold parse_reference, render_metric.
  assert (contains_char "|" (join "," (to_strings t)) = false) as Hjp.
  { induction Htp as [|s l Hs Hl IH]; [done|]. destruct l; [done|].
    rewrite join_cons by done. by rewrite !contains_char_app, Hs, IH. }
  rewrite split_join; [|done|].
  2: { intros y. rewrite !elem_of_cons, elem_of_nil.
       intros [->|[->|[->|[->|[]]]]]; rewrite ?contains_char_app;
         rewrite ?Hnp, ?Hvp, ?Hjp, ?Htsp; done. }
  assert (split_once ":" (nm +:+ ":" +:+ vtxt) = Some (nm, vtxt)) as ->
    by (by apply split_once_some).
  destruct nm as [|c nm]; [done|]. destruct vtxt as [|d vtxt]; [done|].
  destruct ty as [|b ty]; [done|]. cbn [is_empty orb].
  assert (first_value (String d vtxt) = Ok x) as ->.
  { unfold first_value. by rewrite split_head, Hx. }
  cbn [result_bind]. rewrite Hpv. cbn [result_bind parse_fields parse_optional].
  unfold parse_optional. simpl.
  rewrite !app_nil_l, parse_tags_render by done. simpl. by rewrite Hts.
Qed.
End Properties.

(** * Witnesses *)

#[local] Existing Instances Concrete.ustr_ord Concrete.hasher Concrete.ddsketch.

Lemma parse_wf_witness :
  0 ≤ 100 ∧ metric_wf 100
    (metric_new 100 100 "a" (Count F64.one) None None).
Proof.
  split; [lia|].
  apply (parse_wf 100 100 "a:1|c"); [lia|].
  vm_compute. reflexivity.
Defined.

Lemma tags_order_insensitive_witness :
  parse_tags "b:2,a:1" = parse_tags "a:1,b:2".
Proof.
  apply (tags_order_insensitive "n" 0 "b:2,a:1" "a:1,b:2").
  - vm_compute. repeat constructor; set_solver.
  - vm_compute. apply Permutation_swap.
Defined.

Lemma separated_duplicates_kept_witness :
  ∃ t, parse_tags "a:1,b:2,a:1" = Ok t ∧ values t ≡ₚ [("a","1");("b","2");("a","1")] ∧
       ¬ NoDup (values t).
Proof.
  apply (separated_duplicates_kept "a:1,b:2,a:1" ("a", "1") ("b", "2")).
  - discriminate.
  - vm_compute. reflexivity.
Defined.

Lemma timestamp_to_bucket_spec_witness : timestamp_to_bucket 1000 (-5) = 0 ∧ -5 ≤ timestamp_to_bucket 1000 (-5) < 5.
Proof.
  split; [vm_compute; reflexivity|].
  apply (timestamp_to_bucket_spec 1000 (-5)); lia.
Defined.

Lemma parse_render_witness :
  parse 2000 2000 "hits:1.5|g|#a:1,b|T1656581400" =
  Ok (metric_new 2000 2000 "hits"
       (Gauge (F64.div (F64.of_Z 3) (F64.of_Z 2)))
       (Some {| values := [("a", "1"); ("b", "")] |}) (Some 1656581400)).
Proof.
  apply (parse_render 2000 2000 "hits" "1.5" "g"
           {| values := [("a", "1"); ("b", "")] |} "1656581400"
           (F64.div (F64.of_Z 3) (F64.of_Z 2)));
    try reflexivity; try discriminate; try (vm_compute; reflexivity).
  - split; [exact (sort_tags_sorted [("a", "1"); ("b", "")])|vm_compute; discriminate].
  - repeat constructor; set_solver.
  - repeat constructor; discriminate.
  - repeat constructor.
Defined.
