(* ===== verification/Origin.v ===== *)
(** Origin of a metric: [dogstatsd/src/origin.rs]. *)
From Stdlib Require Import Ascii SpecFloat.
From S2P Require Import Prelude RStr Float Externals Metric.

Definition DATADOG_PREFIX := "datadog.".
Definition AWS_LAMBDA_PREFIX := "aws.lambda".
Definition GOOGLE_CLOUD_RUN_PREFIX := "gcp.run".
Definition AZURE_FUNCTIONS_PREFIX := "azure.functions".
Definition JVM_PREFIX := "jvm.".
Definition RUNTIME_PREFIX := "runtime.".
Definition DD_ORIGIN_TAG_KEY := "origin".
Definition AWS_LAMBDA_TAG_KEY := "function_arn".
Definition GOOGLE_CLOUD_RUN_TAG_VALUE := "cloudrun".
Definition AZURE_APP_SERVICES_TAG_VALUE := "appservice".
Definition AZURE_CONTAINER_APP_TAG_VALUE := "containerapp".
Definition AZURE_FUNCTIONS_TAG_VALUE := "azurefunction".

Inductive OriginProduct := ProductOther | Serverless.
Definition product_u32 (p : OriginProduct) : Z :=
  match p with ProductOther => 0 | Serverless => 1 end.

Inductive OriginCategory :=
  | CategoryOther | AppServicesMetrics | CloudRunMetrics | ContainerAppMetrics
  | LambdaMetrics | AzureFunctionsMetrics.
Definition category_u32 (c : OriginCategory) : Z :=
  match c with
  | CategoryOther => 0 | AppServicesMetrics => 35 | CloudRunMetrics => 36
  | ContainerAppMetrics => 37 | LambdaMetrics => 38 | AzureFunctionsMetrics => 71
  end.

Inductive OriginService :=
  | ServiceOther | ServerlessCustom | ServerlessEnhanced | ServerlessRuntime.
Definition service_u32 (s : OriginService) : Z :=
  match s with
  | ServiceOther => 0 | ServerlessCustom => 472 | ServerlessEnhanced => 473
  | ServerlessRuntime => 474
  end.

(** The fields [find_origin] sets of the protobuf [Origin]. *)
Record Origin := { origin_product : Z; origin_service : Z; origin_category : Z }.

#[export] Instance Origin_eq_dec : EqDecision Origin.
Proof. solve_decision. Defined.

(** Does the pair exist in the tags; an empty value asks for the key alone. *)
Definition has_tag_value (tags : SortedTags) (key value : string) : bool :=
  if is_empty value then
    match find_all tags key with [] => false | _ => true end
  else existsb (λ v, bool_decide (v = value)) (find_all tags key).

(** [split('.').take(2).join(".")]. *)
Definition metric_prefix (metric_name : string) : string :=
  join "." (take 2 (split "." metric_name)).

Definition find_service (metric_name : string) : OriginService :=
  let prefix := metric_prefix metric_name in
  if starts_with JVM_PREFIX metric_name || starts_with RUNTIME_PREFIX metric_name
  then ServerlessRuntime
  else if bool_decide (prefix = AWS_LAMBDA_PREFIX)
       || bool_decide (prefix = GOOGLE_CLOUD_RUN_PREFIX)
       || bool_decide (prefix = AZURE_FUNCTIONS_PREFIX)
  then ServerlessEnhanced
  else ServerlessCustom.

Definition find_category (tags : SortedTags) : option OriginCategory :=
  if has_tag_value tags AWS_LAMBDA_TAG_KEY "" then Some LambdaMetrics
  else if has_tag_value tags DD_ORIGIN_TAG_KEY AZURE_APP_SERVICES_TAG_VALUE
  then Some AppServicesMetrics
  else if has_tag_value tags DD_ORIGIN_TAG_KEY GOOGLE_CLOUD_RUN_TAG_VALUE
  then Some CloudRunMetrics
  else if has_tag_value tags DD_ORIGIN_TAG_KEY AZURE_CONTAINER_APP_TAG_VALUE
  then Some ContainerAppMetrics
  else if has_tag_value tags DD_ORIGIN_TAG_KEY AZURE_FUNCTIONS_TAG_VALUE
  then Some AzureFunctionsMetrics
  else None.

(** [Metric::find_origin], a function of the name of the metric and the tags. *)
Definition find_origin (metric_name : string) (tags : SortedTags) : option Origin :=
  if starts_with DATADOG_PREFIX metric_name then None else
  match find_category tags with
  | Some category =>
      Some {| origin_product := product_u32 Serverless;
              origin_service := service_u32 (find_service metric_name);
              origin_category := category_u32 category |}
  | None => None
  end.

(** * Facts *)

Lemma find_all_elem t k v : v ∈ find_all t k ↔ (k, v) ∈ values t.
Proof.
  unfold find_all. rewrite list_elem_of_omap. split.
  - intros ([k' v'] & Hin & Hv). simpl in Hv. case_decide; naive_solver.
  - intros Hin. exists (k, v). simpl. by rewrite decide_True.
Qed.

Lemma has_tag_value_key t k : has_tag_value t k "" = true ↔ ∃ v, (k, v) ∈ values t.
Proof.
  unfold has_tag_value. simpl. split.
  - destruct (find_all t k) as [|v l] eqn:E; [done|]. intros _. exists v.
    apply find_all_elem. rewrite E. by left.
  - intros [v Hv%find_all_elem]. destruct (find_all t k); [by apply elem_of_nil in Hv|done].
Qed.

Lemma has_tag_value_pair t k v :
  v ≠ EmptyString → has_tag_value t k v = true ↔ (k, v) ∈ values t.
Proof.
  intros Hv. unfold has_tag_value. destruct v as [|c v]; [done|]. simpl.
  rewrite <- find_all_elem, existsb_exists. split.
  - intros (w & Hin & ->%bool_decide_eq_true). by apply list_elem_of_In.
  - intros Hin%list_elem_of_In. eexists. split; [done|]. by apply bool_decide_eq_true.
Qed.

(** An origin is found exactly for the metrics outside the [datadog.]
    namespace that carry a known platform tag; the Lambda tag wins over the
    [origin] tag, and the origin only depends on the set of the tags. *)
Theorem find_origin_spec nm t :
  (find_origin nm t ≠ None ↔
     ¬ (∃ rest, nm = DATADOG_PREFIX +:+ rest) ∧
     ((∃ v, (AWS_LAMBDA_TAG_KEY, v) ∈ values t) ∨
      ∃ v, (DD_ORIGIN_TAG_KEY, v) ∈ values t ∧
           v ∈ [AZURE_APP_SERVICES_TAG_VALUE; GOOGLE_CLOUD_RUN_TAG_VALUE;
                AZURE_CONTAINER_APP_TAG_VALUE; AZURE_FUNCTIONS_TAG_VALUE])) ∧
  (∀ o v, find_origin nm t = Some o → (AWS_LAMBDA_TAG_KEY, v) ∈ values t →
     origin_category o = category_u32 LambdaMetrics) ∧
  (∀ t', values t' ≡ₚ values t → find_origin nm t' = find_origin nm t).
Proof.
  split_and!.
  - unfold find_origin. rewrite <- starts_with_spec.
    destruct (starts_with DATADOG_PREFIX nm); [naive_solver|].
    assert (find_category t ≠ None ↔
      has_tag_value t AWS_LAMBDA_TAG_KEY "" = true ∨
      has_tag_value t DD_ORIGIN_TAG_KEY AZURE_APP_SERVICES_TAG_VALUE = true ∨
      has_tag_value t DD_ORIGIN_TAG_KEY GOOGLE_CLOUD_RUN_TAG_VALUE = true ∨
      has_tag_value t DD_ORIGIN_TAG_KEY AZURE_CONTAINER_APP_TAG_VALUE = true ∨
      has_tag_value t DD_ORIGIN_TAG_KEY AZURE_FUNCTIONS_TAG_VALUE = true) as Hc.
    { unfold find_category. repeat case_match; naive_solver. }
    rewrite has_tag_value_key, !has_tag_value_pair in Hc by done.
    transitivity (find_category t ≠ None).
    { destruct (find_category t); naive_solver. }
    rewrite Hc. setoid_rewrite elem_of_cons. setoid_rewrite elem_of_cons.
    setoid_rewrite elem_of_cons. setoid_rewrite elem_of_cons.
    setoid_rewrite elem_of_nil. naive_solver.
  - intros o v Ho Hv. unfold find_origin in Ho.
    assert (find_category t = Some LambdaMetrics) as Hc.
    { unfold find_category. by rewrite (proj2 (has_tag_value_key t _)) by eauto. }
    rewrite Hc in Ho. case_match; naive_solver.
  - intros t' Hp.
    assert (∀ k v, has_tag_value t' k v = has_tag_value t k v) as Hh.
    { intros k v. apply eq_true_iff_eq. destruct (decide (v = EmptyString)) as [->|].
      - rewrite !has_tag_value_key. by setoid_rewrite Hp.
      - rewrite !has_tag_value_pair by done. by rewrite Hp. }
    unfold find_origin, find_category. by rewrite !Hh.
Qed.

Example lambda_origin :
  find_origin "aws.lambda.enhanced.errors" {| values := [("function_arn", "arn:1")] |} =
  Some {| origin_product := 1; origin_service := 473; origin_category := 38 |}.
Proof. vm_compute. reflexivity. Qed.
Example azure_runtime_origin :
  find_origin "jvm.heap" {| values := [("a", "b"); ("origin", "azurefunction")] |} =
  Some {| origin_product := 1; origin_service := 474; origin_category := 71 |}.
Proof. vm_compute. reflexivity. Qed.
