(* ===== verification/Aggregator.v ===== *)
(** Aggregation of metrics: [dogstatsd/src/aggregator/core.rs] and the wire types
    of [dogstatsd/src/datadog/series.rs].

    The aggregator keeps one entry per context (name, tags and ten second
    bucket) in a hash table keyed by the metric's identifier, merges the values
    that arrive for the same context, and empties itself into batches bounded in
    entries and bytes.  [agg_map] is its abstract state, a finite map from
    identifiers to metrics; [insert_refines] relates the two. *)
From Stdlib Require Import Ascii SpecFloat.
From S2P Require Import Prelude RStr Float Externals Metric Origin.

(** * Wire types *)

Inductive DdMetricKind := KindCount | KindGauge.
Definition kind_u32 (k : DdMetricKind) : Z := match k with KindCount => 0 | KindGauge => 1 end.

Record Point := { point_timestamp : Z; point_value : f64 }.

Record OriginToShip := {
  ship_origin_product : Z;
  ship_origin_sub_product : Z;
  ship_origin_product_detail : Z;
}.

Record MetricToShip := {
  ship_metric : string;
  ship_point : Point;
  ship_resources : list Resource;
  ship_kind : DdMetricKind;
  ship_tags : list string;
  ship_metadata : option OriginToShip;
}.

(** [Series]: a batch of metrics. *)
Abbreviation Series := (list MetricToShip).

Section Wire.
Context `{!DDSketch}.

(** The fields the code sets of the protobuf [Sketch]: the dogsketch the
    values are merged into, with its timestamp. *)
Record Sketch := {
  sk_metric : string;
  sk_dogsketch : sketch * Z;
  sk_tags : list string;
  sk_origin : option Origin;
}.
End Wire.
Abbreviation SketchPayload := (list Sketch).

(** The serializers of [protobuf] and [serde_json]: the size of an encoded
    sketch, and the length of a metric's JSON text when it can be serialized. *)
Class Encoders `{!DDSketch} := {
  compute_size : Sketch → Z;
  json_len : MetricToShip → option Z;
}.

(** * Values *)

Inductive CreationError := Contexts.
Inductive InsertError := Overflow.

Section Aggregator.
Context `{!UstrOrd, !Hasher, !DDSketch, !HashTable Metric}.

Definition get_value (v : MetricValue) : option f64 :=
  match v with Count c => Some c | Gauge g => Some g | Distribution _ => None end.
Definition get_sketch (v : MetricValue) : option sketch :=
  match v with Distribution d => Some d | _ => None end.

(** [unwrap_or_default] of an [f64] is [0.0]. *)
Definition aggregate (self : MetricValue) (metric : Metric) : MetricValue :=
  match self with
  | Count count => Count (F64.add count (default F64.zero (get_value (m_value metric))))
  | Gauge _ => Gauge (default F64.zero (get_value (m_value metric)))
  | Distribution d =>
      match get_sketch (m_value metric) with
      | Some v => Distribution (sketch_merge d v)
      | None => Distribution d
      end
  end.

Definition is_distribution (m : Metric) : bool :=
  match m_value m with Distribution _ => true | _ => false end.

Definition set_value (m : Metric) (v : MetricValue) : Metric :=
  {| m_name := m_name m; m_value := v; m_tags := m_tags m; m_id := m_id m;
     m_timestamp := m_timestamp m |}.

(** * State *)

Record Aggregator := {
  agg_tags : SortedTags;
  map : htable Metric;
  max_batch_entries_single_metric : Z;
  max_batch_bytes_single_metric : Z;
  max_batch_entries_sketch_metric : Z;
  max_batch_bytes_sketch_metric : Z;
  max_context : Z;
}.

Definition with_map (a : Aggregator) (t : htable Metric) : Aggregator :=
  {| agg_tags := agg_tags a; map := t;
     max_batch_entries_single_metric := max_batch_entries_single_metric a;
     max_batch_bytes_single_metric := max_batch_bytes_single_metric a;
     max_batch_entries_sketch_metric := max_batch_entries_sketch_metric a;
     max_batch_bytes_sketch_metric := max_batch_bytes_sketch_metric a;
     max_context := max_context a |}.

Definition aggregator_new (tags : SortedTags) (max_ctx : Z) : result Aggregator CreationError :=
  if MAX_CONTEXTS <? max_ctx then Err Contexts else
  Ok {| agg_tags := tags; map := ht_new;
        max_batch_entries_single_metric := MAX_ENTRIES_SINGLE_METRIC;
        max_batch_bytes_single_metric := MAX_SIZE_BYTES_SINGLE_METRIC;
        max_batch_entries_sketch_metric := MAX_ENTRIES_SKETCH_METRIC;
        max_batch_bytes_sketch_metric := MAX_SIZE_SKETCH_METRIC;
        max_context := max_ctx |}.

Definition id_of (m : Metric) : Z := metric_id (m_name m) (m_tags m) (m_timestamp m).

(** [Aggregator::insert]. *)
Definition insert (a : Aggregator) (metric : Metric) : result unit InsertError * Aggregator :=
  let id := id_of metric in
  let len := ht_len (map a) in
  let same m := m_id m =? id in
  match ht_find (map a) id same with
  | None =>
      if max_context a <=? len then (Err Overflow, a)
      else (Ok tt, with_map a (ht_insert id metric (map a)))
  | Some _ =>
      (Ok tt, with_map a
         (ht_modify id same (λ m, set_value m (aggregate (m_value m) metric)) (map a)))
  end.

Definition clear (a : Aggregator) : Aggregator := with_map a ht_new.

Definition get_entry_by_id (a : Aggregator) (nm : string) (ts : option SortedTags) (t : Z)
    : option Metric :=
  let id := metric_id nm ts t in
  ht_find (map a) id (λ m, m_id m =? id).

(** * Building payloads *)

(** The tags of the payload: the base tags extended by the metric's. *)
Definition merged_tags (entry : Metric) (base : SortedTags) : SortedTags :=
  match m_tags entry with Some ts => extend base ts | None => base end.

Definition build_sketch (entry : Metric) (base : SortedTags) : option Sketch :=
  match get_sketch (m_value entry) with
  | Some d =>
      let tags := merged_tags entry base in
      Some {| sk_metric := m_name entry;
              sk_dogsketch := (d, m_timestamp entry);
              sk_tags := to_chars tags;
              sk_origin := find_origin (m_name entry) tags |}
  | None => None
  end.

(** [None] stands for the [unreachable!] of a distribution: the callers only
    pass the other metrics. *)
Definition build_metric (entry : Metric) (base : SortedTags) : option MetricToShip :=
  let resources :=
    match m_tags entry with Some ts => to_resources ts | None => [] end in
  let ship kind v :=
    let tags := merged_tags entry base in
    Some {| ship_metric := m_name entry;
            ship_point := {| point_timestamp := wrap64 (m_timestamp entry); point_value := v |};
            ship_resources := resources;
            ship_kind := kind;
            ship_tags := to_strings tags;
            ship_metadata :=
              (λ o, {| ship_origin_product := origin_product o;
                       ship_origin_sub_product := origin_category o;
                       ship_origin_product_detail := origin_service o |})
              <$> find_origin (m_name entry) tags |} in
  match m_value entry with
  | Count v => ship KindCount v
  | Gauge v => ship KindGauge v
  | Distribution _ => None
  end.

Definition distributions_to_protobuf (a : Aggregator) : SketchPayload :=
  omap (λ m, if is_distribution m then build_sketch m (agg_tags a) else None) (ht_iter (map a)).

Definition to_series (a : Aggregator) : Series :=
  omap (λ m, if is_distribution m then None else build_metric m (agg_tags a)) (ht_iter (map a)).
End Aggregator.

(** * Batches *)

(** The state of the batching loops: finished batches, the batch being filled
    and its size in bytes ([this_batch_size], a [u64]). *)
Record Batching (A : Type) := { batched : list (list A); current : list A; this_batch_size : Z }.
Arguments Build_Batching {A}.
Arguments batched {A}.
Arguments current {A}.
Arguments this_batch_size {A}.

Definition batching_start {A} : Batching A :=
  {| batched := []; current := []; this_batch_size := 0 |}.

(** One iteration: close the current batch when the next item does not fit in
    it, unless it has size zero, then add the item. *)
Definition batch_item {A} (max_entries max_bytes : Z) (size : A → Z) (b : Batching A) (x : A)
    : Batching A :=
  let b :=
    if (max_entries <=? zlen (current b))
       || (max_bytes <=? wrap64 (this_batch_size b + size x)) then
      if this_batch_size b =? 0 then b
      else {| batched := batched b ++ [current b]; current := []; this_batch_size := 0 |}
    else b in
  {| batched := batched b; current := current b ++ [x];
     this_batch_size := wrap64 (this_batch_size b + size x) |}.

Definition batching_finish {A} (b : Batching A) : list (list A) :=
  match current b with [] => batched b | _ => batched b ++ [current b] end.

Definition batches {A} (max_entries max_bytes : Z) (size : A → Z) (l : list A) : list (list A) :=
  batching_finish (foldl (batch_item max_entries max_bytes size) batching_start l).

Section Consume.
Context `{!UstrOrd, !Hasher, !DDSketch, !HashTable Metric, !Encoders}.

Definition consume_distributions (a : Aggregator) : list SketchPayload * Aggregator :=
  let '(entries, rest) := ht_extract_if is_distribution (map a) in
  let sketches := omap (λ m, build_sketch m (agg_tags a)) entries in
  (batches (max_batch_entries_sketch_metric a) (max_batch_bytes_sketch_metric a)
     compute_size sketches,
   with_map a rest).

(** A metric that cannot be serialized counts for no bytes and is skipped. *)
Definition serialized_metric_size (m : MetricToShip) : Z := default 0 (json_len m).

Definition consume_metrics (a : Aggregator) : list Series * Aggregator :=
  let '(entries, rest) := ht_extract_if (λ m, negb (is_distribution m)) (map a) in
  let metrics := omap (λ m, build_metric m (agg_tags a)) entries in
  let sized := filter (λ m, 0 < serialized_metric_size m) metrics in
  (batches (max_batch_entries_single_metric a) (max_batch_bytes_single_metric a)
     serialized_metric_size sized,
   with_map a rest).
End Consume.

(** * Facts about batches *)

Section BatchFacts.
Context {A : Type} (max_entries max_bytes : Z) (size : A → Z).
Hypothesis max_entries_pos : 1 ≤ max_entries.
Hypothesis max_bytes_range : 0 < max_bytes ≤ 2 ^ 63.

(** A batch that may be sent: not empty, within the number of entries, and
    within the bytes unless it is a single oversized item. *)
Definition batch_ok (b : list A) : Prop :=
  b ≠ [] ∧ zlen b ≤ max_entries ∧ (sum_size size b < max_bytes ∨ length b = 1%nat).

Definition batching_inv (b : Batching A) : Prop :=
  this_batch_size b = sum_size size (current b) ∧
  (current b = [] ∨ batch_ok (current b)) ∧
  (∀ x, x ∈ current b → 0 < size x ≤ isize_max) ∧
  Forall batch_ok (batched b).

Lemma batch_item_inv b x :
  0 < size x ≤ isize_max → batching_inv b → batching_inv (batch_item max_entries max_bytes size b x).
Proof.
  intros Hx (Hsz & Hcur & Hpos & Hdone).
  assert (isize_max < 2 ^ 63) by (vm_compute; done).
  assert (0 ≤ sum_size size (current b) < 2 ^ 63) as Hrange.
  { destruct Hcur as [->|(Hne & _ & [Hlt|H1])]; simpl; [lia| |].
    - split; [|lia]. apply sum_size_nonneg. intros y Hy. specialize (Hpos y Hy). lia.
    - destruct (current b) as [|y [|??]]; try done. simpl.
      specialize (Hpos y (list_elem_of_here _ _)). lia. }
  assert (current b = [] ↔ this_batch_size b = 0) as Hz.
  { rewrite Hsz. destruct (current b) as [|y l]; [done|]. split; [done|]. simpl.
    assert (0 ≤ sum_size size l).
    { apply sum_size_nonneg. intros z Hz. specialize (Hpos z). set_solver by lia. }
    specialize (Hpos y (list_elem_of_here _ _)). lia. }
  unfold batch_item. rewrite Hsz in *. rewrite wrap64_small by lia.
  destruct (_ || _) eqn:Ecut.
  - destruct (Z.eqb_spec (sum_size size (current b)) 0) as [E0|E0].
    + apply Hz in E0. unfold batching_inv. rewrite E0 in *. simpl in *.
      rewrite wrap64_small by lia.
      split_and!; [lia| |set_solver|done].
      right. unfold batch_ok. simpl. split_and!; [done|lia|by right].
    + destruct Hcur as [Hc|Hok]; [by apply Hz in Hc|].
      unfold batching_inv. simpl. rewrite wrap64_small by lia.
      split_and!; [lia| |set_solver|by apply Forall_app_2; [|constructor]].
      right. unfold batch_ok. simpl. split_and!; [done|lia|by right].
  - zify_bool.
    unfold batching_inv. simpl. rewrite wrap64_small, sum_size_app by lia. simpl.
    split_and!; [lia| |set_solver|done].
    right. unfold batch_ok. rewrite length_app, sum_size_app. simpl.
    split_and!; [by destruct (current b)|lia|left; lia].
Qed.

Lemma batch_item_items b x :
  let b' := batch_item max_entries max_bytes size b x in
  concat (batched b') ++ current b' = (concat (batched b) ++ current b) ++ [x].
Proof.
  unfold batch_item. simpl.
  destruct (_ || _); [destruct (_ =? _)|]; simpl; rewrite ?concat_app; simpl;
    by rewrite ?app_nil_r, ?app_assoc.
Qed.

(** Batching loses nothing, keeps the order, and respects both limits. *)
Lemma batches_spec l :
  (∀ x, x ∈ l → 0 < size x ≤ isize_max) →
  concat (batches max_entries max_bytes size l) = l ∧
  Forall batch_ok (batches max_entries max_bytes size l).
Proof.
  intros Hl. unfold batches.
  set (f := batch_item max_entries max_bytes size).
  assert (∀ l b, (∀ x, x ∈ l → 0 < size x ≤ isize_max) → batching_inv b →
    batching_inv (foldl f b l) ∧
    concat (batched (foldl f b l)) ++ current (foldl f b l)
      = (concat (batched b) ++ current b) ++ l) as Hfold.
  { clear l Hl. induction l as [|x l IH]; intros b Hl Hb; simpl; [by rewrite app_nil_r|].
    destruct (IH (f b x)) as [Hi Hc].
    - set_solver.
    - apply batch_item_inv; [set_solver|done].
    - split; [done|]. rewrite Hc. unfold f at 1 2. rewrite batch_item_items.
      by rewrite <- !app_assoc. }
  destruct (Hfold l batching_start Hl) as [(_ & Hcur & _ & Hdone) Hc].
  { repeat split; try done; [by left|set_solver|set_solver]. }
  simpl in Hc. unfold batching_finish.
  destruct (current (foldl f batching_start l)) as [|x c] eqn:E.
  - rewrite app_nil_r in Hc. by rewrite Hc.
  - split; [by rewrite concat_app; simpl; rewrite app_nil_r|].
    apply Forall_app_2; [done|]. constructor; [|done].
    by destruct Hcur as [?|?].
Qed.
End BatchFacts.

(** * The aggregator as a finite map *)

Section Refinement.
Context `{!UstrOrd, !Hasher, !DDSketch, !HashTable Metric, !HashTableLaws Metric}.

(** Contexts by identifier: the abstract state of the aggregator. *)
Definition agg_map (a : Aggregator) : gmap Z Metric := list_to_map (ht_entries (map a)).

(** A metric carries the identifier of its name, tags and timestamp. *)
Definition has_id (m : Metric) : Prop := m_id m = id_of m.

Definition agg_wf (a : Aggregator) : Prop :=
  NoDup (ht_entries (map a)).*1 ∧
  Forall (λ e, e.1 = m_id e.2 ∧ has_id e.2) (ht_entries (map a)) ∧
  zlen (ht_entries (map a)) ≤ max_context a.

(** What inserting means on the abstract state: merge into the context if it
    exists, add a context if there is room, fail otherwise. *)
Definition spec_insert (cap : Z) (M : gmap Z Metric) (m : Metric) : option (gmap Z Metric) :=
  match M !! m_id m with
  | Some m0 => Some (<[m_id m := set_value m0 (aggregate (m_value m0) m)]> M)
  | None => if cap <=? Z.of_nat (size M) then None else Some (<[m_id m := m]> M)
  end.

Lemma agg_map_size a : agg_wf a → Z.of_nat (size (agg_map a)) = zlen (ht_entries (map a)).
Proof.
  intros (Hnd & _). unfold agg_map. f_equal.
  rewrite <- (length_map_to_list (list_to_map _ : gmap Z Metric)).
  by apply Permutation_length, map_to_list_to_map.
Qed.

Lemma agg_map_elem a h m : agg_wf a → (h, m) ∈ ht_entries (map a) ↔ agg_map a !! h = Some m.
Proof. intros (Hnd & _). unfold agg_map. by rewrite elem_of_list_to_map. Qed.

(** Looking a context up in the table is looking it up in the map. *)
Lemma find_lookup a i :
  agg_wf a → ht_find (map a) i (λ m, m_id m =? i) = agg_map a !! i.
Proof.
  intros Hwf. destruct (ht_find _ _ _) as [m|] eqn:E.
  - apply ht_find_some in E as [Hin _]. symmetry. by apply agg_map_elem.
  - symmetry. apply not_elem_of_list_to_map_1. intros ([h m] & -> & Hin)%list_elem_of_fmap.
    pose proof (ht_find_none _ _ _ _ E Hin) as Hf.
    destruct Hwf as (_ & Hall & _). rewrite Forall_forall in Hall.
    destruct (Hall _ Hin) as [Heq _]. simpl in *. subst. by rewrite Z.eqb_refl in Hf.
Qed.

Lemma agg_wf_new tags cap a : 0 ≤ cap → aggregator_new tags cap = Ok a → agg_wf a ∧ agg_map a = ∅.
Proof.
  intros Hcap. unfold aggregator_new. case_match; [done|]. intros [= <-].
  unfold agg_wf, agg_map. simpl. rewrite ht_entries_new. simpl.
  split_and!; [constructor|constructor|lia|done].
Qed.

(** Replace the entries of the table by a permutation of [l]. *)
Lemma with_map_wf a t l :
  ht_entries t ≡ₚ l → NoDup l.*1 → Forall (λ e, e.1 = m_id e.2 ∧ has_id e.2) l →
  zlen l ≤ max_context a →
  agg_wf (with_map a t) ∧ agg_map (with_map a t) = list_to_map l.
Proof.
  intros Hp Hnd Hall Hlen. unfold agg_wf, agg_map.
  change (map (with_map a t)) with t. change (max_context (with_map a t)) with (max_context a).
  assert (NoDup (ht_entries t).*1) as Hnd'.
  { by rewrite (NoDup_Permutation_proper _ _ (fmap_Permutation fst _ _ Hp)). }
  split_and!.
  - exact Hnd'.
  - by apply (Permutation_Forall (Permutation_sym Hp)).
  - by rewrite (Permutation_length Hp).
  - by apply list_to_map_proper.
Qed.

Lemma insert_refines_map a m r a' :
  agg_wf a → has_id m → insert a m = (r, a') →
  agg_wf a' ∧
  match spec_insert (max_context a) (agg_map a) m with
  | Some M => r = Ok tt ∧ agg_map a' = M
  | None => r = Err Overflow ∧ a' = a
  end.
Proof.
  intros Hwf Hid. unfold insert, spec_insert. rewrite <- Hid.
  pose proof (find_lookup a (m_id m) Hwf) as Hf. rewrite <- Hf.
  destruct (ht_find _ _ _) as [m0|] eqn:E.
  - intros [= <- <-].
    edestruct (ht_entries_modify (map a) (m_id m) (λ m1, m_id m1 =? m_id m)
      (λ m1, set_value m1 (aggregate (m_value m1) m)) m0 E) as (l & Hl & Hl').
    destruct Hwf as (Hnd & Hall & Hlen).
    pose proof (list_to_map_proper _ _ Hnd Hl) as Habs.
    rewrite (NoDup_Permutation_proper _ _ (fmap_Permutation fst _ _ Hl)) in Hnd.
    apply (Permutation_Forall Hl) in Hall.
    apply Forall_cons in Hall as [[Hm0 Hid0] Hall]. simpl in *.
    edestruct (with_map_wf a _ _ Hl') as [Hwf' Hmap].
    + done.
    + constructor; [|done]. simpl. by split.
    + rewrite (Permutation_length Hl) in Hlen. done.
    + split; [done|]. split; [done|]. rewrite Hmap. unfold agg_map.
      rewrite Habs. simpl. by rewrite insert_insert_eq.
  - rewrite ht_len_entries, (agg_map_size a Hwf).
    destruct (Z.leb_spec (max_context a) (zlen (ht_entries (map a)))).
    { intros [= <- <-]. done. }
    intros [= <- <-]. pose proof Hwf as (Hnd & Hall & Hlen).
    edestruct (with_map_wf a _ _ (ht_entries_insert (map a) (m_id m) m)) as [Hwf' Hmap].
    + simpl. constructor; [|done]. intros ([h m1] & Heq & Hin)%list_elem_of_fmap.
      apply agg_map_elem in Hin; [|done]. simpl in Heq. congruence.
    + constructor; [done|done].
    + simpl. lia.
    + done.
Qed.
End Refinement.

(** * Properties *)

Section InsertProperties.
Context `{!UstrOrd, !Hasher, !DDSketch, !HashTable Metric, !HashTableLaws Metric}.

(** C12: On a well-formed aggregator [insert] is the insertion of the abstract map:
    it merges into an existing context, adds one while there is room, and is an
    overflow that changes nothing otherwise; the result is well formed, and
    [get_entry_by_id] reads the abstract map. *)
Theorem insert_refines a m r a' :
  agg_wf a → has_id m → insert a m = (r, a') →
  agg_wf a' ∧
  match spec_insert (max_context a) (agg_map a) m with
  | Some M => r = Ok tt ∧ agg_map a' = M
  | None => r = Err Overflow ∧ a' = a
  end ∧
  get_entry_by_id a' (m_name m) (m_tags m) (m_timestamp m) = agg_map a' !! m_id m.
Proof.
  intros Hwf Hid Hins. destruct (insert_refines_map _ _ _ _ Hwf Hid Hins) as [Hwf' Hspec].
  split_and!; [done|done|]. red in Hid. rewrite Hid. by apply (find_lookup a' (id_of m)).
Qed.

Definition insert_all (a : Aggregator) (ms : list Metric) : Aggregator :=
  foldl (λ a m, (insert a m).2) a ms.

Lemma insert_wf a m : agg_wf a → has_id m → agg_wf (insert a m).2.
Proof.
  intros Hwf Hid. destruct (insert a m) as [r a'] eqn:E.
  by apply (insert_refines_map a m r a').
Qed.

Lemma insert_all_wf a ms : agg_wf a → Forall has_id ms → agg_wf (insert_all a ms).
Proof.
  intros Hwf Hms. revert a Hwf. induction Hms as [|m ms Hm _ IH]; intros a Hwf; [done|].
  by apply IH, insert_wf.
Qed.

Lemma insert_existing a m m0 :
  agg_wf a → has_id m → agg_map a !! m_id m = Some m0 →
  let a' := (insert a m).2 in
  agg_wf a' ∧ agg_map a' = <[m_id m := set_value m0 (aggregate (m_value m0) m)]> (agg_map a).
Proof.
  intros Hwf Hid Hm0. destruct (insert a m) as [r a'] eqn:E. simpl.
  destruct (insert_refines_map _ _ _ _ Hwf Hid E) as [Hwf' Hspec].
  unfold spec_insert in Hspec. rewrite Hm0 in Hspec. destruct Hspec as [_ ->]. done.
Qed.

Lemma insert_all_existing a ms i m0 :
  agg_wf a → Forall (λ m, has_id m ∧ m_id m = i) ms → agg_map a !! i = Some m0 →
  agg_wf (insert_all a ms) ∧
  agg_map (insert_all a ms) = <[i := set_value m0 (foldl aggregate (m_value m0) ms)]> (agg_map a).
Proof.
  revert a m0. induction ms as [|m ms IH]; intros a m0 Hwf Hms Hm0; simpl.
  - split; [done|]. rewrite insert_id; [done|]. by destruct m0.
  - apply Forall_cons in Hms as [[Hid Hi] Hms]. subst i.
    destruct (insert_existing a m m0 Hwf Hid Hm0) as [Hwf' Hmap].
    unfold insert_all in IH |- *. simpl.
    destruct (IH _ (set_value m0 (aggregate (m_value m0) m)) Hwf' Hms) as [Hwf'' Hmap'].
    { rewrite Hmap. by rewrite lookup_insert_eq. }
    split; [done|]. rewrite Hmap', Hmap, insert_insert_eq. done.
Qed.

(** Metrics of one context inserted one after the other end up in a single
    entry, the first metric with the merge of all the values: counts add up,
    a gauge keeps the last value, the other contexts are untouched. *)
Theorem insert_all_same_context a m ms :
  agg_wf a → zlen (ht_entries (map a)) < max_context a → agg_map a !! m_id m = None →
  has_id m → Forall (λ m', has_id m' ∧ m_id m' = m_id m) ms →
  let a' := insert_all a (m :: ms) in
  agg_wf a' ∧
  agg_map a' = <[m_id m := set_value m (foldl aggregate (m_value m) ms)]> (agg_map a) ∧
  (∀ v vs, m_value m = Count v → m_value <$> ms = Count <$> vs →
     foldl aggregate (m_value m) ms = Count (foldl F64.add v vs)) ∧
  (∀ v vs, m_value m = Gauge v → m_value <$> ms = Gauge <$> vs →
     foldl aggregate (m_value m) ms = Gauge (List.last vs v)).
Proof.
  intros Hwf Hroom Hnone Hid Hms. unfold insert_all. simpl.
  destruct (insert a m) as [r a1] eqn:E. simpl.
  destruct (insert_refines_map _ _ _ _ Hwf Hid E) as [Hwf1 Hspec].
  unfold spec_insert in Hspec. rewrite Hnone, agg_map_size in Hspec by done.
  destruct (Z.leb_spec (max_context a) (zlen (ht_entries (map a)))); [lia|].
  destruct Hspec as [_ Hmap1].
  destruct (insert_all_existing a1 ms (m_id m) m Hwf1 Hms) as [Hwf2 Hmap2].
  { rewrite Hmap1. by rewrite lookup_insert_eq. }
  unfold insert_all in Hwf2, Hmap2. split_and!; [done| | |].
  - rewrite Hmap2, Hmap1, insert_insert_eq. done.
  - clear. intros v vs ->. revert v vs. induction ms as [|m' ms IH]; intros v vs Hvs.
    + by destruct vs.
    + destruct vs as [|v' vs]; [done|]. simpl in *. injection Hvs as -> Hvs.
      simpl. by apply IH.
  - clear. intros v vs ->. revert v vs. induction ms as [|m' ms IH]; intros v vs Hvs.
    + by destruct vs.
    + destruct vs as [|v' vs]; [done|]. rewrite last_shift.
      rewrite !fmap_cons in Hvs. injection Hvs as Hv Hvs.
      simpl. rewrite Hv. simpl. by apply IH.
Qed.
End InsertProperties.

Class EncoderLaws `{!DDSketch, !Encoders} := {
  (** A sketch has a dogsketch, so its encoding is not empty; no encoding is
      larger than the largest allocation. *)
  compute_size_range s : 0 < compute_size s ≤ isize_max;
  json_len_range m n : json_len m = Some n → 0 ≤ n ≤ isize_max;
}.

Section FlushProperties.
Context `{!UstrOrd, !Hasher, !DDSketch, !HashTable Metric, !HashTableLaws Metric}.
Context `{!Encoders, !EncoderLaws}.

(** The limits every aggregator is created with. *)
Definition agg_limits (a : Aggregator) : Prop :=
  max_batch_entries_single_metric a = MAX_ENTRIES_SINGLE_METRIC ∧
  max_batch_bytes_single_metric a = MAX_SIZE_BYTES_SINGLE_METRIC ∧
  max_batch_entries_sketch_metric a = MAX_ENTRIES_SKETCH_METRIC ∧
  max_batch_bytes_sketch_metric a = MAX_SIZE_SKETCH_METRIC.

Lemma aggregator_new_limits tags cap a : aggregator_new tags cap = Ok a → agg_limits a.
Proof. unfold aggregator_new. case_match; [done|]. by intros [= <-]. Qed.

(** Removing the entries that satisfy [p] from the table. *)
Lemma extract_wf a p :
  agg_wf a →
  let '(xs, rest) := ht_extract_if p (map a) in
  xs ≡ₚ filter (λ m, p m = true) (map_to_list (agg_map a)).*2 ∧
  agg_wf (with_map a rest) ∧
  agg_map (with_map a rest) = filter (λ kv, p kv.2 = false) (agg_map a).
Proof.
  intros Hwf. pose proof (ht_extract_fst (map a) p) as H1'.
  pose proof (ht_extract_snd (map a) p) as H2'.
  destruct (ht_extract_if p (map a)) as [xs rest]. simpl in *.
  pose proof Hwf as (Hnd & Hall & Hlen).
  edestruct (with_map_wf a _ _ H2') as [Hwf' Hmap].
  - clear -Hnd. induction (ht_entries (map a)) as [|e l IH]; [constructor|].
    apply NoDup_cons in Hnd as [Hnin Hnd]. rewrite filter_cons. case_decide; [|auto].
    simpl. constructor; [|auto]. intros (e' & He & [_ Hin]%list_elem_of_filter)%list_elem_of_fmap.
    apply Hnin. rewrite He. by apply list_elem_of_fmap_2.
  - apply Forall_forall. intros e [_ Hin]%list_elem_of_filter.
    by apply (proj1 (Forall_forall _ _) Hall).
  - pose proof (length_filter (λ e : Z * Metric, p e.2 = false) (ht_entries (map a))). lia.
  - split_and!; [|done|].
    + rewrite H1'. apply (filter_Permutation (λ m : Metric, p m = true)). unfold ht_iter. symmetry.
      apply fmap_Permutation. by apply map_to_list_to_map.
    + apply map_eq. intros i. apply option_eq. intros m.
      rewrite map_lookup_filter_Some, <- !agg_map_elem by done. simpl.
      rewrite H2', list_elem_of_filter. simpl. naive_solver.
Qed.

(** The series of the metrics that are not distributions, in some order. *)
Definition flushed_metrics (a : Aggregator) : list MetricToShip :=
  filter (λ m, 0 < serialized_metric_size m)
    (omap (λ m, build_metric m (agg_tags a))
       (filter (λ m, negb (is_distribution m) = true) (map_to_list (agg_map a)).*2)).

Definition flushed_sketches (a : Aggregator) : list Sketch :=
  omap (λ m, build_sketch m (agg_tags a))
    (filter (λ m, is_distribution m = true) (map_to_list (agg_map a)).*2).

Lemma omap_Permutation {X Y} (f : X → option Y) l1 l2 :
  l1 ≡ₚ l2 → omap f l1 ≡ₚ omap f l2.
Proof.
  induction 1 as [|x ?? _ IH|x y ?|]; simpl; try done.
  - destruct (f x); by rewrite IH.
  - destruct (f x), (f y); try done. apply Permutation_swap.
  - by etrans.
Qed.

Lemma consume_metrics_items a :
  agg_wf a → agg_limits a →
  let '(bs, a') := consume_metrics a in
  concat bs ≡ₚ flushed_metrics a ∧
  Forall (batch_ok MAX_ENTRIES_SINGLE_METRIC MAX_SIZE_BYTES_SINGLE_METRIC
            serialized_metric_size) bs ∧
  agg_wf a' ∧
  agg_map a' = filter (λ kv, is_distribution kv.2 = true) (agg_map a).
Proof.
  intros Hwf (He & Hb & _). unfold consume_metrics.
  pose proof (extract_wf a (λ m, negb (is_distribution m)) Hwf) as Hx.
  destruct (ht_extract_if _ _) as [xs rest]. destruct Hx as (Hxs & Hwf' & Hmap).
  rewrite He, Hb.
  edestruct (batches_spec MAX_ENTRIES_SINGLE_METRIC MAX_SIZE_BYTES_SINGLE_METRIC
               serialized_metric_size) as [Hc Hok]; [done|done| |].
  { intros m [Hm _]%list_elem_of_filter. split; [exact Hm|].
    unfold serialized_metric_size. destruct (json_len m) eqn:E; simpl; [|done].
    by apply json_len_range in E as [_ ?]. }
  split_and!; [|exact Hok|done|].
  - rewrite Hc. unfold flushed_metrics. apply filter_Permutation.
    by apply omap_Permutation.
  - rewrite Hmap. apply map_filter_ext. intros i m _. simpl. by rewrite negb_false_iff.
Qed.


(** Flushing the distributions does the same for the sketches, with their
    limits; only the counts and gauges stay. *)
Theorem consume_distributions_spec a :
  agg_wf a → agg_limits a →
  let '(bs, a') := consume_distributions a in
  concat bs ≡ₚ flushed_sketches a ∧
  Forall (batch_ok MAX_ENTRIES_SKETCH_METRIC MAX_SIZE_SKETCH_METRIC compute_size) bs ∧
  agg_wf a' ∧
  agg_map a' = filter (λ kv, is_distribution kv.2 = false) (agg_map a).
Proof.
  intros Hwf (_ & _ & He & Hb). unfold consume_distributions.
  pose proof (extract_wf a is_distribution Hwf) as Hx.
  destruct (ht_extract_if _ _) as [xs rest]. destruct Hx as (Hxs & Hwf' & Hmap).
  rewrite He, Hb.
  edestruct (batches_spec MAX_ENTRIES_SKETCH_METRIC MAX_SIZE_SKETCH_METRIC compute_size)
    as [Hc Hok]; [done|done|intros; apply compute_size_range|].
  split_and!; [|exact Hok|done|done].
  rewrite Hc. by apply omap_Permutation.
Qed.
End FlushProperties.

(** * Witnesses *)
Module AggregatorExamples.
#[local] Existing Instances Concrete.ustr_ord Concrete.hasher Concrete.ddsketch.
#[local] Instance table : HashTable Metric := Concrete.table.
#[local] Instance table_laws : HashTableLaws Metric := Concrete.table_laws.
#[local] Instance encoders : Encoders :=
  {| compute_size _ := 10; json_len _ := Some 100 |}.
#[local] Instance encoder_laws : EncoderLaws.
Proof. split; simpl; [done|]. by intros m n [= <-]. Qed.

Definition agg0 : Aggregator :=
  {| agg_tags := EMPTY_TAGS; map := ht_new;
     max_batch_entries_single_metric := MAX_ENTRIES_SINGLE_METRIC;
     max_batch_bytes_single_metric := MAX_SIZE_BYTES_SINGLE_METRIC;
     max_batch_entries_sketch_metric := MAX_ENTRIES_SKETCH_METRIC;
     max_batch_bytes_sketch_metric := MAX_SIZE_SKETCH_METRIC;
     max_context := 10 |}.
Lemma agg0_new : aggregator_new EMPTY_TAGS 10 = Ok agg0. Proof. reflexivity. Qed.
Lemma agg0_wf : agg_wf agg0. Proof. apply (agg_wf_new EMPTY_TAGS 10 agg0); [lia|exact agg0_new]. Qed.

Definition hits (v : Z) : Metric :=
  metric_new 100 100 "hits" (Count (F64.of_Z v)) None None.
Definition latency : Metric := metric_new 100 100 "latency" (distribution F64.one) None None.
Definition agg2 : Aggregator := insert_all agg0 [hits 1; latency].

Lemma hits_id v : has_id (hits v). Proof. reflexivity. Qed.
Lemma agg2_wf : agg_wf agg2.
Proof.
  apply insert_all_wf; [apply agg0_wf|]. repeat constructor.
Qed.

Lemma insert_refines_witness :
  agg_wf (insert agg0 (hits 1)).2 ∧
  get_entry_by_id (insert agg0 (hits 1)).2 "hits" None 100 = Some (hits 1).
Proof.
  destruct (insert_refines agg0 (hits 1) (Ok tt) (insert agg0 (hits 1)).2) as (Hwf & Hm & Hg).
  - apply agg0_wf.
  - apply hits_id.
  - vm_compute. reflexivity.
  - split; [exact Hwf|]. etransitivity; [exact Hg|]. vm_compute. reflexivity.
Defined.

Lemma insert_all_same_context_witness :
  agg_map (insert_all agg0 [hits 1; hits 2; hits 3]) =
  {[ m_id (hits 1) := hits 6 ]}.
Proof.
  destruct (insert_all_same_context agg0 (hits 1) [hits 2; hits 3]) as (_ & Hm & _).
  - apply agg0_wf.
  - vm_compute. reflexivity.
  - vm_compute. reflexivity.
  - apply hits_id.
  - repeat constructor.
  - etransitivity; [exact Hm|]. vm_compute. reflexivity.
Defined.


Lemma consume_distributions_spec_witness :
  let '(bs, a') := consume_distributions agg2 in
  concat bs ≡ₚ flushed_sketches agg2 ∧ length (concat bs) = 1%nat.
Proof.
  pose proof (consume_distributions_spec agg2 agg2_wf) as Hs.
  destruct (consume_distributions agg2) as [bs a'] eqn:E.
  destruct Hs as (Hc & _); [by repeat split|].
  split; [exact Hc|].
  assert (bs = (consume_distributions agg2).1) as -> by (by rewrite E).
  vm_compute. reflexivity.
Defined.
End AggregatorExamples.
