(* ===== verification/Actor.v ===== *)
(** Services that own their state and process commands from a channel.

    The aggregators and the stats concentrator are tasks of the same shape: they
    own a receiver, loop on [rx.recv().await], and answer through the one-shot
    senders carried by the commands; their handles, cloned freely, only send.
    This file models such a task once: commands are sent by any client at any
    time, the service handles the oldest one at any time, and it ends when a
    command tells it to or when every handle is gone.  [reach_sequential] shows
    that every interleaving is a sequential run of the accepted commands. *)
From S2P Require Import Prelude.

(** What handling a command does: go on with a new state and the answers sent,
    or leave the loop. *)
Inductive outcome (State Reply : Type) :=
  | Continue (s : State) (replies : list Reply)
  | Stop.
Arguments Continue {State Reply} s replies.
Arguments Stop {State Reply}.

Section Actor.
Context {State Cmd Reply : Type} (handle : State → Cmd → outcome State Reply).

(** The service and its channel.  [sent] records the commands the channel
    accepted, in order; once the service ends, its receiver is dropped with the
    commands still queued. *)
Record Service := {
  state : State;
  queue : list Cmd;
  stopped : bool;
  answered : list Reply;
  sent : list Cmd;
}.

Definition service_new (s : State) : Service :=
  {| state := s; queue := []; stopped := false; answered := []; sent := [] |}.

(** [UnboundedSender::send]: an error exactly when the receiver is gone. *)
Definition send (svc : Service) (c : Cmd) : option Service :=
  if stopped svc then None
  else Some {| state := state svc; queue := queue svc ++ [c]; stopped := false;
               answered := answered svc; sent := sent svc ++ [c] |}.

Definition stop (svc : Service) : Service :=
  {| state := state svc; queue := []; stopped := true;
     answered := answered svc; sent := sent svc |}.

(** One turn of [while let Some(command) = rx.recv().await]; nothing to do on an
    empty queue. *)
Definition recv (svc : Service) : option Service :=
  if stopped svc then None else
  match queue svc with
  | [] => None
  | c :: q =>
      match handle (state svc) c with
      | Continue s rs =>
          Some {| state := s; queue := q; stopped := false;
                  answered := answered svc ++ rs; sent := sent svc |}
      | Stop => Some (stop svc)
      end
  end.

Inductive step : Service → Service → Prop :=
  | step_send svc c svc' : send svc c = Some svc' → step svc svc'
  | step_recv svc svc' : recv svc = Some svc' → step svc svc'
  | step_closed svc : stopped svc = false → queue svc = [] → step svc (stop svc).

(** Handling commands one after the other. *)
Fixpoint run (s : State) (cs : list Cmd) : option (State * list Reply) :=
  match cs with
  | [] => Some (s, [])
  | c :: cs =>
      match handle s c with
      | Continue s rs =>
          match run s cs with Some (s', rs') => Some (s', rs ++ rs') | None => None end
      | Stop => None
      end
  end.

Lemma run_snoc s cs c s1 rs1 :
  run s cs = Some (s1, rs1) →
  run s (cs ++ [c]) =
    match handle s1 c with Continue s2 rs2 => Some (s2, rs1 ++ rs2) | Stop => None end.
Proof.
  revert s s1 rs1. induction cs as [|c' cs IH]; intros s s1 rs1; simpl.
  - intros [= -> <-]. destruct (handle s1 c); [|done]. by rewrite app_nil_r.
  - destruct (handle s c') as [s' rs|]; [|done].
    destruct (run s' cs) as [[s'' rs']|] eqn:E; [|done].
    intros [= <- <-]. rewrite (IH _ _ _ E).
    destruct (handle s'' c); [|done]. by rewrite app_assoc.
Qed.

(** The state and the answers are those of a sequential run of the oldest
    commands; while the service runs the others are queued, in order. *)
Definition sequential (s0 : State) (svc : Service) : Prop :=
  ∃ done rest, sent svc = done ++ rest ∧ run s0 done = Some (state svc, answered svc) ∧
    (stopped svc = false → queue svc = rest) ∧ (stopped svc = true → queue svc = []).

Lemma step_sequential s0 svc svc' : sequential s0 svc → step svc svc' → sequential s0 svc'.
Proof.
  intros (d & r & Hs & Hrun & Hq & Hq') Hstep.
  inversion Hstep as [? c ? Hsend|? ? Hrecv|? Hst Hqe]; subst.
  - unfold send in Hsend. destruct (stopped svc) eqn:E; [done|]. injection Hsend as <-.
    exists d, (r ++ [c]). simpl. rewrite Hs, (Hq eq_refl), app_assoc. done.
  - unfold recv in Hrecv. destruct (stopped svc) eqn:E; [done|].
    specialize (Hq eq_refl). rewrite Hq in Hrecv. destruct r as [|c r]; [done|].
    destruct (handle (state svc) c) as [s rs|] eqn:Eh; injection Hrecv as <-.
    + exists (d ++ [c]), r. simpl. rewrite Hs, <- app_assoc. split_and!; try done.
      by rewrite (run_snoc _ _ _ _ _ Hrun), Eh.
    + exists d, (c :: r). simpl. done.
  - exists d, r. simpl. done.
Qed.

Lemma reach_sequential s0 svc : rtc step (service_new s0) svc → sequential s0 svc.
Proof.
  intros Hr. remember (service_new s0) as svc0 eqn:E0.
  assert (sequential s0 svc0) as Hinit by (subst; exists [], []; simpl; done).
  clear E0. induction Hr as [|x y z Hxy _ IH]; [done|].
  apply IH. by eapply step_sequential.
Qed.

(** An invariant of the state carried by all the commands of a class. *)
Lemma run_invariant (I : State → Prop) (P : Cmd → Prop) (s s' : State) cs rs :
  (∀ s c s' rs, I s → P c → handle s c = Continue s' rs → I s') →
  I s → Forall P cs → run s cs = Some (s', rs) → I s'.
Proof.
  intros Hstep. revert s rs. induction cs as [|c cs IH]; intros s rs HI HP; simpl.
  - by intros [= <- _].
  - apply Forall_cons in HP as [Hc HP].
    destruct (handle s c) as [s1 rs1|] eqn:E; [|done].
    destruct (run s1 cs) as [[s2 rs2]|] eqn:E2; [|done]. intros [= <- _].
    eapply IH; [|done|done]. by eapply Hstep.
Qed.

(** ** The service by itself *)

Definition serves (svc svc' : Service) : Prop := recv svc = Some svc'.

Lemma recv_shrinks svc svc' :
  recv svc = Some svc' → (length (queue svc') < length (queue svc))%nat.
Proof.
  unfold recv. destruct (stopped svc); [done|]. destruct (queue svc) as [|c q]; [done|].
  destruct (handle (state svc) c); intros [= <-]; simpl; lia.
Qed.

Lemma send_spec svc c svc' :
  send svc c = Some svc' →
  stopped svc = false ∧
  svc' = {| state := state svc; queue := queue svc ++ [c]; stopped := false;
            answered := answered svc; sent := sent svc ++ [c] |}.
Proof. unfold send. destruct (stopped svc); [done|]. by intros [= <-]. Qed.

Lemma recv_sent svc svc' : recv svc = Some svc' → sent svc' = sent svc.
Proof.
  unfold recv. destruct (stopped svc); [done|]. destruct (queue svc) as [|c q]; [done|].
  destruct (handle (state svc) c); by intros [= <-].
Qed.

Lemma recv_none svc : recv svc = None ↔ stopped svc = true ∨ queue svc = [].
Proof.
  unfold recv. destruct (stopped svc); [naive_solver|].
  destruct (queue svc) as [|c q]; [naive_solver|].
  destruct (handle (state svc) c); naive_solver.
Qed.

(** Commands that do not stop the service are all handled. *)
Lemma drain svc s rs :
  stopped svc = false → run (state svc) (queue svc) = Some (s, rs) →
  rtc serves svc {| state := s; queue := []; stopped := false;
                    answered := answered svc ++ rs; sent := sent svc |}.
Proof.
  destruct svc as [s0 q st an se]. simpl. intros ->. revert s0 an rs.
  induction q as [|c q IH]; intros s0 an rs; cbn [run].
  - intros [= <- <-]. rewrite app_nil_r. apply rtc_refl.
  - destruct (handle s0 c) as [s1 rs1|] eqn:E; [|done].
    destruct (run s1 q) as [[s2 rs2]|] eqn:E2; [|done]. intros [= <- <-].
    eapply rtc_l; [unfold serves, recv; simpl; by rewrite E|].
    rewrite app_assoc. by apply IH.
Qed.

(** A command sent, or handled, where that is possible: for concrete runs. *)
Definition sending (svc : Service) (c : Cmd) : Service := default svc (send svc c).
Definition serving (svc : Service) : Service := default svc (recv svc).

Lemma sending_reach svc c : rtc step svc (sending svc c).
Proof.
  unfold sending. destruct (send svc c) as [svc'|] eqn:E; [|apply rtc_refl].
  apply rtc_once. by eapply step_send.
Qed.
Lemma serving_reach svc : rtc step svc (serving svc).
Proof.
  unfold serving. destruct (recv svc) as [svc'|] eqn:E; [|apply rtc_refl].
  apply rtc_once. by apply step_recv.
Qed.

(** ** Clients that wait for an answer *)

(** What awaiting a one-shot receiver gives: the answer, an error once the service is
    gone without one, nothing yet.  [pick] recognises the answers to one request. *)
Definition response {R} (pick : Reply → option R) (svc : Service) : option (result R unit) :=
  match omap pick (answered svc) with
  | r :: _ => Some (Ok r)
  | [] => if stopped svc then Some (Err tt) else None
  end.

(** A receiver gives one thing, whatever happens next. *)
Lemma response_stable {R} (pick : Reply → option R) svc svc' r :
  step svc svc' → response pick svc = Some r → response pick svc' = Some r.
Proof.
  intros Hstep. unfold response.
  inversion Hstep as [? c ? Hsend|? ? Hrecv|? Hst Hqe]; subst.
  - unfold send in Hsend. destruct (stopped svc) eqn:E; [done|]. injection Hsend as <-. simpl.
    by destruct (omap pick (answered svc)).
  - unfold recv in Hrecv. destruct (stopped svc) eqn:E; [done|].
    destruct (queue svc) as [|c q]; [done|].
    destruct (handle (state svc) c) as [s rs|]; injection Hrecv as <-; simpl.
    + rewrite omap_app. by destruct (omap pick (answered svc)).
    + by destruct (omap pick (answered svc)).
  - simpl. rewrite Hst. by destruct (omap pick (answered svc)).
Qed.
End Actor.

(** A run of one handler is a run of another that simulates it, command by command. *)
Lemma run_simulates {S1 S2 Cmd R1 R2} (h1 : S1 → Cmd → outcome S1 R1) (h2 : S2 → Cmd → outcome S2 R2)
    (Rel : S1 → S2 → Prop) (RelR : R1 → R2 → Prop) (P : Cmd → Prop) :
  (∀ s1 s2 c s1' rs1, Rel s1 s2 → P c → h1 s1 c = Continue s1' rs1 →
     ∃ s2' rs2, h2 s2 c = Continue s2' rs2 ∧ Rel s1' s2' ∧ Forall2 RelR rs1 rs2) →
  ∀ cs s1 s2 s1' rs1, Rel s1 s2 → Forall P cs → run h1 s1 cs = Some (s1', rs1) →
    ∃ s2' rs2, run h2 s2 cs = Some (s2', rs2) ∧ Rel s1' s2' ∧ Forall2 RelR rs1 rs2.
Proof.
  intros Hsim cs. induction cs as [|c cs IH]; intros s1 s2 s1' rs1 HR HP; cbn [run].
  - intros [= <- <-]. exists s2, []. by split_and!.
  - apply Forall_cons in HP as [Hc HP]. destruct (h1 s1 c) as [s1a rs1a|] eqn:E1; [|done].
    destruct (run h1 s1a cs) as [[s1b rs1b]|] eqn:Er; [|done]. intros [= <- <-].
    destruct (Hsim _ _ _ _ _ HR Hc E1) as (s2a & rs2a & -> & HRa & Hra).
    destruct (IH _ _ _ _ HRa HP Er) as (s2b & rs2b & -> & HRb & Hrb).
    exists s2b, (rs2a ++ rs2b). split_and!; [done|done|by apply Forall2_app].
Qed.
Arguments Service : clear implicits.
Arguments response {State Cmd Reply R} pick svc.
