(* ===== verification/AggregatorService.v ===== *)
(** The task that owns the metric aggregator: [dogstatsd/src/aggregator/service.rs]. *)
From Stdlib Require Import Ascii SpecFloat.
From S2P Require Import Prelude RStr Float Externals Metric Origin Aggregator Actor.

Section AggregatorService.
Context `{!UstrOrd, !Hasher, !DDSketch, !HashTable Metric, !Encoders}.

Record FlushResponse := { series : list Series; distributions : list SketchPayload }.

(** [AggregatorCommand]; a one-shot sender is the number of the request. *)
Inductive AggregatorCommand :=
  | InsertBatch (metrics : list Metric)
  | Flush (response_tx : nat)
  | GetEntryById (nm : string) (ts : option SortedTags) (t : Z) (response_tx : nat)
  | Shutdown.

Inductive Response :=
  | Flushed (tx : nat) (r : FlushResponse)
  | Entry (tx : nat) (m : option Metric).

(** The loop over a batch: a metric that overflows is dropped; the number of
    errors is only logged. *)
Fixpoint insert_batch (a : Aggregator) (metrics : list Metric) (insert_errors : Z)
    : Aggregator * Z :=
  match metrics with
  | [] => (a, insert_errors)
  | m :: ms =>
      let '(r, a) := insert a m in
      insert_batch a ms (if is_ok r then insert_errors else insert_errors + 1)
  end.

Definition flush_all (a : Aggregator) : FlushResponse * Aggregator :=
  let '(s, a) := consume_metrics a in
  let '(d, a) := consume_distributions a in
  ({| series := s; distributions := d |}, a).

(** The body of the loop of [AggregatorService::run]. *)
Definition handle (a : Aggregator) (c : AggregatorCommand) : outcome Aggregator Response :=
  match c with
  | InsertBatch metrics => Continue (insert_batch a metrics 0).1 []
  | Flush tx => let '(r, a) := flush_all a in Continue a [Flushed tx r]
  | GetEntryById nm ts t tx => Continue a [Entry tx (get_entry_by_id a nm ts t)]
  | Shutdown => Stop
  end.

Definition aggregator_service_new (tags : SortedTags) (max_ctx : Z)
    : result (Service Aggregator AggregatorCommand Response) CreationError :=
  let? a := aggregator_new tags max_ctx in Ok (service_new a).

Definition run_step := step handle.
End AggregatorService.

Section Facts.
Context `{!UstrOrd, !Hasher, !DDSketch, !HashTable Metric, !HashTableLaws Metric}.
Context `{!Encoders, !EncoderLaws}.

Lemma insert_batch_all a ms n : (insert_batch a ms n).1 = insert_all a ms.
Proof.
  unfold insert_all. revert a n. induction ms as [|m ms IH]; intros a n; simpl; [done|].
  destruct (insert a m) as [r a']. apply IH.
Qed.

Lemma insert_limits a m : agg_limits a → agg_limits (insert a m).2.
Proof. unfold insert. intros. destruct (ht_find _ _ _); [done|]. by case_match. Qed.
Lemma insert_all_limits a ms : agg_limits a → agg_limits (insert_all a ms).
Proof.
  unfold insert_all. revert a. induction ms as [|m ms IH]; intros a Ha; [done|].
  by apply IH, insert_limits.
Qed.
Lemma consume_metrics_limits a : agg_limits a → agg_limits (consume_metrics a).2.
Proof. unfold consume_metrics. by destruct (ht_extract_if _ _). Qed.
Lemma consume_distributions_limits a : agg_limits a → agg_limits (consume_distributions a).2.
Proof. unfold consume_distributions. by destruct (ht_extract_if _ _). Qed.

Lemma consume_metrics_fields a :
  agg_tags (consume_metrics a).2 = agg_tags a ∧ max_context (consume_metrics a).2 = max_context a.
Proof. unfold consume_metrics. by destruct (ht_extract_if _ _). Qed.
Lemma consume_distributions_fields a :
  agg_tags (consume_distributions a).2 = agg_tags a ∧
  max_context (consume_distributions a).2 = max_context a.
Proof. unfold consume_distributions. by destruct (ht_extract_if _ _). Qed.

Lemma handle_wf a c a' rs :
  agg_wf a ∧ agg_limits a → (∀ ms, c = InsertBatch ms → Forall has_id ms) →
  handle a c = Continue a' rs → agg_wf a' ∧ agg_limits a'.
Proof.
  intros [Hwf Hl] Hc. destruct c as [ms|tx|nm ts t tx|]; simpl.
  - intros [= <- _]. rewrite insert_batch_all.
    split; [apply insert_all_wf; auto|by apply insert_all_limits].
  - unfold flush_all. pose proof (consume_metrics_items a Hwf Hl) as H1'.
    pose proof (consume_metrics_limits a Hl) as Hl1.
    destruct (consume_metrics a) as [s a1]. destruct H1' as (_ & _ & Hwf1 & _).
    pose proof (consume_distributions_spec a1 Hwf1 Hl1) as H2'.
    pose proof (consume_distributions_limits a1 Hl1) as Hl2.
    destruct (consume_distributions a1) as [d a2]. destruct H2' as (_ & _ & Hwf2 & _).
    by intros [= <- _].
  - by intros [= <- _].
  - done.
Qed.

(** A flush empties the aggregator: its response holds the series of every
    count and gauge and the sketch of every distribution, each exactly once. *)
Theorem flush_all_spec a r a' :
  agg_wf a → agg_limits a → flush_all a = (r, a') →
  concat (series r) ≡ₚ flushed_metrics a ∧
  concat (distributions r) ≡ₚ flushed_sketches a ∧
  agg_wf a' ∧ agg_map a' = ∅.
Proof.
  intros Hwf Hl. unfold flush_all. pose proof (consume_metrics_items a Hwf Hl) as H1'.
  pose proof (consume_metrics_limits a Hl) as Hl1.
  assert (agg_tags (consume_metrics a).2 = agg_tags a) as Htags
    by (unfold consume_metrics; by destruct (ht_extract_if _ _)).
  destruct (consume_metrics a) as [s a1]. destruct H1' as (Hs & _ & Hwf1 & Hm1).
  pose proof (consume_distributions_spec a1 Hwf1 Hl1) as H2'.
  destruct (consume_distributions a1) as [d a2]. destruct H2' as (Hd & _ & Hwf2 & Hm2).
  intros [= <- <-]. simpl in *. split_and!; [done| |done|].
  - rewrite Hd. unfold flushed_sketches. rewrite Htags. apply omap_Permutation.
    rewrite Hm1, map_values_filter, list_filter_filter_r; naive_solver.
  - rewrite Hm2, Hm1. apply map_empty. intros i.
    apply map_lookup_filter_None. right. intros m [_ Hm]%map_lookup_filter_Some Hf.
    simpl in *. congruence.
Qed.

(** Whatever the interleaving of the clients' sends and of the service, the
    state of the service and the answers it gave are those of a sequential run
    of the oldest accepted commands, and its aggregator is well formed. *)
Theorem service_sequential tags cap a0 svc :
  0 ≤ cap → aggregator_new tags cap = Ok a0 → rtc run_step (service_new a0) svc →
  (∀ ms, InsertBatch ms ∈ sent svc → Forall has_id ms) →
  agg_wf (state svc) ∧
  ∃ done rest, sent svc = done ++ rest ∧
    run handle a0 done = Some (state svc, answered svc) ∧
    (stopped svc = false → queue svc = rest).
Proof.
  intros Hcap Hnew Hr Hids.
  destruct (reach_sequential handle a0 svc Hr) as (d & r & Hs & Hrun & Hq & _).
  split; [|by exists d, r].
  assert (agg_wf (state svc) ∧ agg_limits (state svc)) as [? _]; [|done].
  eapply (run_invariant handle (λ a, agg_wf a ∧ agg_limits a)
            (λ c, ∀ ms, c = InsertBatch ms → Forall has_id ms)); [|split| |exact Hrun].
  - intros. by eapply handle_wf.
  - by eapply agg_wf_new.
  - by eapply aggregator_new_limits.
  - apply Forall_forall. intros c Hin ms ->. apply Hids. rewrite Hs. set_solver.
Qed.
End Facts.

(** * Witnesses *)
Module ServiceExamples.
Import AggregatorExamples.
#[local] Existing Instances Concrete.ustr_ord Concrete.hasher Concrete.ddsketch
  table table_laws encoders encoder_laws.

Lemma flush_all_spec_witness :
  agg_map (flush_all agg2).2 = ∅ ∧ length (concat (series (flush_all agg2).1)) = 1%nat.
Proof.
  destruct (flush_all_spec agg2 (flush_all agg2).1 (flush_all agg2).2) as (_ & _ & _ & Hm).
  - apply agg2_wf.
  - by repeat split.
  - by destruct (flush_all agg2).
  - split; [exact Hm|]. vm_compute. reflexivity.
Defined.

Definition svc1 : Service Aggregator AggregatorCommand Response :=
  {| state := insert_all agg0 [hits 1]; queue := []; stopped := false; answered := [];
     sent := [InsertBatch [hits 1]] |}.

Lemma svc1_reachable : rtc run_step (service_new agg0) svc1.
Proof.
  eapply rtc_l; [by apply (step_send handle _ (InsertBatch [hits 1]))|].
  eapply rtc_l; [|apply rtc_refl]. apply step_recv. reflexivity.
Qed.

Lemma service_sequential_witness :
  agg_wf (state svc1) ∧
  ∃ done rest, sent svc1 = done ++ rest ∧
    run handle agg0 done = Some (state svc1, answered svc1) ∧
    (stopped svc1 = false → queue svc1 = rest).
Proof.
  apply (service_sequential EMPTY_TAGS 10 agg0 svc1).
  - lia.
  - exact agg0_new.
  - exact svc1_reachable.
  - intros ms Hin. apply list_elem_of_singleton in Hin. injection Hin as ->. repeat constructor.
Defined.
End ServiceExamples.
