(* ===== verification/Contexts.v ===== *)
(** What the task that owns the metrics promises: the specification of
    [dogstatsd/src/aggregator/service.rs] over [aggregator/core.rs].

    Between two flushes the task groups the metrics by context: it keeps the first
    contexts to arrive, up to its capacity, each with the merge of all its metrics in the
    order of their arrival ([contexts_lookup]).  A flush answers with every context and
    starts again.  [service_refines] shows that the task, with its hash table, its
    batches and its channel, does this under every interleaving. *)
From Stdlib Require Import Ascii SpecFloat.
From S2P Require Import Prelude RStr Float Externals Metric Origin Aggregator Actor AggregatorService.

(** * Grouping by context *)
Section Contexts.
Context `{!UstrOrd, !Hasher, !DDSketch}.

(** The contexts in the order of their first metric. *)
Definition arrive (l : list Z) (m : Metric) : list Z :=
  if decide (m_id m ∈ l) then l else l ++ [m_id m].
Definition arrivals (ms : list Metric) : list Z := foldl arrive [] ms.

Definition of_context (i : Z) (ms : list Metric) : list Metric := filter (λ m, m_id m = i) ms.

(** The metrics of one context merged: the first one, with the values of the others. *)
Definition merged (ms : list Metric) : option Metric :=
  match ms with
  | [] => None
  | m :: ms => Some (set_value m (foldl aggregate (m_value m) ms))
  end.

(** The contexts kept: the first to arrive. *)
Definition kept (cap : Z) (ms : list Metric) : list Z := take (Z.to_nat cap) (arrivals ms).

(** Inserting one after the other, an overflow being dropped. *)
Definition add_metric (cap : Z) (M : gmap Z Metric) (m : Metric) : gmap Z Metric :=
  default M (spec_insert cap M m).
Definition contexts (cap : Z) (ms : list Metric) : gmap Z Metric := foldl (add_metric cap) ∅ ms.

Lemma arrivals_snoc ms m : arrivals (ms ++ [m]) = arrive (arrivals ms) m.
Proof. unfold arrivals. by rewrite foldl_snoc. Qed.

Lemma elem_of_arrivals ms i : i ∈ arrivals ms ↔ of_context i ms ≠ [].
Proof.
  induction ms as [|m ms IH] using rev_ind; [by split; [intros ?%elem_of_nil|]|].
  rewrite arrivals_snoc. unfold arrive, of_context in *. rewrite filter_app, filter_cons, filter_nil.
  destruct (decide (m_id m = i)) as [<-|Hne]; case_decide as Hin; rewrite ?app_nil_r; try done.
  - split; [|done]. intros _ [_ ?]%app_eq_nil. done.
  - split; [intros _ [_ ?]%app_eq_nil; done|]. intros _. set_solver.
  - rewrite <- IH. set_solver.
Qed.

Lemma arrivals_nodup ms : NoDup (arrivals ms).
Proof.
  induction ms as [|m ms IH] using rev_ind; [constructor|]. rewrite arrivals_snoc. unfold arrive.
  case_decide; [done|]. apply NoDup_app. split_and!; [done|set_solver|by apply NoDup_singleton].
Qed.

Lemma contexts_kept_nodup cap ms : NoDup (kept cap ms).
Proof.
  pose proof (arrivals_nodup ms) as Hn. rewrite <- (take_drop (Z.to_nat cap)) in Hn.
  by apply NoDup_app in Hn as [? _].
Qed.

Lemma merged_snoc ms m :
  merged (ms ++ [m]) =
    Some (match merged ms with Some m0 => set_value m0 (aggregate (m_value m0) m) | None => m end).
Proof.
  destruct ms as [|m0 ms]; simpl; [by destruct m|]. by rewrite foldl_snoc.
Qed.

Lemma merged_some ms : merged ms = None ↔ ms = [].
Proof. by destruct ms. Qed.

(** Adding a metric to a context that is kept does not change which ones are. *)
Lemma kept_snoc cap ms m :
  kept cap (ms ++ [m]) =
    if decide (m_id m ∉ arrivals ms ∧ Z.of_nat (length (arrivals ms)) < cap)
    then arrivals ms ++ [m_id m] else kept cap ms.
Proof.
  unfold kept. rewrite arrivals_snoc. unfold arrive.
  destruct (decide (m_id m ∈ arrivals ms)) as [Hin|Hin]; [rewrite decide_False by tauto; done|].
  case_decide as Hc.
  - apply take_ge. rewrite length_app. simpl. lia.
  - rewrite take_app_le; [done|]. assert (¬ (Z.of_nat (length (arrivals ms)) < cap)) by tauto. lia.
Qed.

Lemma kept_arrived cap ms i : i ∈ kept cap ms → i ∈ arrivals ms.
Proof. intros Hi. rewrite <- (take_drop (Z.to_nat cap)). apply elem_of_app. by left. Qed.

Lemma of_context_snoc i ms m :
  of_context i (ms ++ [m]) = of_context i ms ++ if decide (m_id m = i) then [m] else [].
Proof. unfold of_context. by rewrite filter_app, filter_cons, filter_nil. Qed.

Lemma contexts_kept cap ms :
  0 ≤ cap →
  dom (contexts cap ms) = list_to_set (kept cap ms) ∧
  ∀ i, contexts cap ms !! i = if decide (i ∈ kept cap ms) then merged (of_context i ms) else None.
Proof.
  intros Hcap. induction ms as [|m ms [IHd IH]] using rev_ind.
  { assert (kept cap [] = []) as -> by apply take_nil. split; [apply dom_empty_L|].
    intros i. rewrite decide_False by apply not_elem_of_nil. done. }
  unfold contexts in *. rewrite foldl_snoc. set (M := foldl (add_metric cap) ∅ ms) in *.
  assert (size M = length (kept cap ms)) as Hsize.
  { rewrite <- size_dom, IHd. apply size_list_to_set, contexts_kept_nodup. }
  unfold add_metric, spec_insert. rewrite IH.
  destruct (decide (m_id m ∈ kept cap ms)) as [Hk|Hk].
  - assert (kept cap (ms ++ [m]) = kept cap ms) as ->.
    { rewrite kept_snoc, decide_False; [done|]. intros [Hn _]. by apply Hn, (kept_arrived cap). }
    destruct (merged (of_context (m_id m) ms)) as [m0|] eqn:Em; cycle 1.
    { apply merged_some in Em. by apply kept_arrived, elem_of_arrivals in Hk. }
    simpl. split.
    + rewrite dom_insert_L, IHd. set_solver.
    + intros i. rewrite of_context_snoc. destruct (decide (m_id m = i)) as [<-|Hne].
      * by rewrite lookup_insert_eq, decide_True, merged_snoc, Em.
      * rewrite lookup_insert_ne, app_nil_r by done. apply IH.
  - assert (length (kept cap ms) = Nat.min (Z.to_nat cap) (length (arrivals ms))) as Hl.
    { unfold kept. by rewrite length_take. }
    destruct (Z.leb_spec cap (Z.of_nat (size M))) as [Hfull|Hroom]; simpl.
    + assert (kept cap (ms ++ [m]) = kept cap ms) as ->.
      { rewrite kept_snoc, decide_False; [done|]. intros [_ ?]. lia. }
      split; [done|]. intros i. rewrite of_context_snoc. destruct (decide (m_id m = i)) as [<-|Hne].
      * by rewrite IH, !decide_False.
      * by rewrite app_nil_r.
    + assert (kept cap ms = arrivals ms) as Ek by (unfold kept; apply take_ge; lia).
      assert (kept cap (ms ++ [m]) = arrivals ms ++ [m_id m]) as ->.
      { rewrite kept_snoc, decide_True; [done|]. rewrite <- Ek. split; [done|]. rewrite Ek. lia. }
      rewrite Ek in IHd, IH, Hk. split.
      * rewrite dom_insert_L, IHd. set_solver.
      * intros i. rewrite of_context_snoc. destruct (decide (m_id m = i)) as [<-|Hne].
        -- rewrite lookup_insert_eq, decide_True by set_solver.
           rewrite elem_of_arrivals in Hk. by rewrite merged_snoc, (proj2 (merged_some _)) by (by apply dec_stable).
        -- rewrite lookup_insert_ne, app_nil_r, IH by done.
           destruct (decide (i ∈ arrivals ms)); [rewrite decide_True by set_solver|rewrite decide_False by set_solver]; done.
Qed.
End Contexts.

(** * The specification of the task *)
Section Spec.
Context `{!UstrOrd, !Hasher, !DDSketch, !HashTable Metric, !Encoders}.

Inductive SpecResponse :=
  | SpecFlushed (tx : nat) (M : gmap Z Metric)
  | SpecEntry (tx : nat) (m : option Metric).

(** The state of the specification is the metrics received since the last flush. *)
Definition spec_handle (cap : Z) (ms : list Metric) (c : AggregatorCommand) :
    outcome (list Metric) SpecResponse :=
  match c with
  | InsertBatch metrics => Continue (ms ++ metrics) []
  | Flush tx => Continue [] [SpecFlushed tx (contexts cap ms)]
  | GetEntryById nm ts t tx => Continue ms [SpecEntry tx (contexts cap ms !! metric_id nm ts t)]
  | Shutdown => Stop
  end.

(** What is sent of the contexts: a point of every count and gauge with a JSON form, a
    sketch of every distribution. *)
Definition points_of (tags : SortedTags) (M : gmap Z Metric) : list MetricToShip :=
  filter (λ m, 0 < serialized_metric_size m)
    (omap (λ m, build_metric m tags)
       (filter (λ m, negb (is_distribution m) = true) (map_to_list M).*2)).
Definition sketches_of (tags : SortedTags) (M : gmap Z Metric) : list Sketch :=
  omap (λ m, build_sketch m tags)
    (filter (λ m, is_distribution m = true) (map_to_list M).*2).

(** A response that holds the contexts, in batches within the limits. *)
Definition holds (tags : SortedTags) (r : FlushResponse) (M : gmap Z Metric) : Prop :=
  concat (series r) ≡ₚ points_of tags M ∧ concat (distributions r) ≡ₚ sketches_of tags M ∧
  Forall (batch_ok MAX_ENTRIES_SINGLE_METRIC MAX_SIZE_BYTES_SINGLE_METRIC serialized_metric_size)
    (series r) ∧
  Forall (batch_ok MAX_ENTRIES_SKETCH_METRIC MAX_SIZE_SKETCH_METRIC compute_size) (distributions r).

Inductive answers (tags : SortedTags) : Response → SpecResponse → Prop :=
  | answers_flushed tx r M : holds tags r M → answers tags (Flushed tx r) (SpecFlushed tx M)
  | answers_entry tx m : answers tags (Entry tx m) (SpecEntry tx m).
End Spec.

(** * The task refines its specification *)
Section Refinement.
Context `{!UstrOrd, !Hasher, !DDSketch, !HashTable Metric, !HashTableLaws Metric}.
Context `{!Encoders, !EncoderLaws}.

(** The aggregator of the task and the metrics received since the last flush. *)
Record represents (tags : SortedTags) (cap : Z) (a : Aggregator) (ms : list Metric) : Prop := {
  rep_wf : agg_wf a;
  rep_limits : agg_limits a;
  rep_tags : agg_tags a = tags;
  rep_cap : max_context a = cap;
  rep_map : agg_map a = contexts cap ms;
}.

Lemma represents_new tags cap a :
  0 ≤ cap → aggregator_new tags cap = Ok a → represents tags cap a [].
Proof.
  intros Hcap Hnew. destruct (agg_wf_new tags cap a Hcap Hnew) as [Hwf Hm].
  pose proof (aggregator_new_limits _ _ _ Hnew). revert Hnew. unfold aggregator_new.
  case_match; [done|]. by intros [= <-].
Qed.

Lemma insert_fields a m :
  agg_tags (insert a m).2 = agg_tags a ∧ max_context (insert a m).2 = max_context a.
Proof. unfold insert. destruct (ht_find _ _ _); [done|]. by case_match. Qed.

Lemma insert_represents tags cap a ms m :
  has_id m → represents tags cap a ms → represents tags cap (insert a m).2 (ms ++ [m]).
Proof.
  intros Hid [Hwf Hl Ht Hc Hm]. destruct (insert_fields a m) as [Ht' Hc'].
  pose proof (insert_limits a m Hl) as Hl'.
  destruct (insert a m) as [r a'] eqn:E. destruct (insert_refines_map _ _ _ _ Hwf Hid E) as [Hwf' Hs].
  split; [done|done|by rewrite <- Ht|by rewrite <- Hc|].
  cbn [snd]. unfold contexts in *. rewrite foldl_snoc, <- Hm. unfold add_metric. rewrite <- Hc.
  destruct (spec_insert _ _ _); [by destruct Hs as [_ ->]|by destruct Hs as [_ ->]].
Qed.

Lemma insert_all_represents tags cap a ms l :
  Forall has_id l → represents tags cap a ms → represents tags cap (insert_all a l) (ms ++ l).
Proof.
  intros Hl. revert a ms. induction Hl as [|m l Hm _ IH]; intros a ms Ha; [by rewrite app_nil_r|].
  rewrite (assoc_L (++) ms [m] l : ms ++ m :: l = _). by apply IH, insert_represents.
Qed.

(** A flush answers with the contexts, and the next metrics start from none. *)
Lemma flush_represents tags cap a ms :
  0 ≤ cap → represents tags cap a ms →
  holds tags (flush_all a).1 (contexts cap ms) ∧ represents tags cap (flush_all a).2 [].
Proof.
  intros Hcap [Hwf Hl Ht Hc Hm]. unfold flush_all.
  pose proof (consume_metrics_items a Hwf Hl) as Hs.
  pose proof (consume_metrics_limits a Hl) as Hl1.
  pose proof (consume_metrics_fields a) as [Ht1 Hc1].
  destruct (consume_metrics a) as [s a1]. destruct Hs as (Hs & Hsb & Hwf1 & Hm1).
  pose proof (consume_distributions_spec a1 Hwf1 Hl1) as Hd.
  pose proof (consume_distributions_limits a1 Hl1) as Hl2.
  pose proof (consume_distributions_fields a1) as [Ht2 Hc2].
  destruct (consume_distributions a1) as [d a2]. destruct Hd as (Hd & Hdb & Hwf2 & Hm2).
  cbn [fst snd] in *. rewrite <- Hm, <- Ht. split.
  - split_and!; [done| |done|done]. cbn [distributions]. rewrite Hd. unfold flushed_sketches, sketches_of.
    rewrite Ht1. apply omap_Permutation.
    rewrite Hm1, map_values_filter, list_filter_filter_r; naive_solver.
  - split; [done|done|congruence|congruence|]. rewrite Hm2, Hm1. apply map_empty. intros i.
    apply map_lookup_filter_None. right. intros m [_ Hd1]%map_lookup_filter_Some Hf.
    simpl in *. congruence.
Qed.

Lemma handle_refines tags cap a ms c a' rs :
  0 ≤ cap → represents tags cap a ms → (∀ l, c = InsertBatch l → Forall has_id l) →
  handle a c = Continue a' rs →
  ∃ ms' rs', spec_handle cap ms c = Continue ms' rs' ∧ represents tags cap a' ms' ∧
    Forall2 (answers tags) rs rs'.
Proof.
  intros Hcap Ha Hc. destruct c as [l|tx|nm ts t tx|]; cbn [handle spec_handle]; [| | |done].
  - intros [= <- <-]. rewrite insert_batch_all. eexists _, _. split_and!; [done| |done].
    by apply insert_all_represents; [apply Hc|].
  - destruct (flush_represents tags cap a ms Hcap Ha) as [Hh Hr].
    destruct (flush_all a) as [r a1]. intros [= <- <-]. eexists _, _. split_and!; [done..|].
    constructor; [by apply answers_flushed|done].
  - intros [= <- <-]. eexists _, _. split_and!; [done..|]. constructor; [|done].
    unfold get_entry_by_id. rewrite find_lookup, (rep_map _ _ _ _ Ha) by apply Ha. constructor.
Qed.

Definition ids_ok (c : AggregatorCommand) : Prop := ∀ l, c = InsertBatch l → Forall has_id l.

Lemma service_represents tags cap a0 svc :
  0 ≤ cap → aggregator_new tags cap = Ok a0 → rtc run_step (service_new a0) svc →
  Forall ids_ok (sent svc) →
  ∃ done_ rest ms rs, sent svc = done_ ++ rest ∧ run (spec_handle cap) [] done_ = Some (ms, rs) ∧
    represents tags cap (state svc) ms ∧ Forall2 (answers tags) (answered svc) rs ∧
    (stopped svc = false → queue svc = rest) ∧ (stopped svc = true → queue svc = []).
Proof.
  intros Hcap Hnew Hr Hids.
  destruct (reach_sequential handle a0 svc Hr) as (d & r & Hs & Hrun & Hq & Hq').
  assert (Forall ids_ok d) as Hd by (rewrite Hs in Hids; by apply Forall_app in Hids as [? _]).
  destruct (run_simulates handle (spec_handle cap) (represents tags cap) (answers tags) ids_ok)
    with (cs := d) (s1 := a0) (s2 := [] : list Metric) (s1' := state svc) (rs1 := answered svc)
    as (ms & rs & Hspec & Hrep & Hans); [|by apply represents_new|done|done|by exists d, r, ms, rs].
  intros a ms c a' rs Ha Hc Hh. by eapply handle_refines.
Qed.

(** C4: The task of the metrics refines its specification under every interleaving of its
    clients: after some of the commands accepted, the others being queued in order, its
    table is the map of the contexts received since the last flush, and its answers are
    those of the specification, in order: a flush sends every context exactly once, in
    batches within the limits, and a query reads it. *)
Theorem service_refines tags cap a0 svc :
  0 ≤ cap → aggregator_new tags cap = Ok a0 → rtc run_step (service_new a0) svc →
  (∀ l, InsertBatch l ∈ sent svc → Forall has_id l) →
  agg_wf (state svc) ∧
  ∃ done_ rest ms rs, sent svc = done_ ++ rest ∧ (stopped svc = false → queue svc = rest) ∧
    run (spec_handle cap) [] done_ = Some (ms, rs) ∧
    agg_map (state svc) = contexts cap ms ∧ Forall2 (answers tags) (answered svc) rs.
Proof.
  intros Hcap Hnew Hr Hids.
  destruct (service_represents tags cap a0 svc Hcap Hnew Hr) as (d & r & ms & rs & Hs & Hrun & Hrep & Ha & Hq & _).
  { apply Forall_forall. intros c Hin l ->. by apply Hids. }
  split; [apply Hrep|]. exists d, r, ms, rs. split_and!; [done..|apply Hrep|done].
Qed.

(** C5: Aggregating is grouping by context, whatever the table does: from a new aggregator a
    batch leaves, for each of the first contexts to arrive up to the capacity, the first
    metric of that context with the merge of the values of all its metrics in order of
    arrival, and nothing for the other contexts. *)
Theorem aggregation_by_context tags cap a ms i :
  0 ≤ cap → aggregator_new tags cap = Ok a → Forall has_id ms →
  agg_map (insert_batch a ms 0).1 !! i =
    if decide (i ∈ kept cap ms) then merged (of_context i ms) else None.
Proof.
  intros Hcap Hnew Hids. rewrite insert_batch_all.
  pose proof (insert_all_represents tags cap a [] ms Hids (represents_new _ _ _ Hcap Hnew)) as Hrep.
  rewrite (rep_map _ _ _ _ Hrep). by apply contexts_kept.
Qed.
End Refinement.

(** * Witnesses *)
Module ContextsExamples.
Import AggregatorExamples.
#[local] Existing Instances Concrete.ustr_ord Concrete.hasher Concrete.ddsketch
  table table_laws encoders encoder_laws.

(** An insertion is handled, a flush is answered, another insertion is queued. *)
Definition svc1 : Service Aggregator AggregatorCommand Response :=
  sending (serving handle (serving handle
    (sending (sending (service_new agg0) (InsertBatch [hits 1; hits 2])) (Flush 7))))
    (InsertBatch [latency]).

Lemma contexts_svc1_reachable : rtc run_step (service_new agg0) svc1.
Proof.
  unfold svc1. etrans; [|apply (sending_reach handle)].
  do 2 (etrans; [|apply (serving_reach handle)]). do 2 (etrans; [|apply (sending_reach handle)]).
  apply rtc_refl.
Qed.
Lemma svc1_sent : sent svc1 = [InsertBatch [hits 1; hits 2]; Flush 7; InsertBatch [latency]].
Proof. reflexivity. Qed.
Lemma svc1_queue : queue svc1 = [InsertBatch [latency]] ∧ stopped svc1 = false.
Proof. split; reflexivity. Qed.

Lemma service_refines_witness :
  ∃ rs, run (spec_handle 10) [] [InsertBatch [hits 1; hits 2]; Flush 7] = Some ([], rs) ∧
    Forall2 (answers EMPTY_TAGS) (answered svc1) rs.
Proof.
  destruct (service_refines EMPTY_TAGS 10 agg0 svc1) as (_ & d & r & ms & rs & Hs & Hq & Hrun & _ & Ha).
  - lia.
  - exact agg0_new.
  - exact contexts_svc1_reachable.
  - rewrite svc1_sent. intros l Hin. set_unfold in Hin.
    destruct Hin as [E|[E|[E|[]]]]; try discriminate E; injection E as ->; repeat constructor.
  - destruct svc1_queue as [Eq Est]. rewrite (Hq Est) in Eq. subst r.
    rewrite svc1_sent in Hs. apply (app_inj_2 [_; _] d [_] [_]) in Hs as [<- _]; [|reflexivity].
    exists rs. split; [|exact Ha]. revert Hrun. cbn [run spec_handle app]. by intros [= _ <-].
Defined.

Lemma aggregation_by_context_witness :
  agg_map (insert_batch agg0 [hits 1; latency; hits 2] 0).1 !! m_id (hits 1) = Some (hits 3).
Proof.
  etransitivity; [apply (aggregation_by_context EMPTY_TAGS 10 agg0)|].
  - lia.
  - exact agg0_new.
  - repeat constructor.
  - vm_compute. reflexivity.
Defined.
End ContextsExamples.
