(* ===== verification/Flusher.v ===== *)
(** Shipping metrics: [dogstatsd/src/flusher.rs] and
    [dogstatsd/src/datadog/shipping.rs].

    The HTTP client, the serializers and the compressor are parameters: a send is
    answered by [net n req], the outcome of the [n]-th send of the process, either
    a response with a status or an error that may carry one. *)
From Stdlib Require Import Ascii SpecFloat.
From S2P Require Import Prelude RStr Float Externals Metric Origin Aggregator.

Inductive ShippingError :=
  | Payload (msg : string)
  | Destination (status : option Z) (msg : string).

Inductive RetryStrategy :=
  | Immediate (attempts : Z)
  | LinearBackoff (attempts delay : Z).

Definition max_attempts (r : RetryStrategy) : Z :=
  match r with Immediate n | LinearBackoff n _ => n end.

Record HttpRequest := {
  req_url : string;
  req_headers : list (string * string);
  req_body : string;
}.

(** [StatusCode::is_success]. *)
Definition is_success (status : Z) : bool := (200 <=? status) && (status <? 300).
Definition ACCEPTED : Z := 202.
Definition is_client_error (status : Z) : bool := (400 <=? status) && (status <? 500).

(** [(continue_to_next_batch, should_retry_this_batch)]. *)
Definition should_try_next_batch (resp : result Z ShippingError) : bool * bool :=
  match resp with
  | Ok status =>
      if status =? ACCEPTED then (true, false)
      else if is_client_error status then (true, false)
      else (false, true)
  | Err (Payload _) => (true, false)
  | Err (Destination sc _) =>
      match sc with
      | Some code => if is_client_error code then (false, false) else (false, true)
      | None => (false, true)
      end
  end.

Record DdApi := {
  api_key : string;
  metrics_intake_url_prefix : string;
  retry_strategy : RetryStrategy;
}.

Section Shipping.
(** Outcome of the [n]-th send; [try_clone] of a builder fails on streams. *)
Context (net : nat → HttpRequest → result Z (option Z)) (cloneable : HttpRequest → bool).
Context (compress : string → option string).

(** [send_with_retry], counting the sends of the process; [None] when out of fuel. *)
Fixpoint send_loop (fuel : nat) (strategy : RetryStrategy) (req : HttpRequest)
    (attempts : Z) (n : nat) : option (result Z ShippingError * nat) :=
  match fuel with
  | O => None
  | S fuel =>
      let attempts := attempts + 1 in
      if negb (cloneable req) then
        Some (Err (Destination None "Failed to clone request"), n)
      else
        let response := net n req in
        let n := S n in
        let stop_retrying status :=
          Some (Err (Destination status
            ("Failed to send request after " +:+ show_Z attempts +:+ " attempts")), n) in
        match response with
        | Ok status =>
            if is_success status then Some (Ok status, n)
            else if max_attempts strategy <=? attempts then stop_retrying (Some status)
            else send_loop fuel strategy req attempts n
        | Err status =>
            if max_attempts strategy <=? attempts then stop_retrying status
            else send_loop fuel strategy req attempts n
        end
  end.

(** The attempts of one request: at least one is always made. *)
Definition send_fuel (strategy : RetryStrategy) : nat :=
  Z.to_nat (Z.max 1 (max_attempts strategy)).

Definition send_with_retry (strategy : RetryStrategy) (req : HttpRequest) (n : nat)
    : option (result Z ShippingError * nat) :=
  send_loop (send_fuel strategy) strategy req 0 n.

Definition data_request (api : DdApi) (url body content_type : string) : HttpRequest :=
  let headers := [("DD-API-KEY", api_key api); ("Content-Type", content_type)] in
  match compress body with
  | Some compressed =>
      {| req_url := url; req_headers := headers ++ [("Content-Encoding", "zstd")];
         req_body := compressed |}
  | None => {| req_url := url; req_headers := headers; req_body := body |}
  end.

Definition ship_data (api : DdApi) (url body content_type : string) (n : nat)
    : option (result Z ShippingError * nat) :=
  send_with_retry (retry_strategy api) (data_request api url body content_type) n.

(** [ship_series] and [ship_distributions] differ by their route, their
    serializer and their content type. *)
Definition ship_payload {A} (serialize : A → result string string) (route what content_type : string)
    (api : DdApi) (batch : A) (n : nat) : option (result Z ShippingError * nat) :=
  let url := metrics_intake_url_prefix api +:+ route in
  match serialize batch with
  | Err e => Some (Err (Payload ("Failed to serialize " +:+ what +:+ ": " +:+ e)), n)
  | Ok body => ship_data api url body content_type n
  end.

Definition ship_series (serialize : Series → result string string) :=
  ship_payload serialize "/api/v2/series" "series" "application/json".
Definition ship_distributions `{!DDSketch} (serialize : SketchPayload → result string string) :=
  ship_payload serialize "/api/beta/sketches" "sketches" "application/x-protobuf".

(** The loop of a shipping task over its batches: the batches to retry, whether
    there was a shipping error, and how many sends were made. *)
Fixpoint ship_batches {A} (ship : A → nat → option (result Z ShippingError * nat))
    (batches failed : list A) (had_shipping_error : bool) (n : nat)
    : option (list A * bool * nat) :=
  match batches with
  | [] => Some (failed, had_shipping_error, n)
  | a_batch :: batches =>
      match ship a_batch n with
      | None => None
      | Some (resp, n) =>
          let '(continue_shipping, should_retry) := should_try_next_batch resp in
          let failed := if should_retry then failed ++ [a_batch] else failed in
          let had_shipping_error := had_shipping_error || should_retry in
          if continue_shipping then ship_batches ship batches failed had_shipping_error n
          else Some (failed, had_shipping_error, n)
      end
  end.
End Shipping.

Section Flusher.
Context `{!DDSketch}.

(** [Flusher::get_dd_api]: the cell keeps the first resolution of the key, even
    when there was no key. *)
Definition get_dd_api (cell : option (option DdApi)) (prefix : string) (strategy : RetryStrategy)
    (resolved_key : option string) : option DdApi * option (option DdApi) :=
  match cell with
  | Some api => (api, cell)
  | None =>
      let api := (λ k, {| api_key := k; metrics_intake_url_prefix := prefix;
                          retry_strategy := strategy |}) <$> resolved_key in
      (api, Some api)
  end.

(** What the two shipping tasks end with when they are joined. *)
Inductive join_result :=
  | Joined (series_failed : list Series) (series_had_error : bool)
      (sketches_failed : list SketchPayload) (sketches_had_error : bool)
  | JoinError.

(** [flush_metrics], with the cell of the API handle; [tasks] runs the two
    shipping tasks.  [None] means nothing to retry. *)
Definition flush_metrics (ser : list Series) (dist : list SketchPayload)
    (cell : option (option DdApi)) (prefix : string) (strategy : RetryStrategy)
    (resolved_key : option string) (tasks : DdApi → join_result)
    : option (list Series * list SketchPayload) * option (option DdApi) :=
  if (length ser =? 0)%nat && (length dist =? 0)%nat then (None, cell) else
  let '(dd_api, cell) := get_dd_api cell prefix strategy resolved_key in
  match dd_api with
  | None => (Some (ser, dist), cell)
  | Some api =>
      match tasks api with
      | Joined series_failed series_had_error sketches_failed sketches_had_error =>
          match series_failed, sketches_failed with
          | [], [] => (None, cell)
          | _, _ =>
              if series_had_error || sketches_had_error
              then (Some (series_failed, sketches_failed), cell)
              else (None, cell)
          end
      | JoinError => (Some (ser, dist), cell)
      end
  end.
End Flusher.

(** * Facts *)

Section ShippingFacts.
Context (net : nat → HttpRequest → result Z (option Z)) (cloneable : HttpRequest → bool).

Definition succeeded (r : result Z (option Z)) : bool :=
  match r with Ok status => is_success status | Err _ => false end.
Definition status_of (r : result Z (option Z)) : option Z :=
  match r with Ok status => Some status | Err status => status end.

Definition gave_up (k : nat) (r : result Z (option Z)) : result Z ShippingError :=
  Err (Destination (status_of r)
    ("Failed to send request after " +:+ show_Z (Z.of_nat k) +:+ " attempts")).

Lemma send_loop_spec fuel strategy req a n :
  cloneable req = true → (1 ≤ fuel)%nat → (a + fuel)%nat = send_fuel strategy →
  (∃ i status, (i < fuel)%nat ∧ net (n + i)%nat req = Ok status ∧ is_success status = true ∧
     (∀ j, (j < i)%nat → succeeded (net (n + j)%nat req) = false) ∧
     send_loop net cloneable fuel strategy req (Z.of_nat a) n = Some (Ok status, (n + i + 1)%nat)) ∨
  ((∀ j, (j < fuel)%nat → succeeded (net (n + j)%nat req) = false) ∧
     send_loop net cloneable fuel strategy req (Z.of_nat a) n =
       Some (gave_up (a + fuel)%nat (net (n + fuel - 1)%nat req), (n + fuel)%nat)).
Proof.
  intros Hcl. revert a n. induction fuel as [|fuel IH]; intros a n Hf Ha; [lia|].
  cbn [send_loop]. rewrite Hcl. cbn [negb].
  destruct (succeeded (net n req)) eqn:Es.
  - left. destruct (net n req) as [status|] eqn:En; [|done]. simpl in Es. rewrite Es.
    exists 0%nat, status. rewrite Nat.add_0_r. split_and!; try done; try lia.
    by rewrite Nat.add_1_r.
  - assert (Hlast : max_attempts strategy <=? Z.of_nat a + 1 = true ↔ fuel = 0%nat).
    { rewrite Z.leb_le. unfold send_fuel in Ha. lia. }
    destruct (decide (fuel = 0%nat)) as [->|Hfuel].
    + right. split.
      { intros j Hj. by assert (j = 0%nat) as -> by lia; rewrite Nat.add_0_r. }
      rewrite (proj2 Hlast eq_refl). replace (n + 1 - 1)%nat with n by lia.
      replace (n + 1)%nat with (S n) by lia.
      unfold gave_up. replace (Z.of_nat (a + 1)) with (Z.of_nat a + 1) by lia.
      destruct (net n req) as [status|] eqn:En; simpl in Es |- *; by rewrite ?Es.
    + assert (max_attempts strategy <=? Z.of_nat a + 1 = false) as ->.
      { apply not_true_is_false. by rewrite Hlast. }
      specialize (IH (S a) (S n) ltac:(lia) ltac:(lia)).
      replace (Z.of_nat (S a)) with (Z.of_nat a + 1) in IH by lia.
      assert (∀ X : option (result Z ShippingError * nat), match net n req with
                   | Ok status => if is_success status then Some (Ok status, S n) else X
                   | Err _ => X end = X) as Hskip.
      { intros X. destruct (net n req); simpl in Es; by rewrite ?Es. }
      rewrite Hskip. destruct IH as [(i & status & Hi & Hn & Hs & Hj & Hr)|[Hj Hr]].
      * left. exists (S i), status. rewrite <- Nat.add_succ_comm. split_and!; try done; [lia|].
        intros [|j] Hji; [by rewrite Nat.add_0_r|]. rewrite <- Nat.add_succ_comm. apply Hj. lia.
      * right. split.
        { intros [|j] Hji; [by rewrite Nat.add_0_r|]. rewrite <- Nat.add_succ_comm. apply Hj. lia. }
        rewrite Hr. replace (a + S fuel)%nat with (S a + fuel)%nat by lia.
        by replace (n + S fuel)%nat with (S n + fuel)%nat by lia.
Qed.

(** C21: A request is sent at most [max 1 max_attempts] times; the answer is the
    first success, or after the last attempt an error with its status. *)
Theorem send_with_retry_spec strategy req n :
  cloneable req = true →
  let k := send_fuel strategy in
  (∃ i status, (i < k)%nat ∧ net (n + i)%nat req = Ok status ∧ is_success status = true ∧
     (∀ j, (j < i)%nat → succeeded (net (n + j)%nat req) = false) ∧
     send_with_retry net cloneable strategy req n = Some (Ok status, (n + i + 1)%nat)) ∨
  ((∀ j, (j < k)%nat → succeeded (net (n + j)%nat req) = false) ∧
     send_with_retry net cloneable strategy req n =
       Some (gave_up k (net (n + k - 1)%nat req), (n + k)%nat)).
Proof.
  intros Hcl k. unfold send_with_retry.
  apply (send_loop_spec k strategy req 0 n); [done| |done].
  unfold k, send_fuel. lia.
Qed.
End ShippingFacts.

Section BatchShipping.
Context {A : Type} (ship : A → nat → option (result Z ShippingError * nat)).
(** Shipping a batch always ends (see [send_with_retry_spec]). *)
Hypothesis ship_total : ∀ a n, is_Some (ship a n).

(** Batches that were sent one after the other, each letting the next go, from
    the [n]-th send of the process to the [n']-th. *)
Inductive shipped : list A → nat → nat → Prop :=
  | shipped_nil n : shipped [] n n
  | shipped_cons b l n n1 n2 resp :
      ship b n = Some (resp, n1) → (should_try_next_batch resp).1 = true →
      shipped l n1 n2 → shipped (b :: l) n n2.

Lemma continue_no_retry resp :
  (should_try_next_batch resp).1 = true → (should_try_next_batch resp).2 = false.
Proof. destruct resp as [st|[|[c|] ?]]; simpl; try done; repeat case_match; done. Qed.

Lemma ship_batches_acc l failed err n :
  match ship_batches ship l failed err n with
  | Some (f, e, n') =>
      (shipped l n n' ∧ f = failed ∧ e = err) ∨
      ∃ l1 b l2 n1 resp, l = l1 ++ b :: l2 ∧ shipped l1 n n1 ∧ ship b n1 = Some (resp, n') ∧
        (should_try_next_batch resp).1 = false ∧
        f = failed ++ (if (should_try_next_batch resp).2 then [b] else []) ∧
        e = err || (should_try_next_batch resp).2
  | None => False
  end.
Proof.
  revert failed err n. induction l as [|b l IH]; intros failed err n; simpl.
  - left. split; [constructor|done].
  - destruct (ship_total b n) as [[resp n1] Hs]. rewrite Hs.
    pose proof (continue_no_retry resp) as Hcr.
    destruct (should_try_next_batch resp) as [cont retry] eqn:Ec. simpl in Hcr.
    destruct cont.
    + rewrite (Hcr eq_refl), orb_false_r. specialize (IH failed err n1).
      destruct (ship_batches ship l failed err n1) as [[[f e] n']|]; [|done].
      assert (∀ l' n'', shipped l' n1 n'' → shipped (b :: l') n n'') as Hcons.
      { intros. econstructor; [done|by rewrite Ec|done]. }
      destruct IH as [(?&?&?)|(l1 & b' & l2 & n2 & resp' & -> & ? & ? & ? & ? & ?)].
      * left. eauto.
      * right. exists (b :: l1), b', l2, n2, resp'. eauto 8.
    + right. exists [], b, l, n, resp. rewrite Ec. simpl.
      split_and!; try done; [constructor|]. destruct retry; by rewrite ?app_nil_r.
Qed.

(** A shipping task ends; either it goes through all its batches and has
    nothing to retry, or it stops at one batch: only that batch can be retried,
    and the batches after it are neither sent nor returned. *)
Theorem ship_batches_spec l n :
  ∃ failed err n', ship_batches ship l [] false n = Some (failed, err, n') ∧
    (err = true ↔ failed ≠ []) ∧
    ((shipped l n n' ∧ failed = []) ∨
     ∃ l1 b l2 n1 resp, l = l1 ++ b :: l2 ∧ shipped l1 n n1 ∧ ship b n1 = Some (resp, n') ∧
       (should_try_next_batch resp).1 = false ∧
       failed = if (should_try_next_batch resp).2 then [b] else []).
Proof.
  pose proof (ship_batches_acc l [] false n) as H.
  destruct (ship_batches ship l [] false n) as [[[f e] n']|]; [|done].
  exists f, e, n'. split; [done|].
  destruct H as [(?&->&->)|(l1 & b & l2 & n1 & resp & ? & ? & ? & ? & -> & ->)].
  - split; [done|by left].
  - split; [|right; naive_solver].
    destruct (should_try_next_batch resp) as [? []]; simpl; done.
Qed.

(** A temporary failure loses the batches behind it: when the batches of [l1]
    go through and [b] has to be retried, the task reports [b] alone and never
    sends those of [l2]. *)
Theorem batches_after_failure_lost l1 b l2 n n1 resp n' :
  shipped l1 n n1 → ship b n1 = Some (resp, n') → should_try_next_batch resp = (false, true) →
  ship_batches ship (l1 ++ b :: l2) [] false n = Some ([b], true, n').
Proof.
  intros Hsh Hb Hresp.
  assert (∀ failed err, ship_batches ship (l1 ++ b :: l2) failed err n = Some (failed ++ [b], true, n'))
    as H; [|by rewrite H].
  induction Hsh as [n|b' l n n1 n2 resp' Hs Hc _ IH]; intros failed err; simpl.
  - by rewrite Hb, Hresp, orb_true_r.
  - rewrite Hs. pose proof (continue_no_retry _ Hc) as Hr.
    destruct (should_try_next_batch resp') as [cont retry]. simpl in *. subst.
    rewrite orb_false_r. by apply IH.
Qed.
End BatchShipping.

Section FlushFacts.
Context `{!DDSketch}.

(** A flush that cannot get an API key keeps the metrics for a retry, but the
    failed resolution is kept for ever: later flushes fail whatever the key. *)
Theorem missing_key_is_cached ser dist prefix strategy tasks :
  ser ≠ [] ∨ dist ≠ [] →
  let '(r, cell) := flush_metrics ser dist None prefix strategy None tasks in
  r = Some (ser, dist) ∧
  ∀ ser' dist' key, ser' ≠ [] ∨ dist' ≠ [] →
    flush_metrics ser' dist' cell prefix strategy (Some key) tasks = (Some (ser', dist'), cell).
Proof.
  assert (∀ (s : list Series) (d : list SketchPayload), s ≠ [] ∨ d ≠ [] →
    ((length s =? 0)%nat && (length d =? 0)%nat) = false) as Hne.
  { intros [] [] []; done. }
  intros Hnonempty. unfold flush_metrics. rewrite Hne by done. simpl.
  split; [done|]. intros ser' dist' key Hnonempty'. by rewrite Hne.
Qed.
End FlushFacts.

(** * Witnesses *)
Module FlusherExamples.
(** The first send is accepted, the others meet a server error. *)
Definition net1 (n : nat) (_ : HttpRequest) : result Z (option Z) :=
  match n with O => Ok 202 | _ => Ok 503 end.
Definition all_cloneable (_ : HttpRequest) : bool := true.
Definition api : DdApi :=
  {| api_key := "key"; metrics_intake_url_prefix := "https://api.datadoghq.com";
     retry_strategy := Immediate 2 |}.
Definition req0 : HttpRequest := data_request (λ _, None) api "https://x" "{}" "application/json".
Definition ship1 : Series → nat → option (result Z ShippingError * nat) :=
  ship_series net1 all_cloneable (λ _, None) (λ _, Ok "{}") api.

Lemma ship1_total b n : is_Some (ship1 b n).
Proof.
  unfold ship1, ship_series, ship_payload, ship_data.
  destruct (send_loop_spec net1 all_cloneable (send_fuel (Immediate 2)) (Immediate 2)
    (data_request (λ _, None) api (metrics_intake_url_prefix api +:+ "/api/v2/series") "{}"
       "application/json") 0 n) as [(i & st & _ & _ & _ & _ & H)|[_ H]]; try done;
    unfold send_fuel; simpl; try lia; by rewrite H.
Qed.

Lemma send_with_retry_spec_witness :
  send_with_retry net1 all_cloneable (Immediate 2) req0 1 =
    Some (gave_up 2 (Ok 503), 3%nat).
Proof.
  destruct (send_with_retry_spec net1 all_cloneable (Immediate 2) req0 1)
    as [(i & st & Hi & Hn & Hs & _ & _)|[_ H]].
  - reflexivity.
  - destruct i; injection Hn as <-; discriminate.
  - exact H.
Defined.

Lemma ship_batches_spec_witness :
  ∃ failed err n', ship_batches ship1 [[]; []; []] [] false 0 = Some (failed, err, n') ∧
    (err = true ↔ failed ≠ []).
Proof.
  destruct (ship_batches_spec ship1 ship1_total [[]; []; []] 0) as (f & e & n' & H & He & _).
  exists f, e, n'. split; [exact H|exact He].
Defined.

Lemma batches_after_failure_lost_witness :
  ship_batches ship1 ([[]] ++ [] :: [[]]) [] false 0 = Some ([[]], true, 3%nat).
Proof.
  eapply (batches_after_failure_lost ship1 [[]] [] [[]] 0 1).
  - eapply shipped_cons; [reflexivity|reflexivity|constructor].
  - vm_compute. reflexivity.
  - reflexivity.
Defined.

Lemma missing_key_is_cached_witness :
  flush_metrics (H := Concrete.ddsketch) [[]] [] (Some None) "p" (Immediate 1) (Some "key")
    (λ _, JoinError) = (Some ([[]], []), Some None).
Proof.
  destruct (missing_key_is_cached (H := Concrete.ddsketch) [[]] [] "p" (Immediate 1) (λ _, JoinError))
    as [_ H]; [by left|]. apply (H [[]] [] "key"). by left.
Defined.
End FlusherExamples.
