(* ===== verification/Intake.v ===== *)
(** Intake URLs and the metric namespace:
    [dogstatsd/src/datadog/intake.rs] and [dogstatsd/src/util.rs].

    The two regular expressions of the source are the languages
    [[a-zA-Z0-9._:-]+] and [https?://[a-zA-Z0-9._:-]+], anchored at both ends. *)
From Stdlib Require Import Ascii.
From S2P Require Import Prelude RStr.

(** * Validation *)

Definition site_char (c : ascii) : bool :=
  is_ascii_alphanumeric c || bool_decide (c = "."%char) || bool_decide (c = "_"%char)
  || bool_decide (c = ":"%char) || bool_decide (c = "-"%char).

Definition all_chars (p : ascii → bool) (s : string) : bool := forallb p (bytes_of s).

Definition site_re (s : string) : bool := negb (is_empty s) && all_chars site_char s.

Definition url_prefix_re (s : string) : bool :=
  match strip_prefix "http://" s with
  | Some rest => site_re rest
  | None => match strip_prefix "https://" s with Some rest => site_re rest | None => false end
  end.

Inductive SiteError := InvalidSite (s : string).
Inductive UrlPrefixError := InvalidUrlPrefix (s : string).

Definition site_new (site : string) : result string SiteError :=
  if site_re site then Ok site else Err (InvalidSite site).

Definition validate_url_prefix (prefix : string) : result unit UrlPrefixError :=
  if url_prefix_re prefix then Ok tt else Err (InvalidUrlPrefix prefix).

(** [DdUrl::new] and [DdDdUrl::new]. *)
Definition dd_url_new (prefix : string) : result string UrlPrefixError :=
  let? _ := validate_url_prefix prefix in Ok prefix.

(** [MetricsIntakeUrlPrefixOverride::maybe_new]. *)
Definition override_maybe_new (dd_url dd_dd_url : option string) : option string :=
  match dd_url, dd_dd_url with
  | None, None => None
  | _, Some u => Some u
  | Some u, None => Some u
  end.

(** [MetricsIntakeUrlPrefix::new].  [new_expect_validated] panics on a prefix that
    does not validate, [Panic]. *)
Inductive prefix_outcome :=
  | Prefix (s : string)
  | MissingIntakeUrl
  | Panic.

Definition new_expect_validated (validated_prefix : string) : prefix_outcome :=
  match validate_url_prefix validated_prefix with
  | Ok _ => Prefix validated_prefix
  | Err _ => Panic
  end.

Definition intake_prefix_new (site overridden_prefix : option string) : prefix_outcome :=
  match site, overridden_prefix with
  | None, None => MissingIntakeUrl
  | _, Some prefix => new_expect_validated prefix
  | Some site, None => Prefix ("https://api." +:+ site)
  end.

(** ** The namespace *)

Definition namespace_char (c : ascii) : bool :=
  is_ascii_alphanumeric c || bool_decide (c = "_"%char) || bool_decide (c = "."%char).

Definition parse_metric_namespace (namespace : string) : option string :=
  let trimmed := trim namespace in
  match trimmed with
  | EmptyString => None
  | String first_char chars =>
      if negb (is_ascii_alphabetic first_char) then None
      else if all_chars namespace_char chars then Some trimmed else None
  end.

(** * Properties *)

Lemma all_chars_app p s t : all_chars p (s +:+ t) = all_chars p s && all_chars p t.
Proof.
  unfold all_chars. induction s as [|c s IH]; [done|].
  rewrite app_cons. simpl. by rewrite IH, andb_assoc.
Qed.

(** With a site and overrides that were validated when they were read, the
    intake prefix never panics; it is missing only when nothing is configured,
    an override wins over the site and [dd_url] gives way to [dd_dd_url], and the
    prefix obtained is itself a valid URL prefix. *)
Theorem intake_prefix_valid site dd dd_dd :
  (∀ s, site = Some s → site_new s = Ok s) →
  (∀ u, dd = Some u → dd_url_new u = Ok u) →
  (∀ u, dd_dd = Some u → dd_url_new u = Ok u) →
  match intake_prefix_new site (override_maybe_new dd dd_dd) with
  | Prefix p => url_prefix_re p = true ∧
                (∀ u, dd_dd = Some u → p = u) ∧ (∀ u, dd_dd = None → dd = Some u → p = u)
  | MissingIntakeUrl => site = None ∧ dd = None ∧ dd_dd = None
  | Panic => False
  end.
Proof.
  assert (∀ u, dd_url_new u = Ok u → url_prefix_re u = true) as Hu.
  { intros u. unfold dd_url_new, validate_url_prefix. by destruct (url_prefix_re u). }
  assert (∀ s, site_new s = Ok s → url_prefix_re ("https://api." +:+ s) = true) as Hs.
  { intros s. unfold site_new. destruct (site_re s) eqn:E; [|done]. intros _.
    unfold site_re in E. apply andb_prop in E as [_ E].
    unfold url_prefix_re, site_re. simpl. rewrite all_chars_app, E. done. }
  intros Hsite Hdd Hdddd.
  assert (∀ u, dd_url_new u = Ok u → new_expect_validated u = Prefix u) as Hv.
  { intros u Hok. unfold new_expect_validated, validate_url_prefix. by rewrite (Hu u Hok). }
  destruct dd_dd as [u2|].
  { assert (intake_prefix_new site (override_maybe_new dd (Some u2)) = new_expect_validated u2) as ->
      by (by destruct dd, site). rewrite Hv by auto. naive_solver. }
  destruct dd as [u1|].
  { assert (intake_prefix_new site (override_maybe_new (Some u1) None) = new_expect_validated u1) as ->
      by (by destruct site). rewrite Hv by auto. naive_solver. }
  destruct site as [s|]; cbn [intake_prefix_new override_maybe_new].
  - naive_solver.
  - done.
Qed.

(** A namespace is accepted exactly when, once trimmed, it is a letter followed
    by letters, digits, underscores and periods; it is returned trimmed. *)
Theorem parse_metric_namespace_spec namespace ns :
  parse_metric_namespace namespace = Some ns ↔
  ns = trim namespace ∧
  ∃ c rest, ns = String c rest ∧ is_ascii_alphabetic c = true ∧
    ∀ d, d ∈ bytes_of rest → namespace_char d = true.
Proof.
  assert (∀ s, all_chars namespace_char s = true ↔ ∀ d, d ∈ bytes_of s → namespace_char d = true)
    as Hall.
  { intros s. unfold all_chars. rewrite forallb_forall. by setoid_rewrite list_elem_of_In. }
  unfold parse_metric_namespace. destruct (trim namespace) as [|c rest].
  - split; [done|]. by intros [-> (?&?&?&_)].
  - destruct (is_ascii_alphabetic c) eqn:Ec; simpl.
    + destruct (all_chars namespace_char rest) eqn:Er; split.
      * intros [= <-]. split; [done|]. exists c, rest. split_and!; try done. by apply Hall.
      * by intros [-> _].
      * done.
      * intros [-> (c' & rest' & [= <- <-] & _ & Hd)]. apply Hall in Hd. congruence.
    + split; [done|]. intros [-> (c' & rest' & [= <- <-] & Hc & _)]. congruence.
Qed.

Lemma intake_prefix_valid_witness :
  intake_prefix_new (Some "datadoghq.eu") (override_maybe_new (Some "http://a:8080") None)
    = Prefix "http://a:8080" ∧ url_prefix_re "http://a:8080" = true.
Proof.
  split; [reflexivity|].
  apply (intake_prefix_valid (Some "datadoghq.eu") (Some "http://a:8080") None).
  - intros s [= <-]. reflexivity.
  - intros s [= <-]. reflexivity.
  - discriminate.
Defined.

Example namespace_ok : parse_metric_namespace " my_app.v1 " = Some "my_app.v1".
Proof. reflexivity. Qed.
Example namespace_dash : parse_metric_namespace "my-app" = None.
Proof. reflexivity. Qed.
