(* ===== verification/DogStatsD.v ===== *)
(** The DogStatsD server: [dogstatsd/src/dogstatsd.rs].

    [process_packet] turns a packet into the metrics sent to the aggregator.
    Module [Queue] is the reader task, the processing loop and the bounded queue
    and buffer pool between them, as a transition system over all interleavings.
    Module [Pipe] is the reassembly of messages read from a Windows named pipe. *)
From Stdlib Require Import Ascii SpecFloat.
From S2P Require Import Prelude RStr Float Externals Metric Aggregator.

Definition DEFAULT_BUFFER_SIZE : Z := 8192.
Definition DEFAULT_QUEUE_SIZE : Z := 1024.

(** A configured size; zero and absent mean the default. *)
Definition configured_size (configured : option Z) (default_size : Z) : Z :=
  match configured with
  | Some size => if size =? 0 then default_size else size
  | None => default_size
  end.

Definition newline : ascii := "010"%char.

Section Packets.
Context `{!UstrOrd, !Hasher, !DDSketch}.

Definition prepend_namespace (namespace : string) (metric : Metric) : Metric :=
  let new_name := namespace +:+ "." +:+ m_name metric in
  {| m_name := new_name; m_value := m_value metric; m_tags := m_tags metric;
     m_id := metric_id new_name (m_tags metric) (m_timestamp metric);
     m_timestamp := m_timestamp metric |}.

(** Not empty, not a service check, not an event, not a metric of the Lambda layer. *)
Definition is_metric_line (m : string) : bool :=
  negb (is_empty m) && negb (starts_with "_sc|" m) && negb (starts_with "_e{" m)
  && negb (starts_with "aws.lambda.enhanced.invocations" m).

(** One line of a packet; [clocks] are the two clock readings of the parser. *)
Definition line_metric (clocks : Z * Z) (namespace : option string) (m : string) : option Metric :=
  match parse clocks.1 clocks.2 (remove_char newline m) with
  | Ok metric =>
      Some (match namespace with Some ns => prepend_namespace ns metric | None => metric end)
  | Err _ => None
  end.

(** [insert_metrics]: the batch sent to the aggregator, if it is not empty. *)
Definition insert_metrics (clocks : Z * Z) (namespace : option string) (msg : list string)
    : option (list Metric) :=
  let all_valid_metrics :=
    omap (line_metric clocks namespace) (filter (λ m, is_metric_line m = true) msg) in
  match all_valid_metrics with [] => None | _ => Some all_valid_metrics end.

Definition process_packet (clocks : Z * Z) (namespace : option string) (buf : list ascii)
    : option (list Metric) :=
  match buf with
  | [] => None
  | _ =>
      match from_utf8 buf with
      | None => None
      | Some msgs => insert_metrics clocks namespace (split newline msgs)
      end
  end.
End Packets.

(** * The reader, the queue and the processor *)
Module Queue.

Inductive Source := Network (addr : string) | NamedPipe (name : string).

Record Packet := { data : list ascii; source : Source }.

Definition is_pooled (p : Packet) : bool :=
  match source p with Network _ => true | NamedPipe _ => false end.

(** What a read from the socket gives. *)
Inductive ReadResult :=
  | Received (p : Packet)
  | ConnectionReset
  | WouldBlock
  | ReadError.

(** Where the reader is: at the top of its loop, waiting for a packet with a
    buffer in hand, draining the socket without waiting, or finished. *)
Inductive ReaderPc := RTop | RWait | RDrain | RExit.
(** Where the processor is: serving the queue, draining it after the
    cancellation, about to leave, or gone with the receiver dropped. *)
Inductive ProcessorPc := PServe | PDrain | PLeave | PExit.

Record State := {
  reader : ReaderPc;
  processor : ProcessorPc;
  cancelled : bool;
  queue : list Packet;
  pool : nat;
  dropped : Z;
  (** Ghost history: packets read, accepted by the queue, processed, refused by a
      closed queue, lost with the queue; buffers allocated and leaked. *)
  received : list Packet;
  accepted : list Packet;
  processed : list Packet;
  refused : list Packet;
  lost : list Packet;
  allocated : nat;
  leaked : nat;
}.

Definition init : State :=
  {| reader := RTop; processor := PServe; cancelled := false; queue := []; pool := 0;
     dropped := 0; received := []; accepted := []; processed := []; refused := [];
     lost := []; allocated := 0; leaked := 0 |}.

Section Server.
Context (queue_size : nat).

(** [pool_rx.try_recv().unwrap_or_else(|_| vec![0u8; buf_size])]: buffers left in
    the pool and number of buffers allocated. *)
Definition take_buffer (s : State) : nat * nat :=
  match pool s with O => (O, S (allocated s)) | S n => (n, allocated s) end.

Definition closed (s : State) : bool :=
  match processor s with PExit => true | _ => false end.

(** The three answers of [try_send_packet]: queued, dropped on a full queue, or
    refused by a closed one ([false]).  The buffer goes back to the pool unless
    the packet is queued. *)
Definition try_send_packet (s : State) (p : Packet) (pool_left alloc : nat)
    (on_open on_closed : ReaderPc) : State :=
  let base q acc pl dr ref pc :=
    {| reader := pc; processor := processor s; cancelled := cancelled s; queue := q;
       pool := pl; dropped := dr; received := received s ++ [p]; accepted := acc;
       processed := processed s; refused := ref; lost := lost s;
       allocated := alloc; leaked := leaked s |} in
  if closed s then
    base (queue s) (accepted s) (S pool_left) (dropped s) (refused s ++ [p]) on_closed
  else if (length (queue s) <? queue_size)%nat then
    base (queue s ++ [p]) (accepted s ++ [p]) pool_left (dropped s) (refused s) on_open
  else
    base (queue s) (accepted s) (S pool_left) (dropped s + 1) (refused s) on_open.

(** The reader moves, with the pool and the counters given. *)
Definition reader_at (s : State) (pc : ReaderPc) (pool_left alloc leak : nat) : State :=
  {| reader := pc; processor := processor s; cancelled := cancelled s; queue := queue s;
     pool := pool_left; dropped := dropped s; received := received s;
     accepted := accepted s; processed := processed s; refused := refused s; lost := lost s;
     allocated := alloc; leaked := leak |}.

(** [while !cancel.is_cancelled()], then take a buffer. *)
Definition reader_top (s : State) : State :=
  if cancelled s then reader_at s RExit (pool s) (allocated s) (leaked s)
  else let '(pl, al) := take_buffer s in reader_at s RWait pl al (leaked s).

(** The [select!] sees the cancellation while the reader waits. *)
Definition reader_cancel (s : State) : State :=
  reader_at s RExit (S (pool s)) (allocated s) (leaked s).

(** The read completes.  After a connection reset the buffer is not returned. *)
Definition reader_read (s : State) (r : ReadResult) : State :=
  match r with
  | ConnectionReset => reader_at s RExit (pool s) (allocated s) (S (leaked s))
  | ReadError | WouldBlock => reader_at s RTop (S (pool s)) (allocated s) (leaked s)
  | Received p =>
      match data p with
      | [] => reader_at s RTop (S (pool s)) (allocated s) (leaked s)
      | _ => try_send_packet s p (pool s) (allocated s) RDrain RExit
      end
  end.

(** One turn of the drain; leaving it, the reader stops if the channel is closed. *)
Definition reader_drain (s : State) (r : ReadResult) : State :=
  let '(pl, al) := take_buffer s in
  match r with
  | Received p =>
      match data p with
      | [] => reader_at s RDrain (S pl) al (leaked s)
      | _ => try_send_packet s p pl al RDrain RExit
      end
  | _ => reader_at s (if closed s then RExit else RTop) (S pl) al (leaked s)
  end.

(** A packet is processed, its buffer goes back to the pool if it came from it. *)
Definition process_one (s : State) (p : Packet) (q : list Packet) : State :=
  {| reader := reader s; processor := processor s; cancelled := cancelled s; queue := q;
     pool := if is_pooled p then S (pool s) else pool s; dropped := dropped s;
     received := received s; accepted := accepted s; processed := processed s ++ [p];
     refused := refused s; lost := lost s; allocated := allocated s; leaked := leaked s |}.

Definition processor_at (s : State) (pc : ProcessorPc) : State :=
  {| reader := reader s; processor := pc; cancelled := cancelled s; queue := queue s;
     pool := pool s; dropped := dropped s; received := received s; accepted := accepted s;
     processed := processed s; refused := refused s; lost := lost s;
     allocated := allocated s; leaked := leaked s |}.

(** The receiver is dropped with the packets still queued. *)
Definition drop_receiver (s : State) : State :=
  {| reader := reader s; processor := PExit; cancelled := cancelled s; queue := [];
     pool := pool s; dropped := dropped s; received := received s; accepted := accepted s;
     processed := processed s; refused := refused s; lost := lost s ++ queue s;
     allocated := allocated s; leaked := leaked s |}.

Definition cancel (s : State) : State :=
  {| reader := reader s; processor := processor s; cancelled := true; queue := queue s;
     pool := pool s; dropped := dropped s; received := received s; accepted := accepted s;
     processed := processed s; refused := refused s; lost := lost s;
     allocated := allocated s; leaked := leaked s |}.

Definition from_network (r : ReadResult) : Prop :=
  match r with Received p => is_pooled p = true | _ => True end.

(** The steps of the reader task, of the processing loop and of the caller. *)
Inductive step : State → State → Prop :=
  | step_cancel s : step s (cancel s)
  | step_reader_top s : reader s = RTop → step s (reader_top s)
  | step_reader_cancel s : reader s = RWait → cancelled s = true → step s (reader_cancel s)
  | step_reader_read s r : reader s = RWait → from_network r → step s (reader_read s r)
  | step_reader_drain s r : reader s = RDrain → from_network r → step s (reader_drain s r)
  | step_process s p q :
      processor s = PServe ∨ processor s = PDrain → queue s = p :: q →
      step s (process_one s p q)
  | step_senders_gone s :
      processor s = PServe → reader s = RExit → queue s = [] → step s (processor_at s PLeave)
  | step_cancelled s : processor s = PServe → cancelled s = true → step s (processor_at s PDrain)
  | step_drained s : processor s = PDrain → queue s = [] → step s (processor_at s PLeave)
  | step_leave s : processor s = PLeave → step s (drop_receiver s).
End Server.
End Queue.

(** * Messages from a named pipe *)
Module Pipe.

(** Length of the complete messages: up to the last newline, included. *)
Fixpoint complete_message_size (l : list ascii) : nat :=
  match l with
  | [] => 0
  | c :: l =>
      match complete_message_size l with
      | O => if decide (c = newline) then 1 else 0
      | S n => S (S n)
      end
  end.

(** One read of a client: [pending] is the start of the buffer kept from the
    previous reads, [chunk] what the read wrote after it.  The result is the
    packet of the complete messages, if any, and the bytes kept. *)
Definition on_read (buf_size : nat) (pending chunk : list ascii)
    : option (list ascii) * list ascii :=
  let buf := pending ++ chunk in
  let complete := complete_message_size buf in
  let packet := if (0 <? complete)%nat then Some (take complete buf) else None in
  let start_write_index := (length buf - complete)%nat in
  (packet,
   if (buf_size <=? start_write_index)%nat then [] else drop complete buf).

(** The loop over the reads of a client: the packets handed to the queue and the
    bytes left in the buffer. *)
Fixpoint client_loop (buf_size : nat) (pending : list ascii) (reads : list (list ascii))
    : list (list ascii) * list ascii :=
  match reads with
  | [] => ([], pending)
  | chunk :: reads =>
      let '(packet, pending) := on_read buf_size pending chunk in
      let '(packets, rest) := client_loop buf_size pending reads in
      (option_list packet ++ packets, rest)
  end.
End Pipe.

Section PacketFacts.
Context `{!UstrOrd, !Hasher, !DDSketch}.

Definition packet_metrics clocks namespace buf : list Metric :=
  default [] (process_packet clocks namespace buf).

Lemma packet_metrics_lines clocks namespace buf :
  utf8_valid buf = true →
  packet_metrics clocks namespace buf =
    omap (line_metric clocks namespace)
      (filter (λ m, is_metric_line m = true) (split newline (str_of buf))).
Proof.
  intros Hv. unfold packet_metrics, process_packet, from_utf8, insert_metrics.
  destruct buf as [|c buf]; [done|]. rewrite Hv. by case_match.
Qed.

Lemma line_metric_has_id clocks namespace line m :
  line_metric clocks namespace line = Some m → has_id m.
Proof.
  unfold line_metric. destruct (parse _ _ _) as [m0|e] eqn:E; [|done]. intros [= <-].
  destruct namespace as [ns|]; [done|]. unfold has_id, id_of. by eapply parse_id.
Qed.

(** The lines of a packet are independent: a packet made of two valid ones,
    whatever the first holds (bad lines, events, service checks), gives the
    metrics of the first and then those of the second. *)
Theorem packet_lines_independent clocks namespace buf1 buf2 :
  utf8_valid buf1 = true → utf8_valid buf2 = true →
  packet_metrics clocks namespace (buf1 ++ newline :: buf2) =
    packet_metrics clocks namespace buf1 ++ packet_metrics clocks namespace buf2.
Proof.
  intros Hv1 Hv2. rewrite !packet_metrics_lines; [|done..|].
  - rewrite str_of_app. cbn [String.string_of_list_ascii]. by rewrite split_app, filter_app, omap_app.
  - by rewrite utf8_valid_app.
Qed.

(** Whatever bytes arrive, the batch sent to the aggregator, if there is one,
    is not empty and each metric of it has the identifier of its name, tags and
    timestamp, comes from one line of the packet that is neither an event nor a
    service check, and carries the namespace. *)
Theorem process_packet_sound clocks namespace buf ms :
  process_packet clocks namespace buf = Some ms →
  ms ≠ [] ∧ Forall has_id ms ∧
  Forall (λ m, ∃ line m0, line ∈ split newline (str_of buf) ∧
    starts_with "_sc|" line = false ∧ starts_with "_e{" line = false ∧
    parse clocks.1 clocks.2 line = Ok m0 ∧ m_tags m = m_tags m0 ∧ m_value m = m_value m0 ∧
    m_timestamp m = m_timestamp m0 ∧
    m_name m = match namespace with Some ns => ns +:+ "." +:+ m_name m0 | None => m_name m0 end)
    ms.
Proof.
  intros Hp. assert (utf8_valid buf = true) as Hv.
  { unfold process_packet, from_utf8 in Hp. destruct buf; [done|]. by destruct (utf8_valid _). }
  assert (ms ≠ []) as Hne.
  { unfold process_packet, insert_metrics in Hp. repeat case_match; simplify_eq/=; done. }
  pose proof (packet_metrics_lines clocks namespace buf Hv) as Hl.
  unfold packet_metrics in Hl. rewrite Hp in Hl. simpl in Hl.
  split; [done|]. rewrite Hl, !Forall_forall.
  split; intros m (line & [Hm Hin]%list_elem_of_filter & Hlm)%list_elem_of_omap.
  - by eapply line_metric_has_id.
  - unfold line_metric in Hlm. rewrite remove_char_id in Hlm by (by eapply split_no_sep).
    destruct (parse _ _ _) as [m0|e] eqn:E; [|done]. injection Hlm as <-.
    unfold is_metric_line in Hm. zify_bool.
    exists line, m0. split_and!; try done; by destruct namespace.
Qed.
End PacketFacts.

Module QueueFacts.
Import Queue.
Section Server.
Context (queue_size : nat).

Definition pooled_count (l : list Packet) : nat := length (filter (λ p, is_pooled p = true) l).
Definition in_hand (s : State) : nat := match reader s with RWait => 1 | _ => 0 end.

(** What holds of every reachable state. *)
Record queue_inv (s : State) : Prop := {
  inv_bound : (length (queue s) ≤ queue_size)%nat;
  inv_fifo : accepted s = processed s ++ lost s ++ queue s;
  inv_order : sublist (accepted s) (received s);
  inv_count : zlen (received s) = zlen (accepted s) + dropped s + zlen (refused s);
  inv_buffers : allocated s =
    (pool s + pooled_count (queue s) + pooled_count (lost s) + in_hand s + leaked s)%nat;
  inv_open : match processor s with PExit => queue s = [] | _ => lost s = [] ∧ refused s = [] end;
  inv_uncancelled : cancelled s = true ∨
    lost s = [] ∧ (processor s = PServe ∨ reader s = RExit ∧ queue s = []);
}.

Lemma pooled_count_app l1 l2 : pooled_count (l1 ++ l2) = (pooled_count l1 + pooled_count l2)%nat.
Proof. unfold pooled_count. by rewrite filter_app, length_app. Qed.
Lemma pooled_count_cons p l : pooled_count (p :: l) = ((if is_pooled p then 1 else 0) + pooled_count l)%nat.
Proof. unfold pooled_count. rewrite filter_cons. destruct (is_pooled p); done. Qed.

Lemma queue_init_inv : queue_inv init.
Proof. split; simpl; try lia; auto. Qed.

(** Buffers outside the pool, the queue and the reader's hand. *)
Definition buffers_out (s : State) : nat :=
  (pooled_count (queue s) + pooled_count (lost s) + leaked s)%nat.

Lemma take_buffer_count s :
  ((take_buffer s).2 + pool s = S (allocated s + (take_buffer s).1))%nat.
Proof. unfold take_buffer. destruct (pool s); simpl; lia. Qed.

(** The reader hands a network packet over, holding one buffer. *)
Lemma try_send_inv s p pl al pc :
  queue_inv s → reader s ≠ RExit → pc ≠ RWait → is_pooled p = true →
  (al = S (pl + buffers_out s))%nat → queue_inv (try_send_packet queue_size s p pl al pc RExit).
Proof.
  intros [Hb Hf Ho Hc Hal Hop Hu] Hr Hpc Hp Hbuf. unfold buffers_out in Hbuf.
  assert (cancelled s = true ∨ lost s = [] ∧ processor s = PServe) as Hu' by tauto.
  assert (sublist (accepted s ++ [p]) (received s ++ [p])) by by apply sublist_app.
  assert (sublist (accepted s) (received s ++ [p])) by by apply sublist_inserts_r.
  unfold try_send_packet, closed.
  destruct (Nat.ltb_spec (length (queue s)) queue_size), (processor s) eqn:Ep;
    split; unfold in_hand; simpl; rewrite ?Ep, ?pooled_count_app, ?length_app, ?pooled_count_cons, ?Hp; simpl;
    try done; try (rewrite Hf, !app_assoc; done); try (change (pooled_count []) with 0%nat);
    try (destruct pc; done || lia); try lia; tauto.
Qed.

(** The reader moves without a packet, its buffer accounted for. *)
Lemma reader_at_inv s pc pl al lk :
  queue_inv s → reader s ≠ RExit →
  (al + leaked s = pl + (match pc with RWait => 1 | _ => 0 end) + lk + buffers_out s)%nat →
  queue_inv (reader_at s pc pl al lk).
Proof.
  intros [Hb Hf Ho Hc Hal Hop Hu] Hr Hbuf. unfold buffers_out in Hbuf.
  split; unfold in_hand; simpl; try done; [lia|tauto].
Qed.

Lemma reader_read_inv s r :
  queue_inv s → reader s = RWait → from_network r → queue_inv (reader_read queue_size s r).
Proof.
  intros Hinv Hr Hn. pose proof (inv_buffers s Hinv) as Hal. unfold in_hand in Hal.
  rewrite Hr in Hal. assert (reader s ≠ RExit) by congruence.
  destruct r as [p| | |]; simpl; [destruct (data p)| | |];
    (apply reader_at_inv || apply try_send_inv); try done; unfold buffers_out; lia.
Qed.

Lemma reader_drain_inv s r :
  queue_inv s → reader s = RDrain → from_network r → queue_inv (reader_drain queue_size s r).
Proof.
  intros Hinv Hr Hn. pose proof (inv_buffers s Hinv) as Hal. unfold in_hand in Hal.
  rewrite Hr in Hal. assert (reader s ≠ RExit) by congruence.
  pose proof (take_buffer_count s) as Htb. unfold reader_drain.
  destruct (take_buffer s) as [pl al]; simpl in *.
  destruct r as [p| | |]; simpl; [destruct (data p)| | |];
    (apply reader_at_inv || apply try_send_inv); try done; unfold buffers_out;
    destruct (closed s); lia.
Qed.

Lemma reader_top_inv s : queue_inv s → reader s = RTop → queue_inv (reader_top s).
Proof.
  intros Hinv Hr. pose proof (inv_buffers s Hinv) as Hal. unfold in_hand in Hal.
  rewrite Hr in Hal. assert (reader s ≠ RExit) by congruence.
  pose proof (take_buffer_count s) as Htb. unfold reader_top.
  destruct (cancelled s); [|destruct (take_buffer s) as [pl al]; simpl in *];
    apply reader_at_inv; try done; unfold buffers_out; lia.
Qed.

Lemma process_one_inv s p q :
  queue_inv s → processor s = PServe ∨ processor s = PDrain → queue s = p :: q →
  queue_inv (process_one s p q).
Proof.
  intros [Hb Hf Ho Hc Hal Hop Hu] Hpr Hq.
  assert (lost s = []) as Hl by (destruct Hpr as [Hpr|Hpr]; rewrite Hpr in Hop; tauto).
  rewrite Hq, pooled_count_cons in Hal. rewrite Hq in Hb, Hf. simpl in Hb.
  split; unfold in_hand in *; simpl; try done.
  - lia.
  - rewrite Hf, Hl, <- app_assoc. done.
  - destruct (is_pooled p); lia.
  - destruct Hpr as [Hpr|Hpr]; rewrite Hpr in *; tauto.
  - destruct Hu as [?|[? [?|[? ?]]]]; [tauto|tauto|congruence].
Qed.

Lemma queue_step_inv s s' : queue_inv s → step queue_size s s' → queue_inv s'.
Proof.
  intros Hinv Hstep.
  destruct Hstep as [s|s Hr|s Hr Hca|s r Hr Hn|s r Hr Hn|s p q Hpr Hq|s Hpr Hr Hq|s Hpr Hca|s Hpr Hq|s Hpr];
    auto using reader_top_inv, reader_read_inv, reader_drain_inv, process_one_inv.
  all: pose proof Hinv as [Hb Hf Ho Hc Hal Hop Hu]; unfold in_hand in Hal.
  - split; simpl; auto.
  - apply reader_at_inv; [done|congruence|]. rewrite Hr in Hal. unfold buffers_out. lia.
  - rewrite Hpr in Hop. split; simpl; try done; tauto.
  - rewrite Hpr in Hop. split; simpl; try done; tauto.
  - rewrite Hpr in Hop. split; simpl; try done. destruct Hu as [?|[? [?|[? ?]]]]; [tauto|congruence|tauto].
  - rewrite Hpr in Hop. destruct Hop as [Hl Href].
    split; unfold in_hand; simpl; try done; rewrite ?Hl, ?app_nil_r; simpl; try done.
    + lia.
    + by rewrite Hf, Hl.
    + rewrite Hl in Hal. simpl in Hal. change (pooled_count []) with 0%nat in *. lia.
    + destruct Hu as [?|[? [?|[? ?]]]]; [tauto|congruence|tauto].
Qed.

Lemma queue_reach_inv s : rtc (step queue_size) init s → queue_inv s.
Proof.
  intros Hr. pose proof queue_init_inv as Hi. revert Hi. generalize init, s, Hr.
  clear Hr. induction 1 as [|x y z Hxy _ IH]; [done|].
  intros Hx. apply IH. by eapply queue_step_inv.
Qed.

(** C17: Under every interleaving of the reader, the processor and the
    cancellation, the queue stays within its capacity, packets are processed in
    the order they were accepted, each packet read is accepted, counted as
    dropped or refused by the closed queue, and every buffer allocated is in
    the pool, in the queue, in the reader's hand or lost with the queue.  As
    long as the server is not cancelled no accepted packet is lost. *)
Theorem queue_conservation s :
  rtc (step queue_size) init s →
  (length (queue s) ≤ queue_size)%nat ∧
  accepted s = processed s ++ lost s ++ queue s ∧
  sublist (accepted s) (received s) ∧
  zlen (received s) = zlen (accepted s) + dropped s + zlen (refused s) ∧
  allocated s =
    (pool s + pooled_count (queue s) + pooled_count (lost s) + in_hand s + leaked s)%nat ∧
  (cancelled s = false → accepted s = processed s ++ queue s).
Proof.
  intros [Hb Hf Ho Hc Hal Hop Hu]%queue_reach_inv. split_and!; try done.
  intros Hca. destruct Hu as [?|[Hl _]]; [congruence|]. by rewrite Hf, Hl.
Qed.

(** The drain that follows a cancellation does not cover a packet the reader
    hands over between the end of the drain and the drop of the receiver: such
    a packet is accepted by the queue and never processed. *)
Theorem read_packet_can_be_lost p :
  (0 < queue_size)%nat → is_pooled p = true → data p ≠ [] →
  ∃ s, rtc (step queue_size) init s ∧ processor s = PExit ∧
    accepted s = [p] ∧ processed s = [] ∧ lost s = [p].
Proof.
  intros Hq Hp Hd.
  set (s1 := reader_top init). set (s2 := processor_at (cancel s1) PDrain).
  set (s3 := reader_read queue_size (processor_at s2 PLeave) (Received p)).
  assert (s3 = try_send_packet queue_size (processor_at s2 PLeave) p 0 1 RDrain RExit) as E3
    by (unfold s3, reader_read; by destruct (data p)).
  unfold try_send_packet in E3. simpl in E3.
  rewrite (proj2 (Nat.ltb_lt 0 queue_size) Hq) in E3.
  exists (drop_receiver s3). split; [|by rewrite E3].
  eapply rtc_l; [apply step_reader_top; reflexivity|]. fold s1.
  eapply rtc_l; [apply step_cancel|].
  eapply rtc_l; [apply step_cancelled; reflexivity|]. fold s2.
  eapply rtc_l; [apply step_drained; reflexivity|].
  eapply rtc_l; [apply (step_reader_read _ _ (Received p)); [reflexivity|exact Hp]|]. fold s3.
  eapply rtc_l; [apply step_leave; by rewrite E3|]. apply rtc_refl.
Qed.
End Server.
End QueueFacts.

Module PipeFacts.
Import Pipe.
Implicit Types (l pending chunk : list ascii).

Lemma complete_size_cases l :
  (newline ∉ l ∧ complete_message_size l = 0%nat) ∨
  (∃ msgs rest, l = msgs ++ newline :: rest ∧ newline ∉ rest ∧
     complete_message_size l = S (length msgs)).
Proof.
  induction l as [|c l [[Hn E]|(msgs & rest & -> & Hr & E)]]; simpl.
  - left. set_solver.
  - rewrite E. case_decide as Hc; [|left; set_solver].
    right. exists [], l. by subst.
  - right. exists (c :: msgs), rest. rewrite E. done.
Qed.

Lemma on_read_split buf_size pending chunk packet kept :
  on_read buf_size pending chunk = (packet, kept) →
  (∃ msgs rest, pending ++ chunk = msgs ++ newline :: rest ∧ newline ∉ rest ∧
     packet = Some (msgs ++ [newline]) ∧ kept = if (buf_size <=? length rest)%nat then [] else rest) ∨
  (newline ∉ pending ++ chunk ∧ packet = None ∧
     kept = if (buf_size <=? length (pending ++ chunk))%nat then [] else pending ++ chunk).
Proof.
  unfold on_read.
  destruct (complete_size_cases (pending ++ chunk)) as [[Hn ->]|(msgs & rest & E & Hr & Hs)].
  - rewrite Nat.sub_0_r, drop_0. intros [= <- <-]. by right.
  - rewrite Hs, E. replace (msgs ++ newline :: rest) with ((msgs ++ [newline]) ++ rest)
      by by rewrite <- app_assoc.
    rewrite take_app_length', drop_app_length' by (rewrite length_app; simpl; lia).
    rewrite !length_app. simpl.
    replace (length msgs + 1 + length rest - S (length msgs))%nat with (length rest) by lia.
    intros [= <- <-]. left. exists msgs, rest. by rewrite <- app_assoc.
Qed.

(** No message of the stream fills the buffer. *)
Definition lines_fit (buf_size : nat) (stream : list ascii) : Prop :=
  ∀ l1 l2 l3, stream = l1 ++ l2 ++ l3 → newline ∉ l2 → (length l2 < buf_size)%nat.

(** C20: However the bytes of a client are cut into reads, when every line fits in
    the buffer the packets handed to the queue followed by the bytes kept are
    exactly the bytes of the client, each packet ends with a newline, and the
    bytes kept hold no complete message. *)
Theorem pipe_reassembles buf_size pending reads packets rest :
  newline ∉ pending → lines_fit buf_size (pending ++ concat reads) →
  client_loop buf_size pending reads = (packets, rest) →
  concat packets ++ rest = pending ++ concat reads ∧
  Forall (λ p, last p = Some newline) packets ∧ newline ∉ rest.
Proof.
  revert pending packets rest. induction reads as [|chunk reads IH]; intros pending packets rest Hn Hfit;
    cbn [client_loop].
  - intros [= <- <-]. simpl. by rewrite app_nil_r.
  - destruct (on_read buf_size pending chunk) as [packet kept] eqn:E.
    destruct (client_loop buf_size kept reads) as [packets' rest'] eqn:Ec. intros [= <- <-].
    cbn [concat] in *. rewrite app_assoc in Hfit |- *.
    destruct (on_read_split _ _ _ _ _ E) as [(msgs & r & Eb & Hr & -> & ->)|(Hn' & -> & ->)].
    + rewrite Eb in *. assert (length r < buf_size)%nat as Hlt.
      { apply (Hfit (msgs ++ [newline]) r (concat reads)); [by rewrite <- !app_assoc|done]. }
      apply Nat.leb_gt in Hlt. rewrite Hlt in Ec. apply IH in Ec as (E1 & E2 & E3); [| done|].
      * simpl. rewrite <- app_assoc, E1. split_and!; [by rewrite <- !app_assoc|constructor; [|done]|done].
        apply last_snoc.
      * intros l1 l2 l3 El. apply (Hfit ((msgs ++ [newline]) ++ l1) l2 l3).
        rewrite <- !app_assoc, <- El. done.
    + assert (length (pending ++ chunk) < buf_size)%nat as Hlt
        by (apply (Hfit [] (pending ++ chunk) (concat reads)); done).
      apply Nat.leb_gt in Hlt. rewrite Hlt in Ec. by apply IH in Ec.
Qed.

(** A line that fills the buffer is not dropped as a whole: its end, read after
    the buffer was reset, is delivered as a message of its own. *)
Theorem oversized_tail_delivered buf_size l1 l2 :
  (0 < buf_size)%nat → newline ∉ l1 → newline ∉ l2 → length l1 = buf_size →
  client_loop buf_size [] [l1; l2 ++ [newline]] = ([l2 ++ [newline]], []).
Proof.
  intros Hb Hn1 Hn2 Hl. cbn [client_loop].
  destruct (on_read buf_size [] l1) as [p1 k1] eqn:E1.
  destruct (on_read_split _ _ _ _ _ E1) as [(m & r & Em & _)|(_ & -> & Hk)].
  { simpl in Em. set_solver. }
  simpl in Hk. rewrite Hl, Nat.leb_refl in Hk. subst k1.
  destruct (on_read buf_size [] (l2 ++ [newline])) as [p2 k2] eqn:E2.
  destruct (on_read_split _ _ _ _ _ E2) as [(m & r & Em & Hr & -> & ->)|(Hn & _)].
  - simpl in Em. destruct r as [|x r] using rev_ind.
    + apply app_inj_tail in Em as [<- _].
      destruct (Nat.leb_spec buf_size (length ([] : list ascii))); simpl in *; done.
    + rewrite app_comm_cons, app_assoc in Em. apply app_inj_tail in Em as [_ <-]. set_solver.
  - simpl in Hn. set_solver.
Qed.
End PipeFacts.

(** * Witnesses *)
Module DogStatsDExamples.
#[local] Existing Instances Concrete.ustr_ord Concrete.hasher Concrete.ddsketch.

Definition hits : list ascii := bytes_of "page.hits:1|c|#env:prod".
Definition event : list ascii := bytes_of "_e{1,1}:a|b".

Lemma packet_lines_independent_witness :
  length (packet_metrics (0, 0) (Some "app") (event ++ newline :: hits)) = 1%nat.
Proof.
  rewrite (packet_lines_independent (0, 0) (Some "app") event hits); vm_compute; reflexivity.
Defined.

Lemma process_packet_sound_witness :
  ∃ ms, process_packet (0, 0) (Some "app") hits = Some ms ∧ m_name <$> ms = ["app.page.hits"] ∧
    Forall has_id ms.
Proof.
  eexists. split; [vm_compute; reflexivity|]. split; [vm_compute; reflexivity|].
  apply (process_packet_sound (0, 0) (Some "app") hits). vm_compute. reflexivity.
Defined.

Definition packet : Queue.Packet := {| Queue.data := hits; Queue.source := Queue.Network "peer" |}.

Lemma queue_conservation_witness :
  (length (Queue.queue (Queue.reader_top Queue.init)) ≤ 1)%nat.
Proof.
  apply (QueueFacts.queue_conservation 1 (Queue.reader_top Queue.init)).
  apply rtc_once. apply Queue.step_reader_top. reflexivity.
Defined.

Lemma read_packet_can_be_lost_witness :
  ∃ s, rtc (Queue.step 1) Queue.init s ∧ Queue.lost s = [packet].
Proof.
  destruct (QueueFacts.read_packet_can_be_lost 1 packet) as (s & Hr & _ & _ & _ & Hl);
    [lia|done|done|by exists s].
Defined.

Lemma pipe_reassembles_witness :
  Pipe.client_loop 8 [] [bytes_of "a:1"; newline :: bytes_of "b"] =
    ([bytes_of "a:1" ++ [newline]], bytes_of "b") ∧
  newline ∉ bytes_of "b".
Proof.
  split; [vm_compute; reflexivity|].
  apply (PipeFacts.pipe_reassembles 8 [] [bytes_of "a:1"; newline :: bytes_of "b"]
           [bytes_of "a:1" ++ [newline]] (bytes_of "b")).
  - apply not_elem_of_nil.
  - intros l1 l2 l3 E _. apply (f_equal length) in E. rewrite !length_app in E.
    change (length ([] ++ concat _)) with 5%nat in E. simpl in E. lia.
  - vm_compute. reflexivity.
Defined.

Lemma oversized_tail_delivered_witness :
  Pipe.client_loop 4 [] [bytes_of "abcd"; bytes_of "efg" ++ [newline]] =
    ([bytes_of "efg" ++ [newline]], []).
Proof.
  apply (PipeFacts.oversized_tail_delivered 4 (bytes_of "abcd") (bytes_of "efg"));
    [lia|vm_compute; set_solver|vm_compute; set_solver|reflexivity].
Defined.
End DogStatsDExamples.
