(* ===== verification/ApiKey.v ===== *)
(** API keys that are resolved on demand: [dogstatsd/src/api_key.rs].

    [get_api_key] is run by any number of tasks over one factory.  Each task is a
    program counter in the body of the function; a step runs one task up to its
    next access to the shared state, lets time pass, or starts a new caller. *)
From S2P Require Import Prelude.

(** [ApiKeyFactory]; the shared part of [Dynamic] is [Shared] below. *)
Inductive ApiKeyFactory :=
  | Static (api_key : string)
  | Dynamic (reload_interval : option Z).

(** [ApiKeyState], the loading flag and the clock.  [calls] and [loads] record the
    times at which the resolver was called and its results were stamped, newest
    first, and [answers] the results. *)
Record Shared := {
  api_key : option string;
  last_load_time : option Z;
  loading_api_key : bool;
  now : Z;
  calls : list Z;
  loads : list Z;
  answers : list (option string);
}.

Definition shared_new (t : Z) : Shared :=
  {| api_key := None; last_load_time := None; loading_api_key := false; now := t;
     calls := []; loads := []; answers := [] |}.

(** Where a caller is in [get_api_key]. *)
Inductive Pc :=
  | Check
  | Cas
  | Recheck
  | Resolve
  | Store (key : option string) (stamp : Z)
  | Release
  | Spin
  | Read
  | Returned (key : option string).

Section Factory.
Context (reload_interval : option Z).

Definition should_load_api_key (s : Shared) : bool :=
  match last_load_time s with
  | None => true
  | Some last_load_time =>
      match reload_interval with
      | None => false
      | Some reload_interval => last_load_time + reload_interval <? now s
      end
  end.

Definition set_loading (s : Shared) (b : bool) : Shared :=
  {| api_key := api_key s; last_load_time := last_load_time s; loading_api_key := b;
     now := now s; calls := calls s; loads := loads s; answers := answers s |}.

(** The next step of a caller; [answer] is what the resolver returns.  The right
    side of the assignment, with its clock reading, is evaluated before the write
    lock is taken. *)
Definition task_step (answer : option string) (s : Shared) (pc : Pc) : Shared * Pc :=
  match pc with
  | Check => (s, if should_load_api_key s then Cas else Read)
  | Cas => if loading_api_key s then (s, Spin) else (set_loading s true, Recheck)
  | Recheck =>
      if should_load_api_key s then
        ({| api_key := api_key s; last_load_time := last_load_time s;
            loading_api_key := loading_api_key s; now := now s; calls := now s :: calls s;
            loads := loads s; answers := answers s |}, Resolve)
      else (s, Release)
  | Resolve => (s, Store answer (now s))
  | Store key stamp =>
      ({| api_key := key; last_load_time := Some stamp; loading_api_key := loading_api_key s;
          now := now s; calls := calls s; loads := stamp :: loads s;
          answers := key :: answers s |}, Release)
  | Release => (set_loading s false, Read)
  | Spin => (s, match last_load_time s with None => Spin | Some _ => Read end)
  | Read => (s, Returned (api_key s))
  | Returned key => (s, Returned key)
  end.

Record State := { shared : Shared; tasks : list Pc }.

Definition tick (s : State) (t : Z) : State :=
  {| shared := {| api_key := api_key (shared s); last_load_time := last_load_time (shared s);
                  loading_api_key := loading_api_key (shared s); now := t;
                  calls := calls (shared s); loads := loads (shared s);
                  answers := answers (shared s) |};
     tasks := tasks s |}.

Definition run_task (answer : option string) (s : State) (i : nat) (pc : Pc) : State :=
  let '(sh, pc) := task_step answer (shared s) pc in
  {| shared := sh; tasks := <[i := pc]> (tasks s) |}.

Inductive step : State → State → Prop :=
  | step_tick s t : now (shared s) ≤ t → step s (tick s t)
  | step_call s : step s {| shared := shared s; tasks := tasks s ++ [Check] |}
  | step_run answer s i pc : tasks s !! i = Some pc → step s (run_task answer s i pc).
End Factory.

(** [get_api_key] on a static key. *)
Definition static_key (f : ApiKeyFactory) : option string :=
  match f with Static k => Some k | Dynamic _ => None end.

Definition init (t : Z) : State := {| shared := shared_new t; tasks := [] |}.

(** * Facts *)
Section Facts.
Context (reload_interval : option Z).

(** The callers that hold the loading flag. *)
Definition holds (pc : Pc) : bool :=
  match pc with Recheck | Resolve | Store _ _ | Release => true | _ => false end.
Definition holders (s : State) : nat := length (filter (λ pc, holds pc = true) (tasks s)).

(** What the position of a caller says of the shared state. *)
Definition pc_ok (s : Shared) (pc : Pc) : Prop :=
  match pc with
  | Resolve =>
      match last_load_time s, reload_interval with
      | None, _ => True
      | Some t, Some d => t + d < now s
      | Some _, None => False
      end
  | Store _ stamp =>
      stamp ≤ now s ∧
      match last_load_time s, reload_interval with
      | None, _ => True
      | Some t, Some d => t + d < stamp
      | Some _, None => False
      end
  | Release | Read => last_load_time s ≠ None
  | Spin => last_load_time s ≠ None ∨ loading_api_key s = true
  | Returned key => key ∈ answers s
  | Check | Cas | Recheck => True
  end.

(** Two results are stamped more than the reload interval apart, and never two
    without an interval. *)
Definition spaced (later earlier : Z) : Prop :=
  match reload_interval with Some d => earlier + d < later | None => False end.

(** The last load is the newest recorded one, and the loads are spaced. *)
Definition shared_ok (s : Shared) : Prop :=
  match last_load_time s with
  | None => loads s = [] ∧ answers s = []
  | Some t => head (loads s) = Some t ∧ head (answers s) = Some (api_key s) ∧ t ≤ now s
  end ∧ Sorted spaced (loads s).

Record key_inv (s : State) : Prop := {
  inv_flag : holders s = if loading_api_key (shared s) then 1%nat else 0%nat;
  inv_pc : ∀ i pc, tasks s !! i = Some pc → pc_ok (shared s) pc;
  inv_shared : shared_ok (shared s);
}.

(** Another caller of the same state, at most one of them in the critical section. *)
Lemma holders_insert s sh i pc pc' :
  tasks s !! i = Some pc →
  (holders {| shared := sh; tasks := <[i := pc']> (tasks s) |} + (if holds pc then 1 else 0) =
   holders s + (if holds pc' then 1 else 0))%nat.
Proof.
  unfold holders; simpl. generalize (tasks s). intros l. revert i.
  induction l as [|x l IH]; intros [|i] Hi; simplify_eq/=; rewrite !filter_cons.
  - destruct (holds pc), (holds pc'); simpl; lia.
  - specialize (IH _ Hi). destruct (holds x); simpl; lia.
Qed.

Lemma holders_two s i j pi pj :
  i ≠ j → tasks s !! i = Some pi → tasks s !! j = Some pj →
  holds pi = true → holds pj = true → (2 ≤ holders s)%nat.
Proof.
  intros Hij Hi Hj Hpi Hpj.
  pose proof (holders_insert s (shared s) i pi Check Hi) as H1.
  pose proof (holders_insert {| shared := shared s; tasks := <[i := Check]> (tasks s) |}
    (shared s) j pj Check) as H2. simpl in H2.
  rewrite list_lookup_insert_ne in H2 by done. specialize (H2 Hj).
  rewrite Hpi in H1. rewrite Hpj in H2. simpl in *. lia.
Qed.

Lemma key_init_inv t : key_inv (init t).
Proof. split; simpl; try done; repeat constructor. Qed.

Lemma holder_excludes s i j pi pj :
  key_inv s → tasks s !! i = Some pi → tasks s !! j = Some pj →
  holds pi = true → holds pj = true → i = j.
Proof.
  intros Hinv Hi Hj Hpi Hpj. destruct (decide (i = j)) as [|Hij]; [done|].
  pose proof (holders_two s i j pi pj Hij Hi Hj Hpi Hpj) as H2.
  rewrite (inv_flag s Hinv) in H2. destruct (loading_api_key _); lia.
Qed.
Lemma holder_flag s i pc :
  key_inv s → tasks s !! i = Some pc → holds pc = true → loading_api_key (shared s) = true.
Proof.
  intros Hinv Hi Hp. pose proof (holders_insert s (shared s) i pc Check Hi) as H1.
  rewrite Hp in H1. simpl in H1. rewrite (inv_flag s Hinv) in H1.
  destruct (loading_api_key _); [done|lia].
Qed.

(** The part of the invariant that does not count holders is kept by a change of
    the shared state that every other caller tolerates. *)
Lemma run_pcs s sh i pc' :
  pc_ok sh pc' →
  (∀ j pc, j ≠ i → tasks s !! j = Some pc → pc_ok sh pc) →
  ∀ j pc, <[i := pc']> (tasks s) !! j = Some pc → pc_ok sh pc.
Proof.
  intros Hi Ho j pc. destruct (decide (i = j)) as [<-|Hij].
  - intros Hj. destruct (decide (i < length (tasks s))%nat).
    + rewrite list_lookup_insert_eq in Hj by done. by simplify_eq.
    + rewrite list_insert_ge in Hj by lia.
      apply lookup_lt_Some in Hj. lia.
  - rewrite list_lookup_insert_ne by done. intros. by apply (Ho j).
Qed.

Lemma tick_pc_ok sh t pc :
  now sh ≤ t → pc_ok sh pc → pc_ok (shared (tick {| shared := sh; tasks := [] |} t)) pc.
Proof.
  intros Ht. destruct pc; simpl; try done.
  - destruct (last_load_time sh), reload_interval; intros; lia || done.
  - intros [? ?]. split; [lia|done].
Qed.

Lemma store_pc_ok sh key stamp pc :
  holds pc = false ∨ pc = Release → pc_ok sh pc →
  pc_ok (task_step reload_interval None sh (Store key stamp)).1 pc.
Proof. destruct pc; simpl; intros [?| ?]; try done; intros; auto; by right. Qed.

Lemma run_keeps s i pc sh pc' :
  key_inv s → tasks s !! i = Some pc → pc_ok sh pc' → shared_ok sh →
  (∀ q, (holds pc = true → holds q = false) → pc_ok (shared s) q → pc_ok sh q) →
  ((if holds pc' then 1 else 0) + (if loading_api_key (shared s) then 1 else 0) =
   (if holds pc then 1 else 0) + (if loading_api_key sh then 1 else 0))%nat →
  key_inv {| shared := sh; tasks := <[i := pc']> (tasks s) |}.
Proof.
  intros Hinv Hi Hpc Hsh Ho Hn. pose proof Hinv as [Hf Hpcs _].
  pose proof (holders_insert s sh i pc pc' Hi) as Hh. rewrite Hf in Hh.
  split; simpl; try done; [lia|]. apply run_pcs; [done|].
  intros j q Hj Hq. apply Ho; [|by eapply Hpcs].
  intros Hp. destruct (holds q) eqn:E; [|done]. by destruct (holder_excludes s i j pc q).
Qed.

Lemma run_task_inv answer s i pc :
  key_inv s → tasks s !! i = Some pc → key_inv (run_task reload_interval answer s i pc).
Proof.
  intros Hinv Hi. pose proof (inv_pc s Hinv i pc Hi) as Hok.
  pose proof (holder_flag s i pc Hinv Hi) as Hfl. pose proof (inv_shared s Hinv) as Hs.
  pose proof Hs as [Ht Hsp]. unfold run_task.
  destruct pc as [| | | |key stamp| | | |key]; simpl in *.
  - (* Check *) unfold should_load_api_key.
    destruct (last_load_time (shared s)) eqn:E; [destruct reload_interval; [destruct (_ <? _)|]|];
      (apply (run_keeps s i Check); simpl; auto; congruence).
  - (* Cas *) destruct (loading_api_key (shared s)) eqn:E; apply (run_keeps s i Cas); simpl; rewrite ?E; auto.
    intros []; simpl; auto.
  - (* Recheck *) unfold should_load_api_key.
    destruct (last_load_time (shared s)) eqn:E;
      [destruct reload_interval eqn:Er; [destruct (Z.ltb_spec (z + z0) (now (shared s)))|]|];
      (apply (run_keeps s i Recheck); simpl; rewrite ?E, ?Er; auto; try done; try congruence;
       try (intros []; simpl; rewrite ?E, ?Er; auto)).
  - (* Resolve *) apply (run_keeps s i Resolve); simpl; auto. by split; [lia|].
  - (* Store *) destruct Hok as [Hst Hsp'].
    apply (run_keeps s i (Store key stamp)); simpl; auto.
    + split; simpl; [done|]. constructor; [done|].
      destruct (last_load_time (shared s)) eqn:E; destruct Ht as [Hl _].
      * destruct (loads (shared s)) as [|z' l]; [done|]. simplify_eq/=.
        constructor. unfold spaced. by destruct reload_interval.
      * rewrite Hl. constructor.
    + intros q Hq. specialize (Hq eq_refl). destruct q; simpl in *; try done; auto. by right.
  - (* Release *) apply (run_keeps s i Release); simpl; auto.
    + intros q Hq. specialize (Hq eq_refl). destruct q; simpl in *; try done. intros _. by left.
    + by rewrite Hfl.
  - (* Spin *) destruct (last_load_time (shared s)) eqn:E; apply (run_keeps s i Spin); simpl;
      rewrite ?E; auto.
  - (* Read *) apply (run_keeps s i Read); simpl; auto.
    destruct (last_load_time (shared s)); [|done]. destruct Ht as (_ & Ha & _).
    destruct (answers (shared s)); [done|]. simplify_eq/=. left.
  - (* Returned *) apply (run_keeps s i (Returned key)); simpl; auto.
Qed.

Lemma key_step_inv s s' : key_inv s → step reload_interval s s' → key_inv s'.
Proof.
  intros Hinv Hstep. destruct Hstep as [s1 t Ht|s1|answer s1 i pc Hi]; [| |by apply run_task_inv].
  - destruct Hinv as [Hf Hp [Hs Hsp]]. split; simpl; [done| |].
    + intros i pc Hi. exact (tick_pc_ok (shared s1) t pc Ht (Hp i pc Hi)).
    + split; simpl; [|done]. destruct (last_load_time (shared s1)); [|done].
      destruct Hs as (? & ? & ?). split_and!; try done. lia.
  - destruct Hinv as [Hf Hp Hs]. split; simpl; try done.
    + rewrite <- Hf. unfold holders; simpl. rewrite filter_app. simpl. by rewrite app_nil_r.
    + intros i pc [Hi|[_ Hi]]%lookup_app_Some; [by apply (Hp i)|].
      apply list_lookup_singleton_Some in Hi as [_ <-]. done.
Qed.

Lemma key_reach_inv t s : rtc (step reload_interval) (init t) s → key_inv s.
Proof.
  intros Hr. pose proof (key_init_inv t) as Hi. revert Hi Hr. generalize (init t). intros s0 Hi Hr.
  induction Hr as [|x y z Hxy _ IH]; [done|]. apply IH. by eapply key_step_inv.
Qed.

(** Another state of the same factory in which the caller [i] is at [pc]. *)
Lemma run_one answer s i pc :
  tasks s !! i = Some pc →
  rtc (step reload_interval) s (run_task reload_interval answer s i pc) ∧
  tasks (run_task reload_interval answer s i pc) !! i =
    Some (task_step reload_interval answer (shared s) pc).2 ∧
  (∀ j, j ≠ i → tasks (run_task reload_interval answer s i pc) !! j = tasks s !! j) ∧
  shared (run_task reload_interval answer s i pc) = (task_step reload_interval answer (shared s) pc).1.
Proof.
  intros Hi. split; [by apply rtc_once, step_run|]. unfold run_task.
  destruct (task_step _ _ _ _) as [sh pc'] eqn:E; simpl. split_and!; [|intros; by rewrite list_lookup_insert_ne|done].
  apply list_lookup_insert_eq. by eapply lookup_lt_Some.
Qed.

(** The caller [i] can be brought to [pc] while the others wait. *)
Definition can_reach s i (P : Pc → Prop) : Prop :=
  ∃ s' pc, rtc (step reload_interval) s s' ∧ tasks s' !! i = Some pc ∧ P pc ∧
    (∀ j, j ≠ i → tasks s' !! j = tasks s !! j).

Lemma can_reach_step answer s i pc (P : Pc → Prop) :
  tasks s !! i = Some pc →
  (tasks (run_task reload_interval answer s i pc) !! i =
     Some (task_step reload_interval answer (shared s) pc).2 →
   shared (run_task reload_interval answer s i pc) = (task_step reload_interval answer (shared s) pc).1 →
   can_reach (run_task reload_interval answer s i pc) i P) →
  can_reach s i P.
Proof.
  intros Hi Hk. destruct (run_one answer s i pc Hi) as (Hr & Hpc & Ho & Hsh).
  destruct (Hk Hpc Hsh) as (s' & pc' & Hr' & Hi' & HP & Ho').
  exists s', pc'. split_and!; try done; [by etrans|]. intros j Hj. by rewrite Ho', Ho.
Qed.

Lemma can_reach_here s i pc (P : Pc → Prop) : tasks s !! i = Some pc → P pc → can_reach s i P.
Proof. intros. exists s, pc. by split_and!. Qed.

(** A caller in the critical section can leave it. *)
Lemma holder_leaves (answer : option string) s i pc :
  tasks s !! i = Some pc → holds pc = true → can_reach s i (λ pc, pc = Read).
Proof.
  intros Hi Hp.
  assert (∀ s, tasks s !! i = Some Release → can_reach s i (λ pc, pc = Read)) as Hrel
    by (intros; eapply (can_reach_step answer); [done|]; intros Ht _; by eapply can_reach_here).
  assert (∀ s k t, tasks s !! i = Some (Store k t) → can_reach s i (λ pc, pc = Read)) as Hsto
    by (intros; eapply (can_reach_step answer); [done|]; intros Ht _; exact (Hrel _ Ht)).
  assert (∀ s, tasks s !! i = Some Resolve → can_reach s i (λ pc, pc = Read)) as Hres
    by (intros; eapply (can_reach_step answer); [done|]; intros Ht _; exact (Hsto _ _ _ Ht)).
  destruct pc; try done; eauto.
  eapply (can_reach_step answer); [done|]. intros Ht _. simpl in Ht.
  destruct (should_load_api_key _ _); simpl in Ht; eauto.
Qed.

Lemma flag_holder s : key_inv s → loading_api_key (shared s) = true →
  ∃ j pc, tasks s !! j = Some pc ∧ holds pc = true.
Proof.
  intros Hinv Hl. pose proof (inv_flag s Hinv) as Hf. rewrite Hl in Hf. unfold holders in Hf.
  destruct (filter _ (tasks s)) as [|pc l] eqn:E; [done|].
  assert (pc ∈ filter (λ pc, holds pc = true) (tasks s)) as [Hp Hin]%list_elem_of_filter
    by (rewrite E; by left).
  apply list_elem_of_lookup in Hin as [j Hj]. by exists j, pc.
Qed.

Lemma key_inv_rtc s s' : key_inv s → rtc (step reload_interval) s s' → key_inv s'.
Proof. intros Hi Hr. induction Hr as [|x y z Hxy _ IH]; [done|]. apply IH. by eapply key_step_inv. Qed.

(** The resolver runs for at most one caller at a time: two callers are never
    together between the winning compare-and-exchange and the release, and the
    flag is set exactly while one of them is there. *)
Theorem one_loader t s i j pi pj :
  rtc (step reload_interval) (init t) s →
  tasks s !! i = Some pi → tasks s !! j = Some pj → holds pi = true → holds pj = true →
  i = j ∧ loading_api_key (shared s) = true.
Proof.
  intros Hr%key_reach_inv Hi Hj Hpi Hpj. split; [by eapply holder_excludes|by eapply holder_flag].
Qed.

(** C18: A caller only returns after a load, with an answer the resolver gave; loads
    are stamped in order and more than the reload interval apart, and without an
    interval the key is loaded at most once. *)
Theorem get_api_key_safety t s :
  rtc (step reload_interval) (init t) s →
  (∀ i key, tasks s !! i = Some (Returned key) → key ∈ answers (shared s)) ∧
  Sorted spaced (loads (shared s)) ∧
  (reload_interval = None → (length (loads (shared s)) ≤ 1)%nat) ∧
  (∀ k, last_load_time (shared s) = Some k → head (answers (shared s)) = Some (api_key (shared s))).
Proof.
  intros Hr%key_reach_inv. destruct (inv_shared s Hr) as [Ht Hs]. split_and!; [|done| |].
  - intros i key Hi. exact (inv_pc s Hr i _ Hi).
  - intros Hn. destruct (loads (shared s)) as [|a [|b l]]; simpl; [lia..|].
    inversion Hs as [|? ? _ Hd]; subst. inversion Hd as [|? ? Hsp]; subst.
    unfold spaced in Hsp. by rewrite Hn in Hsp.
  - intros k Hk. rewrite Hk in Ht. tauto.
Qed.

Definition returns (s : State) (i : nat) : Prop :=
  ∃ s' key, rtc (step reload_interval) s s' ∧ tasks s' !! i = Some (Returned key).

Lemma returns_rtc s s' i : rtc (step reload_interval) s s' → returns s' i → returns s i.
Proof. intros Hr (s2 & k & Hr2 & H2). exists s2, k. split; [by etrans|done]. Qed.

Lemma returns_step answer s i pc pc' :
  tasks s !! i = Some pc → (task_step reload_interval answer (shared s) pc).2 = pc' →
  (tasks (run_task reload_interval answer s i pc) !! i = Some pc' →
   returns (run_task reload_interval answer s i pc) i) →
  returns s i.
Proof.
  intros Hi <- Hk. destruct (run_one answer s i pc Hi) as (Hr & Hpc & _).
  eapply returns_rtc; [exact Hr|by apply Hk].
Qed.

Lemma reader_returns (answer : option string) s i : tasks s !! i = Some Read → returns s i.
Proof.
  intros Hi. eapply (returns_step answer); [done|done|]. intros Ht.
  eexists _, _. split; [apply rtc_refl|exact Ht].
Qed.
Lemma holder_returns (answer : option string) s i pc : tasks s !! i = Some pc → holds pc = true → returns s i.
Proof.
  intros Hi Hp. destruct (holder_leaves answer s i pc Hi Hp) as (s1 & ? & Hr1 & H1 & -> & _).
  eapply returns_rtc; [done|]. by apply (reader_returns answer).
Qed.
Lemma spinner_returns (answer : option string) s i : key_inv s → tasks s !! i = Some Spin → returns s i.
Proof.
  intros Hinv Hi. destruct (last_load_time (shared s)) as [k|] eqn:El.
  - eapply (returns_step answer _ _ _ Read); [done|cbn; by rewrite El|].
    apply (reader_returns answer).
  - destruct (inv_pc s Hinv i Spin Hi) as [|Hl]; [congruence|].
    destruct (flag_holder s Hinv Hl) as (j & pj & Hj & Hp).
    assert (i ≠ j) by (intros ->; simplify_eq/=).
    destruct (holder_leaves answer s j pj Hj Hp) as (s1 & ? & Hr1 & H1 & -> & Ho).
    eapply returns_rtc; [done|].
    pose proof (inv_pc s1 (key_inv_rtc s s1 Hinv Hr1) j _ H1) as Hload. simpl in Hload.
    assert (tasks s1 !! i = Some Spin) as Hi1 by by rewrite Ho.
    eapply (returns_step answer _ _ _ Read); [exact Hi1| |apply (reader_returns answer)].
    cbn. by destruct (last_load_time (shared s1)).
Qed.

(** C19: No caller is ever stuck: from every reachable state each caller can return,
    waiting at most for the one that loads. *)
Theorem get_api_key_can_return t s i pc :
  rtc (step reload_interval) (init t) s → tasks s !! i = Some pc → returns s i.
Proof.
  intros Hinv%key_reach_inv Hi. pose (answer := None : option string).
  assert (∀ s, key_inv s → tasks s !! i = Some Cas → returns s i) as Hcas.
  { intros s0 Hinv0 H0. pose proof (run_task_inv answer s0 i Cas Hinv0 H0) as Hinv1.
    destruct (loading_api_key (shared s0)) eqn:El.
    - eapply (returns_step answer _ _ _ Spin); [done|cbn; by rewrite El|].
      by apply (spinner_returns answer).
    - eapply (returns_step answer _ _ _ Recheck); [done|cbn; by rewrite El|].
      intros Ht. by eapply (holder_returns answer). }
  destruct pc as [| | | |k st| | | |k]; eauto using spinner_returns, reader_returns, holder_returns.
  - pose proof (run_task_inv answer s i Check Hinv Hi) as Hinv1.
    eapply (returns_step answer); [done|done|]. intros Ht. revert Ht. cbn [task_step snd].
    destruct (should_load_api_key _ _); [by apply Hcas|apply (reader_returns answer)].
  - exists s, k. split; [apply rtc_refl|done].
Qed.
End Facts.

(** * Witnesses: two callers race, the second one spins. *)
Module ApiKeyExamples.
Definition s0 : State := {| shared := shared_new 0; tasks := [Check; Check] |}.
Definition s1 : State := run_task (Some 60) None (run_task (Some 60) None s0 0 Check) 1 Check.
Definition s2 : State := run_task (Some 60) None (run_task (Some 60) None s1 0 Cas) 1 Cas.

Lemma s2_reachable : rtc (step (Some 60)) (init 0) s2.
Proof.
  eapply rtc_l; [apply step_call|]. eapply rtc_l; [apply step_call|].
  eapply rtc_l; [apply (step_run _ None _ 0 Check); reflexivity|].
  eapply rtc_l; [apply (step_run _ None _ 1 Check); reflexivity|].
  eapply rtc_l; [apply (step_run _ None _ 0 Cas); reflexivity|].
  eapply rtc_l; [apply (step_run _ None _ 1 Cas); reflexivity|]. apply rtc_refl.
Qed.

Lemma one_loader_witness : tasks s2 = [Recheck; Spin] ∧ loading_api_key (shared s2) = true.
Proof.
  split; [reflexivity|].
  apply (one_loader (Some 60) 0 s2 0 0 Recheck Recheck); [apply s2_reachable|reflexivity..].
Defined.

Lemma get_api_key_safety_witness : Sorted (spaced (Some 60)) (loads (shared s2)).
Proof. apply (get_api_key_safety (Some 60) 0 s2). apply s2_reachable. Defined.

Lemma get_api_key_can_return_witness : returns (Some 60) s2 1.
Proof.
  apply (get_api_key_can_return (Some 60) 0 s2 1 Spin); [apply s2_reachable|reflexivity].
Defined.
End ApiKeyExamples.
