(* ===== verification/Signature.v ===== *)
(** Trace signatures and deterministic sampling:
    [datadog-agent-trace-sampler/src/signature.rs] and the views of [lib.rs]. *)
From Stdlib Require Import Ascii SpecFloat.
From S2P Require Import Prelude RStr Float.

Record SpanView := {
  service : string;
  name : string;
  resource : string;
  error : bool;
  http_status_code : option string;
  error_type : option string;
}.

Record TraceView := {
  env : string;
  trace_id : Z;
  root_index : nat;
  root_global_sample_rate : f64;
  spans : list SpanView;
}.

Definition OFFSET32 : Z := 2166136261.
Definition PRIME32 : Z := 16777619.
Definition SAMPLER_HASHER : Z := 1111111111111111111.

(** * [Fnv1a32] *)

Definition write_char (hash c : Z) : Z := wrap32 (Z.lxor hash c * PRIME32).
Definition write (hash : Z) (s : string) : Z :=
  fold_left (λ h c, write_char h (byte_val c)) (bytes_of s) hash.

Definition write_opt (hash : Z) (o : option string) : Z :=
  match o with Some s => write hash s | None => hash end.

Definition compute_span_hash (span : SpanView) (env : string) (with_resource : bool) : Z :=
  let h := write OFFSET32 env in
  let h := write h (service span) in
  let h := write h (name span) in
  let h := write_char h (if error span then 1 else 0) in
  let h := if with_resource then write h (resource span) else h in
  let h := write_opt h (http_status_code span) in
  write_opt h (error_type span).

(** * Signatures *)

Definition sort_hashes : list Z → list Z := merge_sort Z.le.

(** The loop over the sorted hashes: merge each new value. *)
Fixpoint merge_hashes (last trace_hash : Z) (hashes : list Z) : Z :=
  match hashes with
  | [] => trace_hash
  | hash :: hashes =>
      if hash =? last then merge_hashes last trace_hash hashes
      else merge_hashes hash (Z.lxor trace_hash hash) hashes
  end.

(** [None] is the panic of an index out of range. *)
Definition compute_signature_with_root_and_env (spans : list SpanView) (root_index : nat)
    (env : string) : option Z :=
  match spans !! root_index with
  | None => None
  | Some root =>
      let root_hash := compute_span_hash root env true in
      match sort_hashes (map (λ span, compute_span_hash span env false) spans) with
      | [] => None
      | last :: hashes => Some (merge_hashes last (Z.lxor last root_hash) hashes)
      end
  end.

(** * Sampling by rate *)

(** [(rate * (u64::MAX as f64)) as u64] *)
Definition sample_threshold (rate : f64) : Z := to_u64 (F64.mul rate (F64.of_Z u64_max)).

Definition sample_by_rate (trace_id : Z) (rate : f64) : bool :=
  if flt rate F64.one then wrap64 (trace_id * SAMPLER_HASHER) <? sample_threshold rate
  else true.

(** The reference values of FNV-1a. *)
Example fnv_this : write OFFSET32 "this" = 0xda2bd281. Proof. reflexivity. Qed.
Example fnv_is : write OFFSET32 "is" = 0x4e388f15. Proof. reflexivity. Qed.

(** * Facts *)

Section SignatureFacts.
Implicit Types (l : list Z) (h : Z).

Lemma write_char_range h c : 0 ≤ write_char h c < 2 ^ 32.
Proof. apply wrap32_range. Qed.
Lemma write_range h s : 0 ≤ h < 2 ^ 32 → 0 ≤ write h s < 2 ^ 32.
Proof.
  unfold write. revert h. induction (bytes_of s) as [|c l IH]; intros h Hh; [done|].
  apply IH, write_char_range.
Qed.
Lemma write_opt_range h o : 0 ≤ h < 2 ^ 32 → 0 ≤ write_opt h o < 2 ^ 32.
Proof. destruct o; [apply write_range|done]. Qed.
Lemma span_hash_range span env r : 0 ≤ compute_span_hash span env r < 2 ^ 32.
Proof.
  unfold compute_span_hash. do 2 apply write_opt_range.
  destruct r; [apply write_range|]; apply write_char_range.
Qed.

(** Distinct values of a sorted list, in order. *)
Definition xor_all l : Z := foldr Z.lxor 0 l.

Lemma merge_hashes_dedup last t l :
  merge_hashes last t l = Z.lxor t (xor_all (dedup_from last l)).
Proof.
  revert last t. induction l as [|h l IH]; intros last t; simpl.
  - by rewrite Z.lxor_0_r.
  - destruct (Z.eqb_spec h last) as [->|Hn].
    + by rewrite decide_True, IH.
    + rewrite decide_False, IH by done. simpl. by rewrite Z.lxor_assoc.
Qed.

Lemma dedup_from_sorted p l :
  StronglySorted Z.le (p :: l) → StronglySorted Z.lt (p :: dedup_from p l).
Proof.
  revert p. induction l as [|x l IH]; intros p Hs; simpl; [repeat constructor|].
  apply StronglySorted_inv in Hs as [Hs Hf]. apply Forall_cons in Hf as [Hpx Hf].
  case_decide as Hx.
  - subst. by apply IH.
  - specialize (IH x Hs). constructor; [done|].
    apply StronglySorted_inv in IH as [_ IH].
    constructor; [lia|]. eapply Forall_impl; [exact IH|]. simpl. lia.
Qed.

Lemma strictly_sorted_nodup l : StronglySorted Z.lt l → NoDup l.
Proof.
  induction 1 as [|x l Hs IH Hf]; constructor; [|done].
  intros Hx. rewrite Forall_forall in Hf. specialize (Hf x Hx). lia.
Qed.
Lemma strictly_sorted_le l : StronglySorted Z.lt l → StronglySorted Z.le l.
Proof.
  induction 1 as [|x l Hs IH Hf]; constructor; [done|].
  eapply Forall_impl; [exact Hf|]. simpl. lia.
Qed.

Lemma strictly_sorted_ext l1 l2 :
  StronglySorted Z.lt l1 → StronglySorted Z.lt l2 → (∀ x, x ∈ l1 ↔ x ∈ l2) → l1 = l2.
Proof.
  intros H1 H2 He. apply (StronglySorted_unique Z.le); auto using strictly_sorted_le.
  apply NoDup_Permutation; auto using strictly_sorted_nodup.
Qed.

(** The sorted set of hashes of a trace. *)
Definition hash_set (spans : list SpanView) (env : string) : list Z :=
  dedup (sort_hashes (map (λ span, compute_span_hash span env false) spans)).

Lemma signature_xor spans i env root :
  spans !! i = Some root →
  compute_signature_with_root_and_env spans i env =
    Some (Z.lxor (xor_all (hash_set spans env)) (compute_span_hash root env true)).
Proof.
  intros Hi. unfold compute_signature_with_root_and_env, hash_set. rewrite Hi.
  assert (Hne : map (λ span, compute_span_hash span env false) spans ≠ []) by (by destruct spans).
  destruct (sort_hashes _) as [|h l] eqn:E.
  - unfold sort_hashes in E. pose proof (merge_sort_Permutation Z.le
      (map (λ span, compute_span_hash span env false) spans)) as Hp.
    rewrite E in Hp. by apply Permutation_nil_l in Hp.
  - rewrite merge_hashes_dedup. simpl. f_equal.
    rewrite (Z.lxor_comm h), Z.lxor_assoc. apply Z.lxor_comm.
Qed.

Lemma hash_set_sorted spans env : StronglySorted Z.lt (hash_set spans env).
Proof.
  unfold hash_set. pose proof (StronglySorted_merge_sort Z.le
    (map (λ span, compute_span_hash span env false) spans)) as Hs. unfold sort_hashes.
  destruct (merge_sort Z.le _); [constructor|]. by apply dedup_from_sorted.
Qed.

Lemma hash_set_elem spans env h :
  h ∈ hash_set spans env ↔ ∃ span, span ∈ spans ∧ h = compute_span_hash span env false.
Proof.
  unfold hash_set, sort_hashes. rewrite dedup_elem, merge_sort_Permutation.
  rewrite list_elem_of_fmap. naive_solver.
Qed.
End SignatureFacts.

(** The signature of a trace only depends on the hash of its root and on the set
    of the hashes of its spans: neither their order nor their number matters. *)
Theorem signature_of_set env spans1 i1 root1 spans2 i2 root2 :
  spans1 !! i1 = Some root1 → spans2 !! i2 = Some root2 →
  compute_span_hash root1 env true = compute_span_hash root2 env true →
  (∀ h, (∃ s, s ∈ spans1 ∧ h = compute_span_hash s env false) ↔
        (∃ s, s ∈ spans2 ∧ h = compute_span_hash s env false)) →
  compute_signature_with_root_and_env spans1 i1 env =
    compute_signature_with_root_and_env spans2 i2 env ∧
  is_Some (compute_signature_with_root_and_env spans1 i1 env).
Proof.
  intros H1 H2 Hr Hs. rewrite (signature_xor _ _ _ _ H1), (signature_xor _ _ _ _ H2), Hr.
  split; [|done]. do 3 f_equal.
  apply strictly_sorted_ext; [apply hash_set_sorted..|].
  intros h. by rewrite !hash_set_elem.
Qed.

(** The multiplicative inverse of [SAMPLER_HASHER] modulo 2^64. *)
Definition hasher_inverse : Z := 3396998997810348023.

Lemma hasher_inverse_l k : 0 ≤ k < 2 ^ 64 → wrap64 (wrap64 (k * hasher_inverse) * SAMPLER_HASHER) = k.
Proof.
  intros Hk. unfold wrap64. rewrite Z.mul_mod_idemp_l by lia.
  rewrite <- Z.mul_assoc, <- (Z.mul_mod_idemp_r k) by lia.
  replace ((hasher_inverse * SAMPLER_HASHER) mod 2 ^ 64) with 1 by reflexivity.
  rewrite Z.mul_1_r. by apply Z.mod_small.
Qed.
Lemma hasher_inverse_r id : 0 ≤ id < 2 ^ 64 → wrap64 (wrap64 (id * SAMPLER_HASHER) * hasher_inverse) = id.
Proof.
  intros Hk. unfold wrap64. rewrite Z.mul_mod_idemp_l by lia.
  rewrite <- Z.mul_assoc, <- (Z.mul_mod_idemp_r id) by lia.
  replace ((SAMPLER_HASHER * hasher_inverse) mod 2 ^ 64) with 1 by reflexivity.
  rewrite Z.mul_1_r. by apply Z.mod_small.
Qed.

(** A greater rate keeps every trace that a smaller one keeps. *)
Lemma sample_by_rate_mono id r1 r2 :
  valid r1 = true → valid r2 = true → fle r1 r2 = true →
  sample_by_rate id r1 = true → sample_by_rate id r2 = true.
Proof.
  intros H1 H2 Hle. unfold sample_by_rate. destruct (flt r2 F64.one) eqn:E2; [|done].
  rewrite (fle_flt_one _ _ Hle E2), !Z.ltb_lt. pose proof (to_u64_mono _ _ H1 H2 Hle).
  unfold sample_threshold. lia.
Qed.

(** C22: A rate that is not below one keeps every trace.  A rate below one keeps exactly
    [sample_threshold rate] of the 2^64 trace identifiers, the floor of 2^64 times the rate
    when it is positive and none when it is not: they are the images of the integers below
    the threshold by an injection of the 64-bit integers.  And the sampling is monotone: a
    trace kept at a rate is kept at every greater one. *)
Theorem sample_by_rate_exact rate :
  (flt rate F64.one = false → ∀ id, sample_by_rate id rate = true) ∧
  (flt rate F64.one = true →
    0 ≤ sample_threshold rate < 2 ^ 64 ∧
    (∀ id, 0 ≤ id < 2 ^ 64 →
       sample_by_rate id rate = true ↔
       ∃ k, 0 ≤ k < sample_threshold rate ∧ id = wrap64 (k * hasher_inverse)) ∧
    (∀ k1 k2, 0 ≤ k1 < 2 ^ 64 → 0 ≤ k2 < 2 ^ 64 →
       wrap64 (k1 * hasher_inverse) = wrap64 (k2 * hasher_inverse) → k1 = k2) ∧
    (valid rate = true →
       sample_threshold rate =
         match rate with S754_finite false m e => magnitude m (e + 64) | _ => 0 end)) ∧
  (∀ greater id, valid rate = true → valid greater = true → fle rate greater = true →
     sample_by_rate id rate = true → sample_by_rate id greater = true).
Proof.
  split_and!; [by intros E id; unfold sample_by_rate; rewrite E| |intros greater id Hv Hg Hle; by apply sample_by_rate_mono].
  intros Hr. assert (0 ≤ sample_threshold rate < 2 ^ 64) as Ht.
  { pose proof (to_int_range 0 u64_max (F64.mul rate (F64.of_Z u64_max))) as H.
    unfold sample_threshold, to_u64. unfold u64_max in *. lia. }
  split_and!; [lia..| | |].
  - intros id Hid. unfold sample_by_rate. rewrite Hr, Z.ltb_lt. split.
    + intros Hk. exists (wrap64 (id * SAMPLER_HASHER)).
      split; [pose proof (wrap64_range (id * SAMPLER_HASHER)); lia|]. by rewrite hasher_inverse_r.
    + intros (k & Hk & ->). rewrite hasher_inverse_l; lia.
  - intros k1 k2 H1 H2 E. rewrite <- (hasher_inverse_l k1), <- (hasher_inverse_l k2) by done. by rewrite E.
  - intros Hv. unfold sample_threshold. destruct rate as [[]|[]| |[] m e]; try done.
    + by rewrite to_u64_scaled.
    + by apply to_u64_below_one.
Qed.

(** * Witnesses *)
Module SignatureExamples.
Definition web (status : option string) : SpanView :=
  {| service := "web"; name := "request"; resource := "GET /"; error := true;
     http_status_code := status; error_type := None |}.

Lemma signature_of_set_witness :
  compute_signature_with_root_and_env [web None; web (Some "500"); web None] 0 "prod" =
    compute_signature_with_root_and_env [web (Some "500"); web None] 1 "prod".
Proof.
  apply (signature_of_set "prod" [web None; web (Some "500"); web None] 0 (web None)
           [web (Some "500"); web None] 1 (web None)); [reflexivity..|].
  intros h. split; intros (s & Hs & ->); exists s; (split; [set_solver|done]).
Defined.

Definition half : f64 := S754_finite false 4503599627370496 (-53).

Lemma sample_by_rate_exact_witness :
  sample_threshold half = 2 ^ 63 ∧ 0 ≤ sample_threshold half < 2 ^ 64 ∧
  sample_by_rate 3 half = true ∧ sample_by_rate 3 F64.one = true.
Proof.
  assert (sample_by_rate 3 half = true) as Hk by (vm_compute; reflexivity).
  destruct (sample_by_rate_exact half) as (_ & Hb & Hm). destruct (Hb eq_refl) as (Ht & _).
  split; [vm_compute; reflexivity|]. split; [exact Ht|]. split; [exact Hk|].
  apply Hm; [vm_compute; reflexivity..|exact Hk].
Defined.
End SignatureExamples.
