(* ===== verification/ScoreSampler.v ===== *)
(** The error samplers: [datadog-agent-trace-sampler/src/score_sampler.rs] and the
    configuration types of [lib.rs].

    [Sampler] counts traces per signature in six rotating buckets and computes the
    rates, [RateLimitedSampler] limits the number of signatures and applies the
    rates, [ErrorsSampler] dispatches on the mode. *)
From Stdlib Require Import Ascii SpecFloat.
From S2P Require Import Prelude RStr Float Signature.

Definition BUCKET_DURATION_SECS : Z := 5.
Definition NUM_BUCKETS : Z := 6.
(** [1.2] *)
Definition MAX_RATE_INCREASE : f64 := f64_of_decimal false 12 (-1).
Definition SHRINK_CARDINALITY : Z := 200.

Definition bucket_duration : f64 := F64.of_Z BUCKET_DURATION_SECS.
Definition no_buckets : list f32 := replicate 6 F32.zero.

(** [i64::rem_euclid] *)
Definition bucket_index (bucket_id : Z) : nat := Z.to_nat (bucket_id mod NUM_BUCKETS).

(** * Rates *)

(** The loop of [compute_tps_per_sig] at index [i] of a list of [len] values. *)
Fixpoint tps_loop (len i : Z) (target_tps sig_target : f64) (sorted : list f64) : f64 :=
  match sorted with
  | [] => sig_target
  | c :: sorted =>
      if fle sig_target c || (i =? len - 1) then sig_target
      else
        let target_tps := F64.sub target_tps c in
        tps_loop len (i + 1) target_tps (F64.div target_tps (F64.of_Z (len - i - 1))) sorted
  end.

Definition tps_le (a b : f64) : Prop := fle a b = true.
#[global] Instance tps_le_dec : RelDecision tps_le.
Proof. intros a b. unfold tps_le. apply _. Defined.

Definition compute_tps_per_sig (target_tps : f64) (seen : list f64) : f64 :=
  let sorted := merge_sort tps_le seen in
  tps_loop (zlen sorted) 0 target_tps (F64.div target_tps (F64.of_Z (zlen sorted))) sorted.

(** [n] turns of the loop of [zero_and_get_max] from bucket id [i]. *)
Fixpoint rotate_loop (n : nat) (i new_bucket : Z) (max_bucket : f32) (buckets : list f32)
    : f32 * list f32 :=
  match n with
  | O => (max_bucket, buckets)
  | S n =>
      let index := bucket_index i in
      if i <? new_bucket then
        rotate_loop n (i + 1) new_bucket max_bucket (<[index := F32.zero]> buckets)
      else
        let value := default F32.zero (buckets !! index) in
        let max_bucket := if flt max_bucket value then value else max_bucket in
        let buckets := if i =? new_bucket then <[index := F32.zero]> buckets else buckets in
        rotate_loop n (i + 1) new_bucket max_bucket buckets
  end.

Definition zero_and_get_max (buckets : list f32) (previous_bucket new_bucket : Z)
    : f32 * list f32 :=
  rotate_loop 6 (previous_bucket + 1) new_bucket F32.zero buckets.

(** * [Sampler] *)

Record Sampler := {
  seen : gmap Z (list f32);
  all_sigs_seen : list f32;
  last_bucket_id : Z;
  rates : gmap Z f64;
  lowest_rate : f64;
  target_tps : f64;
  extra_rate : f64;
}.

Definition sampler_new (extra_rate target_tps : f64) : Sampler :=
  {| seen := ∅; all_sigs_seen := no_buckets; last_bucket_id := 0; rates := ∅;
     lowest_rate := F64.zero; target_tps := target_tps; extra_rate := extra_rate |}.

(** The rate of one signature, from its previous rate and its traffic. *)
Definition new_rate (previous : option f64) (tps_per_sig seen : f64) : f64 :=
  let rate :=
    if flt tps_per_sig seen && flt F64.zero seen then F64.div tps_per_sig seen else F64.one in
  let rate :=
    match previous with
    | Some prev_rate =>
        if negb (feq prev_rate F64.zero) && flt MAX_RATE_INCREASE (F64.div rate prev_rate)
        then F64.mul prev_rate MAX_RATE_INCREASE else rate
    | None => rate
    end in
  if flt F64.one rate then F64.one else rate.

(** One turn of the loop over the signatures: signatures seen, rates, lowest rate. *)
Definition rate_turn (previous : gmap Z f64) (tps_per_sig : f64)
    (acc : gmap Z (list f32) * gmap Z f64 * f64) (sig : Z * f64)
    : gmap Z (list f32) * gmap Z f64 * f64 :=
  let '(seen_map, rates, lowest_rate) := acc in
  let rate := new_rate (previous !! sig.1) tps_per_sig sig.2 in
  if feq rate F64.one && feq sig.2 F64.zero then (delete sig.1 seen_map, rates, lowest_rate)
  else (seen_map, <[sig.1 := rate]> rates, if flt rate lowest_rate then rate else lowest_rate).

(** The order in which a [HashMap] is iterated. *)
Class MapOrder := map_order : gmap Z (list f32) → list (Z * list f32).
Class MapOrderLaw `{MapOrder} := map_order_perm : ∀ m, map_order m ≡ₚ map_to_list m.

Section Sampler.
Context `{!MapOrder}.

Definition update_rates (self : Sampler) (previous_bucket new_bucket : Z) : Sampler :=
  if bool_decide (seen self = ∅) then self else
  let sigs :=
    map (λ e, (e.1, F64.div (f64_of_f32 (zero_and_get_max e.2 previous_bucket new_bucket).1)
                       bucket_duration)) (map_order (seen self)) in
  let rotated := (λ b, (zero_and_get_max b previous_bucket new_bucket).2) <$> seen self in
  let tps_per_sig := compute_tps_per_sig (target_tps self) (map snd sigs) in
  let '(seen_map, rates, lowest_rate) :=
    fold_left (rate_turn (rates self) tps_per_sig) sigs (rotated, ∅, F64.one) in
  {| seen := seen_map;
     all_sigs_seen := (zero_and_get_max (all_sigs_seen self) previous_bucket new_bucket).2;
     last_bucket_id := last_bucket_id self; rates := rates; lowest_rate := lowest_rate;
     target_tps := target_tps self; extra_rate := extra_rate self |}.

Definition add_at (idx : nat) (n : f32) (buckets : list f32) : list f32 :=
  alter (λ x, F32.add x n) idx buckets.

(** Counts a trace; the result tells whether the rates were updated. *)
Definition count_weighted_sig (self : Sampler) (now_unix_secs signature : Z) (n : f32)
    : bool * Sampler :=
  let bucket_id := Z.quot now_unix_secs BUCKET_DURATION_SECS in
  let prev_bucket_id := last_bucket_id self in
  let self :=
    {| seen := seen self; all_sigs_seen := all_sigs_seen self; last_bucket_id := bucket_id;
       rates := rates self; lowest_rate := lowest_rate self; target_tps := target_tps self;
       extra_rate := extra_rate self |} in
  let must_update := negb (prev_bucket_id =? bucket_id) in
  let self := if must_update then update_rates self prev_bucket_id bucket_id else self in
  let idx := bucket_index bucket_id in
  let buckets := default no_buckets (seen self !! signature) in
  (must_update,
   {| seen := <[signature := add_at idx n buckets]> (seen self);
      all_sigs_seen := add_at idx n (all_sigs_seen self); last_bucket_id := last_bucket_id self;
      rates := rates self; lowest_rate := lowest_rate self; target_tps := target_tps self;
      extra_rate := extra_rate self |}).

Definition default_rate (self : Sampler) : f64 :=
  if feq (target_tps self) F64.zero then F64.zero else
  let max_seen := fold_left fmax (all_sigs_seen self) F32.zero in
  let seen_tps := F64.div (f64_of_f32 max_seen) bucket_duration in
  let rate :=
    if flt (target_tps self) seen_tps && flt F64.zero seen_tps
    then F64.div (target_tps self) seen_tps else F64.one in
  if flt (lowest_rate self) rate && negb (feq (lowest_rate self) F64.zero)
  then lowest_rate self else rate.

Definition get_signature_sample_rate (self : Sampler) (sig : Z) : f64 :=
  match rates self !! sig with
  | Some rate => F64.mul rate (extra_rate self)
  | None => default_rate self
  end.

Definition sampler_size (self : Sampler) : Z := Z.of_nat (size (seen self)).

(** * Configuration and decisions *)

Inductive ErrorSamplerMode := ModeAlwaysKeep | ModeRateLimited.

Record ErrorSamplerConfig := {
  mode : ErrorSamplerMode;
  config_target_tps : f64;
  extra_sample_rate : f64;
}.

Definition config_default : ErrorSamplerConfig :=
  {| mode := ModeRateLimited; config_target_tps := F64.of_Z 10; extra_sample_rate := F64.one |}.

Inductive SampleDecision := Keep (errors_sr : f64) | Drop.

Definition client_rate (trace : TraceView) : f64 :=
  let rate := root_global_sample_rate trace in
  if negb (is_finite rate) || fle rate F64.zero || flt F64.one rate then F64.one else rate.

Definition weight_root (trace : TraceView) : f32 :=
  F32.of_f64 (F64.div F64.one (client_rate trace)).

(** * [RateLimitedSampler] *)

Record RateLimitedSampler := {
  sampler : Sampler;
  disabled : bool;
  shrink_allow_list : option (gset Z);
}.

Definition rate_limited_new (config : ErrorSamplerConfig) : RateLimitedSampler :=
  {| sampler := sampler_new (extra_sample_rate config) (config_target_tps config);
     disabled := fle (config_target_tps config) F64.zero; shrink_allow_list := None |}.

Definition with_allow_list (self : RateLimitedSampler) (l : option (gset Z)) : RateLimitedSampler :=
  {| sampler := sampler self; disabled := disabled self; shrink_allow_list := l |}.

Definition shrink (self : RateLimitedSampler) (sig : Z) : Z * RateLimitedSampler :=
  if sampler_size (sampler self) <? SHRINK_CARDINALITY / 2 then (sig, with_allow_list self None)
  else
    let allow_list := default (dom (rates (sampler self))) (shrink_allow_list self) in
    (if bool_decide (sig ∈ allow_list) then sig else sig mod (SHRINK_CARDINALITY / 2),
     with_allow_list self (Some allow_list)).

Definition apply_sample_rate (trace : TraceView) (rate : f64) : SampleDecision :=
  let new_rate := F64.mul (client_rate trace) rate in
  if sample_by_rate (trace_id trace) new_rate then Keep rate else Drop.

(** [None] would be the panic of an index out of range. *)
Definition rate_limited_sample (self : RateLimitedSampler) (now_unix_secs : Z) (trace : TraceView)
    : option (SampleDecision * RateLimitedSampler) :=
  if disabled self || (length (spans trace) <=? root_index trace)%nat then Some (Drop, self)
  else
    match compute_signature_with_root_and_env (spans trace) (root_index trace) (env trace) with
    | None => None
    | Some signature =>
        let '(signature, self) := shrink self signature in
        let '(_, s) :=
          count_weighted_sig (sampler self) now_unix_secs signature (weight_root trace) in
        let rate := get_signature_sample_rate s signature in
        Some (apply_sample_rate trace rate,
              {| sampler := s; disabled := disabled self;
                 shrink_allow_list := shrink_allow_list self |})
    end.

(** * [ErrorsSampler] *)

Inductive ErrorsSampler :=
  | AlwaysKeep (disabled : bool)
  | RateLimited (s : RateLimitedSampler).

Definition errors_sampler_new (config : ErrorSamplerConfig) : ErrorsSampler :=
  match mode config with
  | ModeAlwaysKeep => AlwaysKeep (fle (config_target_tps config) F64.zero)
  | ModeRateLimited => RateLimited (rate_limited_new config)
  end.

Definition is_disabled (self : ErrorsSampler) : bool :=
  match self with AlwaysKeep d => d | RateLimited s => disabled s end.

Definition sample (self : ErrorsSampler) (now_unix_secs : Z) (trace : TraceView)
    : option (SampleDecision * ErrorsSampler) :=
  match self with
  | AlwaysKeep disabled =>
      if disabled || (length (spans trace) <=? root_index trace)%nat then Some (Drop, self)
      else Some (Keep F64.one, self)
  | RateLimited s =>
      match rate_limited_sample s now_unix_secs trace with
      | Some (d, s) => Some (d, RateLimited s)
      | None => None
      end
  end.

(** A sequence of traces, each with the clock at its arrival. *)
Fixpoint sample_all (self : ErrorsSampler) (traces : list (Z * TraceView))
    : option (list SampleDecision * ErrorsSampler) :=
  match traces with
  | [] => Some ([], self)
  | (now, trace) :: traces =>
      match sample self now trace with
      | None => None
      | Some (d, self) =>
          match sample_all self traces with
          | None => None
          | Some (ds, self) => Some (d :: ds, self)
          end
      end
  end.
End Sampler.

(** * Facts *)

(** Distance from the bucket id [i] to the next one stored in slot [k]. *)
Definition offset (i : Z) (k : nat) : Z := (Z.of_nat k - i) mod NUM_BUCKETS.

Lemma offset_range i k : 0 ≤ offset i k < 6.
Proof. apply Z.mod_pos_bound. unfold NUM_BUCKETS. lia. Qed.

Lemma offset_step i k :
  offset i k = if offset (i + 1) k =? 5 then 0 else offset (i + 1) k + 1.
Proof.
  unfold offset, NUM_BUCKETS. set (k' := Z.of_nat k).
  pose proof (Z.div_mod (k' - i) 6); pose proof (Z.div_mod (k' - (i + 1)) 6);
    pose proof (Z.mod_pos_bound (k' - i) 6); pose proof (Z.mod_pos_bound (k' - (i + 1)) 6).
  destruct (Z.eqb_spec ((k' - (i + 1)) mod 6) 5) as [E|E]; lia.
Qed.

Lemma offset_zero i k : (k < 6)%nat → offset i k = 0 ↔ bucket_index i = k.
Proof.
  unfold offset, bucket_index, NUM_BUCKETS. intros Hk.
  pose proof (Z.div_mod (Z.of_nat k - i) 6); pose proof (Z.div_mod i 6);
    pose proof (Z.mod_pos_bound (Z.of_nat k - i) 6); pose proof (Z.mod_pos_bound i 6).
  split; intros; lia.
Qed.

(** Whether one of the [n] bucket ids from [i] is stored in slot [k] and expired. *)
Definition zeroed (n : nat) (i new_bucket : Z) (k : nat) : bool :=
  (offset i k <? Z.of_nat n) && (i + offset i k <=? new_bucket).

Lemma zeroed_step n i new k :
  (k < 6)%nat → (n < 6)%nat →
  zeroed (S n) i new k = if (bucket_index i =? k)%nat then i <=? new else zeroed n (i + 1) new k.
Proof.
  intros Hk Hn. unfold zeroed. pose proof (offset_zero i k Hk) as Hz.
  pose proof (offset_step i k) as Hst. pose proof (offset_range (i + 1) k) as Hr.
  destruct (Nat.eqb_spec (bucket_index i) k) as [E|E].
  - rewrite (proj2 Hz E), Z.add_0_r. by destruct (Z.ltb_spec 0 (Z.of_nat (S n))); [|lia].
  - assert (offset i k ≠ 0) by (by rewrite Hz).
    destruct (Z.eqb_spec (offset (i + 1) k) 5); [lia|]. rewrite Hst.
    replace (i + (offset (i + 1) k + 1)) with (i + 1 + offset (i + 1) k) by lia.
    destruct (Z.ltb_spec (offset (i + 1) k) (Z.of_nat n)), (Z.ltb_spec (offset (i + 1) k + 1) (Z.of_nat (S n))); done || lia.
Qed.

Lemma zeroed_last n i new k :
  (k < 6)%nat → (n < 6)%nat → bucket_index i = k → zeroed n (i + 1) new k = false.
Proof.
  intros Hk Hn E%offset_zero; [|done]. unfold zeroed. pose proof (offset_step i k) as Hst.
  pose proof (offset_range (i + 1) k). rewrite E in Hst.
  destruct (Z.eqb_spec (offset (i + 1) k) 5) as [->|]; [|lia].
  by destruct (Z.ltb_spec 5 (Z.of_nat n)); [lia|].
Qed.

(** The values of the live buckets among the [n] ones from bucket id [i]. *)
Fixpoint live_values (n : nat) (i new_bucket : Z) (buckets : list f32) : list f32 :=
  match n with
  | O => []
  | S n =>
      (if i <? new_bucket then [] else [default F32.zero (buckets !! bucket_index i)])
      ++ live_values n (i + 1) new_bucket buckets
  end.

Definition max_from (m value : f32) : f32 := if flt m value then value else m.

(** A slot already visited does not matter. *)
Lemma live_values_insert n d new buckets j x :
  0 ≤ d → d + Z.of_nat n ≤ 5 →
  live_values n (j + 1 + d) new (<[bucket_index j := x]> buckets) =
    live_values n (j + 1 + d) new buckets.
Proof.
  revert d. induction n as [|n IH]; intros d Hd Hn; [done|]. cbn [live_values].
  replace (j + 1 + d + 1) with (j + 1 + (d + 1)) by lia. rewrite IH by lia.
  destruct (j + 1 + d <? new); [done|]. rewrite list_lookup_insert_ne; [done|].
  unfold bucket_index, NUM_BUCKETS. set (i := j + 1 + d).
  pose proof (Z.div_mod i 6); pose proof (Z.div_mod j 6).
  pose proof (Z.mod_pos_bound i 6); pose proof (Z.mod_pos_bound j 6). lia.
Qed.

(** The buckets after the first turn of the loop. *)
Definition rotate_one (i new_bucket : Z) (buckets : list f32) : list f32 :=
  if i <=? new_bucket then <[bucket_index i := F32.zero]> buckets else buckets.

Lemma rotate_loop_turn n i new m buckets :
  rotate_loop (S n) i new m buckets =
    rotate_loop n (i + 1) new
      (fold_left max_from (if i <? new then [] else [default F32.zero (buckets !! bucket_index i)]) m)
      (rotate_one i new buckets).
Proof.
  simpl. unfold rotate_one.
  destruct (Z.ltb_spec i new), (Z.leb_spec i new), (Z.eqb_spec i new); done || lia.
Qed.

Lemma rotate_one_lookup i new buckets (k : nat) x :
  buckets !! k = Some x →
  rotate_one i new buckets !! k =
    Some (if (bucket_index i =? k)%nat && (i <=? new) then F32.zero else x).
Proof.
  intros Hx. unfold rotate_one. destruct (i <=? new); [|by rewrite andb_false_r].
  destruct (Nat.eqb_spec (bucket_index i) k) as [->|]; simpl.
  - apply list_lookup_insert_eq. by eapply lookup_lt_Some.
  - by rewrite list_lookup_insert_ne.
Qed.

Lemma rotate_loop_spec n i new m buckets :
  (n ≤ 6)%nat →
  let r := rotate_loop n i new m buckets in
  length r.2 = length buckets ∧
  r.1 = fold_left max_from (live_values n i new buckets) m ∧
  (∀ (k : nat) x, (k < 6)%nat → buckets !! k = Some x →
     r.2 !! k = Some (if zeroed n i new k then F32.zero else x)).
Proof.
  revert i m buckets. induction n as [|n IH]; intros i m buckets Hn.
  - simpl. split_and!; [done|done|]. intros k x Hk ->. unfold zeroed.
    pose proof (offset_range i k). by destruct (Z.ltb_spec (offset i k) (Z.of_nat 0)); [lia|].
  - rewrite rotate_loop_turn.
    destruct (IH (i + 1) (fold_left max_from (if i <? new then [] else [default F32.zero (buckets !! bucket_index i)]) m)
      (rotate_one i new buckets)) as (Hl & Hm & Hb); [lia|].
    cbv zeta. split_and!.
    + rewrite Hl. unfold rotate_one. destruct (i <=? new); [apply length_insert|done].
    + rewrite Hm. cbn [live_values]. rewrite fold_left_app. f_equal.
      unfold rotate_one. destruct (i <=? new); [|done].
      pose proof (live_values_insert n 0 new buckets i F32.zero) as Hv.
      rewrite Z.add_0_r in Hv. apply Hv; lia.
    + intros k x Hk Hx. rewrite (Hb k _ Hk (rotate_one_lookup _ _ _ _ _ Hx)).
      rewrite zeroed_step by lia.
      destruct (Nat.eqb_spec (bucket_index i) k) as [E|E]; simpl.
      * rewrite (zeroed_last n i new k) by (done || lia). by destruct (i <=? new).
      * done.
Qed.

(** Rotating the six buckets from one bucket id to another zeroes exactly the
    slots whose next bucket id is not after the new one, all of them after a full
    turn and none when the clock went back, and the maximum returned is taken over
    the buckets that were still live. *)
Theorem zero_and_get_max_spec buckets prev new :
  length buckets = 6%nat →
  let r := zero_and_get_max buckets prev new in
  length r.2 = 6%nat ∧
  r.1 = fold_left max_from (live_values 6 (prev + 1) new buckets) F32.zero ∧
  (∀ (k : nat) x, buckets !! k = Some x →
     r.2 !! k = Some (if prev + 1 + offset (prev + 1) k <=? new then F32.zero else x)) ∧
  (prev + 6 ≤ new → r.2 = no_buckets) ∧
  (new ≤ prev → r.2 = buckets).
Proof.
  intros Hlen. destruct (rotate_loop_spec 6 (prev + 1) new F32.zero buckets) as (Hl & Hm & Hb); [lia|].
  assert (∀ (k : nat) x, buckets !! k = Some x →
     (zero_and_get_max buckets prev new).2 !! k =
       Some (if prev + 1 + offset (prev + 1) k <=? new then F32.zero else x)) as Hslot.
  { intros k x Hx. assert (k < 6)%nat by (rewrite <- Hlen; by eapply lookup_lt_Some).
    unfold zero_and_get_max. rewrite (Hb k x) by done. unfold zeroed.
    pose proof (offset_range (prev + 1) k). by destruct (Z.ltb_spec (offset (prev + 1) k) (Z.of_nat 6)); [|lia]. }
  cbv zeta. unfold zero_and_get_max in *. split_and!; [congruence|done|done|..].
  - intros Hn. apply list_eq_same_length with (n := 6%nat); [done|congruence|].
    intros k x y Hk Hx Hy.
    destruct (lookup_lt_is_Some_2 buckets k) as [z Hz]; [lia|].
    rewrite (Hslot k z Hz) in Hx. pose proof (offset_range (prev + 1) k).
    destruct (Z.leb_spec (prev + 1 + offset (prev + 1) k) new); [|lia].
    apply lookup_replicate in Hy as [-> _]. congruence.
  - intros Hn. apply list_eq_same_length with (n := 6%nat); [done|congruence|].
    intros k x y Hk Hx Hy. rewrite (Hslot k y Hy) in Hx. pose proof (offset_range (prev + 1) k).
    destruct (Z.leb_spec (prev + 1 + offset (prev + 1) k) new); [lia|congruence].
Qed.

(** ** Rates and cardinality *)

Definition rate_ok (r : f64) : Prop := flt F64.one r = false.

Lemma new_rate_ok p t s : rate_ok (new_rate p t s).
Proof.
  unfold new_rate, rate_ok. cbv zeta. case_match eqn:E; [|done].
  by rewrite flt_irrefl.
Qed.

Lemma rate_turns (previous : gmap Z f64) tps sigs sm rs lo :
  NoDup sigs.*1 → (∀ k, k ∈ sigs.*1 → k ∈ dom sm ∧ k ∉ dom rs) →
  dom rs ⊆ dom sm → (∀ k r, rs !! k = Some r → rate_ok r) → rate_ok lo →
  let '(sm', rs', lo') := fold_left (rate_turn previous tps) sigs (sm, rs, lo) in
  dom rs' ⊆ dom sm' ∧ dom sm' ⊆ dom sm ∧ (∀ k r, rs' !! k = Some r → rate_ok r) ∧ rate_ok lo'.
Proof.
  revert sm rs lo. induction sigs as [|[k s] sigs IH]; intros sm rs lo Hnd Hks Hd Hr Hlo; [done|].
  apply NoDup_cons in Hnd as [Hk Hnd]. cbn [fold_left].
  destruct (Hks k (list_elem_of_here _ _)) as [Hks1 Hks2].
  pose proof (new_rate_ok (previous !! k) tps s) as Hnew. unfold rate_turn at 2. cbn [fst snd].
  destruct (feq _ _ && feq _ _).
  - specialize (IH (delete k sm) rs lo Hnd). destruct (fold_left _ _ _) as [[sm' rs'] lo'].
    destruct IH as (H1 & H2 & H3 & H4); [|set_solver|done|done|].
    + intros k' Hk'. assert (k' ≠ k) by (intros ->; done).
      destruct (Hks k'); [by right|]. set_solver.
    + split_and!; [done| |done|done]. set_solver.
  - set (lo2 := if flt _ lo then _ else lo).
    specialize (IH sm (<[k := new_rate (previous !! k) tps s]> rs) lo2 Hnd).
    destruct (fold_left _ _ _) as [[sm' rs'] lo']. apply IH.
    + intros k' Hk'. assert (k' ≠ k) by (intros ->; done).
      destruct (Hks k'); [by right|]. set_solver.
    + set_solver.
    + intros k' r [[<- <-]|[_ ?]]%lookup_insert_Some; eauto.
    + unfold lo2. by case_match.
Qed.

(** Signatures are only removed. *)
Lemma rate_turns_sub (previous : gmap Z f64) tps sigs sm rs lo k b :
  (fold_left (rate_turn previous tps) sigs (sm, rs, lo)).1.1 !! k = Some b → sm !! k = Some b.
Proof.
  revert sm rs lo. induction sigs as [|[k' s] sigs IH]; intros sm rs lo; [done|].
  cbn [fold_left]. unfold rate_turn at 2. cbn [fst snd].
  destruct (feq _ _ && feq _ _); intros Hb%IH; [|done].
  by apply lookup_delete_Some in Hb as [_ ?].
Qed.

Section SamplerFacts.
Context `{!MapOrder, !MapOrderLaw}.

Record sampler_ok (s : Sampler) : Prop := {
  ok_dom : dom (rates s) ⊆ dom (seen s);
  ok_rates : ∀ k r, rates s !! k = Some r → rate_ok r;
  ok_lowest : rate_ok (lowest_rate s);
  ok_buckets : length (all_sigs_seen s) = 6%nat ∧ ∀ k b, seen s !! k = Some b → length b = 6%nat;
}.

Lemma sampler_new_ok e t : sampler_ok (sampler_new e t).
Proof. split; simpl; [set_solver|done|done|]. split; [done|]. intros k b Hk. by rewrite lookup_empty in Hk. Qed.

Lemma update_rates_ok s p n :
  sampler_ok s → sampler_ok (update_rates s p n) ∧ dom (seen (update_rates s p n)) ⊆ dom (seen s).
Proof.
  intros Hok. unfold update_rates. case_bool_decide as Hs; [done|].
  set (sigs := map (λ e : Z * list f32, (e.1, _)) (map_order (seen s))). set (rot := _ <$> seen s).
  assert (dom rot = dom (seen s)) as Hrot by apply dom_fmap_L.
  assert (sigs.*1 ≡ₚ (map_to_list (seen s)).*1) as Hk.
  { unfold sigs. rewrite <- list_fmap_compose.
    change (fst ∘ _) with (@fst Z (list f32)). by rewrite map_order_perm. }
  assert (∀ k b, rot !! k = Some b → length b = 6%nat) as Hlen.
  { intros k b (b0 & <- & Hb0)%lookup_fmap_Some.
    apply zero_and_get_max_spec. by eapply (ok_buckets s Hok). }
  pose proof (rate_turns (rates s) (compute_tps_per_sig (target_tps s) (map snd sigs)) sigs rot ∅ F64.one) as Hf.
  pose proof (rate_turns_sub (rates s) (compute_tps_per_sig (target_tps s) (map snd sigs)) sigs rot ∅ F64.one) as Hsub.
  destruct (fold_left _ _ _) as [[sm rs] lo]. destruct Hf as (H1 & H2 & H3 & H4).
  - rewrite Hk. apply NoDup_fst_map_to_list.
  - intros k Hin. rewrite Hk in Hin. split; [|set_solver]. rewrite Hrot.
    apply list_elem_of_fmap in Hin as ([k' b] & -> & Hin). apply elem_of_map_to_list in Hin.
    by apply elem_of_dom.
  - set_solver.
  - intros k r Hkr. by rewrite lookup_empty in Hkr.
  - done.
  - rewrite <- Hrot. split; [|done]. split; simpl; try done. split.
    + apply zero_and_get_max_spec, (ok_buckets s Hok).
    + intros k b Hb. eapply Hlen, Hsub. exact Hb.
Qed.

Lemma add_at_length idx n b : length (add_at idx n b) = length b.
Proof. apply length_alter. Qed.

Lemma count_ok s now sig n :
  sampler_ok s →
  sampler_ok (count_weighted_sig s now sig n).2 ∧
  dom (seen (count_weighted_sig s now sig n).2) ⊆ dom (seen s) ∪ {[sig]}.
Proof.
  intros Hok. unfold count_weighted_sig. cbv zeta. cbn [snd].
  set (bid := Z.quot now _). set (s0 := Build_Sampler _ _ bid _ _ _ _).
  assert (sampler_ok s0) as Hok0 by (destruct Hok; by split).
  set (s1 := if negb _ then _ else s0).
  assert (sampler_ok s1 ∧ dom (seen s1) ⊆ dom (seen s0)) as [Hok1 Hd1].
  { unfold s1. case_match; [by apply update_rates_ok|done]. }
  destruct Hok1 as [Ho1 Ho2 Ho3 [Ho4 Ho5]]. split; [|simpl in *; set_solver].
  split; simpl; try done; [set_solver|]. rewrite add_at_length. split; [done|].
  intros k b [[<- <-]|[_ ?]]%lookup_insert_Some; [|by eapply Ho5].
  rewrite add_at_length. destruct (seen s1 !! sig) eqn:E; [by eapply Ho5|done].
Qed.

(** The values signatures are folded onto. *)
Definition folded : gset Z := list_to_set (seqZ 0 (SHRINK_CARDINALITY / 2)).

Lemma folded_size : size folded = 100%nat.
Proof. vm_compute. reflexivity. Qed.
Lemma folded_elem sig : sig mod (SHRINK_CARDINALITY / 2) ∈ folded.
Proof.
  apply elem_of_list_to_set, elem_of_seqZ.
  pose proof (Z.mod_pos_bound sig (SHRINK_CARDINALITY / 2)) as Hb.
  change (SHRINK_CARDINALITY / 2) with 100 in *. lia.
Qed.

(** Without an allow list there are at most half the signatures; with one, the
    signatures are those present when it was taken, or folded. *)
Definition shrink_inv (self : RateLimitedSampler) : Prop :=
  sampler_ok (sampler self) ∧
  match shrink_allow_list self with
  | None => (size (seen (sampler self)) ≤ 100)%nat
  | Some allow => ∃ known : gset Z,
      (size known ≤ 100)%nat ∧ allow ⊆ known ∧ dom (seen (sampler self)) ⊆ known ∪ folded
  end.

Lemma shrink_inv_new config : shrink_inv (rate_limited_new config).
Proof. split; [apply sampler_new_ok|]. simpl. rewrite map_size_empty. lia. Qed.

Lemma shrink_inv_size self : shrink_inv self → sampler_size (sampler self) ≤ SHRINK_CARDINALITY.
Proof.
  intros [_ Hinv]. unfold sampler_size, SHRINK_CARDINALITY. rewrite <- size_dom.
  destruct (shrink_allow_list self).
  - destruct Hinv as (known & Hk & _ & Hd). apply subseteq_size in Hd.
    pose proof (size_union_alt known folded) as Hu.
    pose proof (subseteq_size (folded ∖ known) folded ltac:(set_solver)) as Hf.
    rewrite folded_size in Hf. lia.
  - rewrite size_dom. lia.
Qed.

(** After [shrink], counting the signature it returns keeps the invariant. *)
Lemma shrink_count self sig self' sig' s :
  shrink_inv self → shrink self sig = (sig', self') → sampler_ok s →
  dom (seen s) ⊆ dom (seen (sampler self')) ∪ {[sig']} →
  shrink_inv {| sampler := s; disabled := disabled self; shrink_allow_list := shrink_allow_list self' |}.
Proof.
  intros [Hok Hinv] Hsh Hs Hd. split; [done|]. simpl. unfold shrink, sampler_size in Hsh.
  change (SHRINK_CARDINALITY / 2) with 100 in Hsh.
  destruct (Z.ltb_spec (Z.of_nat (size (seen (sampler self)))) 100) as [Hlt|Hge];
    injection Hsh as <- <-; simpl in *.
  - apply subseteq_size in Hd. rewrite <- size_dom.
    pose proof (size_union_alt (dom (seen (sampler self))) {[sig]}) as Hu.
    pose proof (subseteq_size ({[sig]} ∖ dom (seen (sampler self))) {[sig]} ltac:(set_solver)) as H1.
    rewrite size_singleton in H1. rewrite size_dom in Hu. lia.
  - assert (∃ known : gset Z, (size known ≤ 100)%nat ∧
      default (dom (rates (sampler self))) (shrink_allow_list self) ⊆ known ∧
      dom (seen (sampler self)) ⊆ known ∪ folded) as (known & Hk & Ha & Hk').
    { destruct (shrink_allow_list self) as [allow|]; [exact Hinv|].
      exists (dom (seen (sampler self))). rewrite size_dom. split_and!; [done|apply Hok|set_solver]. }
    exists known. split_and!; [done|done|].
    pose proof (folded_elem sig) as Hf. change (SHRINK_CARDINALITY / 2) with 100 in Hf.
    case_bool_decide; set_solver.
Qed.

Lemma rate_limited_sample_ok self now trace :
  shrink_inv self →
  ∃ d self', rate_limited_sample self now trace = Some (d, self') ∧ shrink_inv self' ∧
    disabled self' = disabled self ∧ (disabled self = true → d = Drop).
Proof.
  intros Hinv. unfold rate_limited_sample.
  destruct (disabled self) eqn:Ed; [by eexists _, _|]. cbn [orb].
  destruct (Nat.leb_spec (length (spans trace)) (root_index trace)) as [|Hlt]; [by eexists _, _|].
  apply lookup_lt_is_Some in Hlt as [root Hroot]. rewrite (signature_xor _ _ _ _ Hroot).
  destruct (shrink self _) as [sig' self'] eqn:Esh.
  assert (sampler self' = sampler self ∧ disabled self' = disabled self) as [Esam Edis].
  { unfold shrink in Esh. case_match; by injection Esh as _ <-. }
  destruct (count_ok (sampler self') now sig' (weight_root trace)) as [Hok Hd].
  { rewrite Esam. apply Hinv. }
  cbv beta iota. destruct (count_weighted_sig _ _ _ _) as [b s] eqn:Ec. simpl in Hok, Hd.
  eexists _, _. split; [reflexivity|]. split_and!; [|simpl; congruence|done].
  rewrite Edis. by eapply shrink_count.
Qed.

Definition sampler_inv (self : ErrorsSampler) : Prop :=
  match self with AlwaysKeep _ => True | RateLimited s => shrink_inv s end.

Lemma sample_inv self now trace :
  sampler_inv self →
  ∃ d self', sample self now trace = Some (d, self') ∧ sampler_inv self' ∧
    is_disabled self' = is_disabled self ∧ (is_disabled self = true → d = Drop).
Proof.
  intros Hinv. destruct self as [dis|s]; simpl in *.
  - destruct dis; simpl; [by eexists _, _|]. case_match; by eexists _, _.
  - destruct (rate_limited_sample_ok s now trace Hinv) as (d & s' & -> & ? & ? & ?).
    by eexists _, _.
Qed.

Lemma sampler_new_inv config : sampler_inv (errors_sampler_new config).
Proof. unfold errors_sampler_new. destruct (mode config); [done|apply shrink_inv_new]. Qed.

(** C23: Whatever traces arrive and whatever the clock does, the sampler never panics,
    decides on every trace, never holds more than [SHRINK_CARDINALITY] signatures,
    has a rate only for signatures it still counts and none above one, and drops
    everything when it is disabled. *)
Theorem sampler_bounded config traces :
  ∃ decisions self,
    sample_all (errors_sampler_new config) traces = Some (decisions, self) ∧
    length decisions = length traces ∧
    (fle (config_target_tps config) F64.zero = true → Forall (λ d, d = Drop) decisions) ∧
    match self with
    | AlwaysKeep _ => True
    | RateLimited s =>
        sampler_size (sampler s) ≤ SHRINK_CARDINALITY ∧
        dom (rates (sampler s)) ⊆ dom (seen (sampler s)) ∧
        (∀ sig rate, rates (sampler s) !! sig = Some rate → flt F64.one rate = false)
    end.
Proof.
  assert (is_disabled (errors_sampler_new config) = fle (config_target_tps config) F64.zero) as Hd
    by (unfold errors_sampler_new; by destruct (mode config)).
  pose proof (sampler_new_inv config) as Hinv.
  rewrite <- Hd. clear Hd. generalize dependent (errors_sampler_new config).
  induction traces as [|[now trace] traces IH]; intros self Hinv.
  - eexists _, _. split; [reflexivity|]. split_and!; [done|constructor|].
    destruct self as [|s]; [done|]. simpl in Hinv. split_and!; [by apply shrink_inv_size|apply Hinv..].
  - destruct (sample_inv self now trace Hinv) as (d & self' & Es & Hinv' & Hdis & Hdrop).
    destruct (IH self' Hinv') as (ds & self2 & Ea & Hl & Hf & Hs).
    eexists (d :: ds), self2. simpl. rewrite Es, Ea. split_and!; [done|simpl; lia| |done].
    intros Hd. constructor; [auto|]. apply Hf. congruence.
Qed.

(** A client rate taken from the wire is sanitized: the rate used is finite, above
    zero and at most one whatever the trace carries, so the weight of a trace and
    the factor applied to its rate are those of a valid rate. *)
Theorem client_rate_valid trace :
  is_finite (client_rate trace) = true ∧ fle (client_rate trace) F64.zero = false ∧
  flt F64.one (client_rate trace) = false ∧
  (is_finite (root_global_sample_rate trace) = true →
   fle (root_global_sample_rate trace) F64.zero = false →
   flt F64.one (root_global_sample_rate trace) = false →
   client_rate trace = root_global_sample_rate trace).
Proof.
  unfold client_rate. set (r := root_global_sample_rate trace).
  destruct (is_finite r) eqn:E1, (fle r F64.zero) eqn:E2, (flt F64.one r) eqn:E3; simpl;
    rewrite ?E1, ?E2, ?E3; split_and!; done.
Qed.
End SamplerFacts.

(** * Witnesses *)
Module SamplerExamples.
Import SignatureExamples.
#[local] Instance order : MapOrder := map_to_list.
#[local] Instance order_law : MapOrderLaw.
Proof. intros m. done. Qed.

Lemma zero_and_get_max_spec_witness :
  (zero_and_get_max [F32.of_f64 F64.one; F32.zero; F32.zero; F32.zero; F32.zero; F32.zero] 0 7).2 = no_buckets.
Proof.
  destruct (zero_and_get_max_spec [F32.of_f64 F64.one; F32.zero; F32.zero; F32.zero; F32.zero; F32.zero] 0 7)
    as (_ & _ & _ & Hz & _); [reflexivity|]. apply Hz. lia.
Defined.

Definition trace1 : TraceView :=
  {| env := "prod"; trace_id := 7; root_index := 0; root_global_sample_rate := F64.one;
     spans := [web (Some "500")] |}.

Lemma sampler_bounded_witness :
  ∃ decisions self,
    sample_all (errors_sampler_new config_default) [(100, trace1); (106, trace1)] = Some (decisions, self) ∧
    decisions = [Keep F64.one; Keep F64.one].
Proof.
  destruct (sampler_bounded config_default [(100, trace1); (106, trace1)]) as (ds & self & E & _).
  exists ds, self. split; [exact E|]. vm_compute in E. injection E as <- _. reflexivity.
Defined.
End SamplerExamples.
