(* ===== verification/LogsAggregator.v ===== *)
(** The log aggregator and its HTTP intake: [datadog-logs-agent/src/aggregator/core.rs],
    [aggregator/service.rs], [intake_entry.rs], [server.rs], [constants.rs] and
    [errors.rs].

    The JSON library is a parameter: [to_json] prints an entry, [from_json] reads a
    request body. *)
From Stdlib Require Import Ascii.
From S2P Require Import Prelude RStr Actor.

Definition MAX_BATCH_ENTRIES : Z := 1000.
Definition MAX_CONTENT_BYTES : Z := 5 * 1024 * 1024.
Definition MAX_LOG_BYTES : Z := 1024 * 1024.

Inductive AggregatorError :=
  | EntryTooLarge (size max : Z)
  | Serialization (e : string).

(** [serde_json] on the types of the agent; [attributes] is a JSON object of the
    library. *)
Class Json := {
  json_map : Type;
  json_empty : json_map;
}.

Record IntakeEntry `{Json} := {
  message : string;
  timestamp : Z;
  hostname : option string;
  service : option string;
  ddsource : option string;
  ddtags : option string;
  status : option string;
  attributes : json_map;
}.

Class JsonEntries `{Json} := {
  to_json : IntakeEntry → result string string;
  from_json : list ascii → result (list IntakeEntry) string;
}.

Section Aggregator.
Context `{Hj : Json, !JsonEntries}.

Definition from_message (message : string) (timestamp : Z) : IntakeEntry :=
  {| message := message; timestamp := timestamp; hostname := None; service := None;
     ddsource := None; ddtags := None; status := None; attributes := json_empty |}.

(** * The batch accumulator *)

Record Aggregator := {
  messages : list string;
  current_size_bytes : Z;
}.

Definition aggregator_new : Aggregator := {| messages := []; current_size_bytes := 0 |}.

Definition is_full (self : Aggregator) : bool :=
  let n := zlen (messages self) in
  let framing := if n =? 0 then 0 else 2 + (n - 1) in
  (MAX_BATCH_ENTRIES <=? n) || (MAX_CONTENT_BYTES <=? current_size_bytes self + framing).

Definition insert (self : Aggregator) (entry : IntakeEntry)
    : result bool AggregatorError * Aggregator :=
  match to_json entry with
  | Err e => (Err (Serialization e), self)
  | Ok serialized =>
      let len := str_len serialized in
      if MAX_LOG_BYTES <? len then (Err (EntryTooLarge len MAX_LOG_BYTES), self) else
      let self :=
        {| messages := messages self ++ [serialized];
           current_size_bytes := current_size_bytes self + len |} in
      (Ok (is_full self), self)
  end.

(** The loop of [get_batch]: output so far, messages and size left. *)
Fixpoint batch_loop (msgs : list string) (size bytes_in_batch count : Z) (output : string)
    : string * list string * Z :=
  match msgs with
  | [] => (output, msgs, size)
  | msg :: msgs' =>
      if MAX_BATCH_ENTRIES <=? count then (output, msgs, size) else
      let separator := if count =? 0 then 0 else 1 in
      if MAX_CONTENT_BYTES <? bytes_in_batch + separator + str_len msg + 2
      then (output, msgs, size)
      else
        let output := if 0 <? count then output +:+ "," else output in
        let bytes_in_batch := if 0 <? count then bytes_in_batch + 1 else bytes_in_batch in
        batch_loop msgs' (saturating_sub size (str_len msg)) (bytes_in_batch + str_len msg)
          (count + 1) (output +:+ msg)
  end.

Definition get_batch (self : Aggregator) : option string * Aggregator :=
  match messages self with
  | [] => (None, self)
  | _ =>
      let '(output, msgs, size) := batch_loop (messages self) (current_size_bytes self) 0 0 "[" in
      (Some (output +:+ "]"), {| messages := msgs; current_size_bytes := size |})
  end.

(** [while let Some(batch) = self.get_batch()], with fuel; [all_batches_spec] shows
    that one turn per message and one more suffice. *)
Fixpoint all_batches (fuel : nat) (self : Aggregator) : list string * Aggregator :=
  match fuel with
  | O => ([], self)
  | S fuel =>
      match get_batch self with
      | (None, self) => ([], self)
      | (Some batch, self) =>
          let '(batches, self) := all_batches fuel self in (batch :: batches, self)
      end
  end.

Definition get_all_batches (self : Aggregator) : list string * Aggregator :=
  all_batches (S (length (messages self))) self.

(** * The service *)

Inductive AggregatorCommand :=
  | InsertBatch (entries : list IntakeEntry)
  | GetBatches (tx : nat)
  | Shutdown.

Inductive Response := Batches (tx : nat) (batches : list string).

Definition insert_entries (self : Aggregator) (entries : list IntakeEntry) : Aggregator :=
  fold_left (λ a e, (insert a e).2) entries self.

Definition handle (self : Aggregator) (c : AggregatorCommand) : outcome Aggregator Response :=
  match c with
  | InsertBatch entries => Continue (insert_entries self entries) []
  | GetBatches tx => let '(bs, self) := get_all_batches self in Continue self [Batches tx bs]
  | Shutdown => Stop
  end.

Definition aggregator_service_new : Service Aggregator AggregatorCommand Response :=
  service_new aggregator_new.

(** ** The handle; [None] is the error of a task that is gone. *)

Definition insert_batch (svc : Service Aggregator AggregatorCommand Response)
    (entries : list IntakeEntry) : option (Service Aggregator AggregatorCommand Response) :=
  send svc (InsertBatch entries).

(** The batches answered to the request [tx]. *)
Definition answer_to (tx : nat) (r : Response) : option (list string) :=
  match r with Batches tx' bs => if decide (tx' = tx) then Some bs else None end.

(** [get_batches] sends its command, then waits on its receiver. *)
Definition get_batches_send (svc : Service Aggregator AggregatorCommand Response) (tx : nat) :
    option (Service Aggregator AggregatorCommand Response) :=
  send svc (GetBatches tx).
Definition get_batches_wait (svc : Service Aggregator AggregatorCommand Response) (tx : nat) :
    option (result (list string) unit) :=
  response (answer_to tx) svc.

Definition shutdown (svc : Service Aggregator AggregatorCommand Response) :
    option (Service Aggregator AggregatorCommand Response) :=
  send svc Shutdown.

(** * The HTTP intake *)

Definition LOG_INTAKE_PATH : string := "/v1/input".
Definition MAX_BODY_BYTES : Z := 4 * 1024 * 1024.

(** A request: the method, the path, the [Content-Length] header when it is a string,
    and what reading the body gives. *)
Record Request := {
  req_method : string;
  req_path : string;
  content_length : option string;
  req_body : result (list ascii) string;
}.

Record HttpResponse := { resp_status : Z; resp_body : string }.

Definition reply (code : Z) (body : string) : HttpResponse :=
  {| resp_status := code; resp_body := body |}.

(** The declared size, when it is a number. *)
Definition declared_size (req : Request) : option Z :=
  match content_length req with Some v => parse_uint usize_max v | None => None end.

Definition handle_request (req : Request) (svc : Service Aggregator AggregatorCommand Response)
    : HttpResponse * Service Aggregator AggregatorCommand Response :=
  if negb (String.eqb (req_method req) "POST") then (reply 405 "method not allowed", svc) else
  if negb (String.eqb (req_path req) LOG_INTAKE_PATH) then (reply 404 "not found", svc) else
  if match declared_size req with Some n => MAX_BODY_BYTES <? n | None => false end
  then (reply 413 "payload too large", svc) else
  match req_body req with
  | Err _ => (reply 400 "failed to read body", svc)
  | Ok bytes =>
      if MAX_BODY_BYTES <? zlen bytes then (reply 413 "payload too large", svc) else
      match from_json bytes with
      | Err e => (reply 400 ("invalid JSON: " +:+ e), svc)
      | Ok [] => (reply 200 "ok", svc)
      | Ok entries =>
          match insert_batch svc entries with
          | None => (reply 500 "aggregator unavailable", svc)
          | Some svc => (reply 200 "ok", svc)
          end
      end
  end.
End Aggregator.

(** * Facts *)
Section Facts.
Context `{Hj : Json, !JsonEntries}.
Implicit Types (ms msgs : list string) (a : Aggregator).

(** The cached size is the size of the messages, each within its limit. *)
Definition log_wf a : Prop :=
  current_size_bytes a = sum_size str_len (messages a) ∧
  Forall (λ m, str_len m ≤ MAX_LOG_BYTES) (messages a).

Lemma str_len_nonneg s : 0 ≤ str_len s.
Proof. unfold str_len. lia. Qed.
Lemma str_len_app s t : str_len (s +:+ t) = str_len s + str_len t.
Proof.
  unfold str_len. induction s as [|c s IH]; [done|]. rewrite app_cons. simpl. lia.
Qed.
Lemma sum_str_len_nonneg ms : 0 ≤ sum_size str_len ms.
Proof. apply sum_size_nonneg. intros. apply str_len_nonneg. Qed.

Definition render_batch ms : string := "[" +:+ join "," ms +:+ "]".

Lemma str_app_assoc (s t u : string) : (s +:+ t) +:+ u = s +:+ (t +:+ u).
Proof. induction s as [|c s IH]; [done|]. rewrite !app_cons. by rewrite IH. Qed.

Lemma join_snoc ms m : ms ≠ [] → join "," (ms ++ [m]) = join "," ms +:+ "," +:+ m.
Proof.
  induction ms as [|x ms IH]; intros Hne; [done|]. destruct ms as [|y ms]; [done|].
  change ((x :: y :: ms) ++ [m]) with (x :: ((y :: ms) ++ [m])).
  rewrite (join_cons "," x ((y :: ms) ++ [m])) by done. rewrite IH by done.
  rewrite (join_cons "," x (y :: ms)) by done. by rewrite !str_app_assoc.
Qed.

(** Size of the content of a batch on the wire. *)
Lemma join_len ms : str_len (join "," ms) = sum_size str_len ms + Z.max 0 (zlen ms - 1).
Proof.
  induction ms as [|x ms IH]; [done|]. destruct ms as [|y ms].
  - simpl. lia.
  - rewrite join_cons, !str_len_app, IH by done. cbn [sum_size length]. change (str_len ",") with 1. lia.
Qed.

(** The loop takes a prefix of the messages: the longest one within the limits. *)
Lemma batch_loop_spec msgs size done_ output :
  output = "[" +:+ join "," done_ → zlen done_ ≤ MAX_BATCH_ENTRIES →
  size = sum_size str_len msgs →
  str_len (join "," done_) + 2 ≤ MAX_CONTENT_BYTES ∨ done_ = [] →
  ∃ taken rest,
    batch_loop msgs size (str_len (join "," done_)) (zlen done_) output =
      ("[" +:+ join "," (done_ ++ taken), rest, sum_size str_len rest) ∧
    msgs = taken ++ rest ∧ zlen (done_ ++ taken) ≤ MAX_BATCH_ENTRIES ∧
    (str_len (join "," (done_ ++ taken)) + 2 ≤ MAX_CONTENT_BYTES ∨ done_ ++ taken = []) ∧
    match rest with
    | [] => True
    | m :: _ => zlen (done_ ++ taken) = MAX_BATCH_ENTRIES ∨
                MAX_CONTENT_BYTES < str_len (join "," (done_ ++ taken ++ [m])) + 2
    end.
Proof.
  revert size done_ output. induction msgs as [|m msgs IH]; intros size dn output Ho Hn Hs Hc.
  - exists [], []. simpl. rewrite !app_nil_r. subst. by split_and!.
  - cbn [batch_loop].
    assert (str_len (join "," (dn ++ [m])) = str_len (join "," dn) + (if zlen dn =? 0 then 0 else 1) + str_len m) as Hlen.
    { destruct dn as [|d dn]; [done|]. rewrite join_snoc, !str_len_app by done.
      change (str_len ",") with 1. destruct (Z.eqb_spec (zlen (d :: dn)) 0); simpl in *; lia. }
    destruct (Z.leb_spec MAX_BATCH_ENTRIES (zlen dn)) as [Hfull|Hroom].
    { exists [], (m :: msgs). rewrite app_nil_r. subst. split_and!; try done. left. lia. }
    destruct (Z.ltb_spec MAX_CONTENT_BYTES
      (str_len (join "," dn) + (if zlen dn =? 0 then 0 else 1) + str_len m + 2)) as [Hbig|Hfit].
    { exists [], (m :: msgs). rewrite app_nil_r. subst. split_and!; try done. right. simpl. lia. }
    destruct (IH (saturating_sub size (str_len m)) (dn ++ [m])
      ((if 0 <? zlen dn then output +:+ "," else output) +:+ m)) as (taken & rest & E & -> & Hl & Hcc & Hr).
    + destruct dn as [|d dn]; [by subst|].
      rewrite join_snoc by done. change (0 <? zlen (d :: dn)) with true. cbv iota.
      subst. by rewrite !str_app_assoc.
    + rewrite length_app. simpl. lia.
    + subst size. unfold saturating_sub. cbn [sum_size]. pose proof (sum_str_len_nonneg msgs). lia.
    + left. rewrite Hlen. lia.
    + exists (m :: taken), rest. rewrite <- app_assoc in E, Hl, Hcc, Hr. simpl in E, Hl, Hcc, Hr.
      split_and!; try done.
      * rewrite <- E. rewrite Hlen. f_equal; [|rewrite length_app; simpl; lia].
        destruct (Z.eqb_spec (zlen dn) 0), (Z.ltb_spec 0 (zlen dn)); lia.
      * destruct rest as [|m0 rest]; [done|]. by rewrite <- app_assoc in Hr.
Qed.

(** A batch is not empty, within both limits, and as large as they allow when
    messages are left. *)
Definition batch_good (ms rest : list string) : Prop :=
  ms ≠ [] ∧ zlen ms ≤ MAX_BATCH_ENTRIES ∧ str_len (render_batch ms) ≤ MAX_CONTENT_BYTES ∧
  match rest with
  | [] => True
  | m :: _ => zlen ms = MAX_BATCH_ENTRIES ∨ MAX_CONTENT_BYTES < str_len (render_batch (ms ++ [m]))
  end.

Lemma render_len ms : str_len (render_batch ms) = str_len (join "," ms) + 2.
Proof. unfold render_batch. rewrite !str_len_app. change (str_len "[") with 1. change (str_len "]") with 1. lia. Qed.

Lemma get_batch_spec a :
  log_wf a → messages a ≠ [] →
  ∃ ms a', get_batch a = (Some (render_batch ms), a') ∧ log_wf a' ∧
    messages a = ms ++ messages a' ∧ batch_good ms (messages a').
Proof.
  intros [Hs Hf] Hne. unfold get_batch.
  destruct (batch_loop_spec (messages a) (current_size_bytes a) [] "[") as (ms & rest & E & Hm & Hl & Hc & Hr);
    [done|done|done|by right|].
  change (str_len (join "," [])) with 0 in E. change (zlen ([] : list string)) with 0 in E. rewrite E.
  destruct (messages a) as [|m0 msgs] eqn:Ea; [done|].
  simpl in Hl, Hc, Hr. exists ms, {| messages := rest; current_size_bytes := sum_size str_len rest |}.
  assert (ms ≠ []) as Hms.
  { intros ->. simpl in Hm. subst rest. destruct Hr as [Hr|Hr].
    - unfold MAX_BATCH_ENTRIES in Hr. simpl in Hr. lia.
    - apply Forall_inv in Hf. simpl in Hr. unfold MAX_CONTENT_BYTES, MAX_LOG_BYTES in *. lia. }
  rewrite Hm in Hf. apply Forall_app in Hf as [_ Hf].
  unfold batch_good. rewrite render_len. split_and!; try done.
  - destruct Hc; [lia|done].
  - destruct rest; [done|]. simpl. by rewrite render_len.
Qed.

(** The batches of a queue: a partition of the messages, in order. *)
Inductive batches_of : list string → list (list string) → Prop :=
  | batches_nil : batches_of [] []
  | batches_cons ms rest bs :
      batch_good ms rest → batches_of rest bs → batches_of (ms ++ rest) (ms :: bs).

Lemma batches_of_concat ms bs : batches_of ms bs → concat bs = ms.
Proof. induction 1 as [|ms rest bs _ _ IH]; [done|]. simpl. by rewrite IH. Qed.

Lemma all_batches_spec fuel a :
  log_wf a → (length (messages a) < fuel)%nat →
  ∃ bs, all_batches fuel a = (render_batch <$> bs, aggregator_new) ∧ batches_of (messages a) bs.
Proof.
  revert a. induction fuel as [|fuel IH]; intros a Hwf Hfuel; [lia|]. cbn [all_batches].
  destruct (decide (messages a = [])) as [E|Hne].
  - exists []. unfold get_batch. rewrite E. split; [|constructor].
    destruct a as [ms sz]. destruct Hwf as [Hs _]. simpl in *. by subst.
  - destruct (get_batch_spec a Hwf Hne) as (ms & a' & -> & Hwf' & Hm & Hg).
    assert (length (messages a') < fuel)%nat as Hl.
    { apply (f_equal length) in Hm. rewrite length_app in Hm.
      destruct Hg as [Hms _]. destruct ms; [done|]. simpl in Hm. lia. }
    destruct (IH a' Hwf' Hl) as (bs & -> & Hb).
    exists (ms :: bs). split; [done|]. rewrite Hm. by constructor.
Qed.

Lemma insert_log_wf a e : log_wf a → log_wf (insert a e).2.
Proof.
  intros [Hs Hf]. unfold insert. destruct (to_json e) as [m|]; [|done].
  destruct (Z.ltb_spec MAX_LOG_BYTES (str_len m)); [done|]. split; simpl.
  - rewrite sum_size_app, Hs. simpl. lia.
  - apply Forall_app. split; [done|]. by repeat constructor.
Qed.

(** The serialized form of an entry the aggregator accepts. *)
Definition accepted_log (e : IntakeEntry) : option string :=
  match to_json e with
  | Ok m => if MAX_LOG_BYTES <? str_len m then None else Some m
  | Err _ => None
  end.

(** The entries the aggregator drops: those it cannot serialize, and those too large. *)
Lemma accepted_log_none e :
  accepted_log e = None ↔
  (∃ err, to_json e = Err err) ∨ ∃ m, to_json e = Ok m ∧ MAX_LOG_BYTES < str_len m.
Proof.
  unfold accepted_log. destruct (to_json e) as [m|err]; [|split; [left; eauto|done]].
  destruct (Z.ltb_spec MAX_LOG_BYTES (str_len m)).
  - split; [right; eauto|done].
  - split; [done|]. intros [[? ?]|(m' & [= <-] & ?)]; [done|lia].
Qed.

Lemma insert_messages a e : messages (insert a e).2 = messages a ++ option_list (accepted_log e).
Proof.
  unfold insert, accepted_log. destruct (to_json e); [|by rewrite app_nil_r].
  case_match; [by rewrite app_nil_r|done].
Qed.

Lemma insert_entries_spec a es :
  log_wf a → log_wf (insert_entries a es) ∧
  messages (insert_entries a es) = messages a ++ omap accepted_log es.
Proof.
  unfold insert_entries. revert a. induction es as [|e es IH]; intros a Hwf; simpl.
  - by rewrite app_nil_r.
  - destruct (IH (insert a e).2 (insert_log_wf a e Hwf)) as [Hw Hm]. split; [done|].
    rewrite Hm, insert_messages, <- app_assoc. by destruct (accepted_log e).
Qed.

Lemma log_wf_new : log_wf aggregator_new.
Proof. by split; [|constructor]. Qed.

(** C27: Draining the aggregator always ends and leaves it empty with a size of zero;
    the batches are JSON arrays of consecutive messages, all of them in order, none
    empty, each within [MAX_BATCH_ENTRIES] and [MAX_CONTENT_BYTES] framing included
    and as large as these limits allow.  The bound on a log entry is what makes
    the loop progress. *)
Theorem get_all_batches_spec entries :
  ∃ bs, get_all_batches (insert_entries aggregator_new entries) = (render_batch <$> bs, aggregator_new) ∧
    batches_of (omap accepted_log entries) bs ∧ concat bs = omap accepted_log entries.
Proof.
  destruct (insert_entries_spec aggregator_new entries log_wf_new) as [Hwf Hm].
  destruct (all_batches_spec (S (length (messages (insert_entries aggregator_new entries)))) _ Hwf)
    as (bs & E & Hb); [lia|].
  rewrite Hm in Hb. exists bs. split_and!; [done|done|by apply batches_of_concat].
Qed.

(** [insert] accepts exactly the entries whose JSON is within [MAX_LOG_BYTES] and
    reports a full batch exactly when the next batch, with its brackets and commas,
    has reached the number of entries or the size of a batch; a rejected entry
    changes nothing. *)
Theorem insert_full a e :
  log_wf a →
  match accepted_log e with
  | Some m =>
      ∃ a', insert a e = (Ok (is_full a'), a') ∧ log_wf a' ∧ messages a' = messages a ++ [m] ∧
        (is_full a' = true ↔
         MAX_BATCH_ENTRIES ≤ zlen (messages a') ∨
         MAX_CONTENT_BYTES ≤ str_len (render_batch (messages a')))
  | None => ∃ err, insert a e = (Err err, a)
  end.
Proof.
  intros Hwf. pose proof (insert_log_wf a e Hwf) as Hwf'. pose proof (insert_messages a e) as Hm.
  unfold accepted_log in *. unfold insert in *.
  destruct (to_json e) as [m|err]; [|by eexists]. case_match; [by eexists|]. simpl in *.
  eexists. split; [reflexivity|]. split_and!; [done|done|].
  unfold is_full. simpl. rewrite render_len, join_len, orb_true_iff, !Z.leb_le.
  destruct Hwf' as [Hs _]. simpl in Hs. rewrite Hs, length_app. simpl.
  destruct (Z.eqb_spec (Z.of_nat (length (messages a) + 1)) 0); [lia|].
  replace (Z.max 0 (Z.of_nat (length (messages a) + 1) - 1)) with (Z.of_nat (length (messages a) + 1) - 1) by lia.
  intuition lia.
Qed.

(** ** The service *)

Definition reply_batches (r : Response) : list string := match r with Batches _ bs => bs end.

(** The accepted logs of the commands. *)
Definition command_logs (c : AggregatorCommand) : list string :=
  match c with InsertBatch es => omap accepted_log es | _ => [] end.

Lemma run_conserves cs a s rs :
  log_wf a → run handle a cs = Some (s, rs) →
  log_wf s ∧ ∃ bs, rs ≫= reply_batches = render_batch <$> bs ∧
    messages a ++ (cs ≫= command_logs) = concat bs ++ messages s.
Proof.
  revert a rs. induction cs as [|c cs IH]; intros a rs Hwf; cbn [run].
  - intros [= <- <-]. split; [done|]. exists []. simpl. by rewrite app_nil_r.
  - destruct c as [es|tx|]; cbn [handle]; [| |done].
    + destruct (insert_entries_spec a es Hwf) as [Hw Hm].
      destruct (run handle _ cs) as [[s' rs']|] eqn:Er; [|done]. intros [= <- <-].
      destruct (IH _ _ Hw Er) as (Hws & bs & Hb & Hc). split; [done|]. exists bs. split; [done|].
      rewrite <- Hc, Hm, <- app_assoc. done.
    + destruct (all_batches_spec (S (length (messages a))) a Hwf) as (bs0 & E & Hb0); [lia|].
      unfold get_all_batches. rewrite E.
      destruct (run handle aggregator_new cs) as [[s' rs']|] eqn:Er; [|done]. intros [= <- <-].
      destruct (IH _ _ log_wf_new Er) as (Hws & bs & Hb & Hc). split; [done|].
      exists (bs0 ++ bs). simpl in Hc |- *. split.
      * rewrite fmap_app. f_equal. exact Hb.
      * rewrite concat_app, <- app_assoc, <- Hc. f_equal. symmetry. by apply batches_of_concat.
Qed.

(** Under every interleaving of senders and service each accepted log is
    delivered exactly once and in order: the logs of the commands handled are those
    of the batches answered followed by those still buffered, and until the service
    stops the other commands wait in the queue. *)
Theorem log_service_conserves svc :
  rtc (step handle) (service_new aggregator_new) svc →
  ∃ done_ rest bs,
    sent svc = done_ ++ rest ∧ (stopped svc = false → queue svc = rest) ∧
    answered svc ≫= reply_batches = render_batch <$> bs ∧
    done_ ≫= command_logs = concat bs ++ messages (state svc).
Proof.
  intros Hr. destruct (reach_sequential handle aggregator_new svc Hr) as (d & r & Hs & Hrun & Hq & _).
  destruct (run_conserves d aggregator_new _ _ log_wf_new Hrun) as (_ & bs & Hb & Hc).
  exists d, r, bs. done.
Qed.

(** ** The HTTP intake *)

(** The intake answers 200 exactly to a POST on the intake path whose body is
    within the limit and is a JSON array of entries the service takes; only such a
    request with entries sends a command, and any other leaves the service alone. *)
Theorem handle_request_spec req svc :
  let '(resp, svc') := handle_request req svc in
  (resp_status resp = 200 ↔
   req_method req = "POST" ∧ req_path req = LOG_INTAKE_PATH ∧
   (∀ n, declared_size req = Some n → n ≤ MAX_BODY_BYTES) ∧
   ∃ bytes entries, req_body req = Ok bytes ∧ zlen bytes ≤ MAX_BODY_BYTES ∧
     from_json bytes = Ok entries ∧ (entries = [] ∨ stopped svc = false)) ∧
  (svc' = svc ∨
   ∃ bytes entries, resp_status resp = 200 ∧ req_body req = Ok bytes ∧
     from_json bytes = Ok entries ∧ entries ≠ [] ∧ insert_batch svc entries = Some svc') ∧
  (resp_status resp = 500 → stopped svc = true).
Proof.
  unfold handle_request.
  destruct (String.eqb_spec (req_method req) "POST") as [Hm|Hm]; simpl; [|naive_solver].
  destruct (String.eqb_spec (req_path req) LOG_INTAKE_PATH) as [Hp|Hp]; simpl; [|naive_solver].
  assert ((match declared_size req with Some n => MAX_BODY_BYTES <? n | None => false end) = false ↔
    ∀ n, declared_size req = Some n → n ≤ MAX_BODY_BYTES) as Hd.
  { destruct (declared_size req) as [n|]; [rewrite Z.ltb_ge|]; naive_solver. }
  destruct (match declared_size req with Some n => _ | None => _ end); simpl.
  { split_and!; [|by left|done]. split; [done|]. intros (_ & _ & Hn & _). by apply Hd in Hn. }
  destruct Hd as [Hd _]. specialize (Hd eq_refl).
  destruct (req_body req) as [bytes|]; simpl; [|naive_solver].
  destruct (Z.ltb_spec MAX_BODY_BYTES (zlen bytes)).
  { split_and!; [|by left|done]. split; [done|]. intros (_ & _ & _ & b & es & [= <-] & ? & _). lia. }
  destruct (from_json bytes) as [[|e es]|err] eqn:Ej.
  - split_and!; [|by left|done]. split; [|done]. intros _. split_and!; try done.
    exists bytes, []. auto.
  - unfold insert_batch, send. destruct (stopped svc) eqn:Es; simpl.
    + split_and!; [|by left|done]. split; [done|].
      intros (_ & _ & _ & b & es' & [= <-] & _ & Hj' & [He|He]); congruence.
    + split_and!; [|right; exists bytes, (e :: es); by split_and!|done].
      split; [|done]. intros _. split_and!; try done. exists bytes, (e :: es). auto.
  - split_and!; [|by left|done]. split; [done|].
    intros (_ & _ & _ & b & es' & [= <-] & _ & Hj' & _). congruence.
Qed.
End Facts.

(** * Witnesses: entries printed as their message. *)
Module LogsExamples.
#[local] Instance json : Json := {| json_map := unit; json_empty := tt |}.
#[local] Instance entries : JsonEntries :=
  {| to_json e := if is_empty (message e) then Err "empty" else Ok (message e);
     from_json l := match l with [] => Ok [] | _ => Ok [from_message (str_of l) 0] end |}.

Definition svc1 : Service Aggregator AggregatorCommand Response :=
  {| state := aggregator_new; queue := []; stopped := false;
     answered := [Batches 7 ["[a,b]"]];
     sent := [InsertBatch [from_message "a" 0; from_message "b" 0]; GetBatches 7] |}.

Lemma svc1_reachable_logs : rtc (step handle) (service_new aggregator_new) svc1.
Proof.
  eapply rtc_l; [by apply (step_send handle _ (InsertBatch [from_message "a" 0; from_message "b" 0]))|].
  eapply rtc_l; [by apply (step_send handle _ (GetBatches 7))|].
  eapply rtc_l; [by apply step_recv|]. eapply rtc_l; [by apply step_recv|]. apply rtc_refl.
Qed.

Lemma log_service_conserves_witness :
  ∃ done_ rest bs,
    sent svc1 = done_ ++ rest ∧ (stopped svc1 = false → queue svc1 = rest) ∧
    answered svc1 ≫= reply_batches = render_batch <$> bs ∧
    done_ ≫= command_logs = concat bs ++ messages (state svc1).
Proof. apply (log_service_conserves svc1). apply svc1_reachable_logs. Defined.

Lemma insert_full_witness :
  ∃ a', insert aggregator_new (from_message "a" 0) = (Ok (is_full a'), a') ∧ messages a' = ["a"].
Proof.
  destruct (insert_full aggregator_new (from_message "a" 0) log_wf_new) as (a' & E & _ & Hm & _).
  by exists a'.
Defined.
End LogsExamples.
