(* ===== verification/LogsFlusher.v ===== *)
(** Shipping logs: [datadog-logs-agent/src/flusher.rs], [config.rs] and
    [logs_additional_endpoint.rs].

    The sends of a flush run concurrently, so what the network answers is a
    parameter indexed by the send and its attempt: any function of them stands for
    one schedule.  Compression and the JSON of the endpoints are parameters too. *)
From Stdlib Require Import Ascii.
From S2P Require Import Prelude RStr.

Definition DEFAULT_SITE : string := "datadoghq.com".
Definition DEFAULT_FLUSH_TIMEOUT_SECS : Z := 5.
Definition DEFAULT_COMPRESSION_LEVEL : Z := 3.
Definition MAX_FLUSH_ATTEMPTS : Z := 3.

(** * Configuration *)

Inductive Destination :=
  | Datadog
  | ObservabilityPipelinesWorker (url : string).

Record LogsAdditionalEndpoint := {
  ep_api_key : string;
  ep_url : string;
  is_reliable : bool;
}.

(** The JSON form of an endpoint. *)
Record RawEndpoint := {
  raw_api_key : string;
  raw_host : string;
  raw_port : Z;
  raw_is_reliable : bool;
}.

Definition from_raw (r : RawEndpoint) : LogsAdditionalEndpoint :=
  {| ep_api_key := raw_api_key r;
     ep_url := "https://" +:+ raw_host r +:+ ":" +:+ show_Z (raw_port r) +:+ "/api/v2/logs";
     is_reliable := raw_is_reliable r |}.

Record LogFlusherConfig := {
  cfg_api_key : string;
  site : string;
  mode : Destination;
  additional_endpoints : list LogsAdditionalEndpoint;
  use_compression : bool;
  compression_level : Z;
  flush_timeout : Z;
}.

Section Config.
(** [serde_json::from_str::<Vec<RawEndpoint>>] *)
Context (endpoints_json : string → result (list RawEndpoint) string).

Definition parse_additional_endpoints (s : string) : list LogsAdditionalEndpoint :=
  match endpoints_json s with Ok raw => map from_raw raw | Err _ => [] end.

(** [var k] is the variable [k] when it is set to Unicode text. *)
Definition from_env (var : string → option string) : LogFlusherConfig :=
  let opw_enabled :=
    match var "DD_OBSERVABILITY_PIPELINES_WORKER_LOGS_ENABLED" with
    | Some v => String.eqb (to_lowercase v) "true"
    | None => false
    end in
  {| cfg_api_key := default "" (var "DD_API_KEY");
     site := default DEFAULT_SITE (var "DD_SITE");
     mode :=
       if opw_enabled then
         ObservabilityPipelinesWorker
           (default "" (var "DD_OBSERVABILITY_PIPELINES_WORKER_LOGS_URL"))
       else Datadog;
     additional_endpoints :=
       match var "DD_LOGS_CONFIG_ADDITIONAL_ENDPOINTS" with
       | Some v => parse_additional_endpoints v
       | None => []
       end;
     use_compression :=
       match var "DD_LOGS_CONFIG_USE_COMPRESSION" with
       | Some v => negb (String.eqb (to_lowercase v) "false")
       | None => true
       end;
     compression_level :=
       default DEFAULT_COMPRESSION_LEVEL
         (var "DD_LOGS_CONFIG_COMPRESSION_LEVEL" ≫= parse_int i32_min i32_max);
     flush_timeout :=
       default DEFAULT_FLUSH_TIMEOUT_SECS (var "DD_FLUSH_TIMEOUT" ≫= parse_uint u64_max) |}.
End Config.

(** * Requests *)

Record LogRequest := {
  lr_url : string;
  lr_timeout : Z;
  lr_headers : list (string * string);
  lr_body : string;
}.

Definition resolve_endpoint (config : LogFlusherConfig) : string * bool :=
  match mode config with
  | Datadog =>
      ("https://http-intake.logs." +:+ site config +:+ "/api/v2/logs", use_compression config)
  | ObservabilityPipelinesWorker url => (url, false)
  end.

(** The sends of a flush: a builder of the previous one, a batch to the primary
    destination, a batch to an additional endpoint. *)
Inductive Send :=
  | Redrive (i : nat)
  | Primary (batch : nat)
  | Additional (batch endpoint : nat).

(** What happened to a send: delivered, rejected for good, not cloneable, or failed
    on every attempt. *)
Inductive Fate := Delivered | Rejected | NotCloneable | Exhausted.

Definition is_success (status : Z) : bool := (200 <=? status) && (status <? 300).
Definition retryable_4xx (status : Z) : bool :=
  (status =? 408) || (status =? 425) || (status =? 429).
Definition is_permanent (status : Z) : bool :=
  (400 <=? status) && (status <? 500) && negb (retryable_4xx status).

Section Flusher.
Context (config : LogFlusherConfig).
(** Answer to the attempt [n] (from 1) of a send: a status or a network error. *)
Context (net : Send → Z → result Z unit) (cloneable : LogRequest → bool).
Context (compress_zstd : string → Z → result string string).

(** The loop of [send_with_retry]; the fate and the number of attempts made.  The
    builder is returned when the fate is [Exhausted]. *)
Fixpoint send_loop (fuel : nat) (id : Send) (builder : LogRequest) (attempts : Z)
    : option (Fate * Z) :=
  match fuel with
  | O => None
  | S fuel =>
      let attempts := attempts + 1 in
      if negb (cloneable builder) then Some (NotCloneable, attempts - 1) else
      let again :=
        if MAX_FLUSH_ATTEMPTS <=? attempts then Some (Exhausted, attempts)
        else send_loop fuel id builder attempts in
      match net id attempts with
      | Ok status =>
          if is_success status then Some (Delivered, attempts)
          else if is_permanent status then Some (Rejected, attempts)
          else again
      | Err _ => again
      end
  end.

Definition send_with_retry (id : Send) (builder : LogRequest) : option (Fate * Z) :=
  send_loop (Z.to_nat MAX_FLUSH_ATTEMPTS) id builder 0.

(** [Err(builder)] of [send_with_retry]. *)
Definition failed_builder (id : Send) (builder : LogRequest) : option LogRequest :=
  match send_with_retry id builder with
  | Some (Exhausted, _) => Some builder
  | _ => None
  end.

Definition batch_request (batch url : string) (compress : bool) (api_key : string)
    (is_datadog_intake : bool) : LogRequest :=
  let '(body, content_encoding) :=
    if compress then
      match compress_zstd batch (compression_level config) with
      | Ok compressed => (compressed, Some "zstd")
      | Err _ => (batch, None)
      end
    else (batch, None) in
  {| lr_url := url; lr_timeout := flush_timeout config;
     lr_headers :=
       [("DD-API-KEY", api_key); ("Content-Type", "application/json")]
       ++ (if is_datadog_intake then [("DD-PROTOCOL", "agent-json")] else [])
       ++ match content_encoding with Some enc => [("Content-Encoding", enc)] | None => [] end;
     lr_body := body |}.

Definition is_primary_datadog : bool :=
  match mode config with Datadog => true | ObservabilityPipelinesWorker _ => false end.

Definition primary_request (batch : string) : LogRequest :=
  let '(url, compress) := resolve_endpoint config in
  batch_request batch url compress (cfg_api_key config) is_primary_datadog.

Definition additional_request (batch : string) (e : LogsAdditionalEndpoint) : LogRequest :=
  batch_request batch (ep_url e) (use_compression config) (ep_api_key e) true.

(** The requests to the additional endpoints whose failure is logged. *)
Definition additional_failures (i : nat) (batch : string) : list LogRequest :=
  omap (λ e, failed_builder (Additional i e.1) (additional_request batch e.2))
    (imap pair (additional_endpoints config)).

(** [flush]: the builders to redrive next time, and those of the additional
    endpoints that failed, which are only logged. *)
Definition flush (retry_requests : list LogRequest) (batches : result (list string) string)
    : list LogRequest * list LogRequest :=
  let failed := omap (λ b, failed_builder (Redrive b.1) b.2) (imap pair retry_requests) in
  match batches with
  | Err _ => (failed, [])
  | Ok batches =>
      (failed ++ omap (λ b, failed_builder (Primary b.1) (primary_request b.2)) (imap pair batches),
       imap pair batches ≫= (λ b, additional_failures b.1 b.2))
  end.

(** * Facts *)

(** An answer after which another attempt is made. *)
Definition transient (r : result Z unit) : bool :=
  match r with Ok status => negb (is_success status) && negb (is_permanent status) | Err _ => true end.

(** The fate of a send whose first non transient answer is the one given. *)
Definition fate_of (r : result Z unit) : Fate :=
  match r with Ok status => if is_success status then Delivered else Rejected | Err _ => Exhausted end.

Lemma send_loop_fate fuel id b a :
  cloneable b = true → 0 < Z.of_nat fuel → Z.of_nat fuel = MAX_FLUSH_ATTEMPTS - a →
  (∃ k, a < k ≤ MAX_FLUSH_ATTEMPTS ∧ transient (net id k) = false ∧
     (∀ j, a < j < k → transient (net id j) = true) ∧
     send_loop fuel id b a = Some (fate_of (net id k), k)) ∨
  ((∀ j, a < j ≤ MAX_FLUSH_ATTEMPTS → transient (net id j) = true) ∧
     send_loop fuel id b a = Some (Exhausted, MAX_FLUSH_ATTEMPTS)).
Proof.
  intros Hc. revert a. induction fuel as [|fuel IH]; intros a Hpos Hf; [lia|]. cbn [send_loop].
  rewrite Hc. cbn [negb].
  destruct (transient (net id (a + 1))) eqn:Et.
  - assert (∀ X : option (Fate * Z),
      match net id (a + 1) with
      | Ok status => if is_success status then Some (Delivered, a + 1)
                     else if is_permanent status then Some (Rejected, a + 1) else X
      | Err _ => X end = X) as ->.
    { intros X. unfold transient in Et. destruct (net id (a + 1)) as [st|]; [|done].
      by destruct (is_success st), (is_permanent st). }
    destruct (Z.leb_spec MAX_FLUSH_ATTEMPTS (a + 1)).
    + right. assert (a + 1 = MAX_FLUSH_ATTEMPTS) as E by lia. rewrite E. split; [|done].
      intros j Hj. by replace j with (a + 1) by lia.
    + destruct (IH (a + 1)) as [(k & Hk & Hr & Hj & E)|[Hj E]]; [lia..| |].
      * left. exists k. split_and!; [lia|lia|done| |done].
        intros j Hjk. destruct (Z.eq_dec j (a + 1)) as [->|]; [done|]. apply Hj. lia.
      * right. split; [|done]. intros j Hjk.
        destruct (Z.eq_dec j (a + 1)) as [->|]; [done|]. apply Hj. lia.
  - left. exists (a + 1). split_and!; [lia|lia|done|intros; lia|].
    unfold transient, fate_of in *. destruct (net id (a + 1)) as [st|]; [|done].
    by destruct (is_success st), (is_permanent st).
Qed.

Definition all_transient (id : Send) : Prop :=
  ∀ j, 0 < j ≤ MAX_FLUSH_ATTEMPTS → transient (net id j) = true.

Lemma send_with_retry_fate id b :
  cloneable b = true →
  (∃ k, 0 < k ≤ MAX_FLUSH_ATTEMPTS ∧ transient (net id k) = false ∧
     (∀ j, 0 < j < k → transient (net id j) = true) ∧
     send_with_retry id b = Some (fate_of (net id k), k) ∧ failed_builder id b = None) ∨
  (all_transient id ∧
     send_with_retry id b = Some (Exhausted, MAX_FLUSH_ATTEMPTS) ∧ failed_builder id b = Some b).
Proof.
  intros Hc. unfold failed_builder, send_with_retry.
  destruct (send_loop_fate (Z.to_nat MAX_FLUSH_ATTEMPTS) id b 0 Hc) as [(k & Hk & Ht & Hj & E)|[Hj E]];
    [unfold MAX_FLUSH_ATTEMPTS; lia..| |]; rewrite E; [left|right].
  - exists k. split_and!; try done; try lia. unfold fate_of. unfold transient in Ht.
    destruct (net id k) as [st|]; [|done]. by destruct (is_success st).
  - done.
Qed.

Lemma failed_builder_iff id b b' :
  cloneable b = true → failed_builder id b = Some b' ↔ b' = b ∧ all_transient id.
Proof.
  intros Hc. destruct (send_with_retry_fate id b Hc) as [(k & Hk & Ht & _ & _ & ->)|(Hj & _ & ->)].
  - split; [done|]. intros [_ Hj]. rewrite (Hj k Hk) in Ht. done.
  - naive_solver.
Qed.

(** A log request is sent at most [MAX_FLUSH_ATTEMPTS] times, again exactly after
    a network error, a server error or one of the statuses 408, 425 and 429; the
    first other answer settles it, and it is given back only when every attempt
    was transient. *)
Theorem log_send_spec id b :
  cloneable b = true →
  (∃ k, 0 < k ≤ MAX_FLUSH_ATTEMPTS ∧ transient (net id k) = false ∧
     (∀ j, 0 < j < k → transient (net id j) = true) ∧
     send_with_retry id b = Some (fate_of (net id k), k) ∧ failed_builder id b = None) ∨
  (all_transient id ∧
     send_with_retry id b = Some (Exhausted, MAX_FLUSH_ATTEMPTS) ∧ failed_builder id b = Some b).
Proof. apply send_with_retry_fate. Qed.

(** The builders a flush gives back are exactly those redriven, and the primary
    requests of the new batches, whose attempts were all transient: a batch is
    never both settled and given back, failures of additional endpoints are not
    given back, and without batches the earlier builders are not forgotten. *)
Theorem log_flush_spec retry_requests batches failed logged :
  (∀ b, cloneable b = true) → flush retry_requests batches = (failed, logged) →
  (∀ b, b ∈ failed ↔
     (∃ i, retry_requests !! i = Some b ∧ all_transient (Redrive i)) ∨
     (∃ bs i batch, batches = Ok bs ∧ bs !! i = Some batch ∧ b = primary_request batch ∧
        all_transient (Primary i))) ∧
  (∀ b, b ∈ logged → ∃ bs i j batch e,
     batches = Ok bs ∧ bs !! i = Some batch ∧ additional_endpoints config !! j = Some e ∧
     b = additional_request batch e ∧ all_transient (Additional i j)).
Proof.
  intros Hc. unfold flush.
  assert (∀ b, b ∈ omap (λ b, failed_builder (Redrive b.1) b.2) (imap pair retry_requests) ↔
    ∃ i, retry_requests !! i = Some b ∧ all_transient (Redrive i)) as Hre.
  { intros b. rewrite list_elem_of_omap. split.
    - intros ([i b0] & Hin & Hf). apply elem_of_lookup_imap in Hin as (i' & b1 & [= <- <-] & Hi).
      apply failed_builder_iff in Hf as [-> Ht]; [|done]. by exists i.
    - intros (i & Hi & Ht). exists (i, b). split; [by apply elem_of_lookup_imap_2|].
      by apply failed_builder_iff. }
  destruct batches as [bs|e]; intros [= <- <-].
  - split.
    + intros b. rewrite elem_of_app, Hre. apply or_iff_compat_l. rewrite list_elem_of_omap. split.
      * intros ([i b0] & Hin & Hf). apply elem_of_lookup_imap in Hin as (i' & b1 & [= <- <-] & Hi).
        apply failed_builder_iff in Hf as [-> Ht]; [|done]. by exists bs, i, b0.
      * intros (bs' & i & batch & [= <-] & Hi & -> & Ht). exists (i, batch).
        split; [by apply elem_of_lookup_imap_2|]. by apply failed_builder_iff.
    + intros b ([i batch] & Hf & Hin)%list_elem_of_bind.
      apply elem_of_lookup_imap in Hin as (i' & b1 & [= <- <-] & Hi).
      unfold additional_failures in Hf. apply list_elem_of_omap in Hf as ([j e] & Hin & Hf).
      apply elem_of_lookup_imap in Hin as (j' & e1 & [= <- <-] & Hj).
      apply failed_builder_iff in Hf as [-> Ht]; [|done]. by exists bs, i, j, batch, e.
  - split; [|by intros b ?%elem_of_nil].
    intros b. rewrite Hre. split; [by left|]. intros [?|(? & ? & ? & ? & _)]; done.
Qed.
End Flusher.

(** * The sends of a flush, given back or settled *)

(** The primary requests of the batches drained. *)
Definition primary_sends (compress_zstd : string → Z → result string string) (config : LogFlusherConfig)
    (batches : result (list string) string) : list (Send * LogRequest) :=
  match batches with
  | Ok batches => imap (λ i b, (Primary i, primary_request config compress_zstd b)) batches
  | Err _ => []
  end.

Definition redriven (retry : list LogRequest) : list (Send * LogRequest) := imap (λ i b, (Redrive i, b)) retry.

Section Sends.
Context (cloneable : LogRequest → bool).

(** The requests that are not given back, with their fates. *)
Definition settled_sends (net : Send → Z → result Z unit) (sends : list (Send * LogRequest)) :
    list (LogRequest * Fate) :=
  omap (λ x, match send_with_retry net cloneable x.1 x.2 with
             | Some (Exhausted, _) | None => None
             | Some (fate, _) => Some (x.2, fate)
             end) sends.

Definition final (f : Fate) : Prop := f = Delivered ∨ f = Rejected.

Lemma redriven_snd retry : snd <$> redriven retry = retry.
Proof.
  unfold redriven. rewrite fmap_imap. apply list_eq. intros i. rewrite list_lookup_imap.
  by destruct (retry !! i).
Qed.

(** A flush tries the redriven and the primary requests, and gives the exhausted ones back. *)
Lemma flush_failed compress_zstd config net retry batches :
  (flush config net cloneable compress_zstd retry batches).1 =
    omap (λ x, failed_builder net cloneable x.1 x.2)
      (redriven retry ++ primary_sends compress_zstd config batches).
Proof.
  unfold flush, redriven, primary_sends. rewrite omap_app.
  assert (∀ l, omap (λ b, failed_builder net cloneable (Redrive b.1) b.2) (imap pair l) =
    omap (λ x, failed_builder net cloneable x.1 x.2) (imap (λ i b, (Redrive i, b)) l)) as Hr
    by (intros l; by apply omap_imap).
  destruct batches as [bs|e]; cbn [fst]; rewrite Hr; [f_equal; by apply omap_imap|by rewrite app_nil_r].
Qed.

Context (Hclone : ∀ b, cloneable b = true).

(** Every send is either given back or settled for good. *)
Lemma sends_partition net sends :
  snd <$> sends ≡ₚ omap (λ x, failed_builder net cloneable x.1 x.2) sends
                     ++ (settled_sends net sends).*1 ∧
  Forall (λ x, final x.2) (settled_sends net sends).
Proof.
  induction sends as [|[id b] sends [IHp IHf]]; [done|]. rewrite fmap_cons. unfold settled_sends in *.
  cbn [omap list_omap fst snd]. unfold failed_builder at 1.
  destruct (send_with_retry_fate net cloneable id b (Hclone b)) as [(k & _ & Ht & _ & E & _)|(_ & E & _)]; rewrite E.
  - assert (final (fate_of (net id k))) as Hf.
    { unfold transient in Ht. unfold fate_of, final.
      destruct (net id k) as [st|]; [|done]. destruct (is_success st); auto. }
    destruct (fate_of (net id k)) eqn:Ef; try (by destruct Hf); rewrite fmap_cons; cbn [fst]; split;
      try (by constructor); rewrite IHp at 1; by rewrite Permutation_middle.
  - split; [|done]. rewrite IHp at 1. done.
Qed.

(** When the first answer to every send is a success, all are delivered. *)
Lemma sends_delivered net sends :
  (∀ id, net id 1 = Ok 202) →
  omap (λ x, failed_builder net cloneable x.1 x.2) sends = [] ∧
  settled_sends net sends = (λ x, (x.2, Delivered)) <$> sends.
Proof.
  intros Hnet. unfold settled_sends, failed_builder.
  assert (∀ id b, send_with_retry net cloneable id b = Some (Delivered, 1)) as E.
  { intros id b. unfold send_with_retry. change (Z.to_nat MAX_FLUSH_ATTEMPTS) with 3%nat. cbn [send_loop].
    by rewrite Hclone, Hnet. }
  induction sends as [|x sends [IH1 IH2]]; [done|]. cbn [omap list_omap]. by rewrite E, IH1, IH2.
Qed.
End Sends.

(** An Observability Pipelines Worker receives uncompressed batches at its own
    URL, without the header of the Datadog intake, whatever the compression
    setting, which the additional endpoints still follow. *)
Theorem opw_uncompressed endpoints_json var compress batch e :
  var "DD_OBSERVABILITY_PIPELINES_WORKER_LOGS_ENABLED" = Some "TRUE" →
  let config := from_env endpoints_json var in
  let req := primary_request config compress batch in
  lr_body req = batch ∧ lr_url req = default "" (var "DD_OBSERVABILITY_PIPELINES_WORKER_LOGS_URL") ∧
  lr_headers req =
    [("DD-API-KEY", default "" (var "DD_API_KEY")); ("Content-Type", "application/json")] ∧
  (use_compression config = true →
   ∀ body, compress batch (compression_level config) = Ok body →
   lr_body (additional_request config compress batch e) = body).
Proof.
  intros Hopw. cbv zeta. unfold primary_request, additional_request, resolve_endpoint, is_primary_datadog.
  assert (mode (from_env endpoints_json var) =
    ObservabilityPipelinesWorker (default "" (var "DD_OBSERVABILITY_PIPELINES_WORKER_LOGS_URL"))) as ->
    by (unfold from_env; simpl; by rewrite Hopw).
  split_and!; [done..|]. intros Hu body Hb. unfold batch_request. by rewrite Hu, Hb.
Qed.

(** * Witnesses *)
Module LogsFlusherExamples.
Definition no_json (_ : string) : result (list RawEndpoint) string := Err "none".
Definition vars (k : string) : option string :=
  if String.eqb k "DD_OBSERVABILITY_PIPELINES_WORKER_LOGS_ENABLED" then Some "TRUE"
  else if String.eqb k "DD_OBSERVABILITY_PIPELINES_WORKER_LOGS_URL" then Some "http://opw"
  else None.
Definition config1 : LogFlusherConfig := from_env no_json (λ _, None).
(** Every attempt at the second batch times out; the rest is accepted. *)
Definition net1 (id : Send) (n : Z) : result Z unit :=
  match id with Primary 1 => Ok 429 | _ => Ok 202 end.
Definition zstd (s : string) (level : Z) : result string string := Ok ("z" +:+ s).

Lemma log_send_spec_witness :
  send_with_retry net1 (λ _, true) (Primary 1) (primary_request config1 zstd "b") = Some (Exhausted, 3).
Proof.
  destruct (log_send_spec net1 (λ _, true) (Primary 1) (primary_request config1 zstd "b"))
    as [(k & _ & Ht & _)|(_ & E & _)]; [done|done|exact E].
Defined.

Lemma log_flush_spec_witness :
  (flush config1 net1 (λ _, true) zstd [] (Ok ["a"; "b"])).1 = [primary_request config1 zstd "b"] ∧
  ∃ i, ["a"; "b"] !! i = Some "b" ∧ all_transient net1 (Primary i).
Proof.
  split; [vm_compute; reflexivity|].
  destruct (log_flush_spec config1 net1 (λ _, true) zstd [] (Ok ["a"; "b"])
    [primary_request config1 zstd "b"] []) as [H _]; [done|vm_compute; reflexivity|].
  destruct (proj1 (H (primary_request config1 zstd "b")) (list_elem_of_here _ _))
    as [(i & Hi & _)|(bs & i & batch & [= <-] & Hi & E & Ht)]; [done|].
  exists i. split; [|exact Ht].
  destruct i as [|[|i]]; [|done|done]. injection Hi as <-. discriminate E.
Defined.

Lemma opw_uncompressed_witness :
  lr_url (primary_request (from_env no_json vars) zstd "batch") = "http://opw".
Proof.
  apply (opw_uncompressed no_json vars zstd "batch"
    {| ep_api_key := "k"; ep_url := "u"; is_reliable := true |}). reflexivity.
Defined.
End LogsFlusherExamples.
