(* ===== verification/LogsPipeline.v ===== *)
(** The log agent as a whole: [datadog-logs-agent/src/server.rs] with its accept loop,
    the handle of [aggregator/service.rs], and [LogFlusher::flush] as the main loop of
    [datadog-serverless-compat/src/main.rs] calls it.

    The server, its connections, the task that owns the aggregator and the flusher run
    concurrently: a transition system whose steps are the accepts, the requests, the
    commands handled, and the two halves of a flush around its wait for the batches.
    It follows every log entry from the 200 of the intake to the request that settles it, or
    to where it is dropped. *)
From Stdlib Require Import Ascii.
From S2P Require Import Prelude RStr Actor LogsAggregator LogsFlusher.

Section LogsPipeline.
Context `{Hj : Json, !JsonEntries}.

#[local] Abbreviation AggregatorTask := (Service Aggregator AggregatorCommand Response).

(** * The state *)

Record LogServerConfig := { host : string; port : Z }.

Definition server_addr (config : LogServerConfig) : string := host config +:+ ":" +:+ show_Z (port config).

Inductive Listener := Returned | Accepting.

(** [LogServer::serve]: it returns when it cannot bind, and not otherwise. *)
Definition serve (bind : string → result unit string) (config : LogServerConfig) : Listener :=
  match bind (server_addr config) with Ok _ => Accepting | Err _ => Returned end.

(** The flusher between two flushes, with the builders to redrive, or waiting for the
    batches of the request [tx], with the builders that failed again. *)
Inductive FlusherPc :=
  | Idle (pending_log_retries : list LogRequest)
  | Waiting (tx : nat) (failed : list LogRequest).

(** [connections] are those being served, [next_tx] numbers the one-shot channels.  The
    ghosts are the entries of the requests answered 200, in the order of their commands,
    the batches handed to the flusher, and the requests settled with their fates. *)
Record Pipeline := {
  task : AggregatorTask;
  listener : Listener;
  connections : nat;
  next_tx : nat;
  flusher : FlusherPc;
  acknowledged : list IntakeEntry;
  received : list string;
  settled : list (LogRequest * Fate);
}.

Definition start (bind : string → result unit string) (server : LogServerConfig) : Pipeline :=
  {| task := aggregator_service_new; listener := serve bind server; connections := 0; next_tx := 0;
     flusher := Idle []; acknowledged := []; received := []; settled := [] |}.

Definition with_task (p : Pipeline) (svc : AggregatorTask) : Pipeline :=
  {| task := svc; listener := listener p; connections := connections p; next_tx := next_tx p;
     flusher := flusher p; acknowledged := acknowledged p; received := received p; settled := settled p |}.

Definition with_connections (p : Pipeline) (n : nat) : Pipeline :=
  {| task := task p; listener := listener p; connections := n; next_tx := next_tx p;
     flusher := flusher p; acknowledged := acknowledged p; received := received p; settled := settled p |}.

(** One turn of the accept loop: an error is logged, and the loop goes on. *)
Definition on_accept (p : Pipeline) (stream : result unit string) : Pipeline :=
  match stream with
  | Ok _ => with_connections p (S (connections p))
  | Err _ => p
  end.

(** Ghost: the entries of a request the intake takes. *)
Definition taken (req : Request) (resp : HttpResponse) : list IntakeEntry :=
  if resp_status resp =? 200 then
    match req_body req with
    | Ok bytes => match from_json bytes with Ok entries => entries | Err _ => [] end
    | Err _ => []
    end
  else [].

(** A connection serves a request. *)
Definition on_request (p : Pipeline) (req : Request) : Pipeline :=
  let '(resp, svc) := handle_request req (task p) in
  {| task := svc; listener := listener p; connections := connections p; next_tx := next_tx p;
     flusher := flusher p; acknowledged := acknowledged p ++ taken req resp;
     received := received p; settled := settled p |}.

Context (config : LogFlusherConfig) (cloneable : LogRequest → bool).
Context (compress_zstd : string → Z → result string string).

Definition given_back (net : Send → Z → result Z unit) (sends : list (Send * LogRequest)) :
    list LogRequest :=
  omap (λ x, failed_builder net cloneable x.1 x.2) sends.

(** [LogFlusher::flush] up to its wait: the pending builders are taken and redriven, then
    the batches are asked for.  Without a task the flush ends here. *)
Definition flush_begin (p : Pipeline) (pending : list LogRequest) (net : Send → Z → result Z unit) :
    Pipeline :=
  let failed := given_back net (redriven pending) in
  let settled := settled p ++ settled_sends cloneable net (redriven pending) in
  match get_batches_send (task p) (next_tx p) with
  | Some svc =>
      {| task := svc; listener := listener p; connections := connections p; next_tx := S (next_tx p);
         flusher := Waiting (next_tx p) failed; acknowledged := acknowledged p;
         received := received p; settled := settled |}
  | None =>
      {| task := task p; listener := listener p; connections := connections p; next_tx := next_tx p;
         flusher := Idle failed; acknowledged := acknowledged p;
         received := received p; settled := settled |}
  end.

(** The rest of [flush], with what the wait gives. *)
Definition flush_end (p : Pipeline) (failed : list LogRequest) (answer : result (list string) unit)
    (net : Send → Z → result Z unit) : Pipeline :=
  let batches := match answer with Ok bs => Ok bs | Err _ => Err "failed to retrieve log batches" end in
  let primaries := primary_sends compress_zstd config batches in
  {| task := task p; listener := listener p; connections := connections p; next_tx := next_tx p;
     flusher := Idle (failed ++ given_back net primaries); acknowledged := acknowledged p;
     received := received p ++ match answer with Ok bs => bs | Err _ => [] end;
     settled := settled p ++ settled_sends cloneable net primaries |}.

(** The steps that end work already begun: a command handled, a flush answered. *)
Inductive internal : Pipeline → Pipeline → Prop :=
  | task_step p svc : serves handle (task p) svc → internal p (with_task p svc)
  | flush_ends p tx failed answer net :
      flusher p = Waiting tx failed → get_batches_wait (task p) tx = Some answer →
      internal p (flush_end p failed answer net).

(** The clients, the timer of the main loop, and whoever shuts the task down. *)
Inductive external : Pipeline → Pipeline → Prop :=
  | accepts p stream : listener p = Accepting → external p (on_accept p stream)
  | requests p req : (0 < connections p)%nat → external p (on_request p req)
  | disconnects p n : connections p = S n → external p (with_connections p n)
  | flush_begins p pending net : flusher p = Idle pending → external p (flush_begin p pending net)
  | shuts_down p svc : shutdown (task p) = Some svc → external p (with_task p svc).

Definition step (p p' : Pipeline) : Prop := internal p p' ∨ external p p'.
End LogsPipeline.

(** * Facts *)
Section TaskFacts.
Context `{Hj : Json, !JsonEntries}.

(** The requests for batches of a command, and the request of an answer. *)
Definition command_txs (c : AggregatorCommand) : list nat :=
  match c with GetBatches tx => [tx] | _ => [] end.
Definition response_tx (r : Response) : nat := match r with Batches tx _ => tx end.

Lemma answer_to_other tx r : response_tx r ≠ tx → answer_to tx r = None.
Proof. destruct r as [tx' bs]. simpl. intros. by rewrite decide_False. Qed.

Lemma answers_other tx rs : Forall (λ r, (response_tx r < tx)%nat) rs → omap (answer_to tx) rs = [].
Proof.
  induction 1 as [|r rs Hr _ IH]; [done|]. cbn [omap list_omap].
  rewrite answer_to_other by lia. exact IH.
Qed.

(** Without a shutdown every command is handled. *)
Lemma run_total cs a : Shutdown ∉ cs → ∃ s rs, run handle a cs = Some (s, rs).
Proof.
  revert a. induction cs as [|c cs IH]; intros a Hc; [by exists a, []|]. cbn [run].
  apply not_elem_of_cons in Hc as [Hc Hcs].
  destruct c as [es|tx|]; [|destruct (get_all_batches a) as [bs a'] eqn:E|done]; cbn [handle]; rewrite ?E.
  - destruct (IH (insert_entries a es) Hcs) as (s & rs & ->). eauto.
  - destruct (IH a' Hcs) as (s & rs & ->). eauto.
Qed.
End TaskFacts.

Section PipelineFacts.
Context `{Hj : Json, !JsonEntries}.
Context (config : LogFlusherConfig) (cloneable : LogRequest → bool).
Context (compress_zstd : string → Z → result string string).
Context (Hclone : ∀ b, cloneable b = true).

#[local] Abbreviation internal := (internal config cloneable compress_zstd).
#[local] Abbreviation external := (external cloneable).
#[local] Abbreviation step := (step config cloneable compress_zstd).
#[local] Abbreviation primary := (primary_request config compress_zstd).

(** The two halves make the flush of the other file. *)
Lemma flush_halves net pending bs :
  given_back cloneable net (redriven pending)
    ++ given_back cloneable net (primary_sends compress_zstd config (Ok bs)) =
  (flush config net cloneable compress_zstd pending (Ok bs)).1.
Proof. rewrite flush_failed. unfold given_back. by rewrite omap_app. Qed.

(** The builders the flusher holds, and the batches on their way to it. *)
Definition in_hand (p : Pipeline) : list LogRequest :=
  match flusher p with Idle pending => pending | Waiting _ failed => failed end.

Definition in_flight (svc : Service Aggregator AggregatorCommand Response) (pc : FlusherPc) : list string :=
  match pc with
  | Waiting tx _ => match get_batches_wait svc tx with Some (Ok bs) => bs | _ => [] end
  | Idle _ => []
  end.

(** The one request that may be in the queue is that of the flusher, not answered yet. *)
Definition asked (svc : Service Aggregator AggregatorCommand Response) (next : nat) (pc : FlusherPc) : Prop :=
  match pc with
  | Idle _ => queue svc ≫= command_txs = []
  | Waiting tx _ =>
      (tx < next)%nat ∧
      ((omap (answer_to tx) (answered svc) = [] ∧ (stopped svc = true ∨ queue svc ≫= command_txs = [tx])) ∨
       (∃ bs, omap (answer_to tx) (answered svc) = [bs] ∧ queue svc ≫= command_txs = []))
  end.

Record pipeline_inv (p : Pipeline) : Prop := {
  inv_task : rtc (Actor.step handle) aggregator_service_new (task p);
  inv_acknowledged : sent (task p) ≫= command_logs = omap accepted_log (acknowledged p);
  inv_asked : asked (task p) (next_tx p) (flusher p);
  inv_answers : Forall (λ r, (response_tx r < next_tx p)%nat) (answered (task p));
  inv_received : answered (task p) ≫= reply_batches = received p ++ in_flight (task p) (flusher p);
  inv_settled : primary <$> received p ≡ₚ in_hand p ++ (settled p).*1;
  inv_final : Forall (λ x, final x.2) (settled p);
  inv_stopped : stopped (task p) = true → ∃ d r,
    sent (task p) = d ++ Shutdown :: r ∧
    run handle aggregator_new d = Some (state (task p), answered (task p));
  inv_listener : listener p = Returned → connections p = O ∧ acknowledged p = [];
}.

Lemma logs_start_inv bind server : pipeline_inv (start bind server).
Proof. by split. Qed.

Lemma stopped_queue svc :
  rtc (Actor.step handle) aggregator_service_new svc → stopped svc = true → queue svc = [].
Proof. intros Hr. destruct (reach_sequential _ _ _ Hr) as (? & ? & _ & _ & _ & ?). done. Qed.

Lemma in_flight_waiting svc tx failed :
  in_flight svc (Waiting tx failed) = default [] (head (omap (answer_to tx) (answered svc))).
Proof.
  unfold in_flight, get_batches_wait, response.
  destruct (omap _ _) as [|bs l]; [by destruct (stopped svc)|done].
Qed.

(** A task that handles a command and is stopped has handled its [Shutdown]. *)
Lemma recv_stopped svc svc' :
  rtc (Actor.step handle) aggregator_service_new svc → recv handle svc = Some svc' → stopped svc' = true →
  ∃ d r, sent svc' = d ++ Shutdown :: r ∧ run handle aggregator_new d = Some (state svc', answered svc').
Proof.
  intros Hreach. destruct (reach_sequential _ _ _ Hreach) as (d & r & Hs & Hrun & Hq & _).
  unfold recv. destruct (stopped svc); [done|]. rewrite <- (Hq eq_refl) in Hs.
  destruct (queue svc) as [|c q]; [done|]. exists d, q.
  destruct c as [es|tx|]; cbn [handle] in *;
    [|destruct (get_all_batches (state svc))|]; simplify_eq; done.
Qed.

(** The task answers the flusher once; the batches it drains are those in flight. *)
Lemma recv_asked svc svc' next pc :
  asked svc next pc → Forall (λ r, (response_tx r < next)%nat) (answered svc) →
  recv handle svc = Some svc' →
  asked svc' next pc ∧ Forall (λ r, (response_tx r < next)%nat) (answered svc') ∧
  ∀ received, answered svc ≫= reply_batches = received ++ in_flight svc pc →
    answered svc' ≫= reply_batches = received ++ in_flight svc' pc.
Proof.
  intros Ha Hr. unfold recv. destruct (stopped svc) eqn:Es; [done|].
  destruct (queue svc) as [|c q] eqn:Eq; [done|].
  destruct c as [es|tx|]; cbn [handle];
    [|destruct (get_all_batches (state svc)) as [bs a'] eqn:Eb|]; intros [= <-].
  - cbn [answered]. rewrite app_nil_r. split_and!; [|done|].
    + destruct pc as [pending|tx failed]; simpl in *; rewrite ?Eq in Ha; [done|].
      by rewrite Es in Ha.
    + intros received ->. destruct pc; [done|]. rewrite !in_flight_waiting. done.
  - destruct pc as [pending|tx' failed].
    { simpl in Ha. by rewrite Eq in Ha. }
    simpl in Ha. rewrite Eq in Ha. destruct Ha as (Hlt & [[Hno [?|Hq]]|(bs' & _ & Hq)]); [congruence| |done].
    cbn in Hq. injection Hq as -> Hq.
    assert (omap (answer_to tx') (answered svc ++ [Batches tx' bs]) = [bs]) as Hone.
    { rewrite omap_app, Hno. cbn. by rewrite decide_True. }
    split_and!.
    + simpl. split; [done|]. right. by exists bs.
    + simpl. apply Forall_app. split; [done|]. by repeat constructor.
    + intros received. rewrite !in_flight_waiting. cbn [answered]. rewrite Hone, Hno. cbn [head default].
      rewrite bind_app, app_nil_r. intros ->. cbn. by rewrite app_nil_r.
  - unfold stop. cbn [answered]. split_and!; [|done|].
    + destruct pc as [pending|tx failed]; simpl in *; [done|]. destruct Ha as (Hlt & [[Hno _]|(bs & Hone & _)]).
      * split; [done|]. left. auto.
      * split; [done|]. right. by exists bs.
    + intros received ->. destruct pc; [done|]. by rewrite !in_flight_waiting.
Qed.

Lemma logs_internal_inv p p' : pipeline_inv p → internal p p' → pipeline_inv p'.
Proof.
  intros [Ht Hk Ha Hw Hr Hs Hf Hx Hl] Hstep. destruct Hstep as [p svc Hrecv|p tx failed answer net Hpc Hans].
  - destruct (recv_asked _ _ _ _ Ha Hw Hrecv) as (Ha' & Hw' & Hr').
    split; simpl; try done; [|  |by apply Hr'|by eapply recv_stopped].
    + eapply rtc_r; [done|]. by apply step_recv.
    + by rewrite (recv_sent _ _ _ Hrecv).
  - unfold in_hand in Hs. rewrite Hpc in Ha, Hr, Hs. simpl in Ha, Hr. rewrite Hans in Hr.
    destruct (sends_partition cloneable Hclone net
      (primary_sends compress_zstd config (match answer with Ok bs => Ok bs | Err _ => Err "failed to retrieve log batches" end)))
      as [Hp Hpf].
    split; unfold flush_end; cbn [task listener connections next_tx flusher acknowledged received settled]; try done.
    + unfold get_batches_wait, response in Hans.
      destruct Ha as (_ & [[Hno Hq]|(bs & _ & Hq)]); [|done].
      rewrite Hno in Hans. destruct (stopped (task p)) eqn:Es; [|done].
      simpl. by rewrite (stopped_queue _ Ht Es).
    + by destruct answer; rewrite app_nil_r.
    + unfold in_hand. cbn [flusher]. rewrite fmap_app, Hs, fmap_app.
      assert (primary <$> match answer with Ok bs => bs | Err _ => [] end =
        snd <$> primary_sends compress_zstd config
          (match answer with Ok bs => Ok bs | Err _ => Err "failed to retrieve log batches" end)) as ->.
      { destruct answer as [bs|]; [|done]. simpl. rewrite fmap_imap. symmetry. apply list_eq. intros i.
        rewrite list_lookup_imap, list_lookup_fmap. by destruct (bs !! i). }
      rewrite Hp. unfold given_back. solve_Permutation.
    + by apply Forall_app.
Qed.

(** The intake sends the entries it takes, and nothing else. *)
Lemma handle_request_taken req svc :
  let '(resp, svc') := handle_request req svc in
  (taken req resp = [] ∧ svc' = svc) ∨
  (taken req resp ≠ [] ∧ insert_batch svc (taken req resp) = Some svc').
Proof.
  unfold handle_request, taken. repeat (case_match; try (by left)); simplify_eq; simpl; auto.
Qed.

(** A command that asks for no batches changes nothing for the flusher. *)
Lemma send_asked svc c svc' next pc :
  command_txs c = [] → send svc c = Some svc' → asked svc next pc →
  asked svc' next pc ∧ in_flight svc' pc = in_flight svc pc.
Proof.
  intros Hc (Hst & ->)%send_spec. destruct pc as [pending|tx failed]; simpl.
  - intros Ha. split; [|done]. by rewrite bind_app, Ha, bind_singleton.
  - intros (Hlt & Hq). split; [|unfold get_batches_wait, response; simpl; by rewrite Hst]. split; [done|].
    rewrite bind_app, bind_singleton, Hc, app_nil_r.
    rewrite Hst in Hq. destruct Hq as [[Hno [?|Hq]]|?]; auto; congruence.
Qed.

Lemma send_inv p c svc acks :
  pipeline_inv p → command_txs c = [] → send (task p) c = Some svc →
  command_logs c = omap accepted_log acks → (listener p = Returned → acks = []) →
  pipeline_inv {| task := svc; listener := listener p; connections := connections p; next_tx := next_tx p;
                  flusher := flusher p; acknowledged := acknowledged p ++ acks;
                  received := received p; settled := settled p |}.
Proof.
  intros [Ht Hk Ha Hw Hr Hs Hf Hx Hl] Hc Hsend Hlogs Hno.
  destruct (send_asked _ _ _ _ _ Hc Hsend Ha) as [Ha' Hi].
  destruct (send_spec _ _ _ Hsend) as [Hst E].
  split; cbn [task listener connections next_tx flusher acknowledged received settled]; try done.
  - eapply rtc_r; [done|]. by eapply step_send.
  - rewrite E. cbn [sent]. by rewrite bind_app, bind_singleton, Hk, Hlogs, omap_app.
  - by rewrite E.
  - rewrite Hi, <- Hr. by rewrite E.
  - by rewrite E.
  - intros Hret. destruct (Hl Hret) as [? ->]. by rewrite Hno.
Qed.

Lemma logs_external_inv p p' : pipeline_inv p → external p p' → pipeline_inv p'.
Proof.
  intros Hp Hstep. pose proof Hp as [Ht Hk Ha Hw Hr Hs Hf Hx Hl].
  destruct Hstep as [p stream Hacc|p req Hc|p n Hc|p pending net Hpc|p svc Hsd].
  - destruct stream; [|done]. split; try done. simpl. congruence.
  - pose proof (handle_request_taken req (task p)) as Hreq. unfold on_request.
    destruct (handle_request req (task p)) as [resp svc].
    assert (listener p = Returned → taken req resp = []) as Hno.
    { intros Hret. destruct (Hl Hret) as [Hc0 _]. lia. }
    destruct Hreq as [[-> ->]|[_ Hsend]].
    + rewrite app_nil_r. by destruct p.
    + by apply (send_inv p (InsertBatch (taken req resp)) svc).
  - split; try done. simpl. intros Hret. destruct (Hl Hret). split; [lia|done].
  - destruct (sends_partition cloneable Hclone net (redriven pending)) as [Hp' Hpf].
    rewrite redriven_snd in Hp'. unfold in_hand in Hs. rewrite Hpc in Ha, Hr, Hs. simpl in Ha, Hr.
    unfold flush_begin. destruct (get_batches_send (task p) (next_tx p)) as [svc|] eqn:Eg.
    + destruct (send_spec _ _ _ Eg) as [Hst E].
      assert (omap (answer_to (next_tx p)) (answered (task p)) = []) as Hno by (by apply answers_other).
      split; cbn [task listener connections next_tx flusher acknowledged received settled]; try done.
      * eapply rtc_r; [done|]. by eapply step_send.
      * rewrite E. cbn [sent]. rewrite bind_app, bind_singleton, Hk. simpl. by rewrite app_nil_r.
      * rewrite E. simpl. split; [lia|]. left. split; [done|]. right. by rewrite bind_app, Ha.
      * rewrite E. simpl. eapply Forall_impl; [done|]. simpl. lia.
      * rewrite in_flight_waiting, E. cbn [answered]. by rewrite Hno.
      * unfold in_hand. cbn [flusher]. rewrite Hs, fmap_app. rewrite Hp' at 1. unfold given_back.
        solve_Permutation.
      * by apply Forall_app.
      * by rewrite E.
    + split; cbn [task listener connections next_tx flusher acknowledged received settled]; try done.
      * unfold in_hand. cbn [flusher]. rewrite Hs, fmap_app. rewrite Hp' at 1. unfold given_back.
        solve_Permutation.
      * by apply Forall_app.
  - pose proof (send_inv p Shutdown svc [] Hp eq_refl Hsd eq_refl (λ _, eq_refl)) as Hi.
    rewrite app_nil_r in Hi. exact Hi.
Qed.

Lemma logs_reach_inv bind server p : rtc step (start bind server) p → pipeline_inv p.
Proof.
  intros Hr. remember (start bind server) as p0 eqn:E. assert (pipeline_inv p0) as Hi by (subst; apply logs_start_inv).
  clear E. induction Hr as [|x y z [Hxy|Hxy] _ IH]; [done|..]; apply IH.
  - by eapply logs_internal_inv.
  - by eapply logs_external_inv.
Qed.

Lemma step_listener p p' : step p p' → listener p' = listener p.
Proof.
  intros [[]|[? []| | | |]]; try done.
  - unfold on_request. by destruct (handle_request _ _).
  - unfold flush_begin. by destruct (get_batches_send _ _).
Qed.

Lemma reach_listener bind server p : rtc step (start bind server) p → listener p = serve bind server.
Proof.
  intros Hr. change (serve bind server) with (listener (start bind server)).
  induction Hr as [|x y z Hxy _ ->]; [done|]. by apply step_listener.
Qed.

(** The logs of the intake are in the batches, in the aggregator or in commands not handled:
    those queued, or those behind the shutdown that stopped the task. *)
Lemma inv_conserves p :
  pipeline_inv p →
  ∃ bs rest,
    omap accepted_log (acknowledged p) = concat bs ++ messages (state (task p)) ++ rest ∧
    (stopped (task p) = false → rest = queue (task p) ≫= command_logs) ∧
    (stopped (task p) = true → ∃ d r, sent (task p) = d ++ Shutdown :: r ∧ rest = r ≫= command_logs) ∧
    received p ++ in_flight (task p) (flusher p) = render_batch <$> bs.
Proof.
  intros [Ht Hk _ _ Hr _ _ Hx _].
  assert (∃ d r, sent (task p) = d ++ r ∧ run handle aggregator_new d = Some (state (task p), answered (task p)) ∧
    (stopped (task p) = false → queue (task p) = r) ∧
    (stopped (task p) = true → ∃ r', r = Shutdown :: r')) as (d & r & Hsent & Hrun & Hq & Hstop).
  { destruct (stopped (task p)) eqn:Es.
    - destruct (Hx eq_refl) as (d & r & E & Hrun). exists d, (Shutdown :: r). split_and!; [done..|eauto].
    - destruct (reach_sequential _ _ _ Ht) as (d & r & E & Hrun & Hq & _). exists d, r. split_and!; try done.
      intros _. by apply Hq. }
  destruct (run_conserves d aggregator_new _ _ log_wf_new Hrun) as (_ & bs & Hb & Hc).
  exists bs, (r ≫= command_logs). rewrite <- Hk, Hsent, bind_app, <- Hr, app_assoc. split_and!.
  - f_equal. exact Hc.
  - intros Hst. by rewrite (Hq Hst).
  - intros Hst. destruct (Hstop Hst) as [r' ->]. by exists d, r'.
  - exact Hb.
Qed.

(** C2: From the 200 of the intake to the end of a log entry, under every interleaving of the
    server, its connections, the task and the flushes.  An entry acknowledged whose JSON
    cannot be made or is longer than [MAX_LOG_BYTES] is dropped by the aggregator in spite
    of the 200.  All the others are, each exactly once and in the order acknowledged, in the
    batches given to the flusher or on their way to it, in the aggregator, or in commands
    not handled: while the task runs those of its queue, and once it is stopped those sent
    after the [Shutdown] that stopped it, which are lost with it as what its aggregator
    still held.  The request of every batch given to the flusher is held for the next flush
    or has been delivered or refused for good, exactly once.  A server that cannot bind
    acknowledges nothing. *)
Theorem logs_end_to_end bind server p :
  rtc step (start bind server) p →
  (∀ e, accepted_log e = None ↔
     (∃ err, to_json e = Err err) ∨ ∃ m, to_json e = Ok m ∧ MAX_LOG_BYTES < str_len m) ∧
  (∃ bs rest,
    omap accepted_log (acknowledged p) = concat bs ++ messages (state (task p)) ++ rest ∧
    (stopped (task p) = false → rest = queue (task p) ≫= command_logs) ∧
    (stopped (task p) = true → ∃ d r, sent (task p) = d ++ Shutdown :: r ∧ rest = r ≫= command_logs) ∧
    received p ++ in_flight (task p) (flusher p) = render_batch <$> bs) ∧
  primary <$> received p ≡ₚ in_hand p ++ (settled p).*1 ∧
  Forall (λ x, final x.2) (settled p) ∧
  (∀ e, bind (server_addr server) = Err e → acknowledged p = []).
Proof.
  intros Hr. pose proof (logs_reach_inv _ _ _ Hr) as Hp. split_and!.
  - apply accepted_log_none.
  - by apply inv_conserves.
  - apply Hp.
  - apply Hp.
  - intros e He. apply (inv_listener _ Hp). rewrite (reach_listener _ _ _ Hr). unfold serve. by rewrite He.
Qed.

(** ** Termination *)

(** The commands to handle, and the flush to end. *)
Definition work_left (p : Pipeline) : nat :=
  length (queue (task p)) + match flusher p with Waiting _ _ => 1 | Idle _ => 0 end.

Lemma internal_shrinks p p' : internal p p' → (work_left p' < work_left p)%nat.
Proof.
  unfold work_left. destruct 1 as [p svc Hrecv|p tx failed answer net Hpc Hans]; simpl.
  - pose proof (recv_shrinks _ _ _ Hrecv). lia.
  - rewrite Hpc. lia.
Qed.

(** With nothing left to do, the queue is empty and the flusher idle. *)
Lemma nothing_left p : pipeline_inv p → (∀ p', ¬ internal p p') →
  queue (task p) = [] ∧ ∃ pending, flusher p = Idle pending.
Proof.
  intros Hp Hno.
  assert (queue (task p) = []) as Hq.
  { destruct (recv handle (task p)) as [svc|] eqn:E; [by destruct (Hno _ (task_step _ _ _ p svc E))|].
    apply recv_none in E as [Hst|?]; [|done]. by apply (stopped_queue _ (inv_task _ Hp)). }
  split; [done|]. pose proof (inv_asked _ Hp) as Ha.
  destruct (flusher p) as [pending|tx failed] eqn:Epc; [by eexists|].
  destruct (get_batches_wait (task p) tx) as [answer|] eqn:Ew.
  { by destruct (Hno _ (flush_ends _ _ _ p tx failed answer (λ _ _, Ok 202) Epc Ew)). }
  unfold get_batches_wait, response in Ew. simpl in Ha. rewrite Hq in Ha.
  destruct Ha as (_ & [[Hn [Hst|?]]|(bs & Hb & _)]); [|done|].
  - by rewrite Hn, Hst in Ew.
  - by rewrite Hb in Ew.
Qed.

Lemma internal_acknowledged p p' : rtc internal p p' → acknowledged p' = acknowledged p.
Proof. induction 1 as [|x y z Hxy _ ->]; [done|]. by destruct Hxy. Qed.

(** C10: The work begun ends: from any reachable state the task and the flusher cannot take
    steps by themselves for ever, whatever the network answers; and when they stop, every
    command has been handled, no flush is waiting, and the entries acknowledged are those
    acknowledged before. *)
Theorem begun_work_ends bind server p :
  rtc step (start bind server) p →
  sn internal p ∧
  ∀ p', rtc internal p p' → (∀ p'', ¬ internal p' p'') →
    queue (task p') = [] ∧ (∃ pending, flusher p' = Idle pending) ∧ acknowledged p' = acknowledged p.
Proof.
  intros Hr. split; [apply (measure_sn _ work_left), internal_shrinks|].
  intros p' Hp' Hno. assert (pipeline_inv p') as Hi.
  { apply (logs_reach_inv bind server). etrans; [exact Hr|]. eapply rtc_subrel; [|exact Hp']. by left. }
  destruct (nothing_left _ Hi Hno). split_and!; [done..|]. by apply internal_acknowledged.
Qed.

(** ** Draining *)

(** A run that acknowledges nothing more and in which whatever is settled is delivered. *)
Definition delivers (p p' : Pipeline) : Prop :=
  rtc step p p' ∧ acknowledged p' = acknowledged p ∧
  ∃ done_, settled p' = settled p ++ ((λ b, (b, Delivered)) <$> done_).

Lemma delivers_refl p : delivers p p.
Proof. split_and!; [done|done|]. exists []. by rewrite app_nil_r. Qed.

Lemma delivers_trans p1 p2 p3 : delivers p1 p2 → delivers p2 p3 → delivers p1 p3.
Proof.
  intros (H1 & A1 & d1 & E1) (H2 & A2 & d2 & E2). split_and!; [by etrans|congruence|].
  exists (d1 ++ d2). by rewrite E2, E1, fmap_app, app_assoc.
Qed.

Lemma delivers_inv p p' : pipeline_inv p → delivers p p' → pipeline_inv p'.
Proof.
  intros Hp (Hr & _). induction Hr as [|x y z [Hxy|Hxy] _ IH]; [done|..]; apply IH.
  - by eapply logs_internal_inv.
  - by eapply logs_external_inv.
Qed.

Lemma serves_lift p svc : rtc (serves handle) (task p) svc → delivers p (with_task p svc).
Proof.
  intros Hr. split_and!; [|done|exists []; by rewrite app_nil_r].
  remember (task p) as svc0 eqn:E. revert p E.
  induction Hr as [svc|x y z Hxy _ IH]; intros p ->; [by destruct p|].
  eapply rtc_l; [left; by apply task_step|]. by apply (IH (with_task p y)).
Qed.

Definition accepting (_ : Send) (_ : Z) : result Z unit := Ok 202.

Lemma flush_end_delivers p tx failed bs :
  flusher p = Waiting tx failed → get_batches_wait (task p) tx = Some (Ok bs) →
  ∃ p', delivers p p' ∧ task p' = task p ∧ flusher p' = Idle failed.
Proof.
  intros Hpc Hans. exists (flush_end config cloneable compress_zstd p failed (Ok bs) accepting).
  destruct (sends_delivered cloneable Hclone accepting (primary_sends compress_zstd config (Ok bs)))
    as [Hg Hs]; [done|].
  split_and!; [|done|unfold flush_end, given_back; cbn [flusher]; by rewrite Hg, app_nil_r].
  split_and!; [|done|].
  - apply rtc_once. left. by eapply flush_ends.
  - exists (snd <$> primary_sends compress_zstd config (Ok bs)). unfold flush_end. cbn [settled].
    rewrite Hs. f_equal. by rewrite <- list_fmap_compose.
Qed.

(** A running task catches up, and the flush that waits for it ends. *)
Lemma catches_up p :
  pipeline_inv p → stopped (task p) = false → Shutdown ∉ queue (task p) →
  ∃ p' pending, delivers p p' ∧ stopped (task p') = false ∧ queue (task p') = [] ∧ flusher p' = Idle pending.
Proof.
  intros Hp Hst Hsd. destruct (run_total (queue (task p)) (state (task p)) Hsd) as (s & rs & Hrun).
  set (svc := {| state := s; queue := []; stopped := false; answered := answered (task p) ++ rs;
                 sent := sent (task p) |}).
  assert (delivers p (with_task p svc)) as Hd by (by apply serves_lift, drain).
  pose proof (delivers_inv _ _ Hp Hd) as Hp1. pose proof (inv_asked _ Hp1) as Ha.
  destruct (flusher p) as [pending|tx failed] eqn:Epc; [by exists (with_task p svc), pending|].
  unfold with_task in Ha at 2 3. cbn [next_tx flusher] in Ha. rewrite Epc in Ha. cbn in Ha.
  destruct Ha as (_ & [[_ [?|?]]|(bs & Hone & _)]); [done..|].
  destruct (flush_end_delivers (with_task p svc) tx failed bs) as (p2 & Hd2 & Ht & Hi); [done| |].
  - unfold get_batches_wait, response. simpl. by rewrite Hone.
  - exists p2, failed. rewrite Ht. split_and!; [by eapply delivers_trans|done..].
Qed.

(** One flush that the network accepts drains an idle pipeline. *)
Lemma logs_flush_drains p pending :
  pipeline_inv p → stopped (task p) = false → queue (task p) = [] → flusher p = Idle pending →
  ∃ p', delivers p p' ∧ flusher p' = Idle [] ∧ queue (task p') = [] ∧ messages (state (task p')) = [] ∧
    stopped (task p') = false.
Proof.
  intros Hp Hst Hq Hpc.
  destruct (sends_delivered cloneable Hclone accepting (redriven pending)) as [Hg Hs]; [done|].
  destruct (reach_sequential _ _ _ (inv_task _ Hp)) as (d & r & _ & Hrun & _).
  destruct (run_conserves d aggregator_new _ _ log_wf_new Hrun) as (Hwf & _).
  destruct (all_batches_spec (S (length (messages (state (task p))))) _ Hwf) as (bs & Hb & _); [lia|].
  set (svc1 := {| state := state (task p); queue := [GetBatches (next_tx p)]; stopped := false;
                  answered := answered (task p); sent := sent (task p) ++ [GetBatches (next_tx p)] |}).
  assert (get_batches_send (task p) (next_tx p) = Some svc1) as Hsend.
  { unfold get_batches_send, send. by rewrite Hst, Hq. }
  set (svc2 := {| state := aggregator_new; queue := []; stopped := false;
                  answered := answered (task p) ++ [Batches (next_tx p) (render_batch <$> bs)];
                  sent := sent (task p) ++ [GetBatches (next_tx p)] |}).
  set (p1 := flush_begin cloneable p pending accepting).
  assert (task p1 = svc1 ∧ flusher p1 = Waiting (next_tx p) []) as [Ht1 Hf1].
  { unfold p1, flush_begin. rewrite Hsend. split; [done|]. cbn [flusher]. unfold given_back. by rewrite Hg. }
  assert (delivers p p1) as Hd1.
  { split_and!; [|unfold p1, flush_begin; by rewrite Hsend|].
    - apply rtc_once. right. by apply flush_begins.
    - exists pending. unfold p1, flush_begin. rewrite Hsend. cbn [settled]. rewrite Hs. f_equal.
      unfold redriven. rewrite fmap_imap. apply list_eq. intros i.
      rewrite list_lookup_imap, list_lookup_fmap. by destruct (pending !! i). }
  assert (delivers p1 (with_task p1 svc2)) as Hd2.
  { apply serves_lift. rewrite Ht1. apply rtc_once. unfold serves, recv, svc1. cbn [stopped queue state handle].
    unfold get_all_batches. by rewrite Hb. }
  destruct (flush_end_delivers (with_task p1 svc2) (next_tx p) [] (render_batch <$> bs)) as (p3 & Hd3 & Ht3 & Hf3); [done| |].
  { unfold get_batches_wait, response. simpl. rewrite omap_app.
    rewrite (answers_other (next_tx p) (answered (task p)) (inv_answers _ Hp)). simpl. by rewrite decide_True. }
  exists p3. rewrite Ht3. split_and!; try done.
  eapply delivers_trans; [done|]. by eapply delivers_trans.
Qed.

End PipelineFacts.

(** * Witnesses: a request, a flush whose primary request times out, and one more request. *)
Module LogsPipelineExamples.
#[local] Existing Instances LogsExamples.json LogsExamples.entries.

Definition config1 : LogFlusherConfig := LogsFlusherExamples.config1.
Definition no_zstd (s : string) (_ : Z) : result string string := Ok s.
Definition clone (_ : LogRequest) : bool := true.
Definition post (text : string) : Request :=
  {| req_method := "POST"; req_path := LOG_INTAKE_PATH; content_length := None;
     req_body := Ok (bytes_of text) |}.
Definition unreachable (_ : Send) (_ : Z) : result Z unit := Err tt.

(** The task handles one command. *)
Definition serve_one (p : Pipeline) : Pipeline :=
  match recv handle (task p) with Some svc => with_task p svc | None => p end.
Definition end_flush (p : Pipeline) : Pipeline :=
  match flusher p with
  | Waiting tx failed =>
      match get_batches_wait (task p) tx with
      | Some answer => flush_end config1 clone no_zstd p failed answer unreachable
      | None => p
      end
  | Idle _ => p
  end.

Definition server : LogServerConfig := {| host := "0.0.0.0"; port := 10517 |}.
Definition bind (addr : string) : result unit string :=
  if decide (addr = "0.0.0.0:10517") then Ok tt else Err "in use".
Definition p0 : Pipeline := start bind server.
Definition p1 : Pipeline := on_request (on_accept p0 (Ok tt)) (post "a").
Definition p2 : Pipeline := serve_one (serve_one (flush_begin clone p1 [] accepting)).
Definition p3 : Pipeline := end_flush p2.
Definition p4 : Pipeline := on_request p3 (post "b").

#[local] Abbreviation run := (rtc (step config1 clone no_zstd)).

Lemma serve_one_run p : run p (serve_one p).
Proof.
  unfold serve_one. destruct (recv handle (task p)) as [svc|] eqn:E; [|apply rtc_refl].
  apply rtc_once. left. by apply task_step.
Qed.
Lemma end_flush_run p : run p (end_flush p).
Proof.
  unfold end_flush. destruct (flusher p) as [|tx failed] eqn:Ef; [apply rtc_refl|].
  destruct (get_batches_wait (task p) tx) eqn:Ew; [|apply rtc_refl].
  apply rtc_once. left. by eapply flush_ends.
Qed.

Lemma p4_reachable : run p0 p4.
Proof.
  eapply rtc_l; [right; by apply (accepts clone p0 (Ok tt))|].
  eapply rtc_l; [right; apply (requests clone (on_accept p0 (Ok tt)) (post "a")); simpl; lia|].
  eapply rtc_l; [right; by apply (flush_begins clone p1 [] accepting)|].
  etrans; [apply serve_one_run|]. etrans; [apply serve_one_run|]. etrans; [apply (end_flush_run p2)|].
  apply rtc_once. right. apply (requests clone p3 (post "b")). vm_compute. lia.
Qed.

(** The first entry is held as a request, the second in the queue. *)
Example held_and_queued :
  lr_body <$> in_hand p4 = ["[a]"] ∧ queue (task p4) ≫= command_logs = ["b"] ∧ settled p4 = [].
Proof. vm_compute. split_and!; reflexivity. Qed.

Lemma logs_end_to_end_witness :
  primary_request config1 no_zstd <$> received p4 ≡ₚ in_hand p4 ++ (settled p4).*1 ∧
  ∃ bs rest, ["a"; "b"] = concat bs ++ messages (state (task p4)) ++ rest.
Proof.
  destruct (logs_end_to_end config1 clone no_zstd (λ _, eq_refl) bind server p4 p4_reachable)
    as (_ & (bs & rest & Hc & _) & Hp & _).
  split; [exact Hp|]. exists bs, rest. rewrite <- Hc. vm_compute. reflexivity.
Defined.

Lemma begun_work_ends_witness : sn (internal config1 clone no_zstd) p4.
Proof. apply (begun_work_ends config1 clone no_zstd (λ _, eq_refl) bind server p4 p4_reachable). Defined.

End LogsPipelineExamples.
