(* ===== verification/TraceAggregator.v ===== *)
(** Batching of traces: [datadog-trace-agent/src/aggregator.rs] and the flush loop of
    [trace_flusher.rs].

    [SendData] is a type of libdatadog; only its size, [len], matters here. *)
From S2P Require Import Prelude.

Definition MAX_CONTENT_SIZE_BYTES : Z := (32 * 1024 * 1024) / 10.

Section TraceAggregator.
Context {SendData : Type} (len : SendData → Z).

Record TraceAggregator := {
  queue : list SendData;
  max_content_size_bytes : Z;
  buffer : list SendData;
}.

Definition trace_aggregator_new (max : Z) : TraceAggregator :=
  {| queue := []; max_content_size_bytes := max; buffer := [] |}.
Definition trace_aggregator_default : TraceAggregator :=
  trace_aggregator_new MAX_CONTENT_SIZE_BYTES.

Definition add (self : TraceAggregator) (p : SendData) : TraceAggregator :=
  {| queue := queue self ++ [p]; max_content_size_bytes := max_content_size_bytes self;
     buffer := buffer self |}.

(** The loop of [get_batch]: the buffer and what is left of the queue. *)
Fixpoint fill (max batch_size : Z) (buffer queue : list SendData)
    : list SendData * list SendData :=
  match queue with
  | [] => (buffer, [])
  | payload :: queue' =>
      if batch_size <? max then
        let payload_size := len payload in
        if max <? batch_size + payload_size then
          match buffer with
          | [] => ([payload], queue')
          | _ => (buffer, queue)
          end
        else fill max (batch_size + payload_size) (buffer ++ [payload]) queue'
      else (buffer, queue)
  end.

Definition get_batch (self : TraceAggregator) : list SendData * TraceAggregator :=
  let '(batch, rest) := fill (max_content_size_bytes self) 0 (buffer self) (queue self) in
  (batch, {| queue := rest; max_content_size_bytes := max_content_size_bytes self; buffer := [] |}).

(** The loop of [flush]: batches are sent until one is empty; [None] when out of fuel. *)
Fixpoint flush (fuel : nat) (self : TraceAggregator) : option (list (list SendData) * TraceAggregator) :=
  match fuel with
  | O => None
  | S fuel =>
      match get_batch self with
      | ([], self) => Some ([], self)
      | (batch, self) =>
          match flush fuel self with
          | Some (batches, self) => Some (batch :: batches, self)
          | None => None
          end
      end
  end.

(** * Facts *)

Definition batch_size (l : list SendData) : Z := sum_size len l.

(** A batch that may be sent while [rest] is left: within the limit or a single
    payload, and closed because the next payload does not fit. *)
Definition trace_batch_ok (max : Z) (batch rest : list SendData) : Prop :=
  batch ≠ [] ∧ (batch_size batch ≤ max ∨ length batch = 1%nat) ∧
  match rest with
  | [] => True
  | p :: _ => max ≤ batch_size batch ∨ max < batch_size batch + len p
  end.

Lemma fill_spec max buf q :
  0 < max → batch_size buf ≤ max →
  ∃ taken rest, fill max (batch_size buf) buf q = (buf ++ taken, rest) ∧ q = taken ++ rest ∧
    (buf ++ taken ≠ [] → trace_batch_ok max (buf ++ taken) rest) ∧ (buf ++ taken = [] → q = []).
Proof.
  intros Hmax. revert buf. induction q as [|p q IH]; intros buf Hb; cbn [fill].
  - exists [], []. rewrite app_nil_r. split_and!; try done. intros Hne. split_and!; [done|by left|done].
  - destruct (Z.ltb_spec (batch_size buf) max) as [Hlt|Hge].
    + destruct (Z.ltb_spec max (batch_size buf + len p)) as [Hbig|Hfit].
      * destruct buf as [|b buf].
        -- exists [p], q. simpl in *. split_and!; try done. intros _. split_and!; [done|by right|].
           destruct q; [done|]. left. unfold batch_size in *. simpl in *. lia.
        -- exists [], (p :: q). rewrite app_nil_r. split_and!; try done.
           intros _. split_and!; [done|by left|by right].
      * destruct (IH (buf ++ [p])) as (taken & rest & E & -> & Hok & He).
        { unfold batch_size. rewrite sum_size_app. simpl. unfold batch_size in Hfit. lia. }
        exists (p :: taken), rest. unfold batch_size in E. rewrite sum_size_app in E. simpl in E.
        replace (len p + 0) with (len p) in E by lia.
        rewrite <- app_assoc in E, Hok, He. split_and!; [exact E|done|exact Hok|].
        intros Hnil. by apply app_nil in Hnil as [_ ?].
    + exists [], (p :: q). rewrite app_nil_r. split_and!; [done|done| |].
      * intros Hne. split_and!; [done|by left|by left].
      * intros ->. unfold batch_size in Hge. simpl in Hge. lia.
Qed.

(** Payloads queued into the batches of a flush, in order. *)
Inductive trace_batches (max : Z) : list SendData → list (list SendData) → Prop :=
  | trace_batches_nil : trace_batches max [] []
  | trace_batches_cons batch rest bs :
      trace_batch_ok max batch rest → trace_batches max rest bs →
      trace_batches max (batch ++ rest) (batch :: bs).

Lemma flush_batches fuel self :
  0 < max_content_size_bytes self → buffer self = [] → (length (queue self) < fuel)%nat →
  ∃ bs, flush fuel self = Some (bs, trace_aggregator_new (max_content_size_bytes self)) ∧
    trace_batches (max_content_size_bytes self) (queue self) bs ∧ concat bs = queue self.
Proof.
  revert self. induction fuel as [|fuel IH]; intros [q max buf] Hmax Hbuf Hf; [lia|].
  simpl in *. subst buf. cbn [flush]. unfold get_batch. cbn [queue buffer max_content_size_bytes].
  destruct (fill_spec max [] q Hmax) as (taken & rest & E & -> & Hok & He); [unfold batch_size; simpl; lia|].
  change (batch_size []) with 0 in E. rewrite E. simpl in *.
  destruct taken as [|p taken].
  - specialize (He eq_refl). simpl in He. subst rest. exists []. split_and!; [done|constructor|done].
  - destruct (IH {| queue := rest; max_content_size_bytes := max; buffer := [] |}) as (bs & Ef & Hbs & Hc);
      [done|done|simpl in *; rewrite length_app in Hf; lia|].
    simpl in *. rewrite Ef. exists ((p :: taken) :: bs). split_and!; [done| |simpl; by rewrite Hc].
    apply (trace_batches_cons max (p :: taken) rest); [by apply Hok|done].
Qed.

(** A flush ends and drains the aggregator: every queued payload is sent exactly
    once and in order, in batches that are within the limit or made of one oversized
    payload, each closed only because the next payload did not fit. *)
Theorem flush_drains payloads :
  let self := fold_left add payloads trace_aggregator_default in
  ∃ bs, flush (S (length payloads)) self = Some (bs, trace_aggregator_default) ∧
    trace_batches MAX_CONTENT_SIZE_BYTES payloads bs ∧ concat bs = payloads.
Proof.
  cbv zeta.
  assert (∀ l self, fold_left add l self =
    {| queue := queue self ++ l; max_content_size_bytes := max_content_size_bytes self;
       buffer := buffer self |}) as Hadd.
  { intros l. induction l as [|p l IH]; intros [q m b]; simpl; [by rewrite app_nil_r|].
    rewrite IH. simpl. by rewrite <- app_assoc. }
  rewrite Hadd. simpl.
  apply (flush_batches (S (length payloads))
    {| queue := payloads; max_content_size_bytes := MAX_CONTENT_SIZE_BYTES; buffer := [] |});
    simpl; done || lia.
Qed.
End TraceAggregator.


Example flush_two : flush id 3 (fold_left add [3000000; 1000000] trace_aggregator_default) =
  Some ([[3000000]; [1000000]], trace_aggregator_default).
Proof. reflexivity. Qed.
