(* ===== verification/TraceProcessor.v ===== *)
(** Processing of trace requests: [datadog-trace-agent/src/trace_processor.rs], the
    request checks of [http_utils.rs] and [resolve_payload_env] of [config.rs].

    The protobuf types and the functions of libdatadog are parameters: a record
    below has the fields the agent reads or writes and an abstract rest, [TraceUtils]
    the functions it calls. *)
From Stdlib Require Import Ascii SpecFloat.
From S2P Require Import Prelude RStr Float Signature ScoreSampler TraceAggregator.

Class PbTypes := {
  span_rest : Type;
  chunk_rest : Type;
  payload_rest : Type;
  other_payloads : Type;
  raw_traces : Type;
}.

Section Types.
Context `{PbTypes}.

Record Span := {
  sp_service : string;
  sp_name : string;
  sp_resource : string;
  sp_trace_id : Z;
  sp_error : Z;
  sp_meta : gmap string string;
  sp_metrics : gmap string f64;
  sp_rest : span_rest;
}.

Record TraceChunk := {
  priority : Z;
  chunk_tags : gmap string string;
  chunk_spans : list Span;
  ch_rest : chunk_rest;
}.

Record TracerPayload := {
  chunks : list TraceChunk;
  payload_tags : gmap string string;
  payload_env : string;
  language_name : string;
  tracer_version : string;
  app_version : string;
  container_id : string;
  pl_rest : payload_rest;
}.

Inductive TracerPayloadCollection :=
  | V07 (payloads : list TracerPayload)
  | OtherVersion (payloads : other_payloads).

(** The fields of [TracerMetadata] the agent sets from a payload. *)
Record TracerMetadata := {
  tracer_language : string;
  md_tracer_version : string;
  service_name : option string;
  service_env : option string;
  service_version : option string;
  md_container_id : option string;
}.

Record SendData := { sd_size : Z; sd_payload : TracerPayloadCollection }.
End Types.

Definition TRACER_PAYLOAD_FUNCTION_TAGS_TAG_KEY : string := "_dd.tags.function".
Definition ERRORS_SR_METRIC_KEY : string := "_dd.errors_sr".
Definition DECISION_MAKER_KEY : string := "_dd.p.dm".
Definition MANUAL_DECISION_MAKER : string := "-4".
Definition V07_ENVELOPE_OVERHEAD_BYTES : Z := 64.

Class TraceUtils `{PbTypes} := {
  encoded_len : TracerPayload → Z;
  get_root_span_index : list Span → option nat;
  set_serverless_root_span_tags : Span → Span;
  enrich_with_mini_agent : Span → Span;
  enrich_with_azure_function : Span → Span;
  enrich_with_google_function : Span → Span;
  obfuscate : Span → Span;
  (** Given the processor of the chunks; [None] is a panic of the processor. *)
  collect_pb_trace_chunks :
    raw_traces → (TraceChunk → nat → option TraceChunk) →
    option (result TracerPayloadCollection string);
}.

(** * Request checks *)

Inductive HttpBody := Message (text : string) | RateByService (logged : string).

Record HttpResponse := { status : Z; body : HttpBody }.

#[export] Instance HttpBody_eq_dec : EqDecision HttpBody.
Proof. solve_decision. Defined.
#[export] Instance HttpResponse_eq_dec : EqDecision HttpResponse.
Proof. solve_decision. Defined.

(** The answer to a request that got no permit: a success, although its traces are
    dropped. *)
Definition shed_reply : HttpResponse :=
  {| status := 200; body := RateByService "Dropped traces due to enqueue capacity" |}.

(** The headers looked at: [Content-Length], present, and a string when it is valid
    text, and whether [Transfer-Encoding] is present. *)
Record Headers := {
  content_length : option (option string);
  transfer_encoding : bool;
}.

Definition verify_request_content_length (headers : Headers) (max_content_length : Z)
    (error_message_prefix : string) : option HttpResponse :=
  let fail code text := Some {| status := code; body := Message (error_message_prefix +:+ ": " +:+ text) |} in
  match content_length headers with
  | None =>
      if transfer_encoding headers then None
      else fail 411 "Missing Content-Length and Transfer-Encoding header"
  | Some None => fail 400 "Invalid Content-Length header"
  | Some (Some text) =>
      match parse_uint usize_max text with
      | None => fail 400 "Invalid Content-Length header"
      | Some content_length =>
          if max_content_length <? content_length then fail 413 "Payload too large" else None
      end
  end.

Definition resolve_payload_env (payload_env config_env : string) : string :=
  if is_empty payload_env then config_env else payload_env.

Section Processor.
Context `{Hpb : PbTypes, !TraceUtils, !MapOrder}.

(** * Splitting *)

Definition with_chunks (tp : TracerPayload) (cs : list TraceChunk) : TracerPayload :=
  {| chunks := cs; payload_tags := payload_tags tp; payload_env := payload_env tp;
     language_name := language_name tp; tracer_version := tracer_version tp;
     app_version := app_version tp; container_id := container_id tp; pl_rest := pl_rest tp |}.

(** [split_tracer_payload] with fuel; [split_unfold] is its recursive equation. *)
Fixpoint split_fuel (fuel : nat) (max_size : Z) (tp : TracerPayload) : list TracerPayload :=
  if encoded_len tp <=? max_size then [tp] else
  if (1 <? length (chunks tp))%nat then
    match fuel with
    | O => []
    | S fuel =>
        let mid := (length (chunks tp) / 2)%nat in
        split_fuel fuel max_size (with_chunks tp (take mid (chunks tp)))
        ++ split_fuel fuel max_size (with_chunks tp (drop mid (chunks tp)))
    end
  else [tp].

Definition split_tracer_payload (tp : TracerPayload) (max_size : Z) : list TracerPayload :=
  split_fuel (length (chunks tp)) max_size tp.

Definition split_oversized_payloads (payloads : list TracerPayload) (max_size : Z)
    : list TracerPayload :=
  payloads ≫= λ tp, split_tracer_payload tp max_size.

Definition encoded_size (payloads : list TracerPayload) : Z := sum_size encoded_len payloads.

(** * Chunks *)

Definition promote_decision_maker (chunk : TraceChunk) : TraceChunk :=
  match chunk_tags chunk !! DECISION_MAKER_KEY with
  | Some _ => chunk
  | None =>
      match head (omap (λ s, sp_meta s !! DECISION_MAKER_KEY) (chunk_spans chunk)) with
      | None => chunk
      | Some value =>
          {| priority := priority chunk;
             chunk_tags := <[DECISION_MAKER_KEY := value]> (chunk_tags chunk);
             chunk_spans := chunk_spans chunk; ch_rest := ch_rest chunk |}
      end
  end.

Definition with_spans (chunk : TraceChunk) (ss : list Span) : TraceChunk :=
  {| priority := priority chunk; chunk_tags := chunk_tags chunk; chunk_spans := ss;
     ch_rest := ch_rest chunk |}.

(** [ChunkProcessor::process]: [None] is the panic when the index is out of range. *)
Definition process_chunk (cloud_function : bool) (chunk : TraceChunk) (root_span_index : nat)
    : option TraceChunk :=
  let chunk := promote_decision_maker chunk in
  if (length (chunk_spans chunk) <=? root_span_index)%nat then None else
  let ss := alter set_serverless_root_span_tags root_span_index (chunk_spans chunk) in
  Some (with_spans chunk
    (map (λ span,
            let span := enrich_with_azure_function (enrich_with_mini_agent span) in
            let span := if cloud_function then enrich_with_google_function span else span in
            obfuscate span) ss)).

(** * Error rescue *)

Record ErrorRescueState := {
  sampler : ErrorsSampler;
  last_sampler_timestamp : Z;
}.

Definition rescue_new (config : ErrorSamplerConfig) : ErrorRescueState :=
  {| sampler := errors_sampler_new config; last_sampler_timestamp := i64_min |}.

Definition clamp_timestamp (self : ErrorRescueState) (now_unix_secs : Z) : Z * ErrorRescueState :=
  let t := Z.max (last_sampler_timestamp self) now_unix_secs in
  (t, {| sampler := sampler self; last_sampler_timestamp := t |}).

Definition span_view (span : Span) : SpanView :=
  {| service := sp_service span; name := sp_name span; resource := sp_resource span;
     error := negb (sp_error span =? 0);
     http_status_code := sp_meta span !! "http.status_code";
     error_type := sp_meta span !! "error.type" |}.

Definition rescue_eligible (chunk : TraceChunk) (tracer_drop_enabled : bool) : bool :=
  if priority chunk =? 0 then true
  else if priority chunk =? -128 then false
  else if priority chunk =? -1 then
    tracer_drop_enabled &&
    negb (bool_decide (chunk_tags chunk !! DECISION_MAKER_KEY = Some MANUAL_DECISION_MAKER))
  else tracer_drop_enabled && (priority chunk <? 0).

Definition rescue_root_index (chunk : TraceChunk) (tracer_drop_enabled : bool) : option nat :=
  if negb (rescue_eligible chunk tracer_drop_enabled) then None
  else if negb (existsb (λ span, negb (sp_error span =? 0)) (chunk_spans chunk)) then None
  else get_root_span_index (chunk_spans chunk).

Record Candidate := {
  c_payload : nat;
  c_chunk : nat;
  c_env : string;
  c_root : nat;
  c_views : list SpanView;
}.

Definition chunk_candidate (tracer_drop : bool) (env : string) (pi ci : nat) (chunk : TraceChunk)
    : option Candidate :=
  match rescue_root_index chunk tracer_drop with
  | Some root =>
      Some {| c_payload := pi; c_chunk := ci; c_env := env; c_root := root;
              c_views := map span_view (chunk_spans chunk) |}
  | None => None
  end.

Definition candidates (tracer_drop : bool) (config_env : string) (payloads : list TracerPayload)
    : list Candidate :=
  imap pair payloads ≫= λ p,
    omap (λ c, chunk_candidate tracer_drop (resolve_payload_env (payload_env p.2) config_env) p.1 c.1 c.2)
      (imap pair (chunks p.2)).

(** The chunk at a position. *)
Definition chunk_at (payloads : list TracerPayload) (pos : nat * nat) : option TraceChunk :=
  payloads !! pos.1 ≫= λ p, chunks p !! pos.2.

Definition position (c : Candidate) : nat * nat := (c_payload c, c_chunk c).

(** The view of a candidate given to the sampler; [None] is the panic of an index out
    of range. *)
Definition candidate_trace (payloads : list TracerPayload) (c : Candidate) : option TraceView :=
  match chunk_at payloads (position c) ≫= λ ch, chunk_spans ch !! c_root c with
  | None => None
  | Some root =>
      Some {| env := c_env c; trace_id := sp_trace_id root; root_index := c_root c;
              root_global_sample_rate := default F64.one (sp_metrics root !! "_sample_rate");
              spans := c_views c |}
  end.

(** Sampling the candidates in order: those kept with their rate.  [None] is a panic. *)
Fixpoint sample_candidates (payloads : list TracerPayload) (now : Z) (s : ErrorsSampler)
    (cs : list Candidate) : option (list (Candidate * f64) * ErrorsSampler) :=
  match cs with
  | [] => Some ([], s)
  | c :: cs =>
      match candidate_trace payloads c with
      | None => None
      | Some trace =>
          match sample s now trace with
          | None => None
          | Some (d, s) =>
              match sample_candidates payloads now s cs with
              | None => None
              | Some (kept, s) =>
                  Some (match d with Keep sr => (c, sr) :: kept | Drop => kept end, s)
              end
          end
      end
  end.

Definition stamp_span (sr : f64) (span : Span) : Span :=
  {| sp_service := sp_service span; sp_name := sp_name span; sp_resource := sp_resource span;
     sp_trace_id := sp_trace_id span; sp_error := sp_error span; sp_meta := sp_meta span;
     sp_metrics := <[ERRORS_SR_METRIC_KEY := sr]> (sp_metrics span); sp_rest := sp_rest span |}.

Definition stamp_chunk (root : nat) (sr : f64) (chunk : TraceChunk) : TraceChunk :=
  with_spans chunk (alter (stamp_span sr) root (chunk_spans chunk)).

(** Stamping a kept candidate; its indices are those of an existing span. *)
Definition stamp (payloads : list TracerPayload) (k : Candidate * f64) : list TracerPayload :=
  alter (λ p, with_chunks p (alter (stamp_chunk (c_root k.1) k.2) (c_chunk k.1) (chunks p)))
    (c_payload k.1) payloads.

(** [apply_error_rescue_with_clock]; the clock is only read when there are
    candidates. *)
Definition apply_error_rescue (enabled tracer_drop : bool) (config_env : string)
    (state : ErrorRescueState) (payload : TracerPayloadCollection) (clock : Z)
    : option (TracerPayloadCollection * ErrorRescueState) :=
  match payload with
  | OtherVersion _ => Some (payload, state)
  | V07 payloads =>
      if negb enabled then Some (payload, state) else
      match candidates tracer_drop config_env payloads with
      | [] => Some (payload, state)
      | cs =>
          let '(now, state) := clamp_timestamp state clock in
          match sample_candidates payloads now (sampler state) cs with
          | None => None
          | Some (kept, s) =>
              Some (V07 (fold_left stamp kept payloads),
                    {| sampler := s; last_sampler_timestamp := last_sampler_timestamp state |})
          end
      end
  end.

(** * Stats *)

Definition root_base_service (chunk : TraceChunk) : option string :=
  match get_root_span_index (chunk_spans chunk) with
  | None => None
  | Some i =>
      match chunk_spans chunk !! i ≫= (λ s, sp_meta s !! "_dd.base_service") with
      | Some v => if is_empty v then None else Some v
      | None => None
      end
  end.

Definition payload_metadata (tp : TracerPayload) : TracerMetadata :=
  {| tracer_language := language_name tp; md_tracer_version := tracer_version tp;
     service_name := head (omap root_base_service (chunks tp));
     service_env := Some (payload_env tp); service_version := Some (app_version tp);
     md_container_id := Some (container_id tp) |}.

(** The chunks sent to the concentrator, with their metadata. *)
Definition send_to_concentrator (payload : TracerPayloadCollection)
    : list (TraceChunk * TracerMetadata) :=
  match payload with
  | V07 payloads => payloads ≫= λ tp, map (λ c, (c, payload_metadata tp)) (chunks tp)
  | OtherVersion _ => []
  end.

(** * The request handler *)

Record ProcessorConfig := {
  max_request_content_length : Z;
  config_env : string;
  function_tags : option string;
  cloud_function : bool;
  agent_stats_computation_enabled : bool;
  error_rare_sample_tracer_drop : bool;
}.

(** What the processor does for a request: the answer, the data handed to the flusher
    in order, the chunks sent to the concentrator, the rescue state. *)
Record Processed := {
  response : HttpResponse;
  enqueued : list SendData;
  to_concentrator : list (TraceChunk * TracerMetadata);
  rescue_state : ErrorRescueState;
}.

Definition insert_function_tags (tags : option string) (payload : TracerPayloadCollection)
    : TracerPayloadCollection :=
  match tags, payload with
  | Some tags, V07 payloads =>
      V07 (map (λ tp,
        {| chunks := chunks tp;
           payload_tags := <[TRACER_PAYLOAD_FUNCTION_TAGS_TAG_KEY := tags]> (payload_tags tp);
           payload_env := payload_env tp; language_name := language_name tp;
           tracer_version := tracer_version tp; app_version := app_version tp;
           container_id := container_id tp; pl_rest := pl_rest tp |}) payloads)
  | _, _ => payload
  end.

Definition pieces (payload : TracerPayloadCollection) (body_size : Z) : list SendData :=
  match payload with
  | V07 payloads =>
      let split_budget := saturating_sub MAX_CONTENT_SIZE_BYTES V07_ENVELOPE_OVERHEAD_BYTES in
      map (λ tp, {| sd_size := encoded_size [tp] + V07_ENVELOPE_OVERHEAD_BYTES; sd_payload := V07 [tp] |})
        (split_oversized_payloads payloads split_budget)
  | other => [{| sd_size := body_size; sd_payload := other |}]
  end.

(** [process_traces]: [permit] tells whether an enqueue permit came in time, [decoded]
    is what reading and decoding the body gives; [None] is a panic. *)
Definition process_traces (config : ProcessorConfig) (concentrator rescue_enabled : bool)
    (state : ErrorRescueState) (headers : Headers) (permit : bool)
    (decoded : result (Z * raw_traces) string) (clock : Z) : option Processed :=
  let reply resp := Some {| response := resp; enqueued := []; to_concentrator := []; rescue_state := state |} in
  match verify_request_content_length headers (max_request_content_length config)
          "Error processing traces" with
  | Some resp => reply resp
  | None =>
      if negb permit then reply shed_reply else
      match decoded with
      | Err err =>
          reply {| status := 500;
                   body := Message ("Error deserializing trace from request body: " +:+ err) |}
      | Ok (body_size, traces) =>
          if max_request_content_length config <? body_size then
            reply {| status := 413; body := Message "Error processing traces: Payload too large" |} else
          match collect_pb_trace_chunks traces (process_chunk (cloud_function config)) with
          | None => None
          | Some (Err err) =>
              reply {| status := 500;
                       body := RateByService ("Error processing trace chunks: " +:+ err) |}
          | Some (Ok payload) =>
              let payload := insert_function_tags (function_tags config) payload in
              let stats :=
                if concentrator && agent_stats_computation_enabled config
                then send_to_concentrator payload else [] in
              match apply_error_rescue rescue_enabled (error_rare_sample_tracer_drop config)
                      (config_env config) state payload clock with
              | None => None
              | Some (payload, state) =>
                  Some {| response :=
                            {| status := 200;
                               body := RateByService "Successfully buffered traces to be flushed." |};
                          enqueued := pieces payload body_size; to_concentrator := stats;
                          rescue_state := state |}
              end
          end
      end
  end.
End Processor.

(** * Facts *)

(** libdatadog uses the indices of existing spans, for the root of a chunk and for the
    calls of the processor. *)
Class TraceUtilsLaws `{TraceUtils} := {
  root_in_range : ∀ ss i, get_root_span_index ss = Some i → (i < length ss)%nat;
  collect_total : ∀ traces f,
    (∀ chunk i, (i < length (chunk_spans chunk))%nat → is_Some (f chunk i)) →
    is_Some (collect_pb_trace_chunks traces f);
}.

Section Facts.
Context `{Hpb : PbTypes, !TraceUtils}.

(** ** Splitting *)

Lemma split_fuel_enough fuel max tp :
  (length (chunks tp) ≤ fuel)%nat → split_fuel fuel max tp = split_fuel (length (chunks tp)) max tp.
Proof.
  enough (∀ n f tp, (length (chunks tp) ≤ n)%nat → (length (chunks tp) ≤ f)%nat →
    split_fuel n max tp = split_fuel f max tp) as Hall by eauto.
  clear. induction n as [|n IH]; intros f tp Hn Hf.
  - destruct f; cbn [split_fuel]; destruct (encoded_len tp <=? max); try done;
      destruct (Nat.ltb_spec 1 (length (chunks tp))); done || lia.
  - destruct f as [|f].
    + cbn [split_fuel]; destruct (encoded_len tp <=? max); try done;
        destruct (Nat.ltb_spec 1 (length (chunks tp))); done || lia.
    + cbn [split_fuel]. destruct (encoded_len tp <=? max); [done|].
      destruct (Nat.ltb_spec 1 (length (chunks tp))) as [Hl|]; [|done].
      pose proof (Nat.div_lt (length (chunks tp)) 2 ltac:(lia) ltac:(lia)).
      pose proof (Nat.div_str_pos (length (chunks tp)) 2 ltac:(lia)).
      f_equal; apply IH; cbn [with_chunks chunks]; rewrite ?length_take, ?length_drop; lia.
Qed.

(** The recursive equation of the code, for every payload: the recursion ends. *)
Lemma split_unfold tp max :
  split_tracer_payload tp max =
    if encoded_len tp <=? max then [tp] else
    if (1 <? length (chunks tp))%nat then
      let mid := (length (chunks tp) / 2)%nat in
      split_tracer_payload (with_chunks tp (take mid (chunks tp))) max
      ++ split_tracer_payload (with_chunks tp (drop mid (chunks tp))) max
    else [tp].
Proof.
  unfold split_tracer_payload. rewrite <- (split_fuel_enough (S (length (chunks tp)))) at 1 by lia.
  cbn [split_fuel]. destruct (_ <=? _); [done|]. destruct (Nat.ltb_spec 1 (length (chunks tp))); [|done].
  cbv zeta. f_equal; apply split_fuel_enough; cbn [with_chunks chunks]; rewrite ?length_take, ?length_drop; lia.
Qed.

(** [p] has the metadata of [tp] and is small enough or a single chunk. *)
Definition piece_of (tp : TracerPayload) (max : Z) (p : TracerPayload) : Prop :=
  p = with_chunks tp (chunks p) ∧ (encoded_len p ≤ max ∨ (length (chunks p) ≤ 1)%nat).

Lemma with_chunks_same tp : with_chunks tp (chunks tp) = tp.
Proof. by destruct tp. Qed.

Lemma split_pieces n tp max :
  (length (chunks tp) ≤ n)%nat →
  let ps := split_tracer_payload tp max in
  (ps ≫= chunks) = chunks tp ∧ Forall (piece_of tp max) ps ∧ ps ≠ [] ∧
  (chunks tp ≠ [] → Forall (λ p, chunks p ≠ []) ps).
Proof.
  revert tp. induction n as [|n IH]; intros tp Hn; cbv zeta; rewrite split_unfold;
    (destruct (Z.leb_spec (encoded_len tp) max) as [Hfit|Hbig];
     [simpl; rewrite app_nil_r; split_and!; [done| |done|by constructor];
      constructor; [split; [by rewrite with_chunks_same|by left]|done]|]);
    (destruct (Nat.ltb_spec 1 (length (chunks tp))) as [Hl|Hl];
     [|simpl; rewrite app_nil_r; split_and!; [done| |done|by constructor];
       constructor; [split; [by rewrite with_chunks_same|right; lia]|done]]); [lia|].
  pose proof (Nat.div_lt (length (chunks tp)) 2 ltac:(lia) ltac:(lia)) as Hm1.
  pose proof (Nat.div_str_pos (length (chunks tp)) 2 ltac:(lia)) as Hm2.
  set (mid := (length (chunks tp) / 2)%nat) in *.
  destruct (IH (with_chunks tp (take mid (chunks tp)))) as (C1 & P1 & N1 & Q1);
    [cbn [with_chunks chunks]; rewrite length_take; lia|].
  destruct (IH (with_chunks tp (drop mid (chunks tp)))) as (C2 & P2 & N2 & Q2);
    [cbn [with_chunks chunks]; rewrite length_drop; lia|].
  cbv zeta. cbn [with_chunks chunks] in *. rewrite bind_app, C1, C2, take_drop.
  split_and!; [done| | |].
  - apply Forall_app. split; [exact P1|exact P2].
  - by destruct (split_tracer_payload (with_chunks tp (take mid (chunks tp))) max).
  - intros _. apply Forall_app. split; [apply Q1|apply Q2]; intros E; apply (f_equal length) in E;
      rewrite ?length_take, ?length_drop in E; simpl in E; lia.
Qed.

(** A chunk with the metadata of its payload. *)
Definition tagged_chunks (tp : TracerPayload) : list (TracerPayload * TraceChunk) :=
  map (λ c, (with_chunks tp [], c)) (chunks tp).

Lemma pieces_tagged tp max ps :
  Forall (piece_of tp max) ps → (ps ≫= tagged_chunks) = map (λ c, (with_chunks tp [], c)) (ps ≫= chunks).
Proof.
  induction 1 as [|p ps [Hp _] _ IH]; [done|]. cbn [mbind list_bind]. rewrite map_app, <- IH. f_equal.
  unfold tagged_chunks. by rewrite Hp.
Qed.

(** Splitting ends and loses nothing: the pieces hold every chunk exactly once, in
    order and with the metadata of its payload; a piece is within the limit or has a
    single chunk; no payload disappears, and payloads within the limit are untouched. *)
Theorem split_spec payloads max :
  let ps := split_oversized_payloads payloads max in
  (ps ≫= tagged_chunks) = payloads ≫= tagged_chunks ∧
  Forall (λ p, encoded_len p ≤ max ∨ (length (chunks p) ≤ 1)%nat) ps ∧
  (length payloads ≤ length ps)%nat ∧
  (Forall (λ p, encoded_len p ≤ max) payloads → ps = payloads).
Proof.
  cbv zeta. unfold split_oversized_payloads. induction payloads as [|tp payloads (IH1 & IH2 & IH3 & IH4)]; [done|].
  destruct (split_pieces (length (chunks tp)) tp max (le_n _)) as (C & P & N & _).
  cbn [mbind list_bind]. rewrite bind_app, IH1. split_and!.
  - f_equal. rewrite (pieces_tagged tp max) by done. by rewrite C.
  - apply Forall_app. split; [|done]. eapply Forall_impl; [exact P|]. by intros p [_ ?].
  - rewrite length_app. destruct (split_tracer_payload tp max); [done|]. cbn [length] in *. lia.
  - intros [Hfit Hrest]%Forall_cons. rewrite IH4 by done. rewrite split_unfold.
    by apply Z.leb_le in Hfit as ->.
Qed.
End Facts.

(** ** Error rescue *)

Lemma nodup_omap {A B} (f : A → option B) (l : list A) :
  (∀ x1 x2 y, x1 ∈ l → x2 ∈ l → f x1 = Some y → f x2 = Some y → x1 = x2) →
  NoDup l → NoDup (omap f l).
Proof.
  intros Hf Hnd. revert Hf. induction Hnd as [|x l Hx _ IH]; intros Hf; simpl; [constructor|].
  specialize (IH ltac:(intros; eapply Hf; eauto using list_elem_of_further)).
  destruct (f x) as [y|] eqn:E; [|done]. constructor; [|done].
  intros (x' & Hx' & E')%list_elem_of_omap.
  rewrite (Hf x x' y) in Hx; eauto using list_elem_of_here, list_elem_of_further.
Qed.

Section RescueFacts.
Context `{Hpb : PbTypes, !TraceUtils, !TraceUtilsLaws, !MapOrder, !MapOrderLaw}.

Lemma nodup_imap_pair {A} (l : list A) : NoDup (imap pair l).
Proof.
  apply NoDup_alt. intros i j [k x] Hi Hj.
  apply list_lookup_imap_Some in Hi as (? & _ & Hi). apply list_lookup_imap_Some in Hj as (? & _ & Hj).
  congruence.
Qed.

Lemma elem_of_imap_pair {A} (l : list A) i x : (i, x) ∈ imap pair l ↔ l !! i = Some x.
Proof.
  split.
  - intros (j & y & E & ?)%elem_of_lookup_imap_1. by simplify_eq.
  - intros Hx. by apply (elem_of_lookup_imap_2 pair).
Qed.

(** The candidates are the eligible chunks, each with its root. *)
Lemma elem_of_candidates drop env ps c :
  c ∈ candidates drop env ps ↔
  ∃ p ch, ps !! c_payload c = Some p ∧ chunks p !! c_chunk c = Some ch ∧
    rescue_root_index ch drop = Some (c_root c) ∧
    c_env c = resolve_payload_env (payload_env p) env ∧ c_views c = map span_view (chunk_spans ch).
Proof.
  unfold candidates. rewrite list_elem_of_bind. split.
  - intros ([pi p] & Hc & Hp%elem_of_imap_pair). cbn [fst snd] in Hc.
    apply list_elem_of_omap in Hc as ([ci ch] & Hci%elem_of_imap_pair & Hc). cbn [fst snd] in Hc.
    unfold chunk_candidate in Hc. destruct (rescue_root_index ch drop) as [root|] eqn:E; [|done].
    injection Hc as <-. by exists p, ch.
  - intros (p & ch & Hp & Hch & Hr & He & Hv). exists (c_payload c, p).
    split; [|by apply elem_of_imap_pair]. cbn [fst snd]. apply list_elem_of_omap.
    exists (c_chunk c, ch). split; [by apply elem_of_imap_pair|]. cbn [fst snd].
    unfold chunk_candidate. rewrite Hr. destruct c; simpl in *. by subst.
Qed.

Lemma candidates_nodup drop env ps : NoDup (position <$> candidates drop env ps).
Proof.
  apply NoDup_fmap_2_strong.
  - intros c1 c2 (p1 & ch1 & Ha1 & Ha2 & Ha3 & Ha4 & Ha5)%elem_of_candidates
      (p2 & ch2 & K1 & K2 & K3 & K4 & K5)%elem_of_candidates E.
    unfold position in E. injection E as E1 E2. rewrite E1 in Ha1. rewrite Ha1 in K1. injection K1 as ->.
    rewrite E2 in Ha2. rewrite Ha2 in K2. injection K2 as ->.
    destruct c1, c2; simpl in *. congruence.
  - unfold candidates. apply NoDup_bind; [| |apply nodup_imap_pair].
    + intros [i p] [j q] c Hp Hq (x & _ & Hx1)%list_elem_of_omap (y & _ & Hx2)%list_elem_of_omap.
      unfold chunk_candidate in Hx1, Hx2. repeat case_match; simplify_eq/=.
      apply elem_of_imap_pair in Hp, Hq. congruence.
    + intros [i p] _. apply nodup_omap; [|apply nodup_imap_pair].
      intros [i1 c1] [i2 c2] c Hc1%elem_of_imap_pair Hc2%elem_of_imap_pair E1 E2.
      unfold chunk_candidate in E1, E2. repeat case_match; simplify_eq/=. congruence.
Qed.

Lemma candidate_has_trace drop env ps c :
  c ∈ candidates drop env ps →
  ∃ p ch root, chunk_at ps (position c) = Some ch ∧ ps !! c_payload c = Some p ∧
    chunk_spans ch !! c_root c = Some root ∧
    candidate_trace ps c = Some
      {| env := resolve_payload_env (payload_env p) env; trace_id := sp_trace_id root;
         root_index := c_root c;
         root_global_sample_rate := default F64.one (sp_metrics root !! "_sample_rate");
         spans := map span_view (chunk_spans ch) |}.
Proof.
  intros (p & ch & Hp & Hch & Hr & He & Hv)%elem_of_candidates.
  assert (is_Some (chunk_spans ch !! c_root c)) as [root Hroot].
  { apply lookup_lt_is_Some. unfold rescue_root_index in Hr. repeat case_match; try done.
    by apply root_in_range. }
  assert (chunk_at ps (position c) = Some ch) as Hat.
  { unfold chunk_at, position. cbn [fst snd]. rewrite Hp. exact Hch. }
  exists p, ch, root. split_and!; [done..|]. unfold candidate_trace. rewrite Hat. cbn [mbind option_bind].
  by rewrite Hroot, He, Hv.
Qed.

(** The candidates kept, with their rate. *)
Definition kept_of (cs : list Candidate) (ds : list SampleDecision) : list (Candidate * f64) :=
  omap (λ cd, match cd.2 with Keep sr => Some (cd.1, sr) | Drop => None end) (zip cs ds).

Lemma elem_of_kept cs ds c sr :
  (c, sr) ∈ kept_of cs ds ↔ ∃ i, cs !! i = Some c ∧ ds !! i = Some (Keep sr).
Proof.
  unfold kept_of. rewrite list_elem_of_omap. split.
  - intros ([c' d] & Hin & E). cbn [fst snd] in E. destruct d; [|done]. injection E as -> ->.
    apply list_elem_of_lookup in Hin as [i Hi]. exists i. by apply lookup_zip_Some in Hi.
  - intros (i & Hc & Hd). exists (c, Keep sr). split; [|done].
    apply list_elem_of_lookup. exists i. by apply lookup_zip_Some.
Qed.

Lemma kept_nodup cs ds :
  NoDup (position <$> cs) → NoDup ((position ∘ fst) <$> kept_of cs ds).
Proof.
  revert ds. induction cs as [|c cs IH]; intros [|d ds] Hnd; try constructor.
  rewrite fmap_cons in Hnd. apply NoDup_cons in Hnd as [Hn Hnd]. specialize (IH ds Hnd).
  destruct d as [sr|]; [|exact IH].
  assert (kept_of (c :: cs) (Keep sr :: ds) = (c, sr) :: kept_of cs ds) as -> by done. rewrite fmap_cons. constructor; [|exact IH].
  intros ([c' sr'] & Ec & Hin)%list_elem_of_fmap. apply elem_of_kept in Hin as (i & Hc & _).
  apply Hn. simpl in Ec. rewrite Ec. apply list_elem_of_fmap_2. by eapply list_elem_of_lookup_2.
Qed.

(** The decisions are those of the sampler on the candidates in order. *)
Lemma sample_candidates_spec ps now s cs :
  sampler_inv s → (∀ c, c ∈ cs → is_Some (candidate_trace ps c)) →
  ∃ ds s', sample_all s (map (pair now) (omap (candidate_trace ps) cs)) = Some (ds, s') ∧
    sampler_inv s' ∧ length ds = length cs ∧
    sample_candidates ps now s cs =
      Some (kept_of cs ds, s').
Proof.
  revert s. induction cs as [|c cs IH]; intros s Hs Hcs; [by exists [], s|].
  destruct (Hcs c (list_elem_of_here _ _)) as [tr Htr].
  destruct (sample_inv s now tr Hs) as (d & s1 & Ed & Hs1 & _ & _).
  destruct (IH s1 Hs1) as (ds & s2 & Ea & Hs2 & Hl & Ec); [intros; apply Hcs; by right|].
  exists (d :: ds), s2. cbn [omap list_omap sample_candidates]. rewrite Htr. cbn [map sample_all].
  rewrite Ed, Ea, Ec. split_and!; [done|done|simpl; lia|]. by destruct d.
Qed.

(** Stamping a position. *)
Lemma chunk_at_stamp ps k pos :
  chunk_at (stamp ps k) pos =
    if decide (position k.1 = pos) then stamp_chunk (c_root k.1) k.2 <$> chunk_at ps pos
    else chunk_at ps pos.
Proof.
  destruct pos as [pi ci], k as [c sr]. unfold chunk_at, stamp, position. cbn [fst snd].
  destruct (decide (c_payload c = pi)) as [<-|Hp].
  - rewrite list_lookup_alter_eq. destruct (ps !! c_payload c) as [p|]; simpl; [|by case_decide].
    destruct (decide (c_chunk c = ci)) as [<-|Hc].
    + rewrite list_lookup_alter_eq. by rewrite decide_True.
    + rewrite list_lookup_alter_ne by done. rewrite decide_False; [done|congruence].
  - rewrite list_lookup_alter_ne by done. rewrite decide_False; [done|congruence].
Qed.

Lemma stamps_other kept ps pos :
  pos ∉ (position ∘ fst) <$> kept → chunk_at (fold_left stamp kept ps) pos = chunk_at ps pos.
Proof.
  revert ps. induction kept as [|k kept IH]; intros ps Hpos; [done|]. cbn [fold_left].
  rewrite IH by set_solver. rewrite chunk_at_stamp, decide_False; [done|]. set_solver.
Qed.

Lemma stamps_kept kept ps k :
  NoDup ((position ∘ fst) <$> kept) → k ∈ kept →
  chunk_at (fold_left stamp kept ps) (position k.1) =
    stamp_chunk (c_root k.1) k.2 <$> chunk_at ps (position k.1).
Proof.
  revert ps. induction kept as [|k' kept IH]; intros ps Hnd Hk; [by apply not_elem_of_nil in Hk|].
  cbn [fold_left]. rewrite fmap_cons in Hnd. apply NoDup_cons in Hnd as [Hn Hnd].
  apply elem_of_cons in Hk as [->|Hk].
  - rewrite stamps_other by done. by rewrite chunk_at_stamp, decide_True.
  - rewrite IH by done. rewrite chunk_at_stamp, decide_False; [done|].
    intros E. apply Hn. simpl. rewrite E. by apply (list_elem_of_fmap_2 (position ∘ fst)).
Qed.

(** Only chunks change, one for one. *)
Definition same_shape (p p' : TracerPayload) : Prop :=
  p' = with_chunks p (chunks p') ∧ length (chunks p') = length (chunks p).

Lemma stamps_shape kept ps : Forall2 same_shape ps (fold_left stamp kept ps).
Proof.
  assert (Transitive same_shape) as Htr.
  { intros p q r [E1 L1] [E2 L2]. split; [|congruence]. rewrite E2 at 1. by rewrite E1. }
  assert (Reflexive same_shape) as Hrf by (intros p; split; [by rewrite with_chunks_same|done]).
  revert ps. induction kept as [|k kept IH]; intros ps; cbn [fold_left]; [done|].
  transitivity (stamp ps k); [|apply IH]. unfold stamp. apply Forall2_same_length_lookup_2.
  - by rewrite length_alter.
  - intros i p q Hp Hq. rewrite list_lookup_alter in Hq. case_decide as Hi; [subst i|by simplify_eq].
    rewrite Hp in Hq. injection Hq as <-. split; [done|]. cbn [with_chunks chunks]. apply length_alter.
Qed.

(** C25: The rescue of errors never panics and changes nothing but the error rate on
    the roots it keeps.  Without an eligible errored chunk nothing changes, the state
    included; otherwise the clock is clamped to be monotone, the decisions are those
    of the sampler on the candidates in order, a kept candidate has its root stamped
    with the rate of its decision and every other chunk is untouched. *)
Theorem rescue_spec tracer_drop env state ps clock :
  sampler_inv (sampler state) →
  let cs := candidates tracer_drop env ps in
  let now := Z.max (last_sampler_timestamp state) clock in
  ∃ ps' state',
    apply_error_rescue true tracer_drop env state (V07 ps) clock = Some (V07 ps', state') ∧
    sampler_inv (sampler state') ∧
    Forall2 same_shape ps ps' ∧
    (cs = [] → ps' = ps ∧ state' = state) ∧
    (cs ≠ [] →
       last_sampler_timestamp state' = now ∧
       ∃ ds, sample_all (sampler state) (map (pair now) (omap (candidate_trace ps) cs)) =
               Some (ds, sampler state') ∧ length ds = length cs ∧
         ∀ i c, cs !! i = Some c →
           chunk_at ps' (position c) =
             match ds !! i with
             | Some (Keep sr) => stamp_chunk (c_root c) sr <$> chunk_at ps (position c)
             | _ => chunk_at ps (position c)
             end) ∧
    (∀ pos, pos ∉ position <$> cs → chunk_at ps' pos = chunk_at ps pos).
Proof.
  intros Hs cs now. unfold apply_error_rescue. cbn [negb]. fold cs.
  destruct (decide (cs = [])) as [E|Hne].
  { rewrite E. exists ps, state. split_and!; try done. apply Forall2_same_length_lookup_2; [done|].
    intros i p q Hp Hq. rewrite Hp in Hq. injection Hq as <-.
    split; [by rewrite with_chunks_same|done]. }
  destruct (sample_candidates_spec ps now (sampler state) cs Hs) as (ds & s' & Ea & Hs' & Hl & Ec).
  { intros c (? & ? & ? & _ & _ & _ & Hc)%candidate_has_trace. by rewrite Hc. }
  pose proof (kept_nodup cs ds (candidates_nodup tracer_drop env ps)) as Hnd.
  exists (fold_left stamp (kept_of cs ds) ps), {| sampler := s'; last_sampler_timestamp := now |}.
  split. { destruct cs; [done|]. unfold clamp_timestamp. cbn [sampler last_sampler_timestamp].
    fold now. by rewrite Ec. }
  split_and!; [done|apply stamps_shape|done| |].
  - intros _. split; [done|]. exists ds. split_and!; [done|done|]. intros i c Hc.
    destruct (ds !! i) as [[sr|]|] eqn:Ed.
    + apply (stamps_kept _ ps (c, sr)); [done|]. apply elem_of_kept. eauto.
    + apply stamps_other. intros ([c' sr] & Ep & (j & Hj & Hd)%elem_of_kept)%list_elem_of_fmap.
      simpl in Ep. assert (i = j) as <-; [|congruence].
      eapply (NoDup_lookup (position <$> cs)); [apply candidates_nodup| |];
        rewrite list_lookup_fmap; [by rewrite Hc|by rewrite Hj; simpl; rewrite Ep].
    + apply lookup_ge_None in Ed. apply lookup_lt_Some in Hc. lia.
  - intros pos Hpos. apply stamps_other.
    intros ([c' sr] & -> & (j & Hj & Hd)%elem_of_kept)%list_elem_of_fmap.
    apply Hpos. simpl. apply list_elem_of_fmap_2. by eapply list_elem_of_lookup_2.
Qed.

Lemma rescue_run enabled tracer_drop env state payload clock :
  sampler_inv (sampler state) →
  ∃ payload' state', apply_error_rescue enabled tracer_drop env state payload clock =
      Some (payload', state') ∧
    sampler_inv (sampler state') ∧ last_sampler_timestamp state ≤ last_sampler_timestamp state'.
Proof.
  intros Hs. unfold apply_error_rescue. destruct payload as [ps|o]; [|by eexists _, _].
  destruct enabled; cbn [negb]; [|by eexists _, _].
  destruct (candidates tracer_drop env ps) as [|c cs] eqn:E; [by eexists _, _|].
  unfold clamp_timestamp. cbn [sampler last_sampler_timestamp].
  edestruct (sample_candidates_spec ps (Z.max (last_sampler_timestamp state) clock) (sampler state) (c :: cs) Hs)
    as (ds & s' & _ & Hs' & _ & Ec).
  { intros c'. rewrite <- E. intros (? & ? & ? & _ & _ & _ & Hc)%candidate_has_trace. by rewrite Hc. }
  rewrite Ec. eexists _, _. split; [done|]. cbn [sampler last_sampler_timestamp]. split; [done|lia].
Qed.

(** What the rescue may change is the rate of a span. *)
Definition unrated_span (span : Span) : Span :=
  {| sp_service := sp_service span; sp_name := sp_name span; sp_resource := sp_resource span;
     sp_trace_id := sp_trace_id span; sp_error := sp_error span; sp_meta := sp_meta span;
     sp_metrics := delete ERRORS_SR_METRIC_KEY (sp_metrics span); sp_rest := sp_rest span |}.

Definition unrated_chunk (chunk : TraceChunk) : TraceChunk :=
  with_spans chunk (unrated_span <$> chunk_spans chunk).

(** The chunks of payloads, each with the payload it travels in, without the rates. *)
Definition unrated (ps : list TracerPayload) : list (TracerPayload * TraceChunk) :=
  prod_map id unrated_chunk <$> (ps ≫= tagged_chunks).

Lemma unrated_stamp_chunk root sr chunk : unrated_chunk (stamp_chunk root sr chunk) = unrated_chunk chunk.
Proof.
  unfold unrated_chunk, stamp_chunk, with_spans. cbn. f_equal. apply fmap_alter_same. intros span.
  unfold unrated_span, stamp_span. cbn. by rewrite delete_insert_eq.
Qed.

Lemma unrated_stamps kept ps : unrated (fold_left stamp kept ps) = unrated ps.
Proof.
  revert ps. induction kept as [|k kept IH]; intros ps; [done|]. cbn [fold_left]. rewrite IH. clear IH.
  unfold unrated, stamp. generalize (c_payload k.1) as i.
  induction ps as [|p ps IH]; intros [|i]; [done..| |]; cbn [alter list_alter].
  - rewrite !bind_cons, !fmap_app. f_equal. unfold tagged_chunks, with_chunks. cbn.
    rewrite <- !list_fmap_compose. apply fmap_alter_same. intros chunk.
    cbn. by rewrite unrated_stamp_chunk.
  - rewrite !bind_cons, !fmap_app. f_equal. apply IH.
Qed.

Lemma rescue_unrated enabled tracer_drop env state ps clock final state' :
  apply_error_rescue enabled tracer_drop env state (V07 ps) clock = Some (final, state') →
  ∃ ps', final = V07 ps' ∧ unrated ps' = unrated ps.
Proof.
  unfold apply_error_rescue. destruct enabled; cbn [negb]; [|intros [= <- _]; eauto].
  destruct (candidates tracer_drop env ps) as [|c cs]; [intros [= <- _]; eauto|].
  unfold clamp_timestamp. destruct (sample_candidates _ _ _ _) as [[kept s]|]; [|done].
  intros [= <- _]. eexists. split; [done|apply unrated_stamps].
Qed.

(** ** Requests *)

Lemma process_chunk_total cloud chunk i :
  (i < length (chunk_spans chunk))%nat → is_Some (process_chunk cloud chunk i).
Proof.
  intros Hi. unfold process_chunk.
  assert (chunk_spans (promote_decision_maker chunk) = chunk_spans chunk) as -> by (unfold promote_decision_maker; by repeat case_match).
  destruct (Nat.leb_spec (length (chunk_spans chunk)) i); [lia|eauto].
Qed.

(** A piece of the data handed to the flusher. *)
Definition sent_piece (d : SendData) : Prop :=
  ∃ p, sd_payload d = V07 [p] ∧ sd_size d = encoded_len p + V07_ENVELOPE_OVERHEAD_BYTES ∧
    (sd_size d ≤ MAX_CONTENT_SIZE_BYTES ∨ (length (chunks p) ≤ 1)%nat).

Definition sent_chunks (d : SendData) : list (TracerPayload * TraceChunk) :=
  match sd_payload d with V07 ps => ps ≫= tagged_chunks | OtherVersion _ => [] end.

Lemma pieces_spec ps body_size :
  (pieces (V07 ps) body_size ≫= sent_chunks) = ps ≫= tagged_chunks ∧
  Forall sent_piece (pieces (V07 ps) body_size).
Proof.
  unfold pieces. cbv zeta. set (budget := saturating_sub _ _).
  unfold split_oversized_payloads. induction ps as [|tp ps [IH1 IH2]]; [done|].
  destruct (split_pieces (length (chunks tp)) tp budget (le_n _)) as (C & P & _ & _).
  cbn [mbind list_bind]. rewrite map_app, bind_app, IH1. split.
  - f_equal. transitivity (split_tracer_payload tp budget ≫= tagged_chunks).
    + clear. induction (split_tracer_payload tp budget) as [|p l IH]; [done|].
      cbn [map mbind list_bind]. rewrite IH. f_equal. unfold sent_chunks. cbn. by rewrite app_nil_r.
    + rewrite (pieces_tagged tp budget) by done. by rewrite C.
  - apply Forall_app. split; [|done]. apply Forall_map. eapply Forall_impl; [exact P|].
    intros p [_ Hp]. exists p. unfold encoded_size. cbn [sd_payload sd_size sum_size]. split_and!; [done|lia|].
    destruct Hp as [Hp|]; [left|by right]. unfold budget, saturating_sub in Hp.
    change (Z.max 0 _) with (MAX_CONTENT_SIZE_BYTES - V07_ENVELOPE_OVERHEAD_BYTES) in Hp. lia.
Qed.

Lemma process_traces_total config concentrator enabled state headers permit decoded clock :
  sampler_inv (sampler state) →
  ∃ r, process_traces config concentrator enabled state headers permit decoded clock = Some r ∧
    sampler_inv (sampler (rescue_state r)).
Proof.
  intros Hs. unfold process_traces. destruct (verify_request_content_length _ _ _); [by eexists|].
  destruct permit; cbn [negb]; [|by eexists]. destruct decoded as [[body_size traces]|]; [|by eexists].
  destruct (_ <? _); [by eexists|].
  destruct (collect_total traces (process_chunk (cloud_function config))) as [[payload|err] Ep];
    [by apply process_chunk_total| |]; rewrite Ep; [|by eexists].
  cbv zeta. edestruct (rescue_run enabled (error_rare_sample_tracer_drop config) (config_env config) state
    (insert_function_tags (function_tags config) payload) clock Hs) as (final & state' & -> & Hs' & _).
  by eexists.
Qed.

Lemma verify_refuses headers max text resp :
  verify_request_content_length headers max text = Some resp → status resp ≠ 200.
Proof.
  unfold verify_request_content_length. destruct (content_length headers) as [[t|]|];
    repeat case_match; intros [= <-]; done.
Qed.

(** Without a permit a request that passes the check is shed; with one it never is. *)
Lemma process_traces_shed config concentrator enabled state headers decoded clock :
  process_traces config concentrator enabled state headers false decoded clock =
  Some {| response := default shed_reply (verify_request_content_length headers
                        (max_request_content_length config) "Error processing traces");
          enqueued := []; to_concentrator := []; rescue_state := state |}.
Proof. unfold process_traces. by destruct (verify_request_content_length _ _ _). Qed.

Lemma process_traces_not_shed config concentrator enabled state headers decoded clock r :
  process_traces config concentrator enabled state headers true decoded clock = Some r →
  response r ≠ shed_reply.
Proof.
  unfold process_traces. destruct (verify_request_content_length _ _ _) as [resp|] eqn:E.
  { intros [= <-] Er. apply verify_refuses in E. cbn [response] in Er. by rewrite Er in E. }
  cbn [negb]. repeat case_match; by intros [= <-].
Qed.

(** Every branch of a request, panics excluded. *)
Lemma process_traces_cases config concentrator enabled state headers permit decoded clock :
  sampler_inv (sampler state) →
  ∃ r, process_traces config concentrator enabled state headers permit decoded clock = Some r ∧
    sampler_inv (sampler (rescue_state r)) ∧
    last_sampler_timestamp state ≤ last_sampler_timestamp (rescue_state r) ∧
    (status (response r) ≠ 200 ∨ permit = false →
       enqueued r = [] ∧ to_concentrator r = [] ∧ rescue_state r = state) ∧
    ∀ body_size traces payload,
      verify_request_content_length headers (max_request_content_length config)
        "Error processing traces" = None →
      permit = true → decoded = Ok (body_size, traces) →
      body_size ≤ max_request_content_length config →
      collect_pb_trace_chunks traces (process_chunk (cloud_function config)) = Some (Ok payload) →
      let payload := insert_function_tags (function_tags config) payload in
      status (response r) = 200 ∧
      to_concentrator r =
        (if concentrator && agent_stats_computation_enabled config
         then send_to_concentrator payload else []) ∧
      ∃ final,
        apply_error_rescue enabled (error_rare_sample_tracer_drop config) (config_env config)
          state payload clock = Some (final, rescue_state r) ∧
        match final with
        | V07 ps => (enqueued r ≫= sent_chunks) = ps ≫= tagged_chunks ∧ Forall sent_piece (enqueued r)
        | OtherVersion _ => enqueued r = [{| sd_size := body_size; sd_payload := final |}]
        end.
Proof.
  intros Hs. unfold process_traces.
  destruct (verify_request_content_length _ _ _) as [resp|]; [eexists; split_and!; done|].
  destruct permit; cbn [negb]; [|eexists; split_and!; done].
  destruct decoded as [[body_size traces]|err]; [|eexists; split_and!; done].
  destruct (Z.ltb_spec (max_request_content_length config) body_size) as [Hbig|Hfit].
  { eexists. split_and!; try done. intros b ? ? _ _ [= -> ->] Hb. exfalso. lia. }
  destruct (collect_total traces (process_chunk (cloud_function config))) as [[payload|err] Ep];
    [by apply process_chunk_total| |]; rewrite Ep; cycle 1.
  { eexists. split_and!; try done. intros b ? ? _ _ [= -> ->] Hb E. congruence. }
  cbv zeta. set (tagged := insert_function_tags _ _).
  destruct (rescue_run enabled (error_rare_sample_tracer_drop config) (config_env config) state tagged clock Hs)
    as (final & state' & Er & Hs' & Hm).
  rewrite Er. eexists. split_and!; try done; [by intros [?|?]|].
  intros b tr pl _ _ [= <- <-] _ E. rewrite Ep in E. injection E as <-. split_and!; [done|done|].
  exists final. split; [done|]. cbn [enqueued]. destruct final; [apply pieces_spec|done].
Qed.
(** C24: A trace request is always answered.  One that is refused, undecodable or not
    given a permit leaves everything as it was.  An accepted one is answered with
    success, its chunks go to the concentrator as they were before the rescue, and
    the flusher is handed every chunk of the rescued payload exactly once, in order
    and with its metadata, in pieces that fit a flush or have a single chunk. *)
Theorem process_traces_spec config concentrator enabled state headers permit decoded clock :
  sampler_inv (sampler state) →
  ∃ r, process_traces config concentrator enabled state headers permit decoded clock = Some r ∧
    sampler_inv (sampler (rescue_state r)) ∧
    last_sampler_timestamp state ≤ last_sampler_timestamp (rescue_state r) ∧
    (status (response r) ≠ 200 ∨ permit = false →
       enqueued r = [] ∧ to_concentrator r = [] ∧ rescue_state r = state) ∧
    ∀ body_size traces payload,
      verify_request_content_length headers (max_request_content_length config)
        "Error processing traces" = None →
      permit = true → decoded = Ok (body_size, traces) →
      body_size ≤ max_request_content_length config →
      collect_pb_trace_chunks traces (process_chunk (cloud_function config)) = Some (Ok payload) →
      let payload := insert_function_tags (function_tags config) payload in
      status (response r) = 200 ∧
      to_concentrator r =
        (if concentrator && agent_stats_computation_enabled config
         then send_to_concentrator payload else []) ∧
      ∃ final,
        apply_error_rescue enabled (error_rare_sample_tracer_drop config) (config_env config)
          state payload clock = Some (final, rescue_state r) ∧
        match final with
        | V07 ps => (enqueued r ≫= sent_chunks) = ps ≫= tagged_chunks ∧ Forall sent_piece (enqueued r)
        | OtherVersion _ => enqueued r = [{| sd_size := body_size; sd_payload := final |}]
        end.
Proof. exact (process_traces_cases config concentrator enabled state headers permit decoded clock). Qed.
End RescueFacts.

(** * Witnesses *)
Module TraceProcessorExamples.
#[local] Instance order : MapOrder := map_to_list.
#[local] Instance order_law : MapOrderLaw.
Proof. intros m. done. Qed.

(** A raw chunk: its priority, and the identifier and error of each span. *)
#[local] Instance types : PbTypes :=
  {| span_rest := unit; chunk_rest := unit; payload_rest := unit; other_payloads := unit;
     raw_traces := list (Z * list (Z * Z)) |}.

Definition mk_span (trace_id error : Z) : Span :=
  {| sp_service := "svc"; sp_name := "op"; sp_resource := "res"; sp_trace_id := trace_id;
     sp_error := error; sp_meta := ∅; sp_metrics := ∅; sp_rest := tt |}.
Definition mk_chunk (p : Z) (ss : list Span) : TraceChunk :=
  {| priority := p; chunk_tags := ∅; chunk_spans := ss; ch_rest := tt |}.
Definition mk_payload (cs : list TraceChunk) : TracerPayload :=
  {| chunks := cs; payload_tags := ∅; payload_env := ""; language_name := "rust";
     tracer_version := "1"; app_version := "2"; container_id := ""; pl_rest := tt |}.
Definition of_raw (c : Z * list (Z * Z)) : TraceChunk :=
  mk_chunk c.1 (map (λ s, mk_span s.1 s.2) c.2).

(** Two megabytes a chunk; the root is the first span. *)
#[local] Instance utils : TraceUtils := {|
  encoded_len tp := 2000000 * Z.of_nat (length (chunks tp));
  get_root_span_index ss := match ss with [] => None | _ => Some 0%nat end;
  set_serverless_root_span_tags s := s;
  enrich_with_mini_agent s := s;
  enrich_with_azure_function s := s;
  enrich_with_google_function s := s;
  obfuscate s := s;
  collect_pb_trace_chunks traces f :=
    cs ← mapM (λ c, f c 0%nat) (filter (λ c, chunk_spans c ≠ []) (map of_raw traces));
    Some (Ok (V07 [mk_payload cs]));
|}.
#[local] Instance utils_laws : TraceUtilsLaws.
Proof.
  split.
  - intros [|s ss] i E; [done|]. injection E as <-. simpl. lia.
  - intros traces f Hf. unfold collect_pb_trace_chunks, utils. set (l := filter _ _).
    assert (is_Some (mapM (λ c, f c 0%nat) l)) as [cs ->]; [|eauto]. apply mapM_is_Some, Forall_forall.
    intros c [Hc _]%list_elem_of_filter. apply Hf. destruct (chunk_spans c); [done|simpl; lia].
Qed.

Definition erroneous : TraceChunk := mk_chunk 0 [mk_span 7 1].
Definition healthy : TraceChunk := mk_chunk 1 [mk_span 8 0].
Definition keep_all : ErrorRescueState :=
  rescue_new {| mode := ModeAlwaysKeep; config_target_tps := F64.of_Z 10; extra_sample_rate := F64.one |}.

Lemma rescue_spec_witness : ∃ ps' state',
  apply_error_rescue true false "prod" keep_all (V07 [mk_payload [healthy; erroneous]]) 5 =
    Some (V07 ps', state') ∧
  chunk_at ps' (0, 1)%nat = Some (stamp_chunk 0 F64.one erroneous) ∧
  chunk_at ps' (0, 0)%nat = Some healthy ∧ last_sampler_timestamp state' = 5.
Proof.
  destruct (rescue_spec false "prod" keep_all [mk_payload [healthy; erroneous]] 5)
    as (ps' & state' & E & _ & _ & _ & Hc & Ho); [exact I|].
  exists ps', state'. split; [exact E|].
  destruct Hc as (Ht & ds & Hs & _ & Hi); [done|].
  vm_compute in Hs. injection Hs as <- _. split; [exact (Hi 0%nat _ eq_refl)|].
  split; [|exact Ht]. rewrite Ho; [reflexivity|]. vm_compute.
  intros Hin. apply list_elem_of_In in Hin as [Hin|[]]. discriminate.
Defined.

Definition config : ProcessorConfig :=
  {| max_request_content_length := 50000000; config_env := "prod"; function_tags := Some "a:b";
     cloud_function := false; agent_stats_computation_enabled := true;
     error_rare_sample_tracer_drop := false |}.
Definition traces : raw_traces := [(1, [(8, 0)]); (0, [(7, 1)])].

Lemma process_traces_spec_witness : ∃ r,
  process_traces config true true keep_all {| content_length := Some (Some "100"); transfer_encoding := false |}
    true (Ok (100, traces)) 5 = Some r ∧
  status (response r) = 200 ∧ length (to_concentrator r) = 2%nat ∧
  map sd_size (enqueued r) = [2000064; 2000064].
Proof.
  destruct (process_traces_spec config true true keep_all
    {| content_length := Some (Some "100"); transfer_encoding := false |} true
    (Ok (100, traces)) 5) as (r & E & _ & _ & _ & Hok); [exact I|].
  exists r. split; [exact E|].
  destruct (Hok 100 traces (V07 [mk_payload [healthy; erroneous]])
    ltac:(reflexivity) eq_refl eq_refl ltac:(vm_compute; discriminate) ltac:(reflexivity))
    as (Hst & Hconc & _).
  split; [exact Hst|]. rewrite Hconc. split; [reflexivity|].
  vm_compute in E. injection E as <-. reflexivity.
Defined.
End TraceProcessorExamples.
