(* ===== verification/TraceConfig.v ===== *)
(** Configuration of the trace agent: [datadog-trace-agent/src/config.rs] and
    [peer_tags.rs].

    The environment is a function from variables to their values (those that are not
    valid text count as unset, as with [env::var(..).ok()]).  The functions of
    libdatadog, the parser of URIs and the mappings of the peer tags, read from an
    embedded file by serde, are parameters. *)
From Stdlib Require Import Ascii SpecFloat.
From S2P Require Import Prelude RStr Float ScoreSampler.

Definition DEFAULT_APM_RECEIVER_PORT : Z := 8126.
Definition DEFAULT_DOGSTATSD_PORT : Z := 8125.
Definition DSM_PIPELINE_STATS_ROUTE : string := "/api/v0.1/pipeline_stats".

Definition parse_error_sampler_config (raw : option string) : ErrorSamplerConfig :=
  let config := config_default in
  match raw with
  | None => config
  | Some raw =>
      let raw := trim raw in
      if is_empty raw then config else
      match parse_f64 raw with
      | Ok tps =>
          if is_finite tps then
            {| mode := mode config; config_target_tps := tps;
               extra_sample_rate := extra_sample_rate config |}
          else config
      | Err _ => config
      end
  end.

Definition error_rare_sample_tracer_drop_enabled (raw : string) : bool :=
  let delimiter := if contains_char ","%char raw then ","%char else " "%char in
  existsb (λ entry, String.eqb (trim entry) "error_rare_sample_tracer_drop") (split delimiter raw).

(** * Tags *)

(** [Tags]; [function_tags_string] only caches the result of [function_tags]. *)
Record Tags := { tags : gmap string string }.

Definition tags_new : Tags := {| tags := ∅ |}.

Definition insert_kv (m : gmap string string) (kv : string) : gmap string string :=
  match split ":"%char kv with
  | [k; v] => <[k := v]> m
  | _ => m
  end.

Definition from_env_string (env_tags : string) : Tags :=
  {| tags := fold_left insert_kv (split_whitespace (replace_char ","%char " "%char env_tags)) ∅ |}.

Definition render_kv (kv : string * string) : string := kv.1 +:+ ":" +:+ kv.2.

(** The order of the iteration does not matter ([sort_perm_eq]). *)
Definition function_tags (self : Tags) : option string :=
  if bool_decide (tags self = ∅) then None
  else Some (join "," (merge_sort String.le (map render_kv (map_to_list (tags self))))).

(** * Peer tags *)

Definition PEER_TAG_CONCEPTS : list string :=
  ["_dd.base_service"; "peer.service"; "peer.hostname"; "peer.db.name"; "peer.db.system";
   "peer.cassandra.contact.points"; "peer.couchbase.seed.nodes"; "peer.messaging.destination";
   "peer.messaging.system"; "peer.kafka.bootstrap.servers"; "peer.rpc.service";
   "peer.rpc.system"; "peer.aws.s3.bucket"; "peer.aws.sqs.queue"; "peer.aws.dynamodb.table";
   "peer.aws.kinesis.stream"].

(** [mappings]: the names of the fallbacks of each concept, when the file parses. *)
Definition peer_tag_keys (mappings : result (gmap string (list string)) string)
    : result (list string) string :=
  let? concepts := mappings in
  let set : gset string :=
    list_to_set (omap (λ concept, concepts !! concept) PEER_TAG_CONCEPTS ≫= λ names, names) in
  Ok (merge_sort String.le (elements set)).

(** * Configuration *)

(** libdatadog's [EnvironmentType]. *)
Inductive EnvironmentType := AzureFunction | CloudFunction | AzureSpringApp | LambdaFunction.

Class ConfigEnv := {
  obfuscation_config : Type;
  read_cloud_env : option (string * EnvironmentType);
  trace_intake_url : string → string;
  trace_stats_url : string → string;
  trace_intake_url_prefixed : string → string;
  trace_stats_url_prefixed : string → string;
  obfuscation_from_env : result obfuscation_config string;
  (** Whether a URI parses, and how the parsed URI prints. *)
  uri_valid : string → bool;
  uri_to_string : string → string;
  peer_tag_mappings : result (gmap string (list string)) string;
  consts_os : string;
  (** Built for Windows with the feature of the named pipes. *)
  windows_pipes : bool;
}.

Record Endpoint := { ep_url : string; ep_api_key : option string }.

Section Config.
Context `{ConfigEnv}.

Record Config := {
  dd_site : string;
  dd_apm_receiver_port : Z;
  dd_apm_windows_pipe_name : option string;
  dd_dogstatsd_port : Z;
  dd_dogstatsd_windows_pipe_name : option string;
  env_type : EnvironmentType;
  app_name : option string;
  max_request_content_length : Z;
  obfuscation : obfuscation_config;
  os : string;
  config_tags : Tags;
  stats_flush_interval_secs : Z;
  trace_flush_interval_secs : Z;
  trace_intake : Endpoint;
  trace_stats_intake : Endpoint;
  dsm_intake : Endpoint;
  profiling_intake : Endpoint;
  proxy_request_timeout_secs : Z;
  proxy_request_max_retries : Z;
  proxy_request_retry_backoff_base_ms : Z;
  verify_env_timeout_ms : Z;
  enqueue_permit_timeout_secs : Z;
  proxy_url : option string;
  env : string;
  peer_tags : list string;
  experimental_features_enabled : bool;
  additional_metric_tags : list string;
  additional_metric_tags_cardinality_limit : option Z;
  agent_stats_computation_enabled : bool;
  error_sampler : ErrorSamplerConfig;
  error_rare_sample_tracer_drop : bool;
}.

Definition pipe_prefix : string := "\\.\pipe\".
Definition normalize_pipe_name (pipe_name : string) : string :=
  if starts_with pipe_prefix pipe_name then pipe_name else pipe_prefix +:+ pipe_name.

Definition var_is_true (o : option string) (d : bool) : bool :=
  match o with Some val => String.eqb (to_lowercase val) "true" | None => d end.

Definition dogstatsd_port (port : option string) (pipe : option string) : Z :=
  match port ≫= parse_uint u16_max with
  | Some port => port
  | None => match pipe with Some _ => 0 | None => DEFAULT_DOGSTATSD_PORT end
  end.

Definition trim_split (s : string) : list string :=
  filter (λ s, is_empty s = false) (map trim (split ","%char s)).

(** The URLs of the endpoints. *)
Section Urls.
Context (var : string → option string).

Definition site : string := default "datadoghq.com" (var "DD_SITE").
Definition trace_url : string :=
  match var "DD_APM_DD_URL" with Some p => trace_intake_url_prefixed p | None => trace_intake_url site end.
Definition stats_url : string :=
  match var "DD_APM_DD_URL" with Some p => trace_stats_url_prefixed p | None => trace_stats_url site end.
Definition dsm_url : string :=
  match var "DD_APM_DD_URL" with
  | Some p => p +:+ DSM_PIPELINE_STATS_ROUTE
  | None => "https://trace.agent." +:+ site +:+ DSM_PIPELINE_STATS_ROUTE
  end.
Definition profiling_url : string :=
  match var "DD_APM_PROFILING_DD_URL" with
  | Some p => p +:+ "/api/v2/profile"
  | None => "https://intake.profile." +:+ site +:+ "/api/v2/profile"
  end.
Definition endpoint_urls : list string := [trace_url; stats_url; dsm_url; profiling_url].
End Urls.

(** [Config::new]; [None] is the panic of the [unwrap] of an URL. *)
Definition config_new (var : string → option string) : option (result Config string) :=
  match var "DD_API_KEY" with
  | None => Some (Err "DD_API_KEY environment variable is not set")
  | Some api_key =>
  match read_cloud_env with
  | None => Some (Err "Unable to identify environment. Shutting down Mini Agent.")
  | Some (name, env_type) =>
  let pipe_of v := if windows_pipes then normalize_pipe_name <$> var v else None in
  let dogstatsd_pipe := pipe_of "DD_DOGSTATSD_WINDOWS_PIPE_NAME" in
  match obfuscation_from_env with
  | Err err => Some (Err ("Error creating obfuscation config, Mini Agent will not start. Error: " +:+ err))
  | Ok obfuscation =>
  let experimental := var_is_true (var "DD_TRACE_EXPERIMENTAL_FEATURES_ENABLED") false in
  let endpoint url := {| ep_url := url; ep_api_key := Some api_key |} in
  if negb (forallb uri_valid (endpoint_urls var)) then None else
  match peer_tag_keys peer_tag_mappings with
  | Err err => Some (Err err)
  | Ok peer_tags =>
  Some (Ok
    {| dd_site := site var;
       dd_apm_receiver_port :=
         default DEFAULT_APM_RECEIVER_PORT (var "DD_APM_RECEIVER_PORT" ≫= parse_uint u16_max);
       dd_apm_windows_pipe_name := pipe_of "DD_APM_WINDOWS_PIPE_NAME";
       dd_dogstatsd_port := dogstatsd_port (var "DD_DOGSTATSD_PORT") dogstatsd_pipe;
       dd_dogstatsd_windows_pipe_name := dogstatsd_pipe;
       env_type := env_type; app_name := Some name;
       max_request_content_length := 10 * 1024 * 1024;
       obfuscation := obfuscation; os := consts_os;
       config_tags :=
         match var "DD_TAGS" with Some env_tags => from_env_string env_tags | None => tags_new end;
       stats_flush_interval_secs := 3; trace_flush_interval_secs := 3;
       trace_intake := endpoint (trace_url var); trace_stats_intake := endpoint (stats_url var);
       dsm_intake := endpoint (dsm_url var); profiling_intake := endpoint (profiling_url var);
       proxy_request_timeout_secs := 30; proxy_request_max_retries := 3;
       proxy_request_retry_backoff_base_ms := 100; verify_env_timeout_ms := 100;
       enqueue_permit_timeout_secs := 2;
       proxy_url :=
         match var "DD_PROXY_HTTPS" with Some u => Some u | None => var "HTTPS_PROXY" end;
       env := default "none" (var "DD_ENV"); peer_tags := peer_tags;
       experimental_features_enabled := experimental;
       additional_metric_tags :=
         if experimental then
           match var "DD_TRACE_STATS_ADDITIONAL_TAGS" with
           | Some s => if is_empty s then [] else trim_split s
           | None => []
           end
         else [];
       additional_metric_tags_cardinality_limit :=
         if experimental then
           var "DD_TRACE_STATS_ADDITIONAL_TAGS_CARDINALITY_LIMIT" ≫= parse_uint usize_max
         else None;
       agent_stats_computation_enabled := var_is_true (var "DD_AGENT_STATS_COMPUTATION_ENABLED") true;
       error_sampler := parse_error_sampler_config (var "DD_APM_ERROR_TPS");
       error_rare_sample_tracer_drop :=
         match var "DD_APM_FEATURES" with
         | Some raw => error_rare_sample_tracer_drop_enabled raw
         | None => false
         end |})
  end end end end.
End Config.

(** * Facts *)

(** ** Tags *)

(** A key and a value that come from one word. *)
Definition kv_ok (kv : string * string) : Prop :=
  contains_char ":" kv.1 = false ∧ contains_char ":" kv.2 = false ∧
  word (render_kv kv) ∧ Forall (λ a, a ≠ ","%char) (bytes_of (render_kv kv)).

Lemma split_render kv : kv_ok kv → split ":"%char (render_kv kv) = [kv.1; kv.2].
Proof.
  intros (Hk & Hv & _). unfold render_kv. change (":" +:+ kv.2) with (String ":" kv.2).
  by rewrite split_app_sep, split_single.
Qed.

Lemma insert_kv_ok m w :
  word w → Forall (λ a, a ≠ ","%char) (bytes_of w) →
  map_Forall (λ k v, kv_ok (k, v)) m → map_Forall (λ k v, kv_ok (k, v)) (insert_kv m w).
Proof.
  intros Hw Hc Hm. unfold insert_kv. destruct (split ":" w) as [|k [|v [|]]] eqn:E; try done.
  apply map_Forall_insert_2; [|done].
  assert (w = render_kv (k, v)) as -> by (rewrite <- (join_split ":" w), E; done).
  split_and!; [..|done|done]; apply (split_no_sep ":" (render_kv (k, v))); rewrite E; set_solver.
Qed.

Lemma from_env_string_ok s : map_Forall (λ k v, kv_ok (k, v)) (tags (from_env_string s)).
Proof.
  unfold from_env_string. cbn [tags]. set (ws := split_whitespace _).
  assert (Forall word ws) as Hw by apply split_whitespace_words.
  assert (Forall (λ w, Forall (λ a, a ≠ ","%char) (bytes_of w)) ws) as Hc
    by (apply split_ws_aux_forall; [constructor|by apply replace_char_none]).
  clearbody ws. assert (map_Forall (λ k v, kv_ok (k, v)) (∅ : gmap string string)) as Hm by apply map_Forall_empty.
  revert Hm. generalize (∅ : gmap string string) as m.
  induction ws as [|w ws IH]; intros m Hm; [done|]. cbn [fold_left].
  apply Forall_cons in Hw as [? ?], Hc as [? ?]. apply IH; [done..|]. by apply insert_kv_ok.
Qed.

(** Reading rendered pairs inserts them. *)
Lemma insert_rendered l m :
  Forall kv_ok l → NoDup l.*1 → (∀ k, k ∈ l.*1 → m !! k = None) →
  fold_left insert_kv (map render_kv l) m = list_to_map l ∪ m.
Proof.
  revert m. induction l as [|[k v] l IH]; intros m Hok Hnd Hm; [symmetry; apply (left_id_L ∅ (∪))|].
  apply Forall_cons in Hok as [Hkv Hok]. apply NoDup_cons in Hnd as [Hk Hnd].
  cbn [map fold_left list_to_map foldr fst snd]. unfold insert_kv at 2. rewrite split_render by done.
  cbn [fst snd]. rewrite IH; [|done|done|].
  - rewrite <- insert_union_l. rewrite insert_union_r; [done|]. by apply not_elem_of_list_to_map_1.
  - intros k' Hk'. rewrite lookup_insert_ne by (by intros ->). apply Hm. by right.
Qed.

Lemma words_of_rendered l :
  Forall kv_ok l →
  split_whitespace (replace_char "," " " (join "," (map render_kv l))) = map render_kv l.
Proof.
  intros Hok. rewrite replace_join.
  - apply split_whitespace_join. apply Forall_map. eapply Forall_impl; [exact Hok|]. by intros ? (_ & _ & ? & _).
  - apply Forall_map. eapply Forall_impl; [exact Hok|]. by intros ? (_ & _ & _ & ?).
Qed.

(** Reading the tags rendered from the tags of any [DD_TAGS] gives these tags back,
    and the rendering does not depend on the order in which the map is iterated. *)
Theorem tags_roundtrip env_tags :
  let self := from_env_string env_tags in
  from_env_string (default "" (function_tags self)) = self ∧
  ∀ l, l ≡ₚ map_to_list (tags self) → l ≠ [] →
    function_tags self = Some (join "," (merge_sort String.le (map render_kv l))).
Proof.
  intros self. pose proof (from_env_string_ok env_tags) as Hok. fold self in Hok.
  assert (∀ l, l ≡ₚ map_to_list (tags self) →
    merge_sort String.le (map render_kv l) = merge_sort String.le (map render_kv (map_to_list (tags self)))) as Hsort.
  { intros l Hl. apply sort_perm_eq; [apply _..|]. by apply (Permutation_map render_kv). }
  split.
  - unfold function_tags. case_bool_decide as He; cbn [default from_option id].
    { destruct self as [m]. simpl in He. by subst m. }
    pose proof (merge_sort_Permutation String.le (map render_kv (map_to_list (tags self)))) as Hp.
    apply Permutation_map_inv in Hp as (l & El & Hl).
    rewrite El. unfold from_env_string. assert (Forall kv_ok l) as Hl_ok.
    { rewrite <- Hl. apply Forall_forall. intros [k v] Hkv%elem_of_map_to_list. by apply Hok. }
    rewrite words_of_rendered by done.
    rewrite insert_rendered; [|done|rewrite <- Hl; apply NoDup_fst_map_to_list|done].
    rewrite (right_id_L ∅ (∪)). rewrite <- (list_to_map_proper (map_to_list (tags self)) l);
      [|apply NoDup_fst_map_to_list|done].
    rewrite list_to_map_to_list. by destruct self.
  - intros l Hl Hne. unfold function_tags. rewrite bool_decide_false; [by rewrite (Hsort l Hl)|].
    intros He. rewrite He, map_to_list_empty in Hl. by apply Permutation_nil_r in Hl.
Qed.

(** ** Configuration *)

Lemma error_sampler_finite raw :
  is_finite (config_target_tps (parse_error_sampler_config raw)) = true ∧
  mode (parse_error_sampler_config raw) = ModeRateLimited ∧
  extra_sample_rate (parse_error_sampler_config raw) = F64.one.
Proof.
  unfold parse_error_sampler_config. destruct raw as [raw|]; [|done].
  destruct (is_empty _); [done|]. destruct (parse_f64 _) as [tps|]; [|done].
  by destruct (is_finite tps) eqn:E.
Qed.

Lemma dogstatsd_port_range port pipe : 0 ≤ dogstatsd_port port pipe ≤ u16_max.
Proof.
  unfold dogstatsd_port. destruct (port ≫= parse_uint u16_max) as [p|] eqn:E.
  - apply bind_Some in E as (s & _ & Hs). by apply parse_uint_range in Hs.
  - by destruct pipe.
Qed.

Lemma receiver_port_range (port : option string) :
  0 ≤ default DEFAULT_APM_RECEIVER_PORT (port ≫= parse_uint u16_max) ≤ u16_max.
Proof.
  destruct (port ≫= parse_uint u16_max) as [p|] eqn:E; [|done].
  apply bind_Some in E as (? & _ & E). exact (parse_uint_range _ _ _ E).
Qed.

Lemma peer_tag_keys_sorted m ks :
  peer_tag_keys m = Ok ks → StronglySorted String.le ks ∧ NoDup ks.
Proof.
  assert (∀ s : gset string, StronglySorted String.le (merge_sort String.le (elements s)) ∧
    NoDup (merge_sort String.le (elements s))) as Hs.
  { intros s. split; [apply StronglySorted_merge_sort; apply _|].
    rewrite (merge_sort_Permutation String.le (elements s)). apply NoDup_elements. }
  assert (∀ l1 l2 : list string, @Ok _ string l1 = Ok l2 → l1 = l2) as Hinj by congruence.
  unfold peer_tag_keys. destruct m as [concepts|]; [|done]. cbv beta iota zeta delta [result_bind].
  intros E%Hinj. rewrite <- E. apply Hs.
Qed.

Section ConfigFacts.
Context `{ConfigEnv}.

(** The key of a configuration is on its endpoints. *)
Lemma config_has_key var c : config_new var = Some (Ok c) → is_Some (ep_api_key (trace_stats_intake c)).
Proof. unfold config_new. repeat case_match; intros [= <-]; by eexists. Qed.

(** C28: The configuration is an error exactly when the API key, the platform, the
    obfuscation settings or the peer tags are missing, and panics exactly when one of
    the four URLs is not a valid URI.  A configuration has ports within sixteen bits,
    a finite error budget, sorted peer tags without duplicates, the API key on its
    four endpoints, and the experimental settings only when they are enabled. *)
Theorem config_new_spec var :
  let ready := is_Some (var "DD_API_KEY") ∧ is_Some read_cloud_env ∧ is_ok obfuscation_from_env = true in
  let valid := forallb uri_valid (endpoint_urls var) = true in
  (config_new var = None ↔ ready ∧ ¬ valid) ∧
  ((∃ c, config_new var = Some (Ok c)) ↔ ready ∧ valid ∧ is_ok (peer_tag_keys peer_tag_mappings) = true) ∧
  ∀ c, config_new var = Some (Ok c) →
    map ep_url [trace_intake c; trace_stats_intake c; dsm_intake c; profiling_intake c] = endpoint_urls var ∧
    Forall (λ e, ep_api_key e = var "DD_API_KEY")
      [trace_intake c; trace_stats_intake c; dsm_intake c; profiling_intake c] ∧
    0 ≤ dd_apm_receiver_port c ≤ u16_max ∧ 0 ≤ dd_dogstatsd_port c ≤ u16_max ∧
    is_finite (config_target_tps (error_sampler c)) = true ∧
    StronglySorted String.le (peer_tags c) ∧ NoDup (peer_tags c) ∧
    (experimental_features_enabled c = false →
       additional_metric_tags c = [] ∧ additional_metric_tags_cardinality_limit c = None).
Proof.
  cbv zeta. unfold config_new.
  destruct (var "DD_API_KEY") as [key|]; [|naive_solver].
  destruct read_cloud_env as [[name ty]|]; [|naive_solver].
  destruct obfuscation_from_env as [ob|]; [|naive_solver].
  cbv zeta. destruct (forallb uri_valid (endpoint_urls var)) eqn:Ev; cbn [negb]; [|naive_solver].
  destruct (peer_tag_keys peer_tag_mappings) as [ks|] eqn:Ek; [|naive_solver].
  split_and!; [naive_solver|naive_solver|].
  apply peer_tag_keys_sorted in Ek as [Hs Hn].
  intros c [= <-]. cbn [trace_intake trace_stats_intake dsm_intake profiling_intake dd_apm_receiver_port
    dd_dogstatsd_port error_sampler peer_tags experimental_features_enabled additional_metric_tags
    additional_metric_tags_cardinality_limit map ep_url].
  split_and!; try done.
  - repeat constructor.
  - apply receiver_port_range.
  - apply receiver_port_range.
  - apply dogstatsd_port_range.
  - apply dogstatsd_port_range.
  - apply error_sampler_finite.
  - by intros ->.
Qed.
End ConfigFacts.

(** * Examples *)
Module TraceConfigExamples.
Example tags_example :
  function_tags (from_env_string "env:prod, team:a  bad x:y:z,env:dev") = Some "env:dev,team:a".
Proof. vm_compute. reflexivity. Qed.

#[local] Instance lambda_env : ConfigEnv := {|
  obfuscation_config := unit;
  read_cloud_env := Some ("fn", LambdaFunction);
  trace_intake_url site := "https://trace.agent." +:+ site +:+ "/api/v0.2/traces";
  trace_stats_url site := "https://trace.agent." +:+ site +:+ "/api/v0.2/stats";
  trace_intake_url_prefixed p := p +:+ "/api/v0.2/traces";
  trace_stats_url_prefixed p := p +:+ "/api/v0.2/stats";
  obfuscation_from_env := Ok tt;
  uri_valid s := negb (contains_char " " s);
  uri_to_string s := s;
  peer_tag_mappings := Ok (<["peer.service" := ["peer.service"; "db.name"]]> ∅);
  consts_os := "linux";
  windows_pipes := false;
|}.

Definition vars (extra : string * string) (k : string) : option string :=
  if String.eqb k "DD_API_KEY" then Some "key"
  else if String.eqb k extra.1 then Some extra.2 else None.

Example config_example :
  match config_new (vars ("DD_DOGSTATSD_PORT", "70000")) with
  | Some (Ok c) => dd_dogstatsd_port c = 8125 ∧ peer_tags c = ["db.name"; "peer.service"] ∧ dd_site c = "datadoghq.com"
  | _ => False
  end.
Proof. vm_compute. done. Qed.

(** A site with a space makes the construction panic. *)
Example config_panic : config_new (vars ("DD_SITE", "my site")) = None.
Proof. vm_compute. reflexivity. Qed.
End TraceConfigExamples.
