(* ===== verification/Stats.v ===== *)
(** Trace statistics: [datadog-trace-agent/src/stats_concentrator_service.rs],
    [stats_processor.rs] and [stats_flusher.rs].

    libdatadog's span concentrator and the serialization of the statistics are
    parameters. *)
From Stdlib Require Import Ascii SpecFloat.
From S2P Require Import Prelude RStr Actor TraceProcessor.

Definition S_TO_NS : Z := 1000000000.
Definition BUCKET_DURATION_NS : Z := 10 * S_TO_NS.
Definition SPAN_KINDS_STATS_COMPUTED : list string := ["server"; "client"; "producer"; "consumer"].

(** * The concentrator service *)

#[global] Instance metadata_eq_dec : EqDecision TracerMetadata.
Proof. solve_decision. Defined.
#[global] Program Instance metadata_countable : Countable TracerMetadata :=
  inj_countable'
    (λ m, (tracer_language m, md_tracer_version m, service_name m, service_env m,
           service_version m, md_container_id m))
    (λ t, let '(l, v, n, e, s, c) := t in
          {| tracer_language := l; md_tracer_version := v; service_name := n; service_env := e;
             service_version := s; md_container_id := c |}) _.
Next Obligation. by intros []. Qed.

(** libdatadog's [SpanConcentrator]: created with the length of the buckets, the clock,
    the span kinds, the peer tags, the cardinality limit and the additional tags. *)
Class SpanConcentrator `{PbTypes} := {
  concentrator : Type;
  bucket_rest : Type;
  concentrator_new : Z → Z → list string → list string → option Z → list string → concentrator;
  add_span : Span → concentrator → concentrator;
  (** The start of each bucket with its content. *)
  concentrator_flush : Z → bool → concentrator → list (Z * bucket_rest) * concentrator;
}.

Section Stats.
Context `{Hpb : PbTypes, !SpanConcentrator}.

Record ClientStatsBucket := { start : Z; bucket_content : bucket_rest }.

Record ClientStatsPayload := {
  hostname : string;
  env : string;
  version : string;
  lang : string;
  tracer_version : string;
  runtime_id : string;
  sequence : Z;
  agent_aggregation : string;
  service : string;
  container_id : string;
  csp_tags : list string;
  git_commit_sha : string;
  image_tag : string;
  stats : list ClientStatsBucket;
  process_tags : string;
  process_tags_hash : Z;
}.

Record StatsConfig := {
  peer_tags : list string;
  additional_metric_tags : list string;
  additional_metric_tags_cardinality_limit : option Z;
  config_env : string;
}.

(** The order in which the [HashMap] of the concentrators is iterated. *)
Class ConcentratorOrder := concentrator_order :
  gmap TracerMetadata concentrator → list (TracerMetadata * concentrator).
Class ConcentratorOrderLaw `{ConcentratorOrder} :=
  concentrator_order_perm : ∀ m, concentrator_order m ≡ₚ map_to_list m.

Inductive ConcentratorCommand :=
  | AddChunk (chunk : TraceChunk) (metadata : TracerMetadata)
  | Flush (force_flush : bool) (response_tx : nat).

(** A command with the clock the service reads, for a concentrator, on handling it. *)
Definition Timed : Type := ConcentratorCommand * (TracerMetadata → Z).

Inductive StatsResponse := Payloads (tx : nat) (payloads : list ClientStatsPayload).

Context (config : StatsConfig).

Definition new_span_concentrator (now : Z) : concentrator :=
  concentrator_new BUCKET_DURATION_NS now SPAN_KINDS_STATS_COMPUTED (peer_tags config)
    (additional_metric_tags_cardinality_limit config) (additional_metric_tags config).

Definition add_chunk_spans (chunk : TraceChunk) (c : concentrator) : concentrator :=
  fold_left (λ c s, add_span s c) (chunk_spans chunk) c.

(** The payload of a concentrator, unless it has no bucket to send. *)
Definition stats_payload (force : bool) (clock : TracerMetadata → Z)
    (e : TracerMetadata * concentrator) : option ClientStatsPayload :=
  let metadata := e.1 in
  match (concentrator_flush (clock metadata) force e.2).1 with
  | [] => None
  | buckets =>
      Some {| hostname := "";
              env := resolve_payload_env (default "" (service_env metadata)) (config_env config);
              version := default "" (service_version metadata);
              lang := tracer_language metadata;
              tracer_version := md_tracer_version metadata;
              runtime_id := ""; sequence := 0; agent_aggregation := "";
              service := default "" (service_name metadata);
              container_id := default "" (md_container_id metadata);
              csp_tags := []; git_commit_sha := ""; image_tag := "";
              stats := map (λ b, {| start := b.1; bucket_content := b.2 |}) buckets;
              process_tags := ""; process_tags_hash := 0 |}
  end.

Section Service.
Context `{!ConcentratorOrder}.

Definition handle (self : gmap TracerMetadata concentrator) (c : Timed)
    : outcome (gmap TracerMetadata concentrator) StatsResponse :=
  match c.1 with
  | AddChunk chunk metadata =>
      let c := default (new_span_concentrator (c.2 metadata)) (self !! metadata) in
      Continue (<[metadata := add_chunk_spans chunk c]> self) []
  | Flush force tx =>
      Continue (map_imap (λ md c', Some (concentrator_flush (c.2 md) force c').2) self)
        [Payloads tx (omap (stats_payload force c.2) (concentrator_order self))]
  end.

(** [StatsConcentratorService::new], and its handle: [add_chunk], and the two halves of
    [flush] around its wait.  The sends fail once the service is gone. *)
Definition stats_service_new : Service (gmap TracerMetadata concentrator) Timed StatsResponse :=
  service_new ∅.

Definition add_chunk (svc : Service (gmap TracerMetadata concentrator) Timed StatsResponse)
    (chunk : TraceChunk) (metadata : TracerMetadata) (clock : TracerMetadata → Z) :=
  send svc (AddChunk chunk metadata, clock).

Definition flush_send (svc : Service (gmap TracerMetadata concentrator) Timed StatsResponse)
    (force_flush : bool) (response_tx : nat) (clock : TracerMetadata → Z) :=
  send svc (Flush force_flush response_tx, clock).

Definition payloads_for (tx : nat) (r : StatsResponse) : option (list ClientStatsPayload) :=
  match r with Payloads tx' ps => if decide (tx' = tx) then Some ps else None end.

Definition flush_wait (svc : Service (gmap TracerMetadata concentrator) Timed StatsResponse) (tx : nat) :
    option (result (list ClientStatsPayload) unit) :=
  Actor.response (payloads_for tx) svc.
End Service.

(** * The statistics of the tracers *)

(** [process_stats]: [sent] tells whether the flusher is still there.  The answer and
    what is sent to the flusher. *)
Definition process_stats (agent_stats : bool) (max_length : Z) (headers : Headers)
    (decoded : result ClientStatsPayload string) (timestamp_ns : Z) (sent : option string)
    : HttpResponse * list ClientStatsPayload :=
  let reply code text := {| status := code; body := Message text |} in
  if agent_stats then (reply 202 "Dropping trace stats: agent stats computation is enabled", []) else
  match verify_request_content_length headers max_length "Error processing trace stats" with
  | Some response => (response, [])
  | None =>
      match decoded with
      | Err err => (reply 500 ("Error deserializing trace stats from request body: " +:+ err), [])
      | Ok p =>
          let p :=
            match stats p with
            | [] => p
            | b :: bs =>
                {| hostname := hostname p; env := env p; version := version p; lang := lang p;
                   tracer_version := tracer_version p; runtime_id := runtime_id p;
                   sequence := sequence p; agent_aggregation := agent_aggregation p;
                   service := service p; container_id := container_id p; csp_tags := csp_tags p;
                   git_commit_sha := git_commit_sha p; image_tag := image_tag p;
                   stats := {| start := wrap64 timestamp_ns; bucket_content := bucket_content b |} :: bs;
                   process_tags := process_tags p; process_tags_hash := process_tags_hash p |}
            end in
          match sent with
          | None => (reply 202 "Successfully buffered stats to be flushed.", [p])
          | Some err => (reply 500 ("Error sending stats to the stats flusher: " +:+ err), [])
          end
      end
  end.

(** * The flusher *)

(** A call of [send_stats_payload]. *)
Inductive StatsSend :=
  | ClientComputed (client_stats : list ClientStatsPayload)
  | AgentComputed (agent_stats : list ClientStatsPayload).

(** [flush_stats]: [agent] is the answer of the concentrator to the flush, if the
    flusher has one. *)
Definition flush_stats (client_stats : list ClientStatsPayload)
    (agent : option (result (list ClientStatsPayload) string)) : list StatsSend :=
  match client_stats with [] => [] | _ => [ClientComputed client_stats] end ++
  match agent with
  | Some (Ok []) | Some (Err _) | None => []
  | Some (Ok agent_stats) => [AgentComputed agent_stats]
  end.

(** What the loop of [start_stats_flusher] waits for: statistics, a tick, with what the
    concentrator answers, or the shutdown, with the statistics left in the channel. *)
Inductive StatsEvent :=
  | Received (p : ClientStatsPayload)
  | Tick (agent : option (result (list ClientStatsPayload) string))
  | ShutdownSignal (pending : list ClientStatsPayload)
      (agent : option (result (list ClientStatsPayload) string)).

(** The flushes made, each forced or not; the loop ends at the shutdown. *)
Fixpoint stats_loop (buffer : list ClientStatsPayload) (events : list StatsEvent)
    : list (bool * list StatsSend) * option (list ClientStatsPayload) :=
  match events with
  | [] => ([], Some buffer)
  | Received p :: events => stats_loop (buffer ++ [p]) events
  | Tick agent :: events =>
      let '(flushes, rest) := stats_loop [] events in
      (match buffer, agent with
       | [], None => flushes
       | _, _ => (false, flush_stats buffer agent) :: flushes
       end, rest)
  | ShutdownSignal pending agent :: _ => ([(true, flush_stats (buffer ++ pending) agent)], None)
  end.

(** * Facts *)

(** What a command does to the concentrator of one metadata. *)
Definition alone (md : TracerMetadata) (o : option concentrator) (c : Timed) : option concentrator :=
  match c.1 with
  | AddChunk chunk md' =>
      if decide (md' = md) then Some (add_chunk_spans chunk (default (new_span_concentrator (c.2 md)) o))
      else o
  | Flush force _ => (λ c', (concentrator_flush (c.2 md) force c').2) <$> o
  end.

Section ServiceFacts.
Context `{!ConcentratorOrder, !ConcentratorOrderLaw}.

Lemma handle_alone s c :
  ∃ s' rs, handle s c = Continue s' rs ∧ ∀ md, s' !! md = alone md (s !! md) c.
Proof.
  destruct c as [[chunk md'|force tx] clock]; eexists _, _; split; [done| |done|]; intros md;
    unfold alone; cbn [fst snd].
  - case_decide as Hmd; [subst md'; by rewrite lookup_insert_eq|by rewrite lookup_insert_ne].
  - rewrite map_lookup_imap. by destruct (s !! md).
Qed.

Lemma run_alone s cmds :
  ∃ s' rs, run handle s cmds = Some (s', rs) ∧ ∀ md, s' !! md = fold_left (alone md) cmds (s !! md).
Proof.
  revert s. induction cmds as [|c cmds IH]; intros s; [by eexists _, _|].
  destruct (handle_alone s c) as (s1 & rs1 & E & Hm1). destruct (IH s1) as (s2 & rs2 & Er & Hm2).
  cbn [run fold_left]. rewrite E, Er. eexists _, _. split; [done|]. intros md. by rewrite Hm2, Hm1.
Qed.

(** The statistics of different metadata never mix.  Under every interleaving of
    the senders and the service, the concentrator of a metadata is the one fed with
    the chunks of that metadata alone, in the order they were accepted and flushed
    along. *)
Theorem stats_isolation svc :
  rtc (step handle) (service_new (Reply := StatsResponse) ∅) svc →
  ∃ done rest, sent svc = done ++ rest ∧ (stopped svc = false → queue svc = rest) ∧
    ∀ md, state svc !! md = fold_left (alone md) done None.
Proof.
  intros (d & r & Hs & Hrun & Hq & _)%reach_sequential. exists d, r. split_and!; [done|done|].
  intros md. destruct (run_alone ∅ d) as (s' & rs & E & Hmd).
  rewrite Hrun in E. injection E as -> _. by rewrite Hmd, lookup_empty.
Qed.

(** What a running service has handled, and what it has not. *)
Lemma running_alone svc :
  rtc (step handle) (service_new (Reply := StatsResponse) ∅) svc → stopped svc = false →
  ∃ done, sent svc = done ++ queue svc ∧ ∀ md, state svc !! md = fold_left (alone md) done None.
Proof. intros (d & r & Hs & Hq & Hmd)%stats_isolation Hrun. exists d. by rewrite (Hq Hrun). Qed.

(** The metadata with buckets to send. *)
Definition flushed_metadata force clock (l : list (TracerMetadata * concentrator)) : list TracerMetadata :=
  omap (λ e, (λ _, e.1) <$> stats_payload force clock e) l.

Lemma flushed_metadata_spec force clock l :
  Forall2 (λ md p, ∃ c, (md, c) ∈ l ∧ stats_payload force clock (md, c) = Some p)
    (flushed_metadata force clock l) (omap (stats_payload force clock) l) ∧
  flushed_metadata force clock l `sublist_of` l.*1.
Proof.
  induction l as [|[md c] l [IH1 IH2]]; [by split; constructor|].
  assert (Forall2 (λ md' p, ∃ c', (md', c') ∈ (md, c) :: l ∧ stats_payload force clock (md', c') = Some p)
    (flushed_metadata force clock l) (omap (stats_payload force clock) l)) as IH1'.
  { eapply Forall2_impl; [exact IH1|]. intros ?? (c' & ? & ?). exists c'. split; [by right|done]. }
  unfold flushed_metadata. cbn [omap list_omap fmap list_fmap fst].
  destruct (stats_payload force clock (md, c)) as [p|] eqn:E; cbn [fmap option_fmap option_map].
  - split; [constructor; [|done]|by constructor]. exists c. split; [by left|done].
  - split; [done|by constructor].
Qed.

(** A flush answers with exactly one payload for each metadata whose concentrator
    has buckets to send, carrying that metadata, with the environment of the payload
    or else the configured one, and with its buckets. *)
Theorem stats_flush_spec cmds force tx clock :
  ∃ s rs ps,
    run handle ∅ (cmds ++ [(Flush force tx, clock)]) = Some (s, rs ++ [Payloads tx ps]) ∧
    ∃ mds, NoDup mds ∧
      Forall2 (λ md p, ∃ c, fold_left (alone md) cmds None = Some c ∧
                 stats_payload force clock (md, c) = Some p) mds ps ∧
      ∀ md c, fold_left (alone md) cmds None = Some c →
        (concentrator_flush (clock md) force c).1 ≠ [] → md ∈ mds.
Proof.
  destruct (run_alone ∅ cmds) as (s & rs & E & Hs).
  assert (∀ md, s !! md = fold_left (alone md) cmds None) as Hs' by (intros; by rewrite Hs, lookup_empty).
  rewrite (run_snoc _ _ _ _ _ _ E). cbn [handle fst snd]. eexists _, rs, _. split; [done|].
  destruct (flushed_metadata_spec force clock (concentrator_order s)) as [Hf Hsub].
  exists (flushed_metadata force clock (concentrator_order s)). split_and!.
  - eapply sublist_NoDup; [|exact Hsub]. rewrite concentrator_order_perm. apply NoDup_fst_map_to_list.
  - eapply Forall2_impl; [exact Hf|]. intros md p (c & Hc & Hp). exists c. split; [|done].
    rewrite concentrator_order_perm in Hc. apply elem_of_map_to_list in Hc. by rewrite <- Hs'.
  - intros md c Hc Hb. apply list_elem_of_omap. exists (md, c). split.
    + rewrite concentrator_order_perm. apply elem_of_map_to_list. by rewrite Hs'.
    + unfold stats_payload. cbn [fst snd]. by destruct (concentrator_flush _ _ _).1.
Qed.
End ServiceFacts.

(** ** The statistics of the tracers *)

Definition client_computed (l : list StatsSend) : list ClientStatsPayload :=
  l ≫= λ s, match s with ClientComputed ps => ps | AgentComputed _ => [] end.

Definition received (e : StatsEvent) : list ClientStatsPayload :=
  match e with Received p => [p] | Tick _ => [] | ShutdownSignal pending _ => pending end.

Definition is_shutdown (e : StatsEvent) : bool :=
  match e with ShutdownSignal _ _ => true | _ => false end.

Lemma client_computed_flush l agent : client_computed (flush_stats l agent) = l.
Proof.
  destruct l, agent as [[[]|]|]; cbn; by rewrite ?app_nil_r.
Qed.

(** A payload reaches the flusher exactly when the agent does not compute the
    statistics itself, the request is acceptable and decoded and the flusher is there;
    the answer is then 202, and only the start of the first bucket is changed. *)
Lemma process_stats_spec agent_stats max_length headers decoded ts sent :
  let r := process_stats agent_stats max_length headers decoded ts sent in
  (r.2 = [] ∨ ∃ p p', r.2 = [p'] ∧ decoded = Ok p ∧ agent_stats = false ∧ sent = None ∧
     verify_request_content_length headers max_length "Error processing trace stats" = None ∧
     status r.1 = 202 ∧ map bucket_content (stats p') = map bucket_content (stats p) ∧
     tail (stats p') = tail (stats p) ∧
     (stats p ≠ [] → start <$> head (stats p') = Some (wrap64 ts)) ∧
     (env p', version p', lang p', service p', runtime_id p') =
       (env p, version p, lang p, service p, runtime_id p)) ∧
  (agent_stats = false →
   verify_request_content_length headers max_length "Error processing trace stats" = None →
   is_ok decoded = true → sent = None → r.2 ≠ []).
Proof.
  unfold process_stats. destruct agent_stats; cbv zeta; [by split; [left|]|].
  destruct (verify_request_content_length _ _ _); [by split; [left|]|].
  destruct decoded as [p|]; [|by split; [left|]]. destruct sent; [by split; [left|]|].
  split; [|done]. right. eexists p, _. split; [reflexivity|].
  destruct p as [? ? ? ? ? ? ? ? ? ? ? ? ? [|b bs] ? ?]; cbn; split_and!; done.
Qed.

(** A tick sends the buffer and starts a new one. *)
Lemma stats_loop_tick buffer agent events :
  ∃ fs, stats_loop buffer (Tick agent :: events) =
      (fs ++ (stats_loop [] events).1, (stats_loop [] events).2) ∧
    Forall (λ f, f.1 = false) fs ∧ (fs ≫= λ f, client_computed f.2) = buffer.
Proof.
  cbn [stats_loop]. destruct (stats_loop [] events) as [flushes rest]. cbn [fst snd].
  destruct buffer as [|p buffer], agent as [a|].
  2: by exists [].
  all: eexists [_]; split_and!; [done|by repeat constructor|];
    cbn [mbind list_bind fst snd]; by rewrite client_computed_flush, app_nil_r.
Qed.

(** The statistics received from the tracers before the shutdown, and those left
    in the channel then, are each sent exactly once and in order; the loop ends at
    the shutdown with a forced flush, the only forced one, and until then what is
    not sent is in the buffer. *)
Theorem stats_loop_conserves buffer events :
  Forall (λ e, is_shutdown e = false) events →
  (∃ rest, (stats_loop buffer events).2 = Some rest ∧
    buffer ++ (events ≫= received) = ((stats_loop buffer events).1 ≫= λ f, client_computed f.2) ++ rest ∧
    Forall (λ f, f.1 = false) (stats_loop buffer events).1) ∧
  ∀ pending agent later, let r := stats_loop buffer (events ++ ShutdownSignal pending agent :: later) in
    r.2 = None ∧ buffer ++ (events ≫= received) ++ pending = (r.1 ≫= λ f, client_computed f.2) ∧
    ∃ fs sends, r.1 = fs ++ [(true, sends)] ∧ Forall (λ f, f.1 = false) fs.
Proof.
  intros Hev. revert buffer. induction Hev as [|e events He _ IH]; intros buffer.
  - split; [exists buffer; by rewrite app_nil_r|]. intros pending agent later. cbn.
    rewrite app_nil_r, client_computed_flush. split_and!; [done|done|]. by exists [], (flush_stats (buffer ++ pending) agent).
  - destruct e as [p|agent|]; [| |done].
    + destruct (IH (buffer ++ [p])) as [IH1 IH2]. cbn [app stats_loop mbind list_bind received].
      split.
      * destruct IH1 as (rest & E & Hm1 & Hm2). exists rest. by rewrite <- app_assoc in Hm1.
      * intros pending agent later. destruct (IH2 pending agent later) as (E & Hm1 & Hm2).
        by rewrite <- app_assoc in Hm1.
    + destruct (IH []) as [(rest & E & Hm1 & Hm2) IH2]. cbn [app mbind list_bind received] in *.
      destruct (stats_loop_tick buffer agent events) as (fs & -> & Hfs & Hc). cbn [fst snd]. split.
      * exists rest. split_and!; [done| |by apply Forall_app].
        rewrite bind_app, Hc, <- app_assoc. by rewrite <- Hm1.
      * intros pending agent' later.
        destruct (stats_loop_tick buffer agent (events ++ ShutdownSignal pending agent' :: later))
          as (fs' & -> & Hfs' & Hc'). cbn [fst snd].
        destruct (IH2 pending agent' later) as (En & Ec & fs2 & sends & E2 & Hf2).
        split_and!; [done|by rewrite bind_app, Hc', <- Ec|].
        exists (fs' ++ fs2), sends. rewrite E2, app_assoc. split; [done|by apply Forall_app].
Qed.
End Stats.

(** * Witnesses *)
Module StatsExamples.
Import TraceProcessorExamples.
#[local] Existing Instance types.

(** A concentrator that counts its spans. *)
#[local] Instance counter : SpanConcentrator := {|
  concentrator := Z; bucket_rest := Z;
  concentrator_new _ _ _ _ _ _ := 0;
  add_span _ n := n + 1;
  concentrator_flush now force n := (if force && (0 <? n) then [(now, n)] else [], if force then 0 else n);
|}.
#[local] Instance conc_order : ConcentratorOrder := map_to_list.
#[local] Instance conc_order_law : ConcentratorOrderLaw.
Proof. intros m. done. Qed.

Definition stats_config : StatsConfig :=
  {| peer_tags := []; additional_metric_tags := [];
     additional_metric_tags_cardinality_limit := None; config_env := "prod" |}.
Definition md (service : string) : TracerMetadata :=
  {| tracer_language := "rust"; md_tracer_version := "1"; service_name := Some service;
     service_env := None; service_version := None; md_container_id := None |}.
Definition at_time (t : Z) (c : ConcentratorCommand) : Timed := (c, λ _, t).

(** The service after a chunk sent and handled, a second one queued. *)
Definition svc1 : Service (gmap TracerMetadata concentrator) Timed StatsResponse :=
  {| state := <[md "a" := 1]> ∅; queue := [at_time 6 (AddChunk healthy (md "b"))]; stopped := false;
     answered := [];
     sent := [at_time 5 (AddChunk healthy (md "a")); at_time 6 (AddChunk healthy (md "b"))] |}.

Lemma stats_isolation_witness : state svc1 !! md "a" = Some 1 ∧ state svc1 !! md "b" = None.
Proof.
  destruct (stats_isolation stats_config svc1) as (d & r & Hs & Hq & Hmd).
  - eapply rtc_l; [by apply (step_send _ _ (at_time 5 (AddChunk healthy (md "a"))))|].
    eapply rtc_l; [by apply (step_send _ _ (at_time 6 (AddChunk healthy (md "b"))))|].
    eapply rtc_l; [by apply step_recv|]. reflexivity.
  - specialize (Hq eq_refl). subst r.
    apply (app_inv_tail (queue svc1) [at_time 5 (AddChunk healthy (md "a"))]) in Hs as <-.
    rewrite !Hmd. split; reflexivity.
Defined.

Definition a_md_payload : ClientStatsPayload :=
  {| hostname := ""; env := "prod"; version := ""; lang := "rust"; tracer_version := "1";
     runtime_id := ""; sequence := 0; agent_aggregation := ""; service := "a"; container_id := "";
     csp_tags := []; git_commit_sha := ""; image_tag := "";
     stats := [{| start := 9; bucket_content := 1 |}]; process_tags := ""; process_tags_hash := 0 |}.

Lemma stats_flush_spec_witness : ∃ s rs ps,
  run (handle stats_config) ∅ ([at_time 5 (AddChunk healthy (md "a"))] ++ [at_time 9 (Flush true 0)]) =
    Some (s, rs ++ [Payloads 0 ps]) ∧ length ps = 1%nat ∧ map env ps = ["prod"].
Proof.
  destruct (stats_flush_spec stats_config [at_time 5 (AddChunk healthy (md "a"))] true 0 (λ _, 9))
    as (s & rs & ps & E & mds & _ & Hf & _).
  exists s, rs, ps. split; [exact E|].
  assert (snd <$> Some (s, rs ++ [Payloads 0 ps]) = Some ([] ++ [Payloads 0 [a_md_payload]])) as E2
    by (rewrite <- E; vm_compute; reflexivity).
  apply (f_equal (default [])) in E2. cbn [fmap option_fmap option_map snd default from_option] in E2.
  apply app_inj_tail in E2 as [_ E2]. injection E2 as ->. split; reflexivity.
Defined.

Definition a_payload : ClientStatsPayload :=
  {| hostname := ""; env := "e"; version := ""; lang := ""; tracer_version := ""; runtime_id := "r";
     sequence := 0; agent_aggregation := ""; service := "s"; container_id := ""; csp_tags := [];
     git_commit_sha := ""; image_tag := ""; stats := []; process_tags := ""; process_tags_hash := 0 |}.

Lemma stats_loop_conserves_witness :
  ((stats_loop [] [Received a_payload; Tick None; Received a_payload]).1 ≫= λ f, client_computed f.2) = [a_payload] ∧
  (stats_loop [] ([Received a_payload; Tick None] ++ ShutdownSignal [a_payload] None :: [])).2 = None.
Proof.
  split.
  - destruct (stats_loop_conserves [] [Received a_payload; Tick None; Received a_payload])
      as [(rest & Hr & Hc & _) _]; [by repeat constructor|].
    injection Hr as <-. symmetry. apply (app_inv_tail [a_payload]). exact Hc.
  - apply (stats_loop_conserves [] [Received a_payload; Tick None]). by repeat constructor.
Defined.
End StatsExamples.
