(* ===== verification/ProxyFlusher.v ===== *)
(** Proxied requests (profiling and data streams): [datadog-trace-agent/src/proxy_flusher.rs]
    and [proxy_handler] of [mini_agent.rs].

    The values of the HTTP headers and their conversions are those of the [http] crate:
    parameters.  A header map maps the lower-case name of a header to its values: reading
    gives the first one, inserting replaces them, removing drops them. *)
From Stdlib Require Import Ascii SpecFloat.
From S2P Require Import Prelude RStr TraceProcessor TraceConfig.

Class HeaderValues := {
  header_value : Type;
  header_to_str : header_value → result string string;
  header_parse : string → result header_value string;
}.

Definition DD_ADDITIONAL_TAGS_HEADER : string := "x-datadog-additional-tags".

Definition get_dd_origin (env_type : EnvironmentType) : string :=
  match env_type with
  | AzureFunction => "azurefunction"
  | CloudFunction => "cloudrun"
  | _ => "unknown"
  end.

Inductive ProxyRequestKind := DataStreams | Profiling.

Definition kind_name (k : ProxyRequestKind) : string :=
  match k with DataStreams => "data streams" | Profiling => "profiling" end.
Definition request_name (k : ProxyRequestKind) : string :=
  match k with DataStreams => "data streams request" | Profiling => "profiling request" end.

Definition push_unique_tag (tags : list string) (tag : string) : list string :=
  if bool_decide (tag ∈ tags) then tags else tags ++ [tag].

Definition is_tag_separator (c : ascii) : bool :=
  bool_decide (c = ","%char) || bool_decide (c = ";"%char).
Definition parse_additional_tags (tag_string : string) : list string :=
  filter (λ tag, is_empty tag = false) (map trim (split_by is_tag_separator tag_string)).

Section Proxy.
Context `{ConfigEnv, HeaderValues}.

Abbreviation HeaderMap := (gmap string (list header_value)).

Definition header_get (headers : HeaderMap) (name : string) : option header_value :=
  match headers !! name with Some (v :: _) => Some v | _ => None end.

Record ProxyRequest := {
  headers : HeaderMap;
  body : list ascii;
  target_url : string;
  kind : ProxyRequestKind;
}.

(** What [create_request] builds: a POST. *)
Record OutRequest := {
  out_url : string;
  out_headers : HeaderMap;
  out_timeout_secs : Z;
  out_body : list ascii;
}.

Context (config : Config).

Definition intake_url (k : ProxyRequestKind) : string :=
  match k with
  | DataStreams => uri_to_string (ep_url (dsm_intake config))
  | Profiling => uri_to_string (ep_url (profiling_intake config))
  end.

Definition api_key_for_kind (k : ProxyRequestKind) : option string :=
  match k with
  | DataStreams => ep_api_key (dsm_intake config)
  | Profiling => ep_api_key (profiling_intake config)
  end.

Definition merged_additional_tags (headers : HeaderMap) : result (list string) string :=
  let? tags :=
    match header_get headers DD_ADDITIONAL_TAGS_HEADER with
    | None => Ok []
    | Some v =>
        match header_to_str v with
        | Err e => Err ("Failed to parse existing additional tags header: " +:+ e)
        | Ok existing_tags => Ok (fold_left push_unique_tag (parse_additional_tags existing_tags) [])
        end
    end in
  match function_tags (config_tags config) with
  | None => Ok tags
  | Some function_tags => Ok (fold_left push_unique_tag (parse_additional_tags function_tags) tags)
  end.

Definition create_request (request : ProxyRequest) : result OutRequest string :=
  match api_key_for_kind (kind request) with
  | None => Err ("No API key configured for " +:+ kind_name (kind request))
  | Some api_key =>
      let headers := delete "content-length" (delete "host" (headers request)) in
      let? additional_tags := merged_additional_tags headers in
      let additional_tags :=
        push_unique_tag additional_tags ("functionname:" +:+ default "" (app_name config)) in
      let additional_tags :=
        push_unique_tag additional_tags ("_dd.origin:" +:+ get_dd_origin (env_type config)) in
      let? headers :=
        match additional_tags with
        | [] => Ok headers
        | _ =>
            match header_parse (join "," additional_tags) with
            | Ok parsed_tags => Ok (<[DD_ADDITIONAL_TAGS_HEADER := [parsed_tags]]> headers)
            | Err e => Err ("Failed to parse additional tags header: " +:+ e)
            end
        end in
      match header_parse api_key with
      | Ok parsed_key =>
          Ok {| out_url := target_url request;
                out_headers := <["dd-api-key" := [parsed_key]]> headers;
                out_timeout_secs := proxy_request_timeout_secs config;
                out_body := body request |}
      | Err e => Err ("Failed to parse API key: " +:+ e)
      end
  end.

(** * Sending *)

(** The requests sent and the pauses made, in milliseconds. *)
Inductive ProxyAction := Post (r : OutRequest) | Sleep (ms : Z).

Inductive ProxyFate := NotBuilt (e : string) | Answered (status : Z) | GaveUp.

(** What the network answers to an attempt: a status, or an error. *)
Context (net : Z → result Z string).

(** The loop of [send_request] with fuel; [None] when out of fuel.  The pause wraps as
    the arithmetic of a release build does. *)
Fixpoint send_loop (fuel : nat) (request : ProxyRequest) (attempts : Z)
    : option (list ProxyAction * ProxyFate) :=
  match fuel with
  | O => None
  | S fuel =>
      let attempts := attempts + 1 in
      match create_request request with
      | Err e => Some ([], NotBuilt e)
      | Ok builder =>
          match net attempts with
          | Ok status => Some ([Post builder], Answered status)
          | Err _ =>
              if proxy_request_max_retries config <=? attempts then Some ([Post builder], GaveUp)
              else
                let backoff_ms :=
                  wrap64 (proxy_request_retry_backoff_base_ms config * wrap64 (2 ^ (attempts - 1))) in
                match send_loop fuel request attempts with
                | Some (actions, fate) => Some (Post builder :: Sleep backoff_ms :: actions, fate)
                | None => None
                end
          end
      end
  end.

Definition send_request (request : ProxyRequest) : option (list ProxyAction * ProxyFate) :=
  send_loop (S (Z.to_nat (proxy_request_max_retries config))) request 0.
End Proxy.

(** * The handler *)

Section Handler.
Context `{ConfigEnv, HeaderValues}.

(** [proxy_handler]: [sent] is the error of the channel, if any.  The answer and what
    is sent to the flusher. *)
Definition proxy_handler (config : Config) (checked : Headers) (request_headers : gmap string (list header_value))
    (read : result (list ascii) string) (proxy_kind : ProxyRequestKind) (sent : option string)
    : HttpResponse * option ProxyRequest :=
  let name := request_name proxy_kind in
  let reply code text := {| status := code; TraceProcessor.body := Message text |} in
  match verify_request_content_length checked (max_request_content_length config)
          ("Error processing " +:+ name) with
  | Some response => (response, None)
  | None =>
      match read with
      | Err e => (reply 400 ("Error reading " +:+ name +:+ " body: " +:+ e), None)
      | Ok body_bytes =>
          match sent with
          | None =>
              (reply 200 ("Successfully buffered " +:+ name +:+ " to be flushed"),
               Some {| headers := request_headers; body := body_bytes;
                       target_url := intake_url config proxy_kind; kind := proxy_kind |})
          | Some err =>
              (reply 500 ("Error sending " +:+ name +:+ " to the proxy flusher: " +:+ err), None)
          end
      end
  end.
End Handler.

(** [start_proxy_flusher]: the requests of the channel until it is closed, one after the
    other, each with what the network answers to its attempts. *)
Definition start_proxy_flusher `{ConfigEnv, HeaderValues} (config : Config)
    (rx : list (ProxyRequest * (Z → result Z string))) : option (list (list ProxyAction * ProxyFate)) :=
  mapM (λ x, send_request config x.2 x.1) rx.

(** * Facts *)

(** The elements of a list at their first occurrence. *)
Definition firsts (l : list string) : list string := fold_left push_unique_tag l [].

Lemma push_elem tags tag x : x ∈ push_unique_tag tags tag ↔ x ∈ tags ∨ x = tag.
Proof. unfold push_unique_tag. case_bool_decide; set_solver. Qed.
Lemma push_nodup tags tag : NoDup tags → NoDup (push_unique_tag tags tag).
Proof.
  unfold push_unique_tag. case_bool_decide; [done|]. intros. apply NoDup_app. split_and!; [done|set_solver|].
  apply NoDup_singleton.
Qed.

Lemma firsts_app l1 l2 : firsts (l1 ++ l2) = fold_left push_unique_tag l2 (firsts l1).
Proof. apply fold_left_app. Qed.

Lemma pushes_spec l tags :
  (NoDup tags → NoDup (fold_left push_unique_tag l tags)) ∧
  (∀ x, x ∈ fold_left push_unique_tag l tags ↔ x ∈ tags ∨ x ∈ l) ∧
  tags `prefix_of` fold_left push_unique_tag l tags.
Proof.
  revert tags. induction l as [|y l IH]; intros tags; cbn [fold_left].
  - split_and!; [done|set_solver|done].
  - destruct (IH (push_unique_tag tags y)) as (IH1 & IH2 & IH3). split_and!.
    + intros. by apply IH1, push_nodup.
    + intros x. rewrite IH2, push_elem. set_solver.
    + etrans; [|exact IH3]. unfold push_unique_tag. case_bool_decide; [done|by apply prefix_app_r].
Qed.

Lemma firsts_spec l : NoDup (firsts l) ∧ ∀ x, x ∈ firsts l ↔ x ∈ l.
Proof.
  destruct (pushes_spec l []) as (H1 & H2 & _). split; [apply H1; constructor|].
  intros x. unfold firsts. rewrite H2. set_solver.
Qed.

Section ProxyFacts.
Context `{ConfigEnv, HeaderValues}.

(** The tags of a proxied request before deduplication. *)
Definition all_tags (config : Config) (existing : list string) : list string :=
  existing ++ parse_additional_tags (default "" (function_tags (config_tags config))) ++
  ["functionname:" +:+ default "" (app_name config); "_dd.origin:" +:+ get_dd_origin (env_type config)].

Definition existing_tags_ok (hs : gmap string (list header_value)) (existing : list string) : Prop :=
  match header_get hs DD_ADDITIONAL_TAGS_HEADER with
  | Some v => ∃ s, header_to_str v = Ok s ∧ existing = parse_additional_tags s
  | None => existing = []
  end.

Lemma merged_tags config hs tags :
  merged_additional_tags config hs = Ok tags →
  ∃ existing, existing_tags_ok hs existing ∧
    tags = firsts (existing ++ parse_additional_tags (default "" (function_tags (config_tags config)))).
Proof.
  unfold merged_additional_tags, existing_tags_ok.
  assert (∀ existing, match function_tags (config_tags config) with
    | None => @Ok _ string (firsts existing)
    | Some ft => Ok (fold_left push_unique_tag (parse_additional_tags ft) (firsts existing))
    end = Ok tags →
    tags = firsts (existing ++ parse_additional_tags (default "" (function_tags (config_tags config))))) as Hft.
  { intros existing. destruct (function_tags (config_tags config)); intros [= <-]; [by rewrite firsts_app|].
    by rewrite app_nil_r. }
  destruct (header_get hs _) as [v|]; cbn [result_bind].
  - destruct (header_to_str v) as [s|]; cbn [result_bind]; [|done]. intros Ht. exists (parse_additional_tags s).
    split; [eauto|by apply Hft].
  - intros Ht. exists []. split; [done|by apply Hft].
Qed.

(** A proxied request goes to its target with its body and its headers, except that
    the host and the length are dropped, the key of its intake is set, and the tags
    header lists each tag once: those it came with, the function tags, the function
    name and the origin, in this order. *)
Theorem create_request_spec config request out :
  create_request config request = Ok out →
  ∃ key existing tags_value key_value,
    api_key_for_kind config (kind request) = Some key ∧ header_parse key = Ok key_value ∧
    existing_tags_ok (headers request) existing ∧
    let tags := firsts (all_tags config existing) in
    header_parse (join "," tags) = Ok tags_value ∧
    NoDup tags ∧ (∀ x, x ∈ tags ↔ x ∈ all_tags config existing) ∧
    out_url out = target_url request ∧ out_body out = body request ∧
    out_timeout_secs out = proxy_request_timeout_secs config ∧
    out_headers out !! DD_ADDITIONAL_TAGS_HEADER = Some [tags_value] ∧
    out_headers out !! "dd-api-key" = Some [key_value] ∧
    out_headers out !! "host" = None ∧ out_headers out !! "content-length" = None ∧
    ∀ name, name ∉ [DD_ADDITIONAL_TAGS_HEADER; "dd-api-key"; "host"; "content-length"] →
      out_headers out !! name = headers request !! name.
Proof.
  unfold create_request. destruct (api_key_for_kind config (kind request)) as [key|]; [|done]. cbv zeta.
  set (hs := delete "content-length" (delete "host" (headers request))).
  destruct (merged_additional_tags config hs) as [tags|] eqn:Em; [|done]. cbn [result_bind].
  apply merged_tags in Em as (existing & Hex & Et).
  assert (push_unique_tag (push_unique_tag tags ("functionname:" +:+ default "" (app_name config)))
    ("_dd.origin:" +:+ get_dd_origin (env_type config)) = firsts (all_tags config existing)) as ->.
  { subst tags. unfold all_tags. by rewrite app_assoc, (firsts_app (existing ++ _)). }
  destruct (firsts_spec (all_tags config existing)) as [Hnd Hin].
  destruct (firsts (all_tags config existing)) as [|t ts] eqn:Ef.
  { exfalso. apply (not_elem_of_nil ("_dd.origin:" +:+ get_dd_origin (env_type config))), Hin.
    unfold all_tags. set_solver. }
  destruct (header_parse (join "," (t :: ts))) as [tv|] eqn:Ev; [|done]. cbn [result_bind].
  destruct (header_parse key) as [kv|] eqn:Ek; [|done]. intros [= <-].
  exists key, existing, tv, kv. rewrite Ef. cbn [out_url out_body out_timeout_secs out_headers].
  unfold existing_tags_ok, header_get in *. subst hs. rewrite !lookup_delete_ne in Hex by done.
  split_and!; try done.
  - by rewrite lookup_insert_ne, lookup_insert_eq.
  - by rewrite lookup_insert_eq.
  - by rewrite !lookup_insert_ne, lookup_delete_ne, lookup_delete_eq.
  - by rewrite !lookup_insert_ne, lookup_delete_eq.
  - intros name Hn. rewrite !not_elem_of_cons in Hn. destruct Hn as (? & ? & ? & ? & _).
    by rewrite !lookup_insert_ne, !lookup_delete_ne.
Qed.

(** The requests of a run of [n] failed attempts followed by another one. *)
Fixpoint attempts_made (config : Config) (out : OutRequest) (n : nat) (k : Z) : list ProxyAction :=
  match n with
  | O => [Post out]
  | S n =>
      Post out :: Sleep (wrap64 (proxy_request_retry_backoff_base_ms config * wrap64 (2 ^ k))) ::
      attempts_made config out n (k + 1)
  end.

Lemma proxy_loop_spec config net request out fuel attempts :
  create_request config request = Ok out → 0 ≤ attempts →
  (Z.to_nat (proxy_request_max_retries config - attempts) < fuel)%nat →
  ∃ n fate, send_loop config net fuel request attempts =
      Some (attempts_made config out n attempts, fate) ∧
    (∀ i, attempts < i ≤ attempts + Z.of_nat n → is_ok (net i) = false ∧ i < proxy_request_max_retries config) ∧
    match fate with
    | NotBuilt _ => False
    | Answered st => net (attempts + Z.of_nat n + 1) = Ok st
    | GaveUp => is_ok (net (attempts + Z.of_nat n + 1)) = false ∧
                proxy_request_max_retries config ≤ attempts + Z.of_nat n + 1
    end.
Proof.
  intros Hc. revert attempts. induction fuel as [|fuel IH]; intros attempts Ha Hf; [lia|].
  cbn [send_loop]. rewrite Hc. destruct (net (attempts + 1)) as [st|e] eqn:En.
  - exists 0%nat, (Answered st). split_and!; [done|lia|]. by replace (attempts + Z.of_nat 0 + 1) with (attempts + 1) by lia.
  - destruct (Z.leb_spec (proxy_request_max_retries config) (attempts + 1)) as [Hm|Hm].
    + exists 0%nat, GaveUp. replace (attempts + Z.of_nat 0 + 1) with (attempts + 1) by lia.
      rewrite En. split_and!; [done|lia|done|lia].
    + destruct (IH (attempts + 1)) as (n & fate & E & Hall & Hfate); [lia|lia|].
      rewrite E. exists (S n), fate. cbn [attempts_made].
      replace (attempts + 1 - 1) with attempts by lia. split_and!; [done| |].
      * intros i Hi. destruct (decide (i = attempts + 1)) as [->|]; [by rewrite En|]. apply Hall. lia.
      * by replace (attempts + Z.of_nat (S n) + 1) with (attempts + 1 + Z.of_nat n + 1) by lia.
Qed.

(** Sending a proxied request always ends.  A request that cannot be built is not
    sent; otherwise only network errors are retried, with a pause that doubles each
    time, at most up to the configured number of attempts, and the first answer,
    whatever its status, is the last attempt. *)
Theorem proxy_send_spec config net request :
  match create_request config request with
  | Err e => send_request config net request = Some ([], NotBuilt e)
  | Ok out =>
      ∃ n fate, send_request config net request = Some (attempts_made config out n 0, fate) ∧
        Z.of_nat n < Z.max 1 (proxy_request_max_retries config) ∧
        (∀ i, 1 ≤ i ≤ Z.of_nat n → is_ok (net i) = false) ∧
        match fate with
        | NotBuilt _ => False
        | Answered st => net (Z.of_nat n + 1) = Ok st
        | GaveUp => is_ok (net (Z.of_nat n + 1)) = false ∧
                    Z.of_nat n + 1 = Z.max 1 (proxy_request_max_retries config)
        end
  end.
Proof.
  destruct (create_request config request) as [out|e] eqn:Ec; [|unfold send_request; cbn [send_loop]; by rewrite Ec].
  destruct (proxy_loop_spec config net request out (S (Z.to_nat (proxy_request_max_retries config))) 0 Ec)
    as (n & fate & E & Hall & Hfate); [lia|lia|].
  exists n, fate. rewrite Z.add_0_l in Hfate. split_and!; [exact E| | |].
  - destruct n as [|n]; [lia|]. destruct (Hall (Z.of_nat (S n))); lia.
  - intros i Hi. apply Hall. lia.
  - destruct fate; [done|done|]. destruct Hfate. split; [done|].
    destruct n as [|n]; [lia|]. destruct (Hall (Z.of_nat (S n))); lia.
Qed.

Definition posts (actions : list ProxyAction) : nat :=
  length (omap (λ a, match a with Post r => Some r | Sleep _ => None end) actions).

Lemma attempts_made_posts config out n k : posts (attempts_made config out n k) = S n.
Proof. unfold posts. revert k. induction n as [|n IH]; intros k; [done|]. cbn. by rewrite IH. Qed.

(** Serving the channel always ends, whatever the network does: the requests are dealt
    with in order, one that cannot be built does not keep the others from being sent,
    and the attempts are at most the configured number for each. *)
Theorem proxy_flusher_serves config rx :
  ∃ outcomes, start_proxy_flusher config rx = Some outcomes ∧
    Forall2 (λ x o, send_request config x.2 x.1 = Some o ∧
               Z.of_nat (posts o.1) ≤ Z.max 1 (proxy_request_max_retries config) ∧
               (posts o.1 = O ↔ is_ok (create_request config x.1) = false)) rx outcomes.
Proof.
  unfold start_proxy_flusher. induction rx as [|[request net] rx (outcomes & E & Hall)]; [by exists []|].
  pose proof (proxy_send_spec config net request) as Hs. cbn [mapM fst snd].
  destruct (create_request config request) as [out|e] eqn:Ec.
  - destruct Hs as (n & fate & Es & Hn & _). exists ((attempts_made config out n 0, fate) :: outcomes).
    rewrite Es, E. split; [done|]. constructor; [|done]. cbn [fst snd]. rewrite Ec, attempts_made_posts.
    split_and!; [done|lia|done].
  - exists (([], NotBuilt e) :: outcomes). rewrite Hs, E. split; [done|]. constructor; [|done].
    cbn [fst snd]. rewrite Ec. split_and!; [done|cbn; lia|done].
Qed.
End ProxyFacts.

(** * Witnesses *)
Module ProxyExamples.
Import TraceConfigExamples.
#[local] Existing Instance lambda_env.
#[local] Instance values : HeaderValues :=
  {| header_value := string; header_to_str := Ok; header_parse := Ok |}.

Definition build : option (result Config string) := config_new (vars ("DD_TAGS", "env:prod,team:a")).
Definition build_ok : match build with Some (Ok _) => True | _ => False end.
Proof. vm_compute. exact I. Defined.
Definition config1 : Config :=
  match build as b return match b with Some (Ok _) => True | _ => False end → Config with
  | Some (Ok c) => λ _, c
  | _ => λ absurd, match absurd with end
  end build_ok.

Definition request1 : ProxyRequest :=
  {| headers := <["host" := ["localhost"]]> (<[DD_ADDITIONAL_TAGS_HEADER := ["team:a; x:y"]]> ∅);
     body := []; target_url := "https://intake"; kind := Profiling |}.

Lemma create_request_spec_witness : ∃ out,
  create_request config1 request1 = Ok out ∧
  out_headers out !! DD_ADDITIONAL_TAGS_HEADER = Some ["team:a,x:y,env:prod,functionname:fn,_dd.origin:unknown"] ∧
  out_headers out !! "host" = None.
Proof.
  destruct (create_request config1 request1) as [out|] eqn:E; [|exfalso; by vm_compute in E].
  exists out. split; [done|].
  destruct (create_request_spec config1 request1 out E)
    as (key & existing & tv & kv & _ & _ & (s & [= <-] & ->) & Hp & _ & _ & _ & _ & _ & Ht & _ & Hh & _).
  split; [|exact Hh]. refine (eq_trans Ht _).
  assert (header_parse (join "," (firsts (all_tags config1 (parse_additional_tags "team:a; x:y")))) =
    Ok "team:a,x:y,env:prod,functionname:fn,_dd.origin:unknown") as Hv by (vm_compute; reflexivity).
  assert (@Ok _ string tv = Ok "team:a,x:y,env:prod,functionname:fn,_dd.origin:unknown") as Etv
    by (rewrite <- Hp; exact Hv).
  by injection Etv as ->.
Defined.
End ProxyExamples.
