(* ===== verification/EnvVerifier.v ===== *)
(** Verification of the platform: [datadog-trace-agent/src/env_verifier.rs].

    The replies of the metadata server, the directories and the default metadata of
    libdatadog are parameters. *)
From Stdlib Require Import Ascii.
From S2P Require Import Prelude RStr TraceConfig.

Definition AZURE_HOST_JSON_NAME : string := "host.json".
Definition AZURE_FUNCTION_JSON_NAME : string := "function.json".
Definition AZURE_LINUX_FUNCTION_ROOT_PATH_STR : string := "/home/site/wwwroot".
Definition AZURE_WINDOWS_FUNCTION_ROOT_PATH_STR : string := "C:\home\site\wwwroot".
Definition DD_AZURE_RESOURCE_GROUP : string := "DD_AZURE_RESOURCE_GROUP".
(** libdatadog's [azure_app_services::WEBSITE_SKU]. *)
Definition WEBSITE_SKU : string := "WEBSITE_SKU".

Record GCPMetadata := { region : string; project_id : string }.
Definition gcp_default : GCPMetadata := {| region := "unknown"; project_id := "unknown" |}.

(** libdatadog's [MiniAgentMetadata]. *)
Record MiniAgentMetadata := {
  azure_spring_app_hostname : option string;
  azure_spring_app_name : option string;
  gcp_project_id : option string;
  gcp_region : option string;
  version : option string;
}.

Definition get_region_from_gcp_region_string (str : string) : string :=
  let split_str := split "/" str in
  if negb (length split_str =? 4)%nat then "unknown" else
  match last split_str with
  | Some res => res
  | None => "unknown"
  end.

(** * Google Cloud *)

(** A reply of the metadata server: the [Server] header, and what its body decodes to. *)
Record MetadataReply := {
  server : option string;
  decoded : result GCPMetadata string;
}.

Definition ensure_gcp_function_environment (reply : result MetadataReply string)
    : result GCPMetadata string :=
  match reply with
  | Err err => Err ("Can't communicate with Google Metadata Server. Error: " +:+ err)
  | Ok response =>
      match server response with
      | None => Err "In Google Cloud, but server identifier not found."
      | Some val =>
          if negb (String.eqb val "Metadata Server for Serverless")
          then Err "In Google Cloud, but not in a function environment."
          else
            match decoded response with
            | Ok res => Ok res
            | Err _ => Ok gcp_default
            end
      end
  end.

(** * Azure *)

Record DirEntry := {
  entry_name : string;
  is_dir : result bool string;
  children : result (list (result string string)) string;
}.

Fixpoint push_names (l : list (result string string)) (file_names : list string)
    : result (list string) string :=
  match l with
  | [] => Ok file_names
  | Err e :: _ => Err e
  | Ok n :: l => push_names l (file_names ++ [n])
  end.

Fixpoint root_files (entries : list (result DirEntry string)) (file_names : list string)
    : result (list string) string :=
  match entries with
  | [] => Ok file_names
  | Err e :: _ => Err e
  | Ok entry :: entries =>
      if String.eqb (entry_name entry) "node_modules" then root_files entries file_names else
      let file_names := file_names ++ [entry_name entry] in
      let? d := is_dir entry in
      if d then
        let? sub_entries := children entry in
        let? file_names := push_names sub_entries file_names in
        root_files entries file_names
      else root_files entries file_names
  end.

Definition get_function_root_files (read_dir : result (list (result DirEntry string)) string)
    : result (list string) string :=
  let? entries := read_dir in root_files entries [].

Section Verifier.
(** The directories and the environment. *)
Context (fs : string → result (list (result DirEntry string)) string) (var : string → option string).

Definition ensure_azure_function_environment (os : string) : result unit string :=
  let? function_files :=
    if String.eqb os "linux" then get_function_root_files (fs AZURE_LINUX_FUNCTION_ROOT_PATH_STR)
    else if String.eqb os "windows" then get_function_root_files (fs AZURE_WINDOWS_FUNCTION_ROOT_PATH_STR)
    else Err "The Serverless Mini Agent does not support this platform." in
  let host_json_exists := existsb (λ f, String.eqb f AZURE_HOST_JSON_NAME) function_files in
  let function_json_exists := existsb (λ f, String.eqb f AZURE_FUNCTION_JSON_NAME) function_files in
  if negb host_json_exists && negb function_json_exists
  then Err "Failed to validate an Azure Function directory system."
  else Ok tt.

Definition is_azure_flex_without_resource_group : bool :=
  match var WEBSITE_SKU with
  | Some sku => String.eqb sku "FlexConsumption"
  | None => false
  end &&
  match var DD_AZURE_RESOURCE_GROUP with Some _ => false | None => true end.

(** [None] is [process::exit(1)]. *)
Definition verify_azure_environment_or_exit (os : string) : option unit :=
  match ensure_azure_function_environment os with
  | Err _ => None
  | Ok _ => if is_azure_flex_without_resource_group then None else Some tt
  end.

Context (metadata_default : MiniAgentMetadata).

(** [reply] is [None] when the metadata server did not answer in time. *)
Definition verify_gcp_environment_or_exit (reply : option (result MetadataReply string))
    : option MiniAgentMetadata :=
  let metadata (m : GCPMetadata) :=
    {| azure_spring_app_hostname := azure_spring_app_hostname metadata_default;
       azure_spring_app_name := azure_spring_app_name metadata_default;
       gcp_project_id := Some (project_id m);
       gcp_region := Some (get_region_from_gcp_region_string (region m));
       version := version metadata_default |} in
  match reply with
  | None => Some (metadata gcp_default)
  | Some r =>
      match ensure_gcp_function_environment r with
      | Ok m => Some (metadata m)
      | Err _ => None
      end
  end.

Definition verify_environment (reply : option (result MetadataReply string))
    (env_type : EnvironmentType) (os : string) : option MiniAgentMetadata :=
  match env_type with
  | AzureFunction =>
      match verify_azure_environment_or_exit os with Some _ => Some metadata_default | None => None end
  | CloudFunction => verify_gcp_environment_or_exit reply
  | AzureSpringApp =>
      Some {| azure_spring_app_hostname := var "HOSTNAME";
              azure_spring_app_name := var "ASCSVCRT_SPRING__APPLICATION__NAME";
              gcp_project_id := gcp_project_id metadata_default;
              gcp_region := gcp_region metadata_default;
              version := version metadata_default |}
  | LambdaFunction => Some metadata_default
  end.
End Verifier.

(** * Facts *)

(** A file of the function: in the directory or one level below, outside
    [node_modules]. *)
Definition function_file (entries : list (result DirEntry string)) (f : string) : Prop :=
  ∃ e, Ok e ∈ entries ∧ entry_name e ≠ "node_modules" ∧
    (f = entry_name e ∨ is_dir e = Ok true ∧ ∃ l, children e = Ok l ∧ Ok f ∈ l).

(** An entry that makes the listing fail. *)
Definition unreadable (r : result DirEntry string) : Prop :=
  match r with
  | Err _ => True
  | Ok e =>
      entry_name e ≠ "node_modules" ∧
      (is_ok (is_dir e) = false ∨
       is_dir e = Ok true ∧
         match children e with Err _ => True | Ok l => Exists (λ r, is_ok r = false) l end)
  end.

Lemma push_names_spec l names :
  match push_names l names with
  | Ok names' => (∀ f, f ∈ names' ↔ f ∈ names ∨ Ok f ∈ l) ∧ Forall (λ r, is_ok r = true) l
  | Err _ => Exists (λ r, is_ok r = false) l
  end.
Proof.
  revert names. induction l as [|[n|e] l IH]; intros names; cbn [push_names].
  - split; [set_solver|constructor].
  - specialize (IH (names ++ [n])). destruct (push_names l (names ++ [n])) as [names'|]; [|by right].
    destruct IH as [IH1 IH2]. split; [|by constructor]. intros f. rewrite IH1, elem_of_app, list_elem_of_singleton, elem_of_cons.
    split; [|naive_solver]. intros [[?| ->]|?]; auto.
  - by left.
Qed.

Lemma root_files_spec entries names :
  match root_files entries names with
  | Ok names' => (∀ f, f ∈ names' ↔ f ∈ names ∨ function_file entries f) ∧ ¬ Exists unreadable entries
  | Err _ => Exists unreadable entries
  end.
Proof.
  assert (∀ entries r f, function_file (r :: entries) f ↔
    (∃ e, r = Ok e ∧ entry_name e ≠ "node_modules" ∧
      (f = entry_name e ∨ is_dir e = Ok true ∧ ∃ l, children e = Ok l ∧ Ok f ∈ l)) ∨ function_file entries f) as Hcons.
  { intros es r f. unfold function_file. setoid_rewrite elem_of_cons. naive_solver. }
  assert (∀ f, ¬ function_file [] f) as Hnil by (intros f (? & Hin & _); by apply not_elem_of_nil in Hin).
  revert names. induction entries as [|[e|err] entries IH]; intros names; cbn [root_files].
  - split; [|by inversion 1]. intros f. specialize (Hnil f). naive_solver.
  - destruct (String.eqb_spec (entry_name e) "node_modules") as [Hn|Hn].
    { specialize (IH names). destruct (root_files entries names); rewrite Exists_cons; cbn [unreadable]; [|naive_solver].
      split; [|naive_solver]. intros f. rewrite Hcons. naive_solver. }
    destruct (is_dir e) as [[|]|] eqn:Ed; cbn [result_bind];
      [| |rewrite Exists_cons; left; split; [done|left; by rewrite Ed]].
    + destruct (children e) as [l|] eqn:El; cbn [result_bind];
        [|rewrite Exists_cons; left; split; [done|right; by rewrite El]].
      pose proof (push_names_spec l (names ++ [entry_name e])) as Hp.
      destruct (push_names l (names ++ [entry_name e])) as [names1|]; cbn [result_bind];
        [|rewrite Exists_cons; left; split; [done|right; by rewrite El]].
      destruct Hp as [Hp1 Hp2]. assert (¬ Exists (λ r, is_ok r = false) l) as Hl.
      { rewrite Exists_exists. intros (r & Hr & E). rewrite Forall_forall in Hp2. by rewrite Hp2 in E. }
      specialize (IH names1). destruct (root_files entries names1); rewrite Exists_cons; cbn [unreadable]; [|by right].
      destruct IH as [IH1 IH2]. rewrite Ed, El. split; [|naive_solver].
      intros f. rewrite Hcons, IH1, Hp1, elem_of_app, list_elem_of_singleton.
      assert ((∃ e', Ok e = Ok e' ∧ entry_name e' ≠ "node_modules" ∧
        (f = entry_name e' ∨ is_dir e' = Ok true ∧ ∃ l, children e' = Ok l ∧ Ok f ∈ l)) ↔
        f = entry_name e ∨ Ok f ∈ l) as ->; [|tauto]. split.
      * intros (e' & [= <-] & _ & [->|(_ & l' & El' & Hin)]); [by left|]. right. congruence.
      * intros Hor. exists e. split_and!; [done|done|]. destruct Hor; [by left|right]. eauto.
    + specialize (IH (names ++ [entry_name e])).
      destruct (root_files entries _); rewrite Exists_cons; cbn [unreadable]; [|by right].
      destruct IH as [IH1 IH2]. rewrite Ed. split; [|naive_solver].
      intros f. rewrite Hcons, IH1, elem_of_app, list_elem_of_singleton.
      assert ((∃ e', Ok e = Ok e' ∧ entry_name e' ≠ "node_modules" ∧
        (f = entry_name e' ∨ is_dir e' = Ok true ∧ ∃ l, children e' = Ok l ∧ Ok f ∈ l)) ↔
        f = entry_name e) as ->; [|tauto]. split.
      * intros (e' & [= <-] & _ & [->|(Hd & _)]); [done|]. congruence.
      * intros ->. exists e. split_and!; [done|done|by left].
  - rewrite Exists_cons. by left.
Qed.

Definition azure_root (os : string) : option string :=
  if String.eqb os "linux" then Some AZURE_LINUX_FUNCTION_ROOT_PATH_STR
  else if String.eqb os "windows" then Some AZURE_WINDOWS_FUNCTION_ROOT_PATH_STR
  else None.

Lemma existsb_eq (l : list string) name : existsb (λ f, String.eqb f name) l = true ↔ name ∈ l.
Proof.
  rewrite existsb_exists. setoid_rewrite String.eqb_eq. rewrite list_elem_of_In. naive_solver.
Qed.

(** The directory of a function is accepted exactly when it can be listed and has one of
    the two files. *)
Lemma ensure_azure_spec fs os :
  is_ok (ensure_azure_function_environment fs os) = true ↔
  ∃ root entries, azure_root os = Some root ∧ fs root = Ok entries ∧ ¬ Exists unreadable entries ∧
    (function_file entries AZURE_HOST_JSON_NAME ∨ function_file entries AZURE_FUNCTION_JSON_NAME).
Proof.
  assert (ensure_azure_function_environment fs os =
    let? files := match azure_root os with
                  | Some root => get_function_root_files (fs root)
                  | None => Err "The Serverless Mini Agent does not support this platform."
                  end in
    if negb (existsb (λ f, String.eqb f AZURE_HOST_JSON_NAME) files) &&
       negb (existsb (λ f, String.eqb f AZURE_FUNCTION_JSON_NAME) files)
    then Err "Failed to validate an Azure Function directory system." else Ok tt) as ->.
  { unfold ensure_azure_function_environment, azure_root. by repeat case_match. }
  destruct (azure_root os) as [root|]; [|naive_solver]. unfold get_function_root_files.
  destruct (fs root) as [entries|] eqn:Efs; [|split; [done|intros (root' & entries' & [= <-] & Efs' & _); congruence]]. cbn [result_bind].
  pose proof (root_files_spec entries []) as Hr. destruct (root_files entries []) as [files|]; cbn [result_bind].
  - destruct Hr as [Hf Hu].
    assert (∀ name, existsb (λ f, String.eqb f name) files = true ↔ function_file entries name) as Hex.
    { intros name. rewrite existsb_eq, Hf, elem_of_nil. naive_solver. }
    transitivity (function_file entries AZURE_HOST_JSON_NAME ∨ function_file entries AZURE_FUNCTION_JSON_NAME).
    + rewrite <- !Hex. destruct (existsb (λ f, String.eqb f AZURE_HOST_JSON_NAME) files),
        (existsb (λ f, String.eqb f AZURE_FUNCTION_JSON_NAME) files); cbn; intuition congruence.
    + split; [by exists root, entries|]. intros (root' & entries' & [= <-] & Efs' & _ & Hor). congruence.
  - split; [done|]. intros (root' & entries' & [= <-] & Efs' & Hu & _). rewrite Efs in Efs'. by injection Efs' as <-.
Qed.

(** C29: The agent goes on exactly on the platforms it supports.  On Azure Functions the
    directory of the function must be readable and hold one of the two files, and a
    resource group must be given on the Flex plan; on Google Cloud the metadata server
    must be the one of a function environment, except that a timeout lets the agent go
    on with unknown values; the other platforms are never refused. *)
Theorem verify_environment_spec fs var metadata_default reply env_type os :
  is_Some (verify_environment fs var metadata_default reply env_type os) ↔
  match env_type with
  | AzureFunction =>
      (∃ root entries, azure_root os = Some root ∧ fs root = Ok entries ∧ ¬ Exists unreadable entries ∧
         (function_file entries AZURE_HOST_JSON_NAME ∨ function_file entries AZURE_FUNCTION_JSON_NAME)) ∧
      ¬ (var WEBSITE_SKU = Some "FlexConsumption" ∧ var DD_AZURE_RESOURCE_GROUP = None)
  | CloudFunction =>
      reply = None ∨ ∃ r, reply = Some (Ok r) ∧ server r = Some "Metadata Server for Serverless"
  | AzureSpringApp | LambdaFunction => True
  end.
Proof.
  destruct env_type; cbn [verify_environment]; [| |done|done].
  - rewrite <- ensure_azure_spec. unfold verify_azure_environment_or_exit, is_azure_flex_without_resource_group.
    destruct (ensure_azure_function_environment fs os) as [[]|]; cbn [is_ok]; [|naive_solver].
    destruct (var WEBSITE_SKU) as [sku|]; [destruct (String.eqb_spec sku "FlexConsumption") as [->|]|];
      destruct (var DD_AZURE_RESOURCE_GROUP); cbn; naive_solver.
  - unfold verify_gcp_environment_or_exit, ensure_gcp_function_environment.
    destruct reply as [[r|e]|]; [| |naive_solver].
    + destruct (server r) as [s|] eqn:Es; [|naive_solver].
      destruct (String.eqb_spec s "Metadata Server for Serverless") as [->|]; cbn [negb]; [|naive_solver].
      destruct (decoded r); naive_solver.
    + naive_solver.
Qed.

(** The region is the fourth and last part. *)
Example region_example : get_region_from_gcp_region_string "projects/123123/regions/us-east1" = "us-east1".
Proof. reflexivity. Qed.
Example region_unknown : get_region_from_gcp_region_string "us-east1" = "unknown".
Proof. reflexivity. Qed.
