(* ===== verification/MiniAgent.v ===== *)
(** The server of the trace agent: [datadog-trace-agent/src/mini_agent.rs].

    [trace_endpoint_handler] dispatches the requests to the processors of the other
    files; [serve] supervises the tasks.  The accept loops are I/O. *)
From Stdlib Require Import Ascii SpecFloat.
From S2P Require Import Prelude RStr ScoreSampler TraceProcessor Stats TraceConfig ProxyFlusher.

Definition TRACE_ENDPOINT_PATH : string := "/v0.4/traces".
Definition STATS_ENDPOINT_PATH : string := "/v0.6/stats".
Definition INFO_ENDPOINT_PATH : string := "/info".
Definition DSM_ENDPOINT_PATH : string := "/v0.1/pipeline_stats".
Definition PROFILING_ENDPOINT_PATH : string := "/profiling/v1/input".

(** * Dispatch *)

Record InfoResponse := {
  endpoints : list string;
  client_drop_p0s : bool;
  span_kinds_stats_computed : list string;
  info_peer_tags : list string;
  receiver_port : Z;
  statsd_port : Z;
  receiver_socket : string;
}.

Definition info_handler (dd_apm_receiver_port : Z) (dd_apm_windows_pipe_name : option string)
    (dd_dogstatsd_port : Z) (peer_tags : list string) (agent_stats_computation_enabled : bool)
    : InfoResponse :=
  {| endpoints :=
       [TRACE_ENDPOINT_PATH; STATS_ENDPOINT_PATH; INFO_ENDPOINT_PATH; DSM_ENDPOINT_PATH;
        PROFILING_ENDPOINT_PATH];
     client_drop_p0s := negb agent_stats_computation_enabled;
     span_kinds_stats_computed := SPAN_KINDS_STATS_COMPUTED;
     info_peer_tags := peer_tags;
     receiver_port := dd_apm_receiver_port;
     statsd_port := dd_dogstatsd_port;
     receiver_socket := default "" dd_apm_windows_pipe_name |}.

Inductive AgentResponse :=
  | Answer (r : HttpResponse)
  | Info (i : InfoResponse)
  | NotFound.

Section Dispatch.
Context `{ConfigEnv, HeaderValues, Hpb : PbTypes, !TraceUtils, !SpanConcentrator, !MapOrder}.

(** The settings the trace processor reads in the configuration. *)
Definition processor_config (config : Config) : ProcessorConfig :=
  {| TraceProcessor.max_request_content_length := max_request_content_length config;
     TraceProcessor.config_env := env config;
     TraceProcessor.function_tags := function_tags (config_tags config);
     TraceProcessor.cloud_function := match env_type config with CloudFunction => true | _ => false end;
     TraceProcessor.agent_stats_computation_enabled := agent_stats_computation_enabled config;
     TraceProcessor.error_rare_sample_tracer_drop := error_rare_sample_tracer_drop config |}.

(** A request, with what the processors get from their surroundings while handling it:
    the enqueue permit, what the body decodes to, the clocks and the channels. *)
Record AgentRequest := {
  req_method : string;
  req_path : string;
  req_checked : Headers;
  req_headers : gmap string (list header_value);
  permit : bool;
  decoded_traces : result (Z * raw_traces) string;
  decoded_stats : result ClientStatsPayload string;
  body_read : result (list ascii) string;
  clock_secs : Z;
  clock_nanos : Z;
  stats_channel : option string;
  proxy_channel : option string;
}.

(** What a request does. *)
Record Handled := {
  handled_response : AgentResponse;
  handled_traces : list SendData;
  handled_chunks : list (TraceChunk * TracerMetadata);
  handled_rescue : ErrorRescueState;
  handled_stats : list ClientStatsPayload;
  handled_proxy : option ProxyRequest;
}.

(** [trace_endpoint_handler]; [None] is a panic. *)
Definition trace_endpoint_handler (config : Config) (concentrator rescue_enabled : bool)
    (state : ErrorRescueState) (req : AgentRequest) : option Handled :=
  let meth m := String.eqb (req_method req) m in
  let path p := String.eqb (req_path req) p in
  let handled r :=
    {| handled_response := r; handled_traces := []; handled_chunks := []; handled_rescue := state;
       handled_stats := []; handled_proxy := None |} in
  let proxy kind :=
    let '(r, p) := proxy_handler config (req_checked req) (req_headers req) (body_read req) kind
                     (proxy_channel req) in
    Some {| handled_response := Answer r; handled_traces := []; handled_chunks := [];
            handled_rescue := state; handled_stats := []; handled_proxy := p |} in
  if (meth "PUT" || meth "POST") && path TRACE_ENDPOINT_PATH then
    match process_traces (processor_config config) concentrator rescue_enabled state (req_checked req)
            (permit req) (decoded_traces req) (clock_secs req) with
    | None => None
    | Some p =>
        Some {| handled_response := Answer (response p); handled_traces := enqueued p;
                handled_chunks := to_concentrator p; handled_rescue := rescue_state p;
                handled_stats := []; handled_proxy := None |}
    end
  else if (meth "PUT" || meth "POST") && path STATS_ENDPOINT_PATH then
    let '(r, ps) :=
      process_stats (agent_stats_computation_enabled config) (max_request_content_length config)
        (req_checked req) (decoded_stats req) (clock_nanos req) (stats_channel req) in
    Some {| handled_response := Answer r; handled_traces := []; handled_chunks := [];
            handled_rescue := state; handled_stats := ps; handled_proxy := None |}
  else if meth "POST" && path DSM_ENDPOINT_PATH then proxy DataStreams
  else if meth "POST" && path PROFILING_ENDPOINT_PATH then proxy Profiling
  else if path INFO_ENDPOINT_PATH then
    Some (handled (Info (info_handler (dd_apm_receiver_port config)
      (if windows_pipes then dd_apm_windows_pipe_name config else None) (dd_dogstatsd_port config)
      (peer_tags config) (agent_stats_computation_enabled config))))
  else Some (handled NotFound).
End Dispatch.

(** * Supervision *)

Inductive TaskId := Tcp | NamedPipe | TraceFlusher | StatsFlusher | Concentrator.

(** The first event [serve] sees: the shutdown, or the end of a task. *)
Inductive Event := Shutdown | Died (t : TaskId).

Inductive SupervisorAction :=
  | Await (t : TaskId)
  | SignalStatsFlusher
  | AbortTask (t : TaskId).

Definition died_message (t : TaskId) : string :=
  match t with
  | Tcp => "TCP accept loop terminated unexpectedly"
  | NamedPipe => "Named pipe accept loop terminated unexpectedly"
  | TraceFlusher => "Trace flusher task terminated unexpectedly"
  | StatsFlusher => "Stats flusher task terminated unexpectedly"
  | Concentrator => "Stats concentrator service task terminated unexpectedly"
  end.

(** [serve]: [tcp], [pipe] and [concentrator] tell which optional tasks run, [stats_end]
    is how the stats flusher ends after the signal. *)
Definition serve (tcp pipe concentrator : bool) (event : Event) (stats_end : result unit string)
    : list SupervisorAction * result unit string :=
  let opt (b : bool) a : list SupervisorAction := if b then [a] else [] in
  let '(actions, result) :=
    match event with
    | Shutdown =>
        (opt tcp (Await Tcp) ++ opt pipe (Await NamedPipe) ++ [SignalStatsFlusher; Await StatsFlusher],
         match stats_end with
         | Ok _ => Ok tt
         | Err e => Err ("Stats flusher task failed during shutdown: " +:+ e)
         end)
    | Died t => ([], Err (died_message t))
    end in
  (actions ++ opt tcp (AbortTask Tcp) ++ opt pipe (AbortTask NamedPipe) ++
     [AbortTask TraceFlusher; AbortTask StatsFlusher] ++ opt concentrator (AbortTask Concentrator), result).

(** * Facts *)

Section AgentFacts.
Context `{ConfigEnv, HeaderValues, Hpb : PbTypes, !TraceUtils, !TraceUtilsLaws, !SpanConcentrator,
  !MapOrder, !MapOrderLaw}.

Lemma proxy_handler_request config checked hs body kind sent r :
  (proxy_handler config checked hs body kind sent).2 = Some r →
  ProxyFlusher.kind r = kind ∧ target_url r = intake_url config kind ∧ headers r = hs ∧ body = Ok (ProxyFlusher.body r).
Proof.
  unfold proxy_handler. destruct (verify_request_content_length _ _ _); [done|].
  destruct body; [|done]. destruct sent; [done|]. by intros [= <-].
Qed.

(** A proxied request, from the fact [Hq] on the request sent and the path [E]. *)
#[local] Ltac proxied Hq E :=
  destruct (proxy_handler _ _ _ _ _ _) as [? ?];
  eexists; split; [done|]; split_and!; [done|done|done| |done|];
  [let q := fresh in let H := fresh in intros q H; destruct (Hq q H) as (Ht & ? & Ek); by rewrite Ek in Ht |- *
  |split; [done|]; let Hn := fresh in intros (_ & _ & Hn); destruct Hn; rewrite E; set_solver].

(** C26: Every request is answered and acts on one component only.  Traces are enqueued
    and counted, and the rescue state moves, only for a [PUT] or [POST] on the traces
    path; tracer statistics are forwarded only from theirs, and never while the agent
    computes the statistics; a request is proxied only by a [POST] on one of the two
    proxy paths, to the intake of that path; the information says that P0 traces may
    be dropped by the tracer exactly when the agent does not compute statistics; and
    the answer is not found exactly when the path is not served for the method. *)
Theorem endpoint_handler_spec config concentrator enabled state req :
  sampler_inv (sampler state) →
  let writes := req_method req = "PUT" ∨ req_method req = "POST" in
  ∃ h, trace_endpoint_handler config concentrator enabled state req = Some h ∧
    sampler_inv (sampler (handled_rescue h)) ∧
    (¬ (writes ∧ req_path req = TRACE_ENDPOINT_PATH) →
       handled_traces h = [] ∧ handled_chunks h = [] ∧ handled_rescue h = state) ∧
    (handled_stats h ≠ [] →
       writes ∧ req_path req = STATS_ENDPOINT_PATH ∧ agent_stats_computation_enabled config = false) ∧
    (∀ p, handled_proxy h = Some p →
       req_method req = "POST" ∧ target_url p = intake_url config (kind p) ∧ headers p = req_headers req ∧
       req_path req = match kind p with DataStreams => DSM_ENDPOINT_PATH | Profiling => PROFILING_ENDPOINT_PATH end) ∧
    (∀ i, handled_response h = Info i →
       req_path req = INFO_ENDPOINT_PATH ∧ client_drop_p0s i = negb (agent_stats_computation_enabled config)) ∧
    (handled_response h = NotFound ↔
       req_path req ≠ INFO_ENDPOINT_PATH ∧
       ¬ (writes ∧ req_path req ∈ [TRACE_ENDPOINT_PATH; STATS_ENDPOINT_PATH]) ∧
       ¬ (req_method req = "POST" ∧ req_path req ∈ [DSM_ENDPOINT_PATH; PROFILING_ENDPOINT_PATH])).
Proof.
  intros Hs writes. unfold trace_endpoint_handler. cbv zeta.
  set (m := req_method req) in *. set (path := req_path req) in *.
  assert (∀ p, (String.eqb m "PUT" || String.eqb m "POST") && String.eqb path p = true ↔ writes ∧ path = p) as Hw.
  { intros p. rewrite andb_true_iff, orb_true_iff, !String.eqb_eq. done. }
  assert (∀ p, String.eqb m "POST" && String.eqb path p = true ↔ m = "POST" ∧ path = p) as Hp.
  { intros p. by rewrite andb_true_iff, !String.eqb_eq. }
  destruct ((_ || _) && String.eqb path TRACE_ENDPOINT_PATH) eqn:E1.
  { apply Hw in E1. destruct (process_traces_total (processor_config config) concentrator enabled state
      (req_checked req) (permit req) (decoded_traces req) (clock_secs req) Hs) as (r & -> & Hr).
    eexists. split; [done|]. split_and!; [done|naive_solver|done|done|done|].
    split; [done|]. intros (_ & Hn & _). destruct Hn. destruct E1 as [? ->]. set_solver. }
  assert (¬ (writes ∧ path = TRACE_ENDPOINT_PATH)) as N1 by (rewrite <- Hw; congruence).
  destruct ((_ || _) && String.eqb path STATS_ENDPOINT_PATH) eqn:E2.
  { apply Hw in E2. destruct (process_stats _ _ _ _ _ _) as [r ps] eqn:Eps. eexists. split; [done|].
    split_and!; [done|done| |done|done|].
    - intros Hne. split_and!; [apply E2|apply E2|]. destruct (agent_stats_computation_enabled config); [|done].
      unfold process_stats in Eps. cbv zeta iota in Eps. by injection Eps as _ <-.
    - split; [done|]. intros (_ & Hn & _). destruct Hn. destruct E2 as [? ->]. set_solver. }
  assert (¬ (writes ∧ path = STATS_ENDPOINT_PATH)) as N2 by (rewrite <- Hw; congruence).
  assert (∀ k, let '(r, p) := proxy_handler config (req_checked req) (req_headers req) (body_read req) k (proxy_channel req) in
    ∀ q, p = Some q → target_url q = intake_url config (kind q) ∧ headers q = req_headers req ∧ kind q = k) as Hq.
  { intros k. destruct (proxy_handler _ _ _ _ k _) as [r p] eqn:Ep. intros q ->.
    pose proof (proxy_handler_request config (req_checked req) (req_headers req) (body_read req) k (proxy_channel req) q) as Hr.
    rewrite Ep in Hr. destruct (Hr eq_refl) as (-> & ? & ? & _). done. }
  destruct (String.eqb m "POST" && String.eqb path DSM_ENDPOINT_PATH) eqn:E3.
  { apply Hp in E3 as [Em E3]. specialize (Hq DataStreams). proxied Hq E3. }
  assert (¬ (m = "POST" ∧ path = DSM_ENDPOINT_PATH)) as N3 by (rewrite <- Hp; congruence).
  destruct (String.eqb m "POST" && String.eqb path PROFILING_ENDPOINT_PATH) eqn:E4.
  { apply Hp in E4 as [Em E4]. specialize (Hq Profiling). proxied Hq E4. }
  assert (¬ (m = "POST" ∧ path = PROFILING_ENDPOINT_PATH)) as N4 by (rewrite <- Hp; congruence).
  destruct (String.eqb_spec path INFO_ENDPOINT_PATH) as [E5|N5].
  - eexists. split; [done|]. split_and!; [done|done|done|done| |naive_solver].
    intros i [= <-]. done.
  - eexists. split; [done|]. split_and!; [done|done|done|done|done|].
    split; [|done]. intros _. rewrite !elem_of_cons, !elem_of_nil. naive_solver.
Qed.

(** The shutdown lets the transports end before the stats flusher is told to flush for
    the last time, and waits for it; when a task ends unexpectedly the others are
    aborted and the agent fails. *)
Lemma serve_spec tcp pipe concentrator event stats_end :
  let r := serve tcp pipe concentrator event stats_end in
  match event with
  | Shutdown =>
      ∃ before after, r.1 = before ++ SignalStatsFlusher :: Await StatsFlusher :: after ∧
        (tcp = true → Await Tcp ∈ before) ∧ (pipe = true → Await NamedPipe ∈ before) ∧
        (∀ t, Await t ∉ after) ∧ is_ok r.2 = is_ok stats_end
  | Died t => r.2 = Err (died_message t) ∧ SignalStatsFlusher ∉ r.1 ∧ ∀ t, Await t ∉ r.1
  end.
Proof.
  destruct event as [|t].
  - exists ((if tcp then [Await Tcp] else []) ++ (if pipe then [Await NamedPipe] else [])),
      ((if tcp then [AbortTask Tcp] else []) ++ (if pipe then [AbortTask NamedPipe] else []) ++
       [AbortTask TraceFlusher; AbortTask StatsFlusher] ++ (if concentrator then [AbortTask Concentrator] else [])).
    cbn [serve fst]. unfold serve. cbn [fst snd]. split_and!.
    + by rewrite <- !app_assoc.
    + intros ->. set_solver.
    + intros ->. set_solver.
    + intros t. destruct tcp, pipe, concentrator; set_solver.
    + by destruct stats_end.
  - unfold serve. cbn [fst snd app]. split_and!; [done| |]; try intros t'; destruct tcp, pipe, concentrator; set_solver.
Qed.
End AgentFacts.

(** * Witnesses *)
Module MiniAgentExamples.
Import TraceProcessorExamples StatsExamples ProxyExamples.
#[local] Existing Instances types utils utils_laws order order_law counter values TraceConfigExamples.lambda_env.

Definition profile : AgentRequest :=
  {| req_method := "POST"; req_path := PROFILING_ENDPOINT_PATH;
     req_checked := {| content_length := Some (Some "3"); transfer_encoding := false |};
     req_headers := ∅; permit := true; decoded_traces := Err "unused"; decoded_stats := Err "unused";
     body_read := Ok []; clock_secs := 1; clock_nanos := 1; stats_channel := None; proxy_channel := None |}.

Lemma endpoint_handler_spec_witness : ∃ h p,
  trace_endpoint_handler config1 true true keep_all profile = Some h ∧
  handled_proxy h = Some p ∧ target_url p = "https://intake.profile.datadoghq.com/api/v2/profile" ∧
  handled_traces h = [].
Proof.
  destruct (endpoint_handler_spec config1 true true keep_all profile) as (h & E & _ & Ht & _ & Hp & _); [exact I|].
  assert (handled_proxy <$> trace_endpoint_handler config1 true true keep_all profile =
    Some (Some {| headers := ∅; body := []; target_url := "https://intake.profile.datadoghq.com/api/v2/profile";
                  kind := Profiling |})) as Ec by (vm_compute; reflexivity).
  rewrite E in Ec. cbn [fmap option_fmap option_map] in Ec. injection Ec as Ec.
  eexists h, _. split; [exact E|]. split; [exact Ec|]. split; [reflexivity|].
  apply Ht. intros [_ Hpath]. discriminate Hpath.
Defined.
End MiniAgentExamples.
