(* ===== verification/Serde.v ===== *)
(** The configuration formats.

    What the agent configuration uses of the crates [serde], [serde_json] and
    [figment].  A field of a source is read from a [Value], the tree these crates hand
    to a deserializer; the deserializers of the basic types, the printing of numbers and
    the texts of the errors are the class [Serde], with the laws the code relies on.
    The readers of a [#[derive(Deserialize)]] structure are written with [field],
    [required] and [optional], one for each use of the serde attributes. *)
From Stdlib Require Import Ascii SpecFloat.
From S2P Require Import Prelude RStr Float.

(** The tree a format hands to a deserializer.  Its numbers are those of figment, which has
    integers of up to 128 bits and every float; a [serde_json::Value] is such a tree whose
    numbers are those of JSON ([json_tree]). *)
Inductive Number :=
  | PosInt (n : Z)
  | NegInt (n : Z)
  | FloatNum (x : f64).

Inductive Value :=
  | VNull
  | VBool (b : bool)
  | VNumber (n : Number)
  | VString (s : string)
  | VArray (l : list Value)
  | VObject (m : list (string * Value)).

(** [serde_json::Number]: a non-negative integer is a [u64], a negative one an [i64], and
    a float is finite. *)
Definition json_number (n : Number) : bool :=
  match n with
  | PosInt n => (0 <=? n) && (n <=? u64_max)
  | NegInt n => (i64_min <=? n) && (n <? 0)
  | FloatNum x => is_finite x
  end.

Fixpoint json_tree (v : Value) : bool :=
  match v with
  | VNumber n => json_number n
  | VArray l => forallb json_tree l
  | VObject m => forallb (λ kv, json_tree kv.2) m
  | _ => true
  end.

(** The trees that can be read as a [serde_json::Value]: no integer is out of range.  A
    float that is not finite is read as a null. *)
Definition fits_number (n : Number) : bool :=
  match n with FloatNum _ => true | _ => json_number n end.

Fixpoint fits (v : Value) : bool :=
  match v with
  | VNumber n => fits_number n
  | VArray l => forallb fits l
  | VObject m => forallb (λ kv, fits kv.2) m
  | _ => true
  end.

Definition as_u64 (n : Number) : option Z :=
  match n with PosInt n => Some n | _ => None end.
Definition as_i64 (n : Number) : option Z :=
  match n with
  | PosInt n => if n <=? i64_max then Some n else None
  | NegInt n => Some n
  | FloatNum _ => None
  end.
Definition as_f64 (n : Number) : option f64 :=
  match n with
  | PosInt n | NegInt n => Some (F64.of_Z n)
  | FloatNum x => Some x
  end.
Definition as_str (v : Value) : option string :=
  match v with VString s => Some s | _ => None end.

(** The keys of an object are distinct. *)
Fixpoint find_key {T} (k : string) (m : list (string * T)) : option T :=
  match m with
  | [] => None
  | (k', v) :: m => if String.eqb k k' then Some v else find_key k m
  end.

(** A deserializer of [T]: [T] or the text of an error. *)
Definition parser (T : Type) : Type := Value → result T string.

Fixpoint collect {T} (l : list (result T string)) : result (list T) string :=
  match l with
  | [] => Ok []
  | r :: l => let? x := r in let? xs := collect l in Ok (x :: xs)
  end.

Class Serde := {
  (** [serde_json::Value::deserialize] *)
  de_value : parser Value;
  de_string : parser string;
  de_bool : parser bool;
  de_u32 : parser Z;
  de_u64 : parser Z;
  de_usize : parser Z;
  de_i32 : parser Z;
  de_option {T : Type} : parser T → parser (option T);
  de_vec {T : Type} : parser T → parser (list T);
  de_map {T : Type} : parser T → parser (gmap string T);
  (** [serde_json::from_str] at the type of a deserializer *)
  from_str {T : Type} : parser T → string → result T string;
  (** [serde_aux::deserialize_bool_from_anything] *)
  bool_from_anything : parser bool;
  show_float : f64 → string;
  (** the name of an enum's unit variant in its external representation *)
  variant_name : Value → result string string;
  (** the elements of a sequence after the [n] fields of a structure read from it *)
  seq_end : list Value → nat → result unit string;
  invalid_type : Value → string → string;
  missing_field : string → string;
  unknown_variant : string → string;
}.

(** What the code relies on: strings are read from strings and from nothing else, an
    absent option is a null, a container is read element by element.  A tree is read as a
    JSON value when its integers have 64 bits, and a JSON value as itself; a string comes
    from nothing but that string. *)
Class SerdeLaws `{!Serde} := {
  de_value_ok v : is_ok (de_value v) = fits v;
  de_value_json v : json_tree v = true → de_value v = Ok v;
  de_value_tree v w : de_value v = Ok w → json_tree w = true;
  de_value_string v s : de_value v = Ok (VString s) → v = VString s;
  de_string_str s : de_string (VString s) = Ok s;
  de_string_other v : as_str v = None → is_ok (de_string v) = false;
  de_option_null {T} (p : parser T) : de_option p VNull = Ok None;
  de_option_some {T} (p : parser T) v :
    v ≠ VNull → de_option p v = let? x := p v in Ok (Some x);
  de_vec_array {T} (p : parser T) l : de_vec p (VArray l) = collect (map p l);
  de_u64_range v n : de_u64 v = Ok n → 0 ≤ n ≤ u64_max;
  variant_name_str s : variant_name (VString s) = Ok s;
}.

(** [Number::to_string] *)
Definition show_number `{Serde} (n : Number) : string :=
  match n with PosInt n | NegInt n => show_Z n | FloatNum x => show_float x end.

(** * Derived readers *)

(** The fields of a structure come from an object, by name, or from a sequence, in the
    order of their declarations. *)
Inductive access := FromMap (m : list (string * Value)) | FromSeq (l : list Value).

Definition as_struct `{Serde} (n : nat) (v : Value) : result access string :=
  match v with
  | VObject m => Ok (FromMap m)
  | VArray l => let? _ := seq_end l n in Ok (FromSeq l)
  | _ => Err (invalid_type v "struct")
  end.

Definition lookup_field (a : access) (i : nat) (name : string) : option Value :=
  match a with FromMap m => find_key name m | FromSeq l => l !! i end.

(** A field with [#[serde(default, deserialize_with = ...)]]. *)
Definition field {T} (a : access) (i : nat) (name : string) (de : parser T) (dflt : T) :
    result T string :=
  match lookup_field a i name with Some v => de v | None => Ok dflt end.

(** A field without a default, and one of type [Option<T>] without a default. *)
Definition required `{Serde} {T} (a : access) (i : nat) (name : string) (de : parser T) :
    result T string :=
  match lookup_field a i name with Some v => de v | None => Err (missing_field name) end.
Definition optional `{Serde} {T} (a : access) (i : nat) (name : string) (de : parser T) :
    result (option T) string :=
  match lookup_field a i name, a with
  | Some v, _ => de_option de v
  | None, FromMap _ => Ok None
  | None, FromSeq _ => Err (missing_field name)
  end.

(** Reading the fields of a structure one after the other. *)
Definition result_ap {A B E} (f : result (A → B) E) (x : result A E) : result B E :=
  let? f := f in let? x := x in Ok (f x).
Notation "f '<*>' x" := (result_ap f x) (at level 61, left associativity) : rust_scope.

(** * Facts *)

(** Induction on trees, through their lists. *)
Section ValueInduction.
Context (P : Value → Prop).
Context (Pnull : P VNull) (Pbool : ∀ b, P (VBool b)) (Pnumber : ∀ n, P (VNumber n)) (Pstring : ∀ s, P (VString s)).
Context (Parray : ∀ l, Forall P l → P (VArray l)).
Context (Pobject : ∀ m, Forall (λ kv : string * Value, P kv.2) m → P (VObject m)).

Fixpoint value_nested_ind (v : Value) : P v :=
  match v with
  | VNull => Pnull
  | VBool b => Pbool b
  | VNumber n => Pnumber n
  | VString s => Pstring s
  | VArray l =>
      Parray l ((fix all l := match l return Forall P l with
                              | [] => Forall_nil_2 _
                              | v :: l => Forall_cons_2 _ _ _ (value_nested_ind v) (all l)
                              end) l)
  | VObject m =>
      Pobject m ((fix all m := match m return Forall (λ kv : string * Value, P kv.2) m with
                               | [] => Forall_nil_2 _
                               | kv :: m => Forall_cons_2 _ _ _ (value_nested_ind kv.2) (all m)
                               end) m)
  end.
End ValueInduction.

Lemma is_ok_ap {A B E} (f : result (A → B) E) x : is_ok (f <*> x) = is_ok f && is_ok x.
Proof. by destruct f, x. Qed.

Lemma is_ok_some {T E} (r : result T E) : is_ok r = true ↔ ∃ x, r = Ok x.
Proof. destruct r; naive_solver. Qed.

Lemma ap_ok_inv {A B E} (f : result (A → B) E) x y :
  f <*> x = Ok y → ∃ g a, f = Ok g ∧ x = Ok a ∧ y = g a.
Proof. destruct f as [g|], x as [a|]; cbn; try done. intros [= <-]. eauto. Qed.

Lemma is_ok_bind {A B E} (x : result A E) (k : A → result B E) :
  (∀ a, is_ok (k a) = true) → is_ok (let? a := x in k a) = is_ok x.
Proof. destruct x; cbn; auto. Qed.

Lemma is_ok_field {T} a i name (de : parser T) d :
  is_ok (field a i name de d) = from_option (λ v, is_ok (de v)) true (lookup_field a i name).
Proof. unfold field. by destruct (lookup_field a i name). Qed.

Lemma field_total {T} a i name (de : parser T) d :
  (∀ v, is_ok (de v) = true) → is_ok (field a i name de d) = true.
Proof. intros Hde. rewrite is_ok_field. destruct (lookup_field a i name); [apply Hde|done]. Qed.

Lemma forallb_elem {T} (f : T → bool) l : forallb f l = true ↔ ∀ x, x ∈ l → f x = true.
Proof. rewrite forallb_forall. by setoid_rewrite <- list_elem_of_In. Qed.

Lemma collect_ok {T} (p : parser T) l xs :
  collect (map p l) = Ok xs ↔ Forall2 (λ v x, p v = Ok x) l xs.
Proof.
  revert xs. induction l as [|v l IH]; intros xs; cbn.
  { split; [by intros [= <-]|]. by inversion 1. }
  destruct (p v) as [x|e] eqn:E; cbn.
  - destruct (collect (map p l)) as [ys|] eqn:El; cbn.
    + split; [intros [= <-]; constructor; [done|by apply IH]|].
      inversion 1 as [|?? zs ? Hx Hl]; subst. rewrite E in Hx. apply IH in Hl. congruence.
    + split; [done|]. inversion 1 as [|?? ? ? Hx Hl]; subst. apply IH in Hl. congruence.
  - split; [done|]. inversion 1; congruence.
Qed.

Lemma result_eq_inv {T E} (x y : T) : @Ok T E x = Ok y → x = y.
Proof. congruence. Qed.

(** * A simple instance *)
Module SerdeModel.
Definition show_kind (v : Value) : string :=
  match v with
  | VNull => "null" | VBool _ => "boolean" | VNumber _ => "number"
  | VString _ => "string" | VArray _ => "sequence" | VObject _ => "map"
  end.
Definition type_error (v : Value) (expected : string) : string :=
  "invalid type: " +:+ show_kind v +:+ ", expected " +:+ expected.
Definition int (lo hi : Z) : parser Z := λ v,
  match v with
  | VNumber (PosInt n) | VNumber (NegInt n) =>
      if (lo <=? n) && (n <=? hi) then Ok n else Err (type_error v "integer")
  | _ => Err (type_error v "integer")
  end.
Definition str : parser string := λ v,
  match v with VString s => Ok s | _ => Err (type_error v "a string") end.
Definition truth : parser bool := λ v,
  match v with VBool b => Ok b | _ => Err (type_error v "a boolean") end.
Definition anything : parser bool := λ v,
  match v with
  | VBool b => Ok b
  | VString s =>
      if String.eqb s "true" || String.eqb s "1" then Ok true
      else if String.eqb s "false" || String.eqb s "0" then Ok false
      else Err (type_error v "a boolean")
  | VNumber (PosInt n) => if n =? 1 then Ok true else if n =? 0 then Ok false else Err (type_error v "a boolean")
  | _ => Err (type_error v "a boolean")
  end.

(** The texts read by [from_str] are here the printed naturals and the quoted strings. *)
Definition of_text (s : string) : result Value string :=
  match parse_uint u64_max s with
  | Some n => Ok (VNumber (PosInt n))
  | None => match s with
            | String c s => if Ascii.eqb c (ascii_of_N 34) then Ok (VString s) else Err "expected value"
            | EmptyString => Err "EOF while parsing a value"
            end
  end.

(** The JSON value of a tree. *)
Fixpoint value_json (v : Value) : result Value string :=
  match v with
  | VNumber n =>
      if negb (fits_number n) then Err "JSON number out of range" else
      Ok (if json_number n then v else VNull)
  | VArray l => let? l := collect (map value_json l) in Ok (VArray l)
  | VObject m =>
      let? m := collect (map (λ kv, let? x := value_json kv.2 in Ok (kv.1, x)) m) in Ok (VObject m)
  | _ => Ok v
  end.

Definition serde : Serde := {|
  de_value := value_json;
  de_string := str;
  de_bool := truth;
  de_u32 := int 0 u32_max;
  de_u64 := int 0 u64_max;
  de_usize := int 0 usize_max;
  de_i32 := int i32_min i32_max;
  de_option T p v := match v with VNull => Ok None | _ => let? x := p v in Ok (Some x) end;
  de_vec T p v := match v with VArray l => collect (map p l) | _ => Err (type_error v "a sequence") end;
  de_map T p v := match v with
                  | VObject m => let? l := collect (map (λ kv, let? x := p kv.2 in Ok (kv.1, x)) m) in
                                 Ok (list_to_map l)
                  | _ => Err (type_error v "a map")
                  end;
  from_str T p s := let? v := of_text s in p v;
  bool_from_anything := anything;
  show_float _ := "0.5";
  variant_name := str;
  seq_end l n := if (n <? length l)%nat then Err "trailing elements" else Ok tt;
  invalid_type := type_error;
  missing_field name := "missing field `" +:+ name +:+ "`";
  unknown_variant name := "unknown variant `" +:+ name +:+ "`";
|}.

Lemma forallb_ext_in {T} (f g : T → bool) l : Forall (λ x, f x = g x) l → forallb f l = forallb g l.
Proof. induction 1 as [|x l Hx _ IH]; cbn; congruence. Qed.

Lemma collect_is_ok {T U} (p : T → result U string) l : is_ok (collect (map p l)) = forallb (λ x, is_ok (p x)) l.
Proof. induction l as [|x l IH]; [done|]. cbn. rewrite <- IH. by destruct (p x), (collect _). Qed.

Lemma value_json_ok v : is_ok (value_json v) = fits v.
Proof.
  induction v using value_nested_ind; cbn; try done.
  - by destruct (fits_number n).
  - rewrite is_ok_bind, collect_is_ok by done. by apply forallb_ext_in.
  - rewrite is_ok_bind, collect_is_ok by done. apply forallb_ext_in.
    eapply Forall_impl; [eassumption|]. intros kv Hkv. cbn beta. by rewrite is_ok_bind.
Qed.

Lemma value_json_same v : json_tree v = true → value_json v = Ok v.
Proof.
  assert (∀ {T} (p : T → result T string) l, Forall (λ x, p x = Ok x) l → collect (map p l) = Ok l) as Hsame.
  { induction 1 as [|x l Hx _ IH]; cbn; [done|]. by rewrite Hx, IH. }
  induction v as [| |n| |l Hl|m Hm] using value_nested_ind; cbn; try done.
  - intros Hn. rewrite Hn. assert (fits_number n = true) as -> by by destruct n. done.
  - rewrite forallb_elem. intros Hj. rewrite Hsame; [done|]. rewrite Forall_forall in Hl |- *. auto.
  - rewrite forallb_elem. intros Hj. rewrite Hsame; [done|]. rewrite Forall_forall in Hm |- *.
    intros [k v] Hin. cbn. specialize (Hm _ Hin (Hj _ Hin)). cbn in Hm. by rewrite Hm.
Qed.

Lemma value_json_tree v w : value_json v = Ok w → json_tree w = true.
Proof.
  revert w. induction v as [| |n| |l Hl|m Hm] using value_nested_ind; cbn; intros w; try (by intros [= <-]).
  - destruct (fits_number n); [|done]. intros [= <-]. by destruct (json_number n) eqn:E.
  - destruct (collect _) as [ws|] eqn:E; [|done]. intros [= <-]. cbn.
    apply collect_ok in E. apply forallb_elem. intros x Hx.
    apply list_elem_of_lookup in Hx as [i Hx]. destruct (Forall2_lookup_r _ _ _ _ _ E Hx) as (y & Hy & Hyx).
    by apply (Forall_lookup_1 _ _ _ _ Hl Hy).
  - destruct (collect _) as [ws|] eqn:E; [|done]. intros [= <-]. cbn. apply forallb_elem. intros [k x] Hx.
    revert ws E Hx. induction Hm as [|[k' y] m Hy _ IH]; cbn; intros ws; [intros [= <-]; by intros ?%elem_of_nil|].
    destruct (value_json y) as [z|] eqn:Ez; [|done]. cbn. destruct (collect _) as [zs|] eqn:Ezs; [|done].
    intros [= <-] [[= -> ->]|Hin]%elem_of_cons; [by apply Hy|by eapply IH].
Qed.

Lemma serde_laws : @SerdeLaws serde.
Proof.
  constructor; try done; [apply value_json_ok|apply value_json_same|apply value_json_tree|..].
  - intros [| |n|t|l|m] s; cbn; try (by intros [= <-]).
    + destruct (fits_number n); [|done]. cbn. by destruct (json_number n).
    + by destruct (collect _).
    + by destruct (collect _).
  - by intros [].
  - intros T p []; cbn; done.
  - intros [| |[n|n|x]| | |]; cbn; try done; intros m; destruct (_ && _) eqn:E; try done;
      intros [= <-]; zify_bool; done.
Qed.
End SerdeModel.
