(* ===== verification/AgentDeserializers.v ===== *)
(** Deserializers of the agent configuration.

    [src/crates/datadog-agent-config/src/deserializers/]: one deserializer per kind of
    setting, from the [Value] a source gives to the value of a field, with the types
    [LogLevel], [FlushStrategy], [ProcessingRule] and [LogsAdditionalEndpoint].  The
    replace rules of libdatadog and the propagation styles of the tracer are the class
    [Tracer]. *)
From Stdlib Require Import Ascii SpecFloat.
From S2P Require Import Prelude RStr Float Serde.

Notation ReplaceRuleYaml := (string * string * string)%type.

(** [libdd_trace_obfuscation::replacer] and
    [datadog_opentelemetry::configuration::TracePropagationStyle]. *)
Class Tracer := {
  ReplaceRule : Type;
  parse_rules_from_string : string → result (list ReplaceRule) string;
  rules_to_string : list ReplaceRuleYaml → result string string;
  TracePropagationStyle : Type;
  StyleDatadog : TracePropagationStyle;
  StyleTraceContext : TracePropagationStyle;
  style_from_str : string → result TracePropagationStyle string;
}.

(** * Log levels: [log_level.rs] *)

Inductive LogLevel := Error | Warn | Info | Debug | Trace.
#[export] Instance log_level_eq_dec : EqDecision LogLevel.
Proof. solve_decision. Defined.

Definition log_level_default : LogLevel := Warn.

Definition log_level_as_ref (self : LogLevel) : string :=
  match self with
  | Error => "ERROR" | Warn => "WARN" | Info => "INFO" | Debug => "DEBUG" | Trace => "TRACE"
  end.

Definition log_level_from_str (s : string) : result LogLevel string :=
  let l := to_lowercase s in
  if String.eqb l "error" then Ok Error
  else if String.eqb l "warn" then Ok Warn
  else if String.eqb l "info" then Ok Info
  else if String.eqb l "debug" then Ok Debug
  else if String.eqb l "trace" then Ok Trace
  else Err ("Invalid log level: '" +:+ s +:+ "'. Valid levels are: error, warn, info, debug, trace").

(** * Flush strategies: [flush_strategy.rs] *)

Record PeriodicStrategy := { interval : Z }.
Inductive FlushStrategy :=
  | FlushDefault
  | Periodically (p : PeriodicStrategy)
  | FlushEnd
  | EndPeriodically (p : PeriodicStrategy)
  | Continuously (p : PeriodicStrategy).

Definition flush_strategy_name (self : FlushStrategy) : string :=
  match self with
  | FlushDefault => "default"
  | FlushEnd => "end"
  | Periodically _ => "periodically"
  | EndPeriodically _ => "end-periodically"
  | Continuously _ => "continuously"
  end.

Definition flush_strategy_of (value : string) : FlushStrategy :=
  if String.eqb value "end" then FlushEnd else
  let pieces := split "," value in
  let strategy := pieces !! 0%nat in
  let interval := pieces !! 1%nat ≫= parse_uint u64_max in
  match strategy, interval with
  | Some strategy, Some interval =>
      let p := {| interval := interval |} in
      if String.eqb strategy "periodically" then Periodically p
      else if String.eqb strategy "continuously" then Continuously p
      else if String.eqb strategy "end" then EndPeriodically p
      else FlushDefault
  | _, _ => FlushDefault
  end.

Section Deserializers.
Context `{Serde}.

Definition de_log_level : parser LogLevel := λ v,
  let? value := de_value v in
  match value with
  | VString s => match log_level_from_str s with Ok level => Ok level | Err _ => Ok Warn end
  | _ => Ok Warn
  end.

Definition de_flush_strategy : parser FlushStrategy := λ v,
  let? value := de_string v in Ok (flush_strategy_of value).

(** * Helpers: [helpers.rs] *)

Definition deserialize_optional_string : parser (option string) := λ v,
  let? value := de_value v in
  match value with VString s => Ok (Some s) | _ => Ok None end.

Definition deserialize_string_or_int : parser (option string) := λ v,
  let? value := de_value v in
  match value with
  | VString s => if is_empty (trim s) then Ok None else Ok (Some s)
  | VNumber n => Ok (Some (show_number n))
  | _ => Ok None
  end.

(** An option reads a null as [None] and anything else as a value. *)
Definition deserialize_optional_bool_from_anything : parser (option bool) := λ v,
  let? opt := de_option de_value v in
  match opt with
  | None => Ok None
  | Some value => match bool_from_anything value with Ok b => Ok (Some b) | Err _ => Ok None end
  end.

Definition parse_key_value_tag (tag : string) : option (string * string) :=
  match split_once ":" tag with
  | Some (key, value) => if negb (is_empty key) && negb (is_empty value) then Some (key, value) else None
  | None => None
  end.

Definition insert_pair (map : gmap string string) (tag : string) : gmap string string :=
  match parse_key_value_tag tag with Some (key, val) => <[key := val]> map | None => map end.

Definition is_tag_separator (c : ascii) : bool :=
  bool_decide (c = ","%char) || bool_decide (c = " "%char).

Definition key_value_pairs (value : string) : gmap string string :=
  fold_left (λ map tag, if is_empty tag then map else insert_pair map tag)
    (split_by is_tag_separator value) ∅.

(** [KeyValueVisitor] visits 64-bit integers, and no wider ones. *)
Definition deserialize_key_value_pairs : parser (gmap string string) := λ v,
  let refused := Err (invalid_type v "a string in format 'key1:value1,key2:value2' or 'key1:value1'") in
  match v with
  | VString value => Ok (key_value_pairs value)
  | VNumber n => if fits_number n then Ok ∅ else refused
  | VBool _ => Ok ∅
  | _ => refused
  end.

Definition non_empty_trimmed (parts : list string) : list string :=
  filter (λ s, is_empty s = false) (map trim parts).

Definition deserialize_array_from_comma_separated_string : parser (list string) := λ v,
  let? s := de_string v in Ok (non_empty_trimmed (split "," s)).

Definition split_comma_then_space (s : string) : list string :=
  non_empty_trimmed (if contains_char "," s then split "," s else split " " s).

Definition deserialize_comma_then_space_separated_string : parser (list string) := λ v,
  let? s := de_string v in Ok (split_comma_then_space s).

Fixpoint all_strings (items : list Value) : option (list string) :=
  match items with
  | [] => Some []
  | VString s :: items => match all_strings items with Some l => Some (s :: l) | None => None end
  | _ :: _ => None
  end.

Definition deserialize_comma_then_space_separated_string_or_list : parser (list string) := λ v,
  let? value := de_value v in
  match value with
  | VArray items => match all_strings items with Some features => Ok features | None => Ok [] end
  | VString s => Ok (split_comma_then_space s)
  | _ => Ok []
  end.

Definition deserialize_key_value_pair_array_to_hashmap : parser (gmap string string) := λ v,
  match de_vec de_string v with
  | Ok array => Ok (fold_left insert_pair array ∅)
  | Err _ => Ok ∅
  end.

(** [splitn(2, ':')] always has one part, and two when there is a colon. *)
Definition filter_tag (pair : string) : option string :=
  match split_once ":" pair with
  | Some (key, value) =>
      let key := trim key in
      let value := trim value in
      if is_empty key then None
      else if is_empty value then Some key
      else Some (key +:+ ":" +:+ value)
  | None => let key := trim pair in if is_empty key then None else Some key
  end.

Definition deserialize_apm_filter_tags : parser (option (list string)) := λ v,
  let? opt := de_option de_string v in
  match opt with
  | None => Ok None
  | Some s =>
      if is_empty (trim s) then Ok None else
      let tags := omap filter_tag (split_whitespace s) in
      if decide (tags = []) then Ok None else Ok (Some tags)
  end.

Definition deserialize_option_lossless {T} (de : parser T) : parser (option T) := λ v,
  match de_option de v with Ok value => Ok value | Err _ => Ok None end.

Definition deserialize_with_default {T} (dflt : T) (de : parser T) : parser T := λ v,
  match de v with Ok value => Ok value | Err _ => Ok dflt end.

(** ** Durations, in nanoseconds *)

Definition duration_max : Z := (2 ^ 64 - 1) * 10 ^ 9 + (10 ^ 9 - 1).

(** [m / d] rounded to the nearest integer, ties to even. *)
Definition round_div (m d : Z) : Z :=
  let q := m / d in
  let r := m mod d in
  if (2 * r <? d) || ((2 * r =? d) && Z.even q) then q else q + 1.

(** [Duration::from_secs_f64], [None] when it panics: a negative or non-finite number of
    seconds, or one that is too large. *)
Definition from_secs_f64 (x : f64) : option Z :=
  match x with
  | S754_zero _ => Some 0
  | S754_finite false m e =>
      let nanos := if 0 <=? e then Z.pos m * 2 ^ e * 10 ^ 9
                   else round_div (Z.pos m * 10 ^ 9) (2 ^ (- e)) in
      if nanos <=? duration_max then Some nanos else None
  | _ => None
  end.

Definition deserialize_optional_duration_from_microseconds : parser (option Z) := λ v,
  match de_option de_u64 v with
  | Ok opt => Ok ((λ micros, micros * 1000) <$> opt)
  | Err _ => Ok None
  end.

(** [None] is the panic of [from_secs_f64]. *)
Definition deserialize_optional_duration_from_seconds (v : Value) : option (result (option Z) string) :=
  match de_value v with
  | Ok (VNumber n) =>
      match as_u64 n with
      | Some u => Some (Ok (Some (u * 10 ^ 9)))
      | None =>
          match as_i64 n with
          | Some i => if i <? 0 then Some (Ok None) else Some (Ok (Some (i * 10 ^ 9)))
          | None =>
              match as_f64 n with
              | Some f => if flt f F64.zero then Some (Ok None)
                          else match from_secs_f64 f with
                               | Some d => Some (Ok (Some d))
                               | None => None
                               end
              | None => Some (Ok None)
              end
          end
      end
  | _ => Some (Ok None)
  end.

Definition deserialize_optional_duration_from_seconds_ignore_zero (v : Value) :
    option (result (option Z) string) :=
  match deserialize_optional_duration_from_seconds v with
  | Some (Ok (Some d)) => if d / 10 ^ 9 =? 0 then Some (Ok None) else Some (Ok (Some d))
  | r => r
  end.

(** * Endpoints: [additional_endpoints.rs], [logs_additional_endpoints.rs] *)

Definition endpoint_urls (arr : list Value) : list string := omap as_str arr.

Definition insert_endpoint (acc : gmap string (list string)) (kv : string * Value) :
    gmap string (list string) :=
  match kv.2 with VArray arr => <[kv.1 := endpoint_urls arr]> acc | _ => acc end.

Definition deserialize_additional_endpoints : parser (gmap string (list string)) := λ v,
  let? value := de_value v in
  match value with
  | VObject m => Ok (fold_left insert_endpoint m ∅)
  | VString s =>
      if is_empty s then Ok ∅ else
      match from_str (de_map (de_vec de_string)) s with Ok map => Ok map | Err _ => Ok ∅ end
  | _ => Ok ∅
  end.

Record LogsAdditionalEndpoint := {
  lae_api_key : string;
  lae_host : string;
  lae_port : Z;
  lae_is_reliable : bool;
}.

Definition de_logs_additional_endpoint : parser LogsAdditionalEndpoint := λ v,
  let? a := as_struct 4 v in
  Ok Build_LogsAdditionalEndpoint
    <*> required a 0 "api_key" de_string
    <*> required a 1 "Host" de_string
    <*> required a 2 "Port" de_u32
    <*> required a 3 "is_reliable" de_bool.

Definition deserialize_logs_additional_endpoints : parser (list LogsAdditionalEndpoint) := λ v,
  let? value := de_value v in
  match value with
  | VString s =>
      if is_empty s then Ok [] else
      match from_str (de_vec de_logs_additional_endpoint) s with Ok l => Ok l | Err _ => Ok [] end
  | _ => Ok []
  end.

(** * Processing rules: [processing_rule.rs] *)

Inductive Kind := ExcludeAtMatch | IncludeAtMatch | MaskSequences.
Record ProcessingRule := {
  rule_kind : Kind;
  rule_name : string;
  rule_pattern : string;
  replace_placeholder : option string;
}.

Definition de_kind : parser Kind := λ v,
  let? name := variant_name v in
  if String.eqb name "exclude_at_match" then Ok ExcludeAtMatch
  else if String.eqb name "include_at_match" then Ok IncludeAtMatch
  else if String.eqb name "mask_sequences" then Ok MaskSequences
  else Err (unknown_variant name).

Definition de_processing_rule : parser ProcessingRule := λ v,
  let? a := as_struct 4 v in
  Ok Build_ProcessingRule
    <*> required a 0 "type" de_kind
    <*> required a 1 "name" de_string
    <*> required a 2 "pattern" de_string
    <*> optional a 3 "replace_placeholder" de_string.

Definition deserialize_processing_rules : parser (option (list ProcessingRule)) := λ v,
  let? value := de_value v in
  match value with
  | VString s =>
      match from_str (de_vec de_processing_rule) s with Ok values => Ok (Some values) | Err _ => Ok None end
  | VArray a =>
      let values := omap (λ v, result_ok (de_processing_rule v)) a in
      match values with [] => Ok None | _ => Ok (Some values) end
  | _ => Ok None
  end.

(** * Service mapping: [service_mapping.rs] *)

(** The pieces of [pair.split(':')] after the second are dropped. *)
Definition service_pair (pair : string) : option (string * string) :=
  match split ":" pair with
  | service :: to_map :: _ => Some (trim service, trim to_map)
  | _ => None
  end.

Definition insert_all (l : list (string * string)) : gmap string string :=
  fold_left (λ map kv, <[kv.1 := kv.2]> map) l ∅.

Definition deserialize_service_mapping : parser (gmap string string) := λ v,
  match de_string v with
  | Ok s => Ok (insert_all (omap service_pair (split "," s)))
  | Err _ => Ok ∅
  end.

(** * Replace rules and propagation styles: [apm_replace_rule.rs], [helpers.rs] *)

Definition de_replace_rule_yaml : parser ReplaceRuleYaml := λ v,
  let? a := as_struct 3 v in
  Ok (λ name pattern repl, (name, pattern, repl))
    <*> required a 0 "name" de_string
    <*> required a 1 "pattern" de_string
    <*> required a 2 "repl" de_string.

Context `{Tracer}.

(** [StringOrReplaceRulesVisitor] *)
Definition visit_replace_rules (v : Value) : result string string :=
  match v with
  | VString value => match from_str de_value value with Ok _ => Ok value | Err _ => Ok "" end
  | VArray seq =>
      let? rules := collect (map de_replace_rule_yaml seq) in
      match rules_to_string rules with Ok json => Ok json | Err _ => Ok "" end
  | _ => Err (invalid_type v "a JSON string or YAML sequence of replace rules")
  end.

Definition deserialize_apm_replace_rules : parser (option (list ReplaceRule)) := λ v,
  match visit_replace_rules v with
  | Err _ => Ok None
  | Ok json_string =>
      match parse_rules_from_string json_string with Ok rules => Ok (Some rules) | Err _ => Ok None end
  end.

Definition deserialize_trace_propagation_style : parser (list TracePropagationStyle) := λ v,
  match de_string v with
  | Err _ => Ok []
  | Ok s => Ok (omap (λ style, result_ok (style_from_str (trim style))) (split "," s))
  end.
End Deserializers.

(** * Facts *)

(** A deserializer that never fails the extraction of its structure, and one that reads a
    JSON value first and then never fails. *)
Definition graceful {T} (de : parser T) : Prop := ∀ v, is_ok (de v) = true.
Definition fails_as_json {T} (de : parser T) : Prop := ∀ v, is_ok (de v) = fits v.

(** ** Log levels and flush strategies *)

Definition same_level (s : string) (l : LogLevel) : Prop :=
  to_lowercase s = to_lowercase (log_level_as_ref l).

Lemma log_level_from_str_ok s l : log_level_from_str s = Ok l ↔ same_level s l.
Proof.
  unfold log_level_from_str, same_level.
  repeat match goal with |- context [String.eqb ?a ?b] => destruct (String.eqb_spec a b) as [->|] end;
    destruct l; cbn; naive_solver.
Qed.

Theorem log_level_roundtrip `{!Serde, !SerdeLaws} v l :
  log_level_from_str (log_level_as_ref l) = Ok l ∧
  fails_as_json de_log_level ∧
  (fits v = true → de_log_level v = Ok l ↔
     (∃ s, v = VString s ∧ same_level s l) ∨
     (l = Warn ∧ ∀ s l', v = VString s → ¬ same_level s l')).
Proof.
  split_and!.
  - by apply log_level_from_str_ok.
  - intros w. unfold de_log_level. rewrite is_ok_bind, de_value_ok; [done|].
    intros []; try done. by destruct (log_level_from_str _).
  - intros Hf. unfold de_log_level. rewrite <- de_value_ok in Hf.
    assert (∀ s, de_value v = Ok (VString s) ↔ v = VString s) as Hstr
      by (intros s; split; [apply de_value_string|intros ->; by apply de_value_json]).
    destruct (de_value v) as [w|] eqn:Ew; [clear Hf; cbn [result_bind]|done].
    assert (∀ s, w = VString s ↔ v = VString s) as Hw by (intros s; rewrite <- Hstr; naive_solver).
    clear Hstr Ew. setoid_rewrite <- Hw. clear Hw v.
    destruct w as [| | |s| |]; [naive_solver..| |naive_solver|naive_solver].
    destruct (log_level_from_str s) as [l'|e] eqn:E.
    + pose proof E as E'. apply log_level_from_str_ok in E'. split; [intros [= <-]; eauto|].
      intros [(? & [= <-] & Hl)|[_ Hn]]; [|by destruct (Hn s l')].
      apply log_level_from_str_ok in Hl. congruence.
    + assert (∀ l', ¬ same_level s l') as Hn.
      { intros l' Hl%log_level_from_str_ok. congruence. }
      split; [intros [= <-]; right; naive_solver|].
      intros [(? & [= <-] & Hl)|[-> _]]; [by destruct (Hn l)|done].
Qed.

(** The text of a strategy, as documented on [FlushStrategy]'s deserializer. *)
Definition render_strategy (s : FlushStrategy) : string :=
  match s with
  | FlushDefault => "default"
  | FlushEnd => "end"
  | Periodically p => "periodically," +:+ show_Z (interval p)
  | EndPeriodically p => "end," +:+ show_Z (interval p)
  | Continuously p => "continuously," +:+ show_Z (interval p)
  end.

Definition strategy_ok (s : FlushStrategy) : Prop :=
  match s with
  | Periodically p | EndPeriodically p | Continuously p => 0 ≤ interval p ≤ u64_max
  | _ => True
  end.

Lemma flush_strategy_pieces name n :
  contains_char "," name = false → 0 ≤ n ≤ u64_max →
  flush_strategy_of (name +:+ String "," (show_Z n)) =
    if String.eqb name "periodically" then Periodically {| interval := n |}
    else if String.eqb name "continuously" then Continuously {| interval := n |}
    else if String.eqb name "end" then EndPeriodically {| interval := n |}
    else FlushDefault.
Proof.
  intros Hname Hn. unfold flush_strategy_of.
  rewrite (proj2 (String.eqb_neq (name +:+ String "," (show_Z n)) "end")).
  - rewrite split_app_sep by done. rewrite split_single.
    + cbn [lookup list_lookup mbind option_bind]. by rewrite parse_uint_show.
    + eapply digits_val_no_char; [apply digits_val_show; lia|done].
  - intros E. apply (f_equal (contains_char ",")) in E.
    rewrite contains_char_app in E. cbn in E. by rewrite orb_true_r in E.
Qed.

Lemma flush_strategy_ok v : strategy_ok (flush_strategy_of v).
Proof.
  unfold flush_strategy_of. destruct (String.eqb v "end"); [done|].
  destruct (split "," v !! 0%nat) as [name|]; [|done].
  destruct (split "," v !! 1%nat ≫= parse_uint u64_max) as [n|] eqn:E; [|done].
  apply bind_Some in E as (s & _ & Hr%parse_uint_range).
  by repeat match goal with |- context [if ?b then _ else _] => destruct b end.
Qed.

(** Reading the text of a flush strategy gives the strategy back, any text gives one
    whose interval fits, and only the word [end] gives the end strategy. *)
Theorem flush_strategy_roundtrip s v :
  (strategy_ok s → flush_strategy_of (render_strategy s) = s) ∧
  strategy_ok (flush_strategy_of v) ∧
  (flush_strategy_of v = FlushEnd ↔ v = "end").
Proof.
  split_and!.
  - destruct s as [|[n]| |[n]|[n]]; cbn [strategy_ok interval]; intros Hn; try done.
    + by apply (flush_strategy_pieces "periodically").
    + by apply (flush_strategy_pieces "end").
    + by apply (flush_strategy_pieces "continuously").
  - apply flush_strategy_ok.
  - unfold flush_strategy_of. destruct (String.eqb_spec v "end") as [->|Hv]; [done|].
    split; [|done].
    by repeat case_match.
Qed.

(** ** Key and value pairs *)

(** The last entry of a key is the one kept. *)
Definition last_of (k : string) (l : list (string * string)) : option string :=
  snd <$> last (filter (λ kv, kv.1 = k) l).

Lemma insert_all_lookup l k : insert_all l !! k = last_of k l.
Proof.
  unfold insert_all, last_of. induction l as [|[k' v] l IH] using rev_ind; [done|].
  rewrite fold_left_app, filter_app. cbn [fold_left fst snd]. rewrite filter_cons, filter_nil.
  destruct (decide (k' = k)) as [->|Hk]; cbn [fst].
  - rewrite decide_True by done. by rewrite lookup_insert_eq, last_snoc.
  - rewrite decide_False by done. by rewrite lookup_insert_ne, app_nil_r by done.
Qed.

Lemma insert_pairs_all l :
  fold_left insert_pair l ∅ = insert_all (omap parse_key_value_tag l).
Proof.
  unfold insert_all. generalize (∅ : gmap string string) as m.
  induction l as [|t l IH]; intros m; [done|]. cbn. unfold insert_pair at 2.
  by destruct (parse_key_value_tag t) as [[k v]|].
Qed.

Lemma key_value_pairs_all s :
  key_value_pairs s = insert_all (omap parse_key_value_tag (split_by is_tag_separator s)).
Proof.
  rewrite <- insert_pairs_all. unfold key_value_pairs.
  generalize (∅ : gmap string string) as m. generalize (split_by is_tag_separator s) as l.
  induction l as [|t l IH]; intros m; [done|]. cbn.
  destruct (is_empty t) eqn:E; [|done]. by destruct t.
Qed.

Lemma is_empty_spec s : is_empty s = true ↔ s = "".
Proof. by destruct s. Qed.

Lemma parse_key_value_tag_ok tag k v :
  parse_key_value_tag tag = Some (k, v) ↔
    tag = k +:+ ":" +:+ v ∧ contains_char ":" k = false ∧ k ≠ "" ∧ v ≠ "".
Proof.
  pose proof (split_once_some ":" tag k v) as Hs. cbn in Hs |- *. rewrite (assoc and), <- Hs.
  unfold parse_key_value_tag. destruct (split_once ":" tag) as [[h t]|]; [|naive_solver].
  destruct (is_empty h) eqn:Eh, (is_empty t) eqn:Et; cbn; rewrite ?is_empty_spec in *;
    split; intros Hx; simplify_eq; try (destruct_and!; simplify_eq; done).
  split; [done|]. by destruct k, v.
Qed.

(** A pair that a tag can carry. *)
Definition pair_clean (kv : string * string) : Prop :=
  contains_char ":" kv.1 = false ∧ kv.1 ≠ "" ∧ kv.2 ≠ "" ∧
  free_of is_tag_separator kv.1 ∧ free_of is_tag_separator kv.2.

Definition render_pair (kv : string * string) : string := kv.1 +:+ ":" +:+ kv.2.

Lemma render_pair_parse l :
  Forall pair_clean l → omap parse_key_value_tag (map render_pair l) = l.
Proof.
  induction 1 as [|[k v] l (Hc & Hk & Hv & _ & _) Hl IH]; [done|]. cbn [map omap list_omap].
  rewrite (proj2 (parse_key_value_tag_ok (render_pair (k, v)) k v)) by done. by rewrite IH.
Qed.

Lemma render_pair_free kv : pair_clean kv → free_of is_tag_separator (render_pair kv).
Proof.
  intros (_ & _ & _ & Hk & Hv). unfold free_of, render_pair. rewrite !bytes_of_app.
  apply Forall_app; split; [done|]. by constructor.
Qed.

Lemma insert_all_nodup l : NoDup l.*1 → insert_all l = list_to_map l.
Proof.
  intros Hnd. apply map_eq. intros k. rewrite insert_all_lookup. unfold last_of.
  induction l as [|[k' v] l IH]; [done|]. cbn in Hnd. apply NoDup_cons in Hnd as [Hnin Hnd].
  rewrite filter_cons. cbn. case_decide as Hk.
  - subst k'. rewrite lookup_insert_eq.
    assert (filter (λ kv : string * string, kv.1 = k) l = []) as ->; [|done].
    apply elem_of_nil_inv. intros [k' v'] [Hk' Hin]%list_elem_of_filter. apply Hnin. cbn in Hk'. subst.
    apply list_elem_of_fmap. by exists (k, v').
  - rewrite lookup_insert_ne by done. by apply IH.
Qed.

Section Facts.
Context `{!Serde, !SerdeLaws}.

(** A map of clean pairs, written in any order, is read back; in any text the value
    of a key is the one of its last well-formed tag. *)
Theorem key_value_pairs_roundtrip m l s k :
  (map_Forall (λ k v, pair_clean (k, v)) m → l ≡ₚ map_to_list m → l ≠ [] →
     deserialize_key_value_pairs (VString (join "," (map render_pair l))) = Ok m) ∧
  key_value_pairs s !! k = last_of k (omap parse_key_value_tag (split_by is_tag_separator s)).
Proof.
  split; [|by rewrite key_value_pairs_all, insert_all_lookup].
  intros Hm Hl Hne. cbn [deserialize_key_value_pairs]. f_equal. rewrite key_value_pairs_all.
  assert (Forall pair_clean l) as Hc.
  { rewrite Hl. apply Forall_forall. intros [k' v'] Hkv%elem_of_map_to_list. by apply Hm. }
  rewrite (split_by_join _ ","%char).
  - rewrite render_pair_parse by done. rewrite insert_all_nodup.
    + rewrite (list_to_map_proper l (map_to_list m)); [by rewrite list_to_map_to_list| |done].
      rewrite Hl. apply NoDup_fst_map_to_list.
    + rewrite Hl. apply NoDup_fst_map_to_list.
  - done.
  - by destruct l.
  - apply Forall_map. eapply Forall_impl; [exact Hc|]. intros ?. apply render_pair_free.
Qed.

Lemma de_option_inv {T} (p : parser T) v x : de_option p v = Ok (Some x) → p v = Ok x.
Proof.
  destruct v; rewrite ?de_option_null, ?de_option_some by done; [done|..];
    destruct (p _) as [y|]; try done; by intros [= <-].
Qed.

(** ** Totality *)

Lemma de_string_ok v : is_ok (de_string v) = true ↔ is_Some (as_str v).
Proof.
  destruct v as [| | |s| |]; cbn; [..|rewrite de_string_str; naive_solver| |];
    rewrite ?de_string_other by done; split; try done; by intros [].
Qed.

Lemma lossless_graceful {T} (de : parser T) : graceful (deserialize_option_lossless de).
Proof. intros v. unfold deserialize_option_lossless. by destruct (de_option de v). Qed.
Lemma with_default_graceful {T} (d : T) (de : parser T) : graceful (deserialize_with_default d de).
Proof. intros v. unfold deserialize_with_default. by destruct (de v). Qed.
Lemma json_bind_ok {T} (k : Value → result T string) :
  (∀ w, is_ok (k w) = true) → fails_as_json (λ v, let? w := de_value v in k w).
Proof. intros Hk v. by rewrite is_ok_bind, de_value_ok. Qed.

Lemma optional_string_json : fails_as_json deserialize_optional_string.
Proof. apply json_bind_ok. by intros []. Qed.
Lemma string_or_int_json : fails_as_json deserialize_string_or_int.
Proof. apply json_bind_ok. intros []; try done. by destruct (is_empty _). Qed.
Lemma optional_bool_json : fails_as_json deserialize_optional_bool_from_anything.
Proof.
  intros v. unfold deserialize_optional_bool_from_anything. rewrite is_ok_bind.
  - destruct v; rewrite ?de_option_null, ?de_option_some by done; [done|..]; by rewrite is_ok_bind, de_value_ok.
  - intros [w|]; [|done]. by destruct (bool_from_anything w).
Qed.
Lemma features_json : fails_as_json deserialize_comma_then_space_separated_string_or_list.
Proof. apply json_bind_ok. intros []; try done. by destruct (all_strings l). Qed.
Lemma additional_endpoints_json : fails_as_json deserialize_additional_endpoints.
Proof. apply json_bind_ok. intros []; try done. destruct (is_empty s); [done|]. by destruct (from_str _ s). Qed.
Lemma logs_additional_endpoints_json : fails_as_json deserialize_logs_additional_endpoints.
Proof. apply json_bind_ok. intros []; try done. destruct (is_empty s); [done|]. by destruct (from_str _ s). Qed.
Lemma processing_rules_json : fails_as_json deserialize_processing_rules.
Proof. apply json_bind_ok. intros []; try done; [by destruct (from_str _ s)|]. by destruct (omap _ l). Qed.

Lemma pair_array_graceful : graceful deserialize_key_value_pair_array_to_hashmap.
Proof. intros v. unfold deserialize_key_value_pair_array_to_hashmap. by destruct (de_vec _ v). Qed.
Lemma service_mapping_graceful : graceful deserialize_service_mapping.
Proof. intros v. unfold deserialize_service_mapping. by destruct (de_string v). Qed.
Lemma apm_replace_rules_graceful `{!Tracer} : graceful deserialize_apm_replace_rules.
Proof.
  intros v. unfold deserialize_apm_replace_rules. destruct (visit_replace_rules v) as [s|]; [|done].
  by destruct (parse_rules_from_string s).
Qed.
Lemma propagation_style_graceful `{!Tracer} : graceful deserialize_trace_propagation_style.
Proof. intros v. unfold deserialize_trace_propagation_style. by destruct (de_string v). Qed.

(** The four that refuse other kinds of values. *)
Definition is_string (v : Value) : bool := match v with VString _ => true | _ => false end.
Definition is_scalar (v : Value) : bool :=
  match v with VString _ | VBool _ => true | VNumber n => fits_number n | _ => false end.
Definition is_string_or_null (v : Value) : bool :=
  match v with VString _ | VNull => true | _ => false end.

Lemma de_string_is_ok v : is_ok (de_string v) = is_string v.
Proof. destruct v; cbn; rewrite ?de_string_str, ?de_string_other; done. Qed.
Lemma comma_separated_ok v : is_ok (deserialize_array_from_comma_separated_string v) = is_string v.
Proof. unfold deserialize_array_from_comma_separated_string. by rewrite is_ok_bind, de_string_is_ok. Qed.
Lemma comma_then_space_ok v : is_ok (deserialize_comma_then_space_separated_string v) = is_string v.
Proof. unfold deserialize_comma_then_space_separated_string. by rewrite is_ok_bind, de_string_is_ok. Qed.
Lemma key_value_pairs_ok v : is_ok (deserialize_key_value_pairs v) = is_scalar v.
Proof. destruct v as [| |n| | |]; try done. cbn. by destruct (fits_number n). Qed.
Lemma filter_tags_ok v : is_ok (deserialize_apm_filter_tags v) = is_string_or_null v.
Proof.
  unfold deserialize_apm_filter_tags. rewrite is_ok_bind.
  - destruct v; rewrite ?de_option_null, ?de_option_some, ?is_ok_bind, ?de_string_is_ok; done.
  - intros [s|]; [|done]. destruct (is_empty _); [done|]. by destruct (decide _).
Qed.
(** ** Durations *)

Lemma round_div_nearest m d : 0 ≤ m → 0 < d → 0 ≤ round_div m d ∧ 2 * Z.abs (round_div m d * d - m) ≤ d.
Proof.
  intros Hm Hd. pose proof (Z.div_mod m d ltac:(lia)) as E. pose proof (Z.mod_pos_bound m d Hd) as Hr.
  assert (0 ≤ m / d) by (apply Z.div_pos; lia). unfold round_div.
  destruct (Z.ltb_spec (2 * (m mod d)) d); cbn [orb]; [split; [lia|]; nia|].
  destruct (Z.eqb_spec (2 * (m mod d)) d); cbn [andb].
  - destruct (Z.even (m / d)); split; try lia; nia.
  - split; [lia|]. nia.
Qed.

(** The duration of a positive float is the nearest number of nanoseconds. *)
Lemma from_secs_f64_nearest m e d :
  from_secs_f64 (S754_finite false m e) = Some d →
  0 ≤ d ≤ duration_max ∧
  (0 ≤ e → d = Z.pos m * 2 ^ e * 10 ^ 9) ∧
  (e < 0 → 2 * Z.abs (d * 2 ^ (- e) - Z.pos m * 10 ^ 9) ≤ 2 ^ (- e)).
Proof.
  cbn [from_secs_f64]. destruct (Z.leb_spec 0 e) as [He|He].
  - destruct (Z.leb_spec (Z.pos m * 2 ^ e * 10 ^ 9) duration_max) as [Hd|]; [|done]. intros [= <-].
    assert (0 ≤ 2 ^ e) by (apply Z.pow_nonneg; lia). repeat split; [nia|done|lia].
  - destruct (round_div_nearest (Z.pos m * 10 ^ 9) (2 ^ (- e))) as [Hn Hr]; [lia| |].
    { apply Z.pow_pos_nonneg; lia. }
    destruct (Z.leb_spec (round_div (Z.pos m * 10 ^ 9) (2 ^ (- e))) duration_max) as [Hd|]; [|done].
    intros [= <-]. repeat split; [done|done|lia|done].
Qed.

Lemma from_secs_f64_range x d : from_secs_f64 x = Some d → 0 ≤ d ≤ duration_max.
Proof.
  destruct x as [| | |[] m e]; try done; [by intros [= <-]|].
  intros Hd. by apply from_secs_f64_nearest in Hd as [? _].
Qed.

Lemma seconds_cases v :
  match deserialize_optional_duration_from_seconds v with
  | None => ∃ x, de_value v = Ok (VNumber (FloatNum x)) ∧ flt x F64.zero = false ∧ from_secs_f64 x = None
  | Some (Ok (Some d)) => 0 ≤ d ≤ duration_max
  | Some (Ok None) => True
  | Some (Err _) => False
  end.
Proof.
  unfold deserialize_optional_duration_from_seconds. destruct (de_value v) as [w|] eqn:E; [|done].
  apply de_value_tree in E. destruct w as [| |[n|n|x]| | |]; try done; cbn -[Z.mul Z.pow from_secs_f64 duration_max i64_max u64_max]; cbn in E.
  - zify_bool. unfold duration_max, u64_max in *. lia.
  - destruct (Z.ltb_spec n 0); [done|zify_bool; lia].
  - destruct (flt x F64.zero) eqn:Ex; [done|].
    destruct (from_secs_f64 x) as [d|] eqn:Ed; [|eauto]. by apply from_secs_f64_range in Ed.
Qed.

(** Durations read from seconds or microseconds are in range, negative numbers are
    dropped, durations under a second are dropped by the variant that ignores zero, a
    fraction is rounded to the nearest nanosecond, and the only panics are those of
    [from_secs_f64]. *)
Theorem duration_spec v :
  (deserialize_optional_duration_from_seconds v = None →
     ∃ x, de_value v = Ok (VNumber (FloatNum x)) ∧ flt x F64.zero = false ∧ from_secs_f64 x = None) ∧
  (∀ d, deserialize_optional_duration_from_seconds v = Some (Ok (Some d)) → 0 ≤ d ≤ duration_max) ∧
  (∀ n, v = VNumber (NegInt n) → json_tree v = true →
     deserialize_optional_duration_from_seconds v = Some (Ok None)) ∧
  (∀ d, deserialize_optional_duration_from_seconds_ignore_zero v = Some (Ok (Some d)) →
     10 ^ 9 ≤ d ≤ duration_max) ∧
  (∀ d, deserialize_optional_duration_from_microseconds v = Ok (Some d) → 0 ≤ d ≤ u64_max * 1000) ∧
  (∀ m e, v = VNumber (FloatNum (S754_finite false m e)) → e < 0 → ∀ d,
     deserialize_optional_duration_from_seconds v = Some (Ok (Some d)) →
     2 * Z.abs (d * 2 ^ (- e) - Z.pos m * 10 ^ 9) ≤ 2 ^ (- e)).
Proof.
  pose proof (seconds_cases v) as Hs. split_and!.
  - intros E. by rewrite E in Hs.
  - intros d E. by rewrite E in Hs.
  - intros n -> Hj. unfold deserialize_optional_duration_from_seconds. rewrite de_value_json by done.
    cbn in *. destruct (Z.ltb_spec n 0); [done|zify_bool; lia].
  - intros d. unfold deserialize_optional_duration_from_seconds_ignore_zero.
    destruct (deserialize_optional_duration_from_seconds v) as [[[d'|]|]|]; try done.
    destruct (Z.eqb_spec (d' / 10 ^ 9) 0) as [|Hd]; [done|]. intros [= ->].
    split; [|lia]. destruct (decide (10 ^ 9 ≤ d)); [done|]. destruct Hd. apply Z.div_small. lia.
  - intros d. unfold deserialize_optional_duration_from_microseconds.
    destruct (de_option de_u64 v) as [[n|]|] eqn:E; [|done..]. cbn.
    apply de_option_inv, de_u64_range in E. intros [= <-]. lia.
  - intros m e -> He d E. unfold deserialize_optional_duration_from_seconds in E.
    rewrite de_value_json in E by done. cbn -[from_secs_f64] in E.
    destruct (from_secs_f64 (S754_finite false m e)) as [d'|] eqn:Ed; [|done].
    injection E as ->. by apply from_secs_f64_nearest in Ed as (_ & _ & ?); auto.
Qed.

(** ** Endpoints and rules *)

Lemma additional_endpoints_lookup m k :
  NoDup m.*1 →
  fold_left insert_endpoint m ∅ !! k =
    match find_key k m with Some (VArray arr) => Some (endpoint_urls arr) | _ => None end.
Proof.
  assert (∀ acc, NoDup m.*1 → fold_left insert_endpoint m acc !! k =
    match find_key k m with Some (VArray arr) => Some (endpoint_urls arr) | _ => acc !! k end) as Hgen.
  { induction m as [|[k' v] m IH]; intros acc Hnd; [done|]. cbn in Hnd |- *.
    apply NoDup_cons in Hnd as [Hnin Hnd]. rewrite IH by done.
    destruct (String.eqb_spec k k') as [<-|Hk].
    - assert (find_key k m = None) as ->.
      { clear -Hnin. induction m as [|[k2 v2] m IH]; [done|]. cbn in Hnin |- *.
        destruct (String.eqb_spec k k2) as [<-|]; [set_solver|]. apply IH. set_solver. }
      destruct v; cbn; try done; by rewrite ?lookup_insert_eq.
    - destruct v; cbn; rewrite ?lookup_insert_ne by done; done. }
  intros Hnd. rewrite Hgen by done. by destruct (find_key k m) as [[]|].
Qed.
End Facts.

#[export] Hint Resolve lossless_graceful with_default_graceful pair_array_graceful
  service_mapping_graceful apm_replace_rules_graceful propagation_style_graceful
  optional_string_json string_or_int_json optional_bool_json features_json additional_endpoints_json
  logs_additional_endpoints_json processing_rules_json : rust.

(** * Examples *)
Module AgentDeserializersExamples.
#[local] Existing Instances SerdeModel.serde SerdeModel.serde_laws.

Example key_value_pairs_example :
  deserialize_key_value_pairs (VString "a:1, b:x:y,:bad a:2") = Ok (<["a" := "2"]> {["b" := "x:y"]}).
Proof. vm_compute. reflexivity. Qed.

Example features_example :
  split_comma_then_space "a b, c ,," = ["a b"; "c"] ∧ split_comma_then_space " a  b" = ["a"; "b"] ∧
  deserialize_comma_then_space_separated_string_or_list (VArray [VString "a"; VBool true]) = Ok [].
Proof. vm_compute. done. Qed.

Example filter_tags_example :
  deserialize_apm_filter_tags (VString " env:prod  key: :bad x:y:z ") = Ok (Some ["env:prod"; "key"; "x:y:z"]).
Proof. vm_compute. reflexivity. Qed.

Example flush_strategy_example :
  map flush_strategy_of ["end,1000"; "end,x"; "periodically,5,9"; "end,"] =
    [EndPeriodically {| interval := 1000 |}; FlushDefault; Periodically {| interval := 5 |}; FlushDefault].
Proof. vm_compute. reflexivity. Qed.

(** Two to the sixty-four seconds are too many for a duration. *)
Example duration_panics :
  deserialize_optional_duration_from_seconds (VNumber (FloatNum (F64.of_Z (2 ^ 64)))) = None ∧
  deserialize_optional_duration_from_seconds (VNumber (FloatNum (F64.div (F64.of_Z 1) (F64.of_Z 2))))
    = Some (Ok (Some 500000000)).
Proof. vm_compute. done. Qed.

Lemma duration_spec_witness :
  deserialize_optional_duration_from_seconds (VNumber (NegInt (-3))) = Some (Ok None).
Proof. exact (proj1 (proj2 (proj2 (duration_spec (VNumber (NegInt (-3)))))) (-3) eq_refl eq_refl). Defined.

Lemma flush_strategy_roundtrip_witness :
  flush_strategy_of (render_strategy (EndPeriodically {| interval := 1000 |})) = EndPeriodically {| interval := 1000 |}.
Proof. apply flush_strategy_roundtrip; [exact ""|]. split; [vm_compute|]; done. Defined.

Lemma key_value_pairs_roundtrip_witness :
  deserialize_key_value_pairs (VString "env:prod") = Ok {["env" := "prod"]}.
Proof.
  refine (proj1 (key_value_pairs_roundtrip {["env" := "prod"]} [("env", "prod")] "" "") _ _ _); [| |done].
  - intros k v Hkv. apply lookup_singleton_Some in Hkv as [<- <-].
    split_and!; [done..| |]; repeat constructor.
  - by rewrite map_to_list_singleton.
Defined.
End AgentDeserializersExamples.
