(* ===== verification/AgentConfig.v ===== *)
(** The agent configuration.

    [src/crates/datadog-agent-config/src/lib.rs]: the resolved configuration [Config],
    its extension by a consumer (class [ConfigExtension]), the builder that loads the
    sources one after the other and completes the result, and the merge macros.  The
    sources are in [AgentSources]. *)
From Stdlib Require Import Ascii SpecFloat.
From S2P Require Import Prelude RStr Serde AgentDeserializers.

(** [ConfigExtension]: the fields a consumer adds, read from the same sources. *)
Class ConfigExtension (E : Type) := {
  Source : Type;
  de_source : parser Source;
  ext_default : E;
  merge_from : E → Source → E;
}.

Inductive NoExtension := MkNoExtension.
Inductive NoExtensionSource := MkNoExtensionSource.
#[export] Instance no_extension `{Serde} : ConfigExtension NoExtension := {|
  Source := NoExtensionSource;
  de_source v := let? _ := as_struct 0 v in Ok MkNoExtensionSource;
  ext_default := MkNoExtension;
  merge_from self _ := self;
|}.

Record Config `{!Tracer} {E : Type} := {
  site : string;
  api_key : string;
  dd_org_uuid : string;
  log_level : LogLevel;
  flush_timeout : Z;
  compression_level : Z;
  proxy_https : option string;
  proxy_no_proxy : list string;
  http_protocol : option string;
  tls_cert_file : option string;
  skip_ssl_validation : bool;
  dd_url : string;
  url : string;
  additional_endpoints : gmap string (list string);
  additional_endpoints_secret_arn : string;
  env : option string;
  service : option string;
  version : option string;
  tags : gmap string string;
  logs_enabled : bool;
  logs_config_logs_dd_url : string;
  logs_config_processing_rules : option (list ProcessingRule);
  logs_config_use_compression : bool;
  logs_config_compression_level : Z;
  logs_config_additional_endpoints : list LogsAdditionalEndpoint;
  logs_config_additional_endpoints_secret_arn : string;
  observability_pipelines_worker_logs_enabled : bool;
  observability_pipelines_worker_logs_url : string;
  service_mapping : gmap string string;
  apm_dd_url : string;
  apm_replace_tags : option (list ReplaceRule);
  apm_config_obfuscation_http_remove_query_string : bool;
  apm_config_obfuscation_http_remove_paths_with_digits : bool;
  apm_config_compression_level : Z;
  apm_features : list string;
  apm_additional_endpoints : gmap string (list string);
  apm_additional_endpoints_secret_arn : string;
  apm_filter_tags_require : option (list string);
  apm_filter_tags_reject : option (list string);
  apm_filter_tags_regex_require : option (list string);
  apm_filter_tags_regex_reject : option (list string);
  trace_propagation_style : list TracePropagationStyle;
  trace_propagation_style_extract : list TracePropagationStyle;
  trace_propagation_extract_first : bool;
  trace_propagation_http_baggage_enabled : bool;
  trace_aws_service_representation_enabled : bool;
  metrics_config_compression_level : Z;
  statsd_metric_namespace : option string;
  dogstatsd_so_rcvbuf : option Z;
  dogstatsd_buffer_size : option Z;
  dogstatsd_queue_size : option Z;
  otlp_config_traces_enabled : bool;
  otlp_config_traces_span_name_as_resource_name : bool;
  otlp_config_traces_span_name_remappings : gmap string string;
  otlp_config_ignore_missing_datadog_fields : bool;
  otlp_config_receiver_protocols_http_endpoint : option string;
  otlp_config_receiver_protocols_grpc_endpoint : option string;
  otlp_config_receiver_protocols_grpc_transport : option string;
  otlp_config_receiver_protocols_grpc_max_recv_msg_size_mib : option Z;
  otlp_config_metrics_enabled : bool;
  otlp_config_metrics_resource_attributes_as_tags : bool;
  otlp_config_metrics_instrumentation_scope_metadata_as_tags : bool;
  otlp_config_metrics_tag_cardinality : option string;
  otlp_config_metrics_delta_ttl : option Z;
  otlp_config_metrics_histograms_mode : option string;
  otlp_config_metrics_histograms_send_count_sum_metrics : bool;
  otlp_config_metrics_histograms_send_aggregation_metrics : bool;
  otlp_config_metrics_sums_cumulative_monotonic_mode : option string;
  otlp_config_metrics_sums_initial_cumulativ_monotonic_value : option string;
  otlp_config_metrics_summaries_mode : option string;
  otlp_config_traces_probabilistic_sampler_sampling_percentage : option Z;
  otlp_config_logs_enabled : bool;
  ext : E;
}.
#[global] Arguments Config {_} E.

Definition config_default `{!Tracer} {E} `{!ConfigExtension E} : Config E := {|
  site := "";
  api_key := "";
  dd_org_uuid := "";
  log_level := log_level_default;
  flush_timeout := 30;
  compression_level := 3;
  proxy_https := None;
  proxy_no_proxy := [];
  http_protocol := None;
  tls_cert_file := None;
  skip_ssl_validation := false;
  dd_url := "";
  url := "";
  additional_endpoints := ∅;
  additional_endpoints_secret_arn := "";
  env := None;
  service := None;
  version := None;
  tags := ∅;
  logs_enabled := false;
  logs_config_logs_dd_url := "";
  logs_config_processing_rules := None;
  logs_config_use_compression := true;
  logs_config_compression_level := 3;
  logs_config_additional_endpoints := [];
  logs_config_additional_endpoints_secret_arn := "";
  observability_pipelines_worker_logs_enabled := false;
  observability_pipelines_worker_logs_url := "";
  service_mapping := ∅;
  apm_dd_url := "";
  apm_replace_tags := None;
  apm_config_obfuscation_http_remove_query_string := false;
  apm_config_obfuscation_http_remove_paths_with_digits := false;
  apm_config_compression_level := 3;
  apm_features := [];
  apm_additional_endpoints := ∅;
  apm_additional_endpoints_secret_arn := "";
  apm_filter_tags_require := None;
  apm_filter_tags_reject := None;
  apm_filter_tags_regex_require := None;
  apm_filter_tags_regex_reject := None;
  trace_propagation_style := [StyleDatadog; StyleTraceContext];
  trace_propagation_style_extract := [];
  trace_propagation_extract_first := false;
  trace_propagation_http_baggage_enabled := false;
  trace_aws_service_representation_enabled := true;
  metrics_config_compression_level := 3;
  statsd_metric_namespace := None;
  dogstatsd_so_rcvbuf := None;
  dogstatsd_buffer_size := None;
  dogstatsd_queue_size := None;
  otlp_config_traces_enabled := true;
  otlp_config_traces_span_name_as_resource_name := false;
  otlp_config_traces_span_name_remappings := ∅;
  otlp_config_ignore_missing_datadog_fields := false;
  otlp_config_receiver_protocols_http_endpoint := None;
  otlp_config_receiver_protocols_grpc_endpoint := None;
  otlp_config_receiver_protocols_grpc_transport := None;
  otlp_config_receiver_protocols_grpc_max_recv_msg_size_mib := None;
  otlp_config_metrics_enabled := false;
  otlp_config_metrics_resource_attributes_as_tags := false;
  otlp_config_metrics_instrumentation_scope_metadata_as_tags := false;
  otlp_config_metrics_tag_cardinality := None;
  otlp_config_metrics_delta_ttl := None;
  otlp_config_metrics_histograms_mode := None;
  otlp_config_metrics_histograms_send_count_sum_metrics := false;
  otlp_config_metrics_histograms_send_aggregation_metrics := false;
  otlp_config_metrics_sums_cumulative_monotonic_mode := None;
  otlp_config_metrics_sums_initial_cumulativ_monotonic_value := None;
  otlp_config_metrics_summaries_mode := None;
  otlp_config_traces_probabilistic_sampler_sampling_percentage := None;
  otlp_config_logs_enabled := false;
  ext := ext_default;
|}.

(** * Merge macros *)

Definition merge_string (config : string) (source : option string) : string :=
  match source with Some value => value | None => config end.
Definition merge_option {T} (config source : option T) : option T :=
  match source with Some _ => source | None => config end.
Definition merge_option_to_value {T} (config : T) (source : option T) : T :=
  match source with Some value => value | None => config end.
Definition merge_vec {T} (config source : list T) : list T :=
  match source with [] => config | _ => source end.
Definition merge_hashmap {T} (config source : gmap string T) : gmap string T :=
  if decide (source = ∅) then config else source.

(** * URLs *)

Definition trim_url (url : string) : string := trim_end_char "/" (trim url).
Definition build_fqdn_logs (site : string) : string := "https://http-intake.logs." +:+ site.
Definition logs_intake_url (url : string) : string :=
  let url := trim url in
  if is_empty url then url
  else if starts_with "https://" url || starts_with "http://" url then url
  else "https://" +:+ url.

(** [libdd_trace_utils::config_utils] and the process environment. *)
Class ConfigEnvironment := {
  trace_intake_url : string → string;
  trace_intake_url_prefixed : string → string;
  env_var : string → option string;
}.

(** * The builder *)

Inductive ConfigError :=
  | ParseError (s : string)
  | UnsupportedField (s : string).

Section Builder.
Context `{!Tracer} {E : Type} `{!ConfigExtension E, !ConfigEnvironment}.

(** [load] changes the configuration it is given, and may fail. *)
Definition ConfigSource : Type := Config E → Config E * result unit ConfigError.

Record ConfigBuilder := { sources : list ConfigSource; config : Config E }.
Definition builder_default : ConfigBuilder := {| sources := []; config := config_default |}.
Definition add_source (self : ConfigBuilder) (source : ConfigSource) : ConfigBuilder :=
  {| sources := sources self ++ [source]; config := config self |}.

(** The loop of [build] over the sources: the configuration and the number of failures. *)
Fixpoint load_sources (l : list ConfigSource) (config : Config E) (failed : nat) : Config E * nat :=
  match l with
  | [] => (config, failed)
  | source :: l =>
      let '(config, r) := source config in
      load_sources l config (if is_ok r then failed else S failed)
  end.

Definition site_in_no_proxy (site : string) (no_proxy : list string) : bool :=
  match env_var "NO_PROXY" with Some v => contains site v | None => false end ||
  existsb (contains site) no_proxy.

(** The rest of [build]. *)
Definition complete (config : Config E) : Config E :=
  let site' := if is_empty (site config) then "datadoghq.com" else site config in
  let proxy_https :=
    match env_var "HTTPS_PROXY" with
    | Some https_proxy => match proxy_https config with None => Some https_proxy | p => p end
    | None => proxy_https config
    end in
  let proxy_https :=
    match proxy_https with
    | Some _ => if site_in_no_proxy site' (proxy_no_proxy config) then None else proxy_https
    | None => None
    end in
  let style_extract :=
    match trace_propagation_style_extract config with
    | [] => trace_propagation_style config
    | l => l
    end in
  let logs_url :=
    if is_empty (trim (logs_config_logs_dd_url config)) then build_fqdn_logs site'
    else logs_intake_url (trim_url (logs_config_logs_dd_url config)) in
  let apm_url :=
    if is_empty (trim (apm_dd_url config)) then trace_intake_url site'
    else trace_intake_url_prefixed (trim_url (apm_dd_url config)) in
  {|
    site := site';
    api_key := api_key config;
    dd_org_uuid := dd_org_uuid config;
    log_level := log_level config;
    flush_timeout := flush_timeout config;
    compression_level := compression_level config;
    proxy_https := proxy_https;
    proxy_no_proxy := proxy_no_proxy config;
    http_protocol := http_protocol config;
    tls_cert_file := tls_cert_file config;
    skip_ssl_validation := skip_ssl_validation config;
    dd_url := trim_url (dd_url config);
    url := trim_url (url config);
    additional_endpoints := additional_endpoints config;
    additional_endpoints_secret_arn := additional_endpoints_secret_arn config;
    env := env config;
    service := service config;
    version := version config;
    tags := tags config;
    logs_enabled := logs_enabled config;
    logs_config_logs_dd_url := logs_url;
    logs_config_processing_rules := logs_config_processing_rules config;
    logs_config_use_compression := logs_config_use_compression config;
    logs_config_compression_level := logs_config_compression_level config;
    logs_config_additional_endpoints := logs_config_additional_endpoints config;
    logs_config_additional_endpoints_secret_arn := logs_config_additional_endpoints_secret_arn config;
    observability_pipelines_worker_logs_enabled := observability_pipelines_worker_logs_enabled config;
    observability_pipelines_worker_logs_url := observability_pipelines_worker_logs_url config;
    service_mapping := service_mapping config;
    apm_dd_url := apm_url;
    apm_replace_tags := apm_replace_tags config;
    apm_config_obfuscation_http_remove_query_string := apm_config_obfuscation_http_remove_query_string config;
    apm_config_obfuscation_http_remove_paths_with_digits := apm_config_obfuscation_http_remove_paths_with_digits config;
    apm_config_compression_level := apm_config_compression_level config;
    apm_features := apm_features config;
    apm_additional_endpoints := apm_additional_endpoints config;
    apm_additional_endpoints_secret_arn := apm_additional_endpoints_secret_arn config;
    apm_filter_tags_require := apm_filter_tags_require config;
    apm_filter_tags_reject := apm_filter_tags_reject config;
    apm_filter_tags_regex_require := apm_filter_tags_regex_require config;
    apm_filter_tags_regex_reject := apm_filter_tags_regex_reject config;
    trace_propagation_style := trace_propagation_style config;
    trace_propagation_style_extract := style_extract;
    trace_propagation_extract_first := trace_propagation_extract_first config;
    trace_propagation_http_baggage_enabled := trace_propagation_http_baggage_enabled config;
    trace_aws_service_representation_enabled := trace_aws_service_representation_enabled config;
    metrics_config_compression_level := metrics_config_compression_level config;
    statsd_metric_namespace := statsd_metric_namespace config;
    dogstatsd_so_rcvbuf := dogstatsd_so_rcvbuf config;
    dogstatsd_buffer_size := dogstatsd_buffer_size config;
    dogstatsd_queue_size := dogstatsd_queue_size config;
    otlp_config_traces_enabled := otlp_config_traces_enabled config;
    otlp_config_traces_span_name_as_resource_name := otlp_config_traces_span_name_as_resource_name config;
    otlp_config_traces_span_name_remappings := otlp_config_traces_span_name_remappings config;
    otlp_config_ignore_missing_datadog_fields := otlp_config_ignore_missing_datadog_fields config;
    otlp_config_receiver_protocols_http_endpoint := otlp_config_receiver_protocols_http_endpoint config;
    otlp_config_receiver_protocols_grpc_endpoint := otlp_config_receiver_protocols_grpc_endpoint config;
    otlp_config_receiver_protocols_grpc_transport := otlp_config_receiver_protocols_grpc_transport config;
    otlp_config_receiver_protocols_grpc_max_recv_msg_size_mib := otlp_config_receiver_protocols_grpc_max_recv_msg_size_mib config;
    otlp_config_metrics_enabled := otlp_config_metrics_enabled config;
    otlp_config_metrics_resource_attributes_as_tags := otlp_config_metrics_resource_attributes_as_tags config;
    otlp_config_metrics_instrumentation_scope_metadata_as_tags := otlp_config_metrics_instrumentation_scope_metadata_as_tags config;
    otlp_config_metrics_tag_cardinality := otlp_config_metrics_tag_cardinality config;
    otlp_config_metrics_delta_ttl := otlp_config_metrics_delta_ttl config;
    otlp_config_metrics_histograms_mode := otlp_config_metrics_histograms_mode config;
    otlp_config_metrics_histograms_send_count_sum_metrics := otlp_config_metrics_histograms_send_count_sum_metrics config;
    otlp_config_metrics_histograms_send_aggregation_metrics := otlp_config_metrics_histograms_send_aggregation_metrics config;
    otlp_config_metrics_sums_cumulative_monotonic_mode := otlp_config_metrics_sums_cumulative_monotonic_mode config;
    otlp_config_metrics_sums_initial_cumulativ_monotonic_value := otlp_config_metrics_sums_initial_cumulativ_monotonic_value config;
    otlp_config_metrics_summaries_mode := otlp_config_metrics_summaries_mode config;
    otlp_config_traces_probabilistic_sampler_sampling_percentage := otlp_config_traces_probabilistic_sampler_sampling_percentage config;
    otlp_config_logs_enabled := otlp_config_logs_enabled config;
    ext := ext config;
  |}.

Definition build (self : ConfigBuilder) : ConfigBuilder * Config E :=
  let config := complete (load_sources (sources self) (config self) 0).1 in
  ({| sources := sources self; config := config |}, config).
End Builder.
