(* ===== verification/AgentSources.v ===== *)
(** The sources of the agent configuration.

    [src/crates/datadog-agent-config/src/sources/]: the environment ([env.rs]) and the
    file [datadog.yaml] ([yaml.rs]), read into [EnvConfig.EnvConfig] and
    [Yaml.YamlConfig] and merged into [Config].  The fields of the nested structures of
    the file carry a prefix for their structure.  figment, which parses the two formats
    and merges the two prefixes of the environment, is the class [Providers]. *)
From Stdlib Require Import Ascii SpecFloat.
From S2P Require Import Prelude RStr Intake Serde AgentDeserializers AgentConfig.

(** What figment gives: the settings, or an error of the format. *)
Notation Figment := (result (list (string * Value)) string).
Class Providers := {
  yaml_file : string → Figment;
  env_prefixed : string → Figment;
  figment_new : Figment;
  figment_merge : Figment → Figment → Figment;
}.

(** * The environment: [env.rs] *)
Module EnvConfig.
Section Env.
Context `{!Serde, !Tracer}.

Record EnvConfig := {
  site : option string;
  api_key : option string;
  org_uuid : option string;
  log_level : option LogLevel;
  flush_timeout : option Z;
  proxy_https : option string;
  proxy_no_proxy : list string;
  http_protocol : option string;
  tls_cert_file : option string;
  skip_ssl_validation : option bool;
  dd_url : option string;
  url : option string;
  additional_endpoints : gmap string (list string);
  additional_endpoints_secret_arn : option string;
  env : option string;
  service : option string;
  version : option string;
  tags : gmap string string;
  compression_level : option Z;
  logs_enabled : option bool;
  logs_config_logs_dd_url : option string;
  logs_config_processing_rules : option (list ProcessingRule);
  logs_config_use_compression : option bool;
  logs_config_compression_level : option Z;
  logs_config_additional_endpoints : list LogsAdditionalEndpoint;
  logs_config_additional_endpoints_secret_arn : option string;
  observability_pipelines_worker_logs_enabled : option bool;
  observability_pipelines_worker_logs_url : option string;
  service_mapping : gmap string string;
  apm_dd_url : option string;
  apm_replace_tags : option (list ReplaceRule);
  apm_config_obfuscation_http_remove_query_string : option bool;
  apm_config_obfuscation_http_remove_paths_with_digits : option bool;
  apm_config_compression_level : option Z;
  apm_features : list string;
  apm_additional_endpoints : gmap string (list string);
  apm_additional_endpoints_secret_arn : option string;
  apm_filter_tags_require : option (list string);
  apm_filter_tags_reject : option (list string);
  apm_filter_tags_regex_require : option (list string);
  apm_filter_tags_regex_reject : option (list string);
  trace_aws_service_representation_enabled : option bool;
  trace_propagation_style : list TracePropagationStyle;
  trace_propagation_style_extract : list TracePropagationStyle;
  trace_propagation_extract_first : option bool;
  trace_propagation_http_baggage_enabled : option bool;
  metrics_config_compression_level : option Z;
  statsd_metric_namespace : option string;
  dogstatsd_so_rcvbuf : option Z;
  dogstatsd_buffer_size : option Z;
  dogstatsd_queue_size : option Z;
  otlp_config_traces_enabled : option bool;
  otlp_config_traces_span_name_as_resource_name : option bool;
  otlp_config_traces_span_name_remappings : gmap string string;
  otlp_config_ignore_missing_datadog_fields : option bool;
  otlp_config_receiver_protocols_http_endpoint : option string;
  otlp_config_receiver_protocols_grpc_endpoint : option string;
  otlp_config_receiver_protocols_grpc_transport : option string;
  otlp_config_receiver_protocols_grpc_max_recv_msg_size_mib : option Z;
  otlp_config_metrics_enabled : option bool;
  otlp_config_metrics_resource_attributes_as_tags : option bool;
  otlp_config_metrics_instrumentation_scope_metadata_as_tags : option bool;
  otlp_config_metrics_tag_cardinality : option string;
  otlp_config_metrics_delta_ttl : option Z;
  otlp_config_metrics_histograms_mode : option string;
  otlp_config_metrics_histograms_send_count_sum_metrics : option bool;
  otlp_config_metrics_histograms_send_aggregation_metrics : option bool;
  otlp_config_metrics_sums_cumulative_monotonic_mode : option string;
  otlp_config_metrics_sums_initial_cumulativ_monotonic_value : option string;
  otlp_config_metrics_summaries_mode : option string;
  otlp_config_traces_probabilistic_sampler_sampling_percentage : option Z;
  otlp_config_logs_enabled : option bool;
}.

Definition env_config_fields (a : access) : result EnvConfig string :=
  Ok Build_EnvConfig
    <*> field a 0 "site" deserialize_optional_string None
    <*> field a 1 "api_key" deserialize_optional_string None
    <*> field a 2 "org_uuid" deserialize_optional_string None
    <*> field a 3 "log_level" (deserialize_with_default None (de_option de_log_level)) None
    <*> field a 4 "flush_timeout" (deserialize_option_lossless de_u64) None
    <*> field a 5 "proxy_https" deserialize_optional_string None
    <*> field a 6 "proxy_no_proxy" deserialize_array_from_comma_separated_string []
    <*> field a 7 "http_protocol" deserialize_optional_string None
    <*> field a 8 "tls_cert_file" deserialize_optional_string None
    <*> field a 9 "skip_ssl_validation" deserialize_optional_bool_from_anything None
    <*> field a 10 "dd_url" deserialize_optional_string None
    <*> field a 11 "url" deserialize_optional_string None
    <*> field a 12 "additional_endpoints" deserialize_additional_endpoints ∅
    <*> field a 13 "additional_endpoints_secret_arn" deserialize_optional_string None
    <*> field a 14 "env" deserialize_string_or_int None
    <*> field a 15 "service" deserialize_string_or_int None
    <*> field a 16 "version" deserialize_string_or_int None
    <*> field a 17 "tags" deserialize_key_value_pairs ∅
    <*> field a 18 "compression_level" (deserialize_option_lossless de_i32) None
    <*> field a 19 "logs_enabled" deserialize_optional_bool_from_anything None
    <*> field a 20 "logs_config_logs_dd_url" deserialize_optional_string None
    <*> field a 21 "logs_config_processing_rules" deserialize_processing_rules None
    <*> field a 22 "logs_config_use_compression" deserialize_optional_bool_from_anything None
    <*> field a 23 "logs_config_compression_level" (deserialize_option_lossless de_i32) None
    <*> field a 24 "logs_config_additional_endpoints" deserialize_logs_additional_endpoints []
    <*> field a 25 "logs_config_additional_endpoints_secret_arn" deserialize_optional_string None
    <*> field a 26 "observability_pipelines_worker_logs_enabled" deserialize_optional_bool_from_anything None
    <*> field a 27 "observability_pipelines_worker_logs_url" deserialize_optional_string None
    <*> field a 28 "service_mapping" deserialize_service_mapping ∅
    <*> field a 29 "apm_dd_url" deserialize_optional_string None
    <*> field a 30 "apm_replace_tags" deserialize_apm_replace_rules None
    <*> field a 31 "apm_config_obfuscation_http_remove_query_string" deserialize_optional_bool_from_anything None
    <*> field a 32 "apm_config_obfuscation_http_remove_paths_with_digits" deserialize_optional_bool_from_anything None
    <*> field a 33 "apm_config_compression_level" (deserialize_option_lossless de_i32) None
    <*> field a 34 "apm_features" deserialize_comma_then_space_separated_string []
    <*> field a 35 "apm_additional_endpoints" deserialize_additional_endpoints ∅
    <*> field a 36 "apm_additional_endpoints_secret_arn" deserialize_optional_string None
    <*> field a 37 "apm_filter_tags_require" deserialize_apm_filter_tags None
    <*> field a 38 "apm_filter_tags_reject" deserialize_apm_filter_tags None
    <*> field a 39 "apm_filter_tags_regex_require" deserialize_apm_filter_tags None
    <*> field a 40 "apm_filter_tags_regex_reject" deserialize_apm_filter_tags None
    <*> field a 41 "trace_aws_service_representation_enabled" deserialize_optional_bool_from_anything None
    <*> field a 42 "trace_propagation_style" deserialize_trace_propagation_style []
    <*> field a 43 "trace_propagation_style_extract" deserialize_trace_propagation_style []
    <*> field a 44 "trace_propagation_extract_first" deserialize_optional_bool_from_anything None
    <*> field a 45 "trace_propagation_http_baggage_enabled" deserialize_optional_bool_from_anything None
    <*> field a 46 "metrics_config_compression_level" (deserialize_option_lossless de_i32) None
    <*> field a 47 "statsd_metric_namespace" deserialize_optional_string None
    <*> field a 48 "dogstatsd_so_rcvbuf" (deserialize_option_lossless de_usize) None
    <*> field a 49 "dogstatsd_buffer_size" (deserialize_option_lossless de_usize) None
    <*> field a 50 "dogstatsd_queue_size" (deserialize_option_lossless de_usize) None
    <*> field a 51 "otlp_config_traces_enabled" deserialize_optional_bool_from_anything None
    <*> field a 52 "otlp_config_traces_span_name_as_resource_name" deserialize_optional_bool_from_anything None
    <*> field a 53 "otlp_config_traces_span_name_remappings" deserialize_key_value_pairs ∅
    <*> field a 54 "otlp_config_ignore_missing_datadog_fields" deserialize_optional_bool_from_anything None
    <*> field a 55 "otlp_config_receiver_protocols_http_endpoint" deserialize_optional_string None
    <*> field a 56 "otlp_config_receiver_protocols_grpc_endpoint" deserialize_optional_string None
    <*> field a 57 "otlp_config_receiver_protocols_grpc_transport" deserialize_optional_string None
    <*> field a 58 "otlp_config_receiver_protocols_grpc_max_recv_msg_size_mib" (deserialize_option_lossless de_i32) None
    <*> field a 59 "otlp_config_metrics_enabled" deserialize_optional_bool_from_anything None
    <*> field a 60 "otlp_config_metrics_resource_attributes_as_tags" deserialize_optional_bool_from_anything None
    <*> field a 61 "otlp_config_metrics_instrumentation_scope_metadata_as_tags" deserialize_optional_bool_from_anything None
    <*> field a 62 "otlp_config_metrics_tag_cardinality" deserialize_optional_string None
    <*> field a 63 "otlp_config_metrics_delta_ttl" (deserialize_option_lossless de_i32) None
    <*> field a 64 "otlp_config_metrics_histograms_mode" deserialize_optional_string None
    <*> field a 65 "otlp_config_metrics_histograms_send_count_sum_metrics" deserialize_optional_bool_from_anything None
    <*> field a 66 "otlp_config_metrics_histograms_send_aggregation_metrics" deserialize_optional_bool_from_anything None
    <*> field a 67 "otlp_config_metrics_sums_cumulative_monotonic_mode" deserialize_optional_string None
    <*> field a 68 "otlp_config_metrics_sums_initial_cumulativ_monotonic_value" deserialize_optional_string None
    <*> field a 69 "otlp_config_metrics_summaries_mode" deserialize_optional_string None
    <*> field a 70 "otlp_config_traces_probabilistic_sampler_sampling_percentage" (deserialize_option_lossless de_i32) None
    <*> field a 71 "otlp_config_logs_enabled" deserialize_optional_bool_from_anything None.
End Env.
End EnvConfig.

(** [merge_config] of [env.rs]. *)
Definition merge_env_config `{!Tracer} {E} (config : Config E) (env_config : EnvConfig.EnvConfig) :
    Config E := {|
  site := merge_string (site config) (EnvConfig.site env_config);
  api_key := merge_string (api_key config) (EnvConfig.api_key env_config);
  dd_org_uuid := merge_string (dd_org_uuid config) (EnvConfig.org_uuid env_config);
  log_level := merge_option_to_value (log_level config) (EnvConfig.log_level env_config);
  flush_timeout := merge_option_to_value (flush_timeout config) (EnvConfig.flush_timeout env_config);
  compression_level := merge_option_to_value (compression_level config) (EnvConfig.compression_level env_config);
  proxy_https := merge_option (proxy_https config) (EnvConfig.proxy_https env_config);
  proxy_no_proxy := merge_vec (proxy_no_proxy config) (EnvConfig.proxy_no_proxy env_config);
  http_protocol := merge_option (http_protocol config) (EnvConfig.http_protocol env_config);
  tls_cert_file := merge_option (tls_cert_file config) (EnvConfig.tls_cert_file env_config);
  skip_ssl_validation := merge_option_to_value (skip_ssl_validation config) (EnvConfig.skip_ssl_validation env_config);
  dd_url := merge_string (dd_url config) (EnvConfig.dd_url env_config);
  url := merge_string (url config) (EnvConfig.url env_config);
  additional_endpoints := merge_hashmap (additional_endpoints config) (EnvConfig.additional_endpoints env_config);
  additional_endpoints_secret_arn := merge_string (additional_endpoints_secret_arn config)
    (EnvConfig.additional_endpoints_secret_arn env_config);
  env := merge_option (env config) (EnvConfig.env env_config);
  service := merge_option (service config) (EnvConfig.service env_config);
  version := merge_option (version config) (EnvConfig.version env_config);
  tags := merge_hashmap (tags config) (EnvConfig.tags env_config);
  logs_enabled := merge_option_to_value (logs_enabled config) (EnvConfig.logs_enabled env_config);
  logs_config_logs_dd_url := merge_string (logs_config_logs_dd_url config) (EnvConfig.logs_config_logs_dd_url env_config);
  logs_config_processing_rules := merge_option (logs_config_processing_rules config)
    (EnvConfig.logs_config_processing_rules env_config);
  logs_config_use_compression := merge_option_to_value (logs_config_use_compression config)
    (EnvConfig.logs_config_use_compression env_config);
  logs_config_compression_level := merge_option_to_value (merge_option_to_value (logs_config_compression_level config)
    (EnvConfig.compression_level env_config))
    (EnvConfig.logs_config_compression_level env_config);
  logs_config_additional_endpoints := merge_vec (logs_config_additional_endpoints config)
    (EnvConfig.logs_config_additional_endpoints env_config);
  logs_config_additional_endpoints_secret_arn := merge_string (logs_config_additional_endpoints_secret_arn config)
    (EnvConfig.logs_config_additional_endpoints_secret_arn env_config);
  observability_pipelines_worker_logs_enabled := merge_option_to_value (observability_pipelines_worker_logs_enabled config)
    (EnvConfig.observability_pipelines_worker_logs_enabled env_config);
  observability_pipelines_worker_logs_url := merge_string (observability_pipelines_worker_logs_url config)
    (EnvConfig.observability_pipelines_worker_logs_url env_config);
  service_mapping := merge_hashmap (service_mapping config) (EnvConfig.service_mapping env_config);
  apm_dd_url := merge_string (apm_dd_url config) (EnvConfig.apm_dd_url env_config);
  apm_replace_tags := merge_option (apm_replace_tags config) (EnvConfig.apm_replace_tags env_config);
  apm_config_obfuscation_http_remove_query_string := merge_option_to_value (apm_config_obfuscation_http_remove_query_string config)
    (EnvConfig.apm_config_obfuscation_http_remove_query_string env_config);
  apm_config_obfuscation_http_remove_paths_with_digits := merge_option_to_value (apm_config_obfuscation_http_remove_paths_with_digits config)
    (EnvConfig.apm_config_obfuscation_http_remove_paths_with_digits env_config);
  apm_config_compression_level := merge_option_to_value (merge_option_to_value (apm_config_compression_level config)
    (EnvConfig.compression_level env_config))
    (EnvConfig.apm_config_compression_level env_config);
  apm_features := merge_vec (apm_features config) (EnvConfig.apm_features env_config);
  apm_additional_endpoints := merge_hashmap (apm_additional_endpoints config) (EnvConfig.apm_additional_endpoints env_config);
  apm_additional_endpoints_secret_arn := merge_string (apm_additional_endpoints_secret_arn config)
    (EnvConfig.apm_additional_endpoints_secret_arn env_config);
  apm_filter_tags_require := merge_option (apm_filter_tags_require config) (EnvConfig.apm_filter_tags_require env_config);
  apm_filter_tags_reject := merge_option (apm_filter_tags_reject config) (EnvConfig.apm_filter_tags_reject env_config);
  apm_filter_tags_regex_require := merge_option (apm_filter_tags_regex_require config)
    (EnvConfig.apm_filter_tags_regex_require env_config);
  apm_filter_tags_regex_reject := merge_option (apm_filter_tags_regex_reject config)
    (EnvConfig.apm_filter_tags_regex_reject env_config);
  trace_propagation_style := merge_vec (trace_propagation_style config) (EnvConfig.trace_propagation_style env_config);
  trace_propagation_style_extract := merge_vec (trace_propagation_style_extract config)
    (EnvConfig.trace_propagation_style_extract env_config);
  trace_propagation_extract_first := merge_option_to_value (trace_propagation_extract_first config)
    (EnvConfig.trace_propagation_extract_first env_config);
  trace_propagation_http_baggage_enabled := merge_option_to_value (trace_propagation_http_baggage_enabled config)
    (EnvConfig.trace_propagation_http_baggage_enabled env_config);
  trace_aws_service_representation_enabled := merge_option_to_value (trace_aws_service_representation_enabled config)
    (EnvConfig.trace_aws_service_representation_enabled env_config);
  metrics_config_compression_level := merge_option_to_value (merge_option_to_value (metrics_config_compression_level config)
    (EnvConfig.compression_level env_config))
    (EnvConfig.metrics_config_compression_level env_config);
  statsd_metric_namespace := 
    match EnvConfig.statsd_metric_namespace env_config with
    | Some namespace => parse_metric_namespace namespace
    | None => statsd_metric_namespace config
    end;
  dogstatsd_so_rcvbuf := merge_option (dogstatsd_so_rcvbuf config) (EnvConfig.dogstatsd_so_rcvbuf env_config);
  dogstatsd_buffer_size := merge_option (dogstatsd_buffer_size config) (EnvConfig.dogstatsd_buffer_size env_config);
  dogstatsd_queue_size := merge_option (dogstatsd_queue_size config) (EnvConfig.dogstatsd_queue_size env_config);
  otlp_config_traces_enabled := merge_option_to_value (otlp_config_traces_enabled config)
    (EnvConfig.otlp_config_traces_enabled env_config);
  otlp_config_traces_span_name_as_resource_name := merge_option_to_value (otlp_config_traces_span_name_as_resource_name config)
    (EnvConfig.otlp_config_traces_span_name_as_resource_name env_config);
  otlp_config_traces_span_name_remappings := merge_hashmap (otlp_config_traces_span_name_remappings config)
    (EnvConfig.otlp_config_traces_span_name_remappings env_config);
  otlp_config_ignore_missing_datadog_fields := merge_option_to_value (otlp_config_ignore_missing_datadog_fields config)
    (EnvConfig.otlp_config_ignore_missing_datadog_fields env_config);
  otlp_config_receiver_protocols_http_endpoint := merge_option (otlp_config_receiver_protocols_http_endpoint config)
    (EnvConfig.otlp_config_receiver_protocols_http_endpoint env_config);
  otlp_config_receiver_protocols_grpc_endpoint := merge_option (otlp_config_receiver_protocols_grpc_endpoint config)
    (EnvConfig.otlp_config_receiver_protocols_grpc_endpoint env_config);
  otlp_config_receiver_protocols_grpc_transport := merge_option (otlp_config_receiver_protocols_grpc_transport config)
    (EnvConfig.otlp_config_receiver_protocols_grpc_transport env_config);
  otlp_config_receiver_protocols_grpc_max_recv_msg_size_mib := merge_option (otlp_config_receiver_protocols_grpc_max_recv_msg_size_mib config)
    (EnvConfig.otlp_config_receiver_protocols_grpc_max_recv_msg_size_mib env_config);
  otlp_config_metrics_enabled := merge_option_to_value (otlp_config_metrics_enabled config)
    (EnvConfig.otlp_config_metrics_enabled env_config);
  otlp_config_metrics_resource_attributes_as_tags := merge_option_to_value (otlp_config_metrics_resource_attributes_as_tags config)
    (EnvConfig.otlp_config_metrics_resource_attributes_as_tags env_config);
  otlp_config_metrics_instrumentation_scope_metadata_as_tags := merge_option_to_value (otlp_config_metrics_instrumentation_scope_metadata_as_tags config)
    (EnvConfig.otlp_config_metrics_instrumentation_scope_metadata_as_tags env_config);
  otlp_config_metrics_tag_cardinality := merge_option (otlp_config_metrics_tag_cardinality config)
    (EnvConfig.otlp_config_metrics_tag_cardinality env_config);
  otlp_config_metrics_delta_ttl := merge_option (otlp_config_metrics_delta_ttl config)
    (EnvConfig.otlp_config_metrics_delta_ttl env_config);
  otlp_config_metrics_histograms_mode := merge_option (otlp_config_metrics_histograms_mode config)
    (EnvConfig.otlp_config_metrics_histograms_mode env_config);
  otlp_config_metrics_histograms_send_count_sum_metrics := merge_option_to_value (otlp_config_metrics_histograms_send_count_sum_metrics config)
    (EnvConfig.otlp_config_metrics_histograms_send_count_sum_metrics env_config);
  otlp_config_metrics_histograms_send_aggregation_metrics := merge_option_to_value (otlp_config_metrics_histograms_send_aggregation_metrics config)
    (EnvConfig.otlp_config_metrics_histograms_send_aggregation_metrics env_config);
  otlp_config_metrics_sums_cumulative_monotonic_mode := merge_option (otlp_config_metrics_sums_cumulative_monotonic_mode config)
    (EnvConfig.otlp_config_metrics_sums_cumulative_monotonic_mode env_config);
  otlp_config_metrics_sums_initial_cumulativ_monotonic_value := merge_option (otlp_config_metrics_sums_initial_cumulativ_monotonic_value config)
    (EnvConfig.otlp_config_metrics_sums_initial_cumulativ_monotonic_value env_config);
  otlp_config_metrics_summaries_mode := merge_option (otlp_config_metrics_summaries_mode config)
    (EnvConfig.otlp_config_metrics_summaries_mode env_config);
  otlp_config_traces_probabilistic_sampler_sampling_percentage := merge_option (otlp_config_traces_probabilistic_sampler_sampling_percentage config)
    (EnvConfig.otlp_config_traces_probabilistic_sampler_sampling_percentage env_config);
  otlp_config_logs_enabled := merge_option_to_value (otlp_config_logs_enabled config)
    (EnvConfig.otlp_config_logs_enabled env_config);
  ext := ext config;
|}.

(** * The file: [yaml.rs] *)
Module Yaml.
Section Yaml.
Context `{!Serde, !Tracer}.

Record ProxyConfig := {
  proxy_https : option string;
  proxy_no_proxy : option (list string);
}.
Definition proxy_config_default : ProxyConfig := {|
  proxy_https := None;
  proxy_no_proxy := None;
|}.
Definition de_proxy_config : parser ProxyConfig := λ v,
  let? a := as_struct 2 v in
  Ok Build_ProxyConfig
    <*> field a 0 "https" (deserialize_with_default None (de_option de_string)) None
    <*> field a 1 "no_proxy" (deserialize_with_default None (de_option (de_vec de_string))) None.

Record LogsConfig := {
  logs_logs_dd_url : option string;
  logs_processing_rules : option (list ProcessingRule);
  logs_use_compression : option bool;
  logs_compression_level : option Z;
  logs_additional_endpoints : list LogsAdditionalEndpoint;
}.
Definition logs_config_default : LogsConfig := {|
  logs_logs_dd_url := None;
  logs_processing_rules := None;
  logs_use_compression := None;
  logs_compression_level := None;
  logs_additional_endpoints := [];
|}.
Definition de_logs_config : parser LogsConfig := λ v,
  let? a := as_struct 5 v in
  Ok Build_LogsConfig
    <*> field a 0 "logs_dd_url" (deserialize_with_default None (de_option de_string)) None
    <*> field a 1 "processing_rules" deserialize_processing_rules None
    <*> field a 2 "use_compression" deserialize_optional_bool_from_anything None
    <*> field a 3 "compression_level" (deserialize_option_lossless de_i32) None
    <*> field a 4 "additional_endpoints" (deserialize_with_default [] (de_vec de_logs_additional_endpoint)) [].

Record MetricsConfig := {
  metrics_compression_level : option Z;
}.
Definition metrics_config_default : MetricsConfig := {|
  metrics_compression_level := None;
|}.
Definition de_metrics_config : parser MetricsConfig := λ v,
  let? a := as_struct 1 v in
  Ok Build_MetricsConfig
    <*> field a 0 "compression_level" (deserialize_option_lossless de_i32) None.

Record ApmHttpObfuscation := {
  http_remove_query_string : option bool;
  http_remove_paths_with_digits : option bool;
}.
Definition apm_http_obfuscation_default : ApmHttpObfuscation := {|
  http_remove_query_string := None;
  http_remove_paths_with_digits := None;
|}.
Definition de_apm_http_obfuscation : parser ApmHttpObfuscation := λ v,
  let? a := as_struct 2 v in
  Ok Build_ApmHttpObfuscation
    <*> field a 0 "remove_query_string" deserialize_optional_bool_from_anything None
    <*> field a 1 "remove_paths_with_digits" deserialize_optional_bool_from_anything None.

Record ApmObfuscation := {
  obfuscation_http : ApmHttpObfuscation;
}.
Definition de_apm_obfuscation : parser ApmObfuscation := λ v,
  let? a := as_struct 1 v in
  Ok Build_ApmObfuscation
    <*> field a 0 "http" (deserialize_with_default apm_http_obfuscation_default de_apm_http_obfuscation) apm_http_obfuscation_default.

Record ApmConfig := {
  apm_apm_dd_url : option string;
  apm_replace_tags : option (list ReplaceRule);
  apm_obfuscation : option ApmObfuscation;
  apm_compression_level : option Z;
  apm_features : list string;
  apm_additional_endpoints : gmap string (list string);
}.
Definition apm_config_default : ApmConfig := {|
  apm_apm_dd_url := None;
  apm_replace_tags := None;
  apm_obfuscation := None;
  apm_compression_level := None;
  apm_features := [];
  apm_additional_endpoints := ∅;
|}.
Definition de_apm_config : parser ApmConfig := λ v,
  let? a := as_struct 6 v in
  Ok Build_ApmConfig
    <*> field a 0 "apm_dd_url" (deserialize_with_default None (de_option de_string)) None
    <*> field a 1 "replace_tags" deserialize_apm_replace_rules None
    <*> field a 2 "obfuscation" (deserialize_with_default None (de_option de_apm_obfuscation)) None
    <*> field a 3 "compression_level" (deserialize_option_lossless de_i32) None
    <*> field a 4 "features" deserialize_comma_then_space_separated_string_or_list []
    <*> field a 5 "additional_endpoints" deserialize_additional_endpoints ∅.

Record OtlpReceiverHttpConfig := {
  receiver_http_endpoint : option string;
}.
Definition de_otlp_receiver_http_config : parser OtlpReceiverHttpConfig := λ v,
  let? a := as_struct 1 v in
  Ok Build_OtlpReceiverHttpConfig
    <*> field a 0 "endpoint" (deserialize_with_default None (de_option de_string)) None.

Record OtlpReceiverGrpcConfig := {
  grpc_endpoint : option string;
  grpc_transport : option string;
  grpc_max_recv_msg_size_mib : option Z;
}.
Definition de_otlp_receiver_grpc_config : parser OtlpReceiverGrpcConfig := λ v,
  let? a := as_struct 3 v in
  Ok Build_OtlpReceiverGrpcConfig
    <*> field a 0 "endpoint" (deserialize_with_default None (de_option de_string)) None
    <*> field a 1 "transport" (deserialize_with_default None (de_option de_string)) None
    <*> field a 2 "max_recv_msg_size_mib" (deserialize_option_lossless de_i32) None.

Record OtlpReceiverProtocolsConfig := {
  protocols_http : option OtlpReceiverHttpConfig;
  protocols_grpc : option OtlpReceiverGrpcConfig;
}.
Definition de_otlp_receiver_protocols_config : parser OtlpReceiverProtocolsConfig := λ v,
  let? a := as_struct 2 v in
  Ok Build_OtlpReceiverProtocolsConfig
    <*> field a 0 "http" (deserialize_with_default None (de_option de_otlp_receiver_http_config)) None
    <*> field a 1 "grpc" (deserialize_with_default None (de_option de_otlp_receiver_grpc_config)) None.

Record OtlpReceiverConfig := {
  receiver_protocols : option OtlpReceiverProtocolsConfig;
}.
Definition de_otlp_receiver_config : parser OtlpReceiverConfig := λ v,
  let? a := as_struct 1 v in
  Ok Build_OtlpReceiverConfig
    <*> field a 0 "protocols" (deserialize_with_default None (de_option de_otlp_receiver_protocols_config)) None.

Record OtlpTracesProbabilisticSampler := {
  sampler_sampling_percentage : option Z;
}.
Definition de_otlp_traces_probabilistic_sampler : parser OtlpTracesProbabilisticSampler := λ v,
  let? a := as_struct 1 v in
  Ok Build_OtlpTracesProbabilisticSampler
    <*> required a 0 "sampling_percentage" (deserialize_option_lossless de_i32).

Record OtlpTracesConfig := {
  traces_enabled : option bool;
  traces_span_name_as_resource_name : option bool;
  traces_span_name_remappings : gmap string string;
  traces_ignore_missing_datadog_fields : option bool;
  traces_probabilistic_sampler : option OtlpTracesProbabilisticSampler;
}.
Definition de_otlp_traces_config : parser OtlpTracesConfig := λ v,
  let? a := as_struct 5 v in
  Ok Build_OtlpTracesConfig
    <*> field a 0 "enabled" deserialize_optional_bool_from_anything None
    <*> field a 1 "span_name_as_resource_name" deserialize_optional_bool_from_anything None
    <*> field a 2 "span_name_remappings" (deserialize_with_default ∅ (de_map de_string)) ∅
    <*> field a 3 "ignore_missing_datadog_fields" deserialize_optional_bool_from_anything None
    <*> field a 4 "probabilistic_sampler" (deserialize_with_default None (de_option de_otlp_traces_probabilistic_sampler)) None.

Record OtlpMetricsHistograms := {
  histograms_mode : option string;
  histograms_send_count_sum_metrics : option bool;
  histograms_send_aggregation_metrics : option bool;
}.
Definition de_otlp_metrics_histograms : parser OtlpMetricsHistograms := λ v,
  let? a := as_struct 3 v in
  Ok Build_OtlpMetricsHistograms
    <*> field a 0 "mode" (deserialize_with_default None (de_option de_string)) None
    <*> field a 1 "send_count_sum_metrics" deserialize_optional_bool_from_anything None
    <*> field a 2 "send_aggregation_metrics" deserialize_optional_bool_from_anything None.

Record OtlpMetricsSums := {
  sums_cumulative_monotonic_mode : option string;
  sums_initial_cumulative_monotonic_value : option string;
}.
Definition de_otlp_metrics_sums : parser OtlpMetricsSums := λ v,
  let? a := as_struct 2 v in
  Ok Build_OtlpMetricsSums
    <*> field a 0 "cumulative_monotonic_mode" (deserialize_with_default None (de_option de_string)) None
    <*> field a 1 "initial_cumulative_monotonic_value" (deserialize_with_default None (de_option de_string)) None.

Record OtlpMetricsSummaries := {
  summaries_mode : option string;
}.
Definition de_otlp_metrics_summaries : parser OtlpMetricsSummaries := λ v,
  let? a := as_struct 1 v in
  Ok Build_OtlpMetricsSummaries
    <*> field a 0 "mode" (deserialize_with_default None (de_option de_string)) None.

Record OtlpMetricsConfig := {
  otlp_metrics_enabled : option bool;
  otlp_metrics_resource_attributes_as_tags : option bool;
  otlp_metrics_instrumentation_scope_metadata_as_tags : option bool;
  otlp_metrics_tag_cardinality : option string;
  otlp_metrics_delta_ttl : option Z;
  otlp_metrics_histograms : option OtlpMetricsHistograms;
  otlp_metrics_sums : option OtlpMetricsSums;
  otlp_metrics_summaries : option OtlpMetricsSummaries;
}.
Definition de_otlp_metrics_config : parser OtlpMetricsConfig := λ v,
  let? a := as_struct 8 v in
  Ok Build_OtlpMetricsConfig
    <*> field a 0 "enabled" deserialize_optional_bool_from_anything None
    <*> field a 1 "resource_attributes_as_tags" deserialize_optional_bool_from_anything None
    <*> field a 2 "instrumentation_scope_metadata_as_tags" deserialize_optional_bool_from_anything None
    <*> field a 3 "tag_cardinality" (deserialize_with_default None (de_option de_string)) None
    <*> field a 4 "delta_ttl" (deserialize_option_lossless de_i32) None
    <*> field a 5 "histograms" (deserialize_with_default None (de_option de_otlp_metrics_histograms)) None
    <*> field a 6 "sums" (deserialize_with_default None (de_option de_otlp_metrics_sums)) None
    <*> field a 7 "summaries" (deserialize_with_default None (de_option de_otlp_metrics_summaries)) None.

Record OtlpLogsConfig := {
  otlp_logs_enabled : option bool;
}.
Definition de_otlp_logs_config : parser OtlpLogsConfig := λ v,
  let? a := as_struct 1 v in
  Ok Build_OtlpLogsConfig
    <*> field a 0 "enabled" deserialize_optional_bool_from_anything None.

Record OtlpConfig := {
  otlp_receiver : option OtlpReceiverConfig;
  otlp_traces : option OtlpTracesConfig;
  otlp_metrics : option OtlpMetricsConfig;
  otlp_logs : option OtlpLogsConfig;
}.
Definition de_otlp_config : parser OtlpConfig := λ v,
  let? a := as_struct 4 v in
  Ok Build_OtlpConfig
    <*> field a 0 "receiver" (deserialize_with_default None (de_option de_otlp_receiver_config)) None
    <*> field a 1 "traces" (deserialize_with_default None (de_option de_otlp_traces_config)) None
    <*> field a 2 "metrics" (deserialize_with_default None (de_option de_otlp_metrics_config)) None
    <*> field a 3 "logs" (deserialize_with_default None (de_option de_otlp_logs_config)) None.

Record YamlConfig := {
  site : option string;
  api_key : option string;
  org_uuid : option string;
  log_level : option LogLevel;
  flush_timeout : option Z;
  compression_level : option Z;
  proxy : ProxyConfig;
  dd_url : option string;
  http_protocol : option string;
  tls_cert_file : option string;
  skip_ssl_validation : option bool;
  additional_endpoints : gmap string (list string);
  env : option string;
  service : option string;
  version : option string;
  tags : gmap string string;
  logs_enabled : option bool;
  logs_config : LogsConfig;
  apm_config : ApmConfig;
  service_mapping : gmap string string;
  trace_aws_service_representation_enabled : option bool;
  trace_propagation_style : list TracePropagationStyle;
  trace_propagation_style_extract : list TracePropagationStyle;
  trace_propagation_extract_first : option bool;
  trace_propagation_http_baggage_enabled : option bool;
  metrics_config : MetricsConfig;
  dogstatsd_so_rcvbuf : option Z;
  dogstatsd_buffer_size : option Z;
  dogstatsd_queue_size : option Z;
  otlp_config : option OtlpConfig;
}.
Definition yaml_config_fields (a : access) : result YamlConfig string :=
  Ok Build_YamlConfig
    <*> field a 0 "site" deserialize_optional_string None
    <*> field a 1 "api_key" deserialize_optional_string None
    <*> field a 2 "org_uuid" deserialize_optional_string None
    <*> field a 3 "log_level" (deserialize_with_default None (de_option de_log_level)) None
    <*> field a 4 "flush_timeout" (deserialize_option_lossless de_u64) None
    <*> field a 5 "compression_level" (deserialize_option_lossless de_i32) None
    <*> field a 6 "proxy" (deserialize_with_default proxy_config_default de_proxy_config) proxy_config_default
    <*> field a 7 "dd_url" deserialize_optional_string None
    <*> field a 8 "http_protocol" deserialize_optional_string None
    <*> field a 9 "tls_cert_file" deserialize_optional_string None
    <*> field a 10 "skip_ssl_validation" deserialize_optional_bool_from_anything None
    <*> field a 11 "additional_endpoints" deserialize_additional_endpoints ∅
    <*> field a 12 "env" deserialize_string_or_int None
    <*> field a 13 "service" deserialize_string_or_int None
    <*> field a 14 "version" deserialize_string_or_int None
    <*> field a 15 "tags" deserialize_key_value_pair_array_to_hashmap ∅
    <*> field a 16 "logs_enabled" deserialize_optional_bool_from_anything None
    <*> field a 17 "logs_config" (deserialize_with_default logs_config_default de_logs_config) logs_config_default
    <*> field a 18 "apm_config" (deserialize_with_default apm_config_default de_apm_config) apm_config_default
    <*> field a 19 "service_mapping" deserialize_service_mapping ∅
    <*> field a 20 "trace_aws_service_representation_enabled" deserialize_optional_bool_from_anything None
    <*> field a 21 "trace_propagation_style" deserialize_trace_propagation_style []
    <*> field a 22 "trace_propagation_style_extract" deserialize_trace_propagation_style []
    <*> field a 23 "trace_propagation_extract_first" deserialize_optional_bool_from_anything None
    <*> field a 24 "trace_propagation_http_baggage_enabled" deserialize_optional_bool_from_anything None
    <*> field a 25 "metrics_config" (deserialize_with_default metrics_config_default de_metrics_config) metrics_config_default
    <*> field a 26 "dogstatsd_so_rcvbuf" (deserialize_option_lossless de_usize) None
    <*> field a 27 "dogstatsd_buffer_size" (deserialize_option_lossless de_usize) None
    <*> field a 28 "dogstatsd_queue_size" (deserialize_option_lossless de_usize) None
    <*> field a 29 "otlp_config" (deserialize_with_default None (de_option de_otlp_config)) None.

(** ** Accessors *)

Definition obfuscation_http_remove_query_string (self : ApmConfig) : option bool :=
  apm_obfuscation self ≫= λ obfuscation, http_remove_query_string (obfuscation_http obfuscation).
Definition obfuscation_http_remove_paths_with_digits (self : ApmConfig) : option bool :=
  apm_obfuscation self ≫= λ obfuscation, http_remove_paths_with_digits (obfuscation_http obfuscation).
Definition otlp_receiver_protocols_http_endpoint (self : OtlpConfig) : option string :=
  otlp_receiver self ≫= λ receiver, receiver_protocols receiver ≫= λ protocols,
  protocols_http protocols ≫= λ http, receiver_http_endpoint http.
Definition otlp_receiver_protocols_grpc (self : OtlpConfig) : option OtlpReceiverGrpcConfig :=
  otlp_receiver self ≫= λ receiver, receiver_protocols receiver ≫= λ protocols, protocols_grpc protocols.
Definition otlp_traces_enabled (self : OtlpConfig) : option bool := otlp_traces self ≫= traces_enabled.
Definition otlp_traces_ignore_missing_datadog_fields (self : OtlpConfig) : option bool :=
  otlp_traces self ≫= traces_ignore_missing_datadog_fields.
Definition otlp_traces_span_name_as_resource_name (self : OtlpConfig) : option bool :=
  otlp_traces self ≫= traces_span_name_as_resource_name.
Definition otlp_traces_span_name_remappings (self : OtlpConfig) : gmap string string :=
  match otlp_traces self with Some traces => traces_span_name_remappings traces | None => ∅ end.
Definition otlp_traces_probabilistic_sampler (self : OtlpConfig) : option OtlpTracesProbabilisticSampler :=
  otlp_traces self ≫= traces_probabilistic_sampler.
End Yaml.
End Yaml.

(** [merge_config] of [yaml.rs]; a merge inside an [if let Some(x)] merges nothing when
    [x] is absent. *)
Definition merge_yaml_config `{!Tracer} {E} (config : Config E) (yaml_config : Yaml.YamlConfig) :
    Config E :=
  let otlp := Yaml.otlp_config yaml_config in
  let sampler := otlp ≫= Yaml.otlp_traces_probabilistic_sampler in
  let grpc := otlp ≫= Yaml.otlp_receiver_protocols_grpc in
  let metrics := otlp ≫= Yaml.otlp_metrics in
  let histograms := metrics ≫= Yaml.otlp_metrics_histograms in
  let sums := metrics ≫= Yaml.otlp_metrics_sums in
  let summaries := metrics ≫= Yaml.otlp_metrics_summaries in
  let logs := otlp ≫= Yaml.otlp_logs in
  {|
    site := merge_string (site config) (Yaml.site yaml_config);
    api_key := merge_string (api_key config) (Yaml.api_key yaml_config);
    dd_org_uuid := merge_string (dd_org_uuid config) (Yaml.org_uuid yaml_config);
    log_level := merge_option_to_value (log_level config) (Yaml.log_level yaml_config);
    flush_timeout := merge_option_to_value (flush_timeout config) (Yaml.flush_timeout yaml_config);
    compression_level := merge_option_to_value (compression_level config) (Yaml.compression_level yaml_config);
    proxy_https := merge_option (proxy_https config) (Yaml.proxy_https (Yaml.proxy yaml_config));
    proxy_no_proxy := merge_option_to_value (proxy_no_proxy config) (Yaml.proxy_no_proxy (Yaml.proxy yaml_config));
    http_protocol := merge_option (http_protocol config) (Yaml.http_protocol yaml_config);
    tls_cert_file := merge_option (tls_cert_file config) (Yaml.tls_cert_file yaml_config);
    skip_ssl_validation := merge_option_to_value (skip_ssl_validation config) (Yaml.skip_ssl_validation yaml_config);
    dd_url := merge_string (dd_url config) (Yaml.dd_url yaml_config);
    url := url config;
    additional_endpoints := merge_hashmap (additional_endpoints config) (Yaml.additional_endpoints yaml_config);
    additional_endpoints_secret_arn := additional_endpoints_secret_arn config;
    env := merge_option (env config) (Yaml.env yaml_config);
    service := merge_option (service config) (Yaml.service yaml_config);
    version := merge_option (version config) (Yaml.version yaml_config);
    tags := merge_hashmap (tags config) (Yaml.tags yaml_config);
    logs_enabled := merge_option_to_value (logs_enabled config) (Yaml.logs_enabled yaml_config);
    logs_config_logs_dd_url := merge_string (logs_config_logs_dd_url config)
      (Yaml.logs_logs_dd_url (Yaml.logs_config yaml_config));
    logs_config_processing_rules := merge_option (logs_config_processing_rules config)
      (Yaml.logs_processing_rules (Yaml.logs_config yaml_config));
    logs_config_use_compression := merge_option_to_value (logs_config_use_compression config)
      (Yaml.logs_use_compression (Yaml.logs_config yaml_config));
    logs_config_compression_level := merge_option_to_value (merge_option_to_value (logs_config_compression_level config)
      (Yaml.compression_level yaml_config))
      (Yaml.logs_compression_level (Yaml.logs_config yaml_config));
    logs_config_additional_endpoints := merge_vec (logs_config_additional_endpoints config)
      (Yaml.logs_additional_endpoints (Yaml.logs_config yaml_config));
    logs_config_additional_endpoints_secret_arn := logs_config_additional_endpoints_secret_arn config;
    observability_pipelines_worker_logs_enabled := observability_pipelines_worker_logs_enabled config;
    observability_pipelines_worker_logs_url := observability_pipelines_worker_logs_url config;
    service_mapping := merge_hashmap (service_mapping config) (Yaml.service_mapping yaml_config);
    apm_dd_url := merge_string (apm_dd_url config) (Yaml.apm_apm_dd_url (Yaml.apm_config yaml_config));
    apm_replace_tags := merge_option (apm_replace_tags config) (Yaml.apm_replace_tags (Yaml.apm_config yaml_config));
    apm_config_obfuscation_http_remove_query_string := merge_option_to_value (apm_config_obfuscation_http_remove_query_string config)
      (Yaml.obfuscation_http_remove_query_string (Yaml.apm_config yaml_config));
    apm_config_obfuscation_http_remove_paths_with_digits := merge_option_to_value (apm_config_obfuscation_http_remove_paths_with_digits config)
      (Yaml.obfuscation_http_remove_paths_with_digits (Yaml.apm_config yaml_config));
    apm_config_compression_level := merge_option_to_value (merge_option_to_value (apm_config_compression_level config)
      (Yaml.compression_level yaml_config))
      (Yaml.apm_compression_level (Yaml.apm_config yaml_config));
    apm_features := merge_vec (apm_features config) (Yaml.apm_features (Yaml.apm_config yaml_config));
    apm_additional_endpoints := merge_hashmap (apm_additional_endpoints config)
      (Yaml.apm_additional_endpoints (Yaml.apm_config yaml_config));
    apm_additional_endpoints_secret_arn := apm_additional_endpoints_secret_arn config;
    apm_filter_tags_require := apm_filter_tags_require config;
    apm_filter_tags_reject := apm_filter_tags_reject config;
    apm_filter_tags_regex_require := apm_filter_tags_regex_require config;
    apm_filter_tags_regex_reject := apm_filter_tags_regex_reject config;
    trace_propagation_style := merge_vec (trace_propagation_style config) (Yaml.trace_propagation_style yaml_config);
    trace_propagation_style_extract := merge_vec (trace_propagation_style_extract config)
      (Yaml.trace_propagation_style_extract yaml_config);
    trace_propagation_extract_first := merge_option_to_value (trace_propagation_extract_first config)
      (Yaml.trace_propagation_extract_first yaml_config);
    trace_propagation_http_baggage_enabled := merge_option_to_value (trace_propagation_http_baggage_enabled config)
      (Yaml.trace_propagation_http_baggage_enabled yaml_config);
    trace_aws_service_representation_enabled := merge_option_to_value (trace_aws_service_representation_enabled config)
      (Yaml.trace_aws_service_representation_enabled yaml_config);
    metrics_config_compression_level := merge_option_to_value (merge_option_to_value (metrics_config_compression_level config)
      (Yaml.compression_level yaml_config))
      (Yaml.metrics_compression_level (Yaml.metrics_config yaml_config));
    statsd_metric_namespace := statsd_metric_namespace config;
    dogstatsd_so_rcvbuf := merge_option (dogstatsd_so_rcvbuf config) (Yaml.dogstatsd_so_rcvbuf yaml_config);
    dogstatsd_buffer_size := merge_option (dogstatsd_buffer_size config) (Yaml.dogstatsd_buffer_size yaml_config);
    dogstatsd_queue_size := merge_option (dogstatsd_queue_size config) (Yaml.dogstatsd_queue_size yaml_config);
    otlp_config_traces_enabled := merge_option_to_value (otlp_config_traces_enabled config) (otlp ≫= Yaml.otlp_traces_enabled);
    otlp_config_traces_span_name_as_resource_name := merge_option_to_value (otlp_config_traces_span_name_as_resource_name config)
      (otlp ≫= Yaml.otlp_traces_span_name_as_resource_name);
    otlp_config_traces_span_name_remappings := merge_hashmap (otlp_config_traces_span_name_remappings config)
      (from_option Yaml.otlp_traces_span_name_remappings ∅ otlp);
    otlp_config_ignore_missing_datadog_fields := merge_option_to_value (otlp_config_ignore_missing_datadog_fields config)
      (otlp ≫= Yaml.otlp_traces_ignore_missing_datadog_fields);
    otlp_config_receiver_protocols_http_endpoint := merge_option (otlp_config_receiver_protocols_http_endpoint config)
      (otlp ≫= Yaml.otlp_receiver_protocols_http_endpoint);
    otlp_config_receiver_protocols_grpc_endpoint := merge_option (otlp_config_receiver_protocols_grpc_endpoint config) (grpc ≫= Yaml.grpc_endpoint);
    otlp_config_receiver_protocols_grpc_transport := merge_option (otlp_config_receiver_protocols_grpc_transport config)
      (grpc ≫= Yaml.grpc_transport);
    otlp_config_receiver_protocols_grpc_max_recv_msg_size_mib := merge_option (otlp_config_receiver_protocols_grpc_max_recv_msg_size_mib config)
      (grpc ≫= Yaml.grpc_max_recv_msg_size_mib);
    otlp_config_metrics_enabled := merge_option_to_value (otlp_config_metrics_enabled config)
      (metrics ≫= Yaml.otlp_metrics_enabled);
    otlp_config_metrics_resource_attributes_as_tags := merge_option_to_value (otlp_config_metrics_resource_attributes_as_tags config)
      (metrics ≫= Yaml.otlp_metrics_resource_attributes_as_tags);
    otlp_config_metrics_instrumentation_scope_metadata_as_tags := merge_option_to_value (otlp_config_metrics_instrumentation_scope_metadata_as_tags config)
      (metrics ≫= Yaml.otlp_metrics_instrumentation_scope_metadata_as_tags);
    otlp_config_metrics_tag_cardinality := merge_option (otlp_config_metrics_tag_cardinality config)
      (metrics ≫= Yaml.otlp_metrics_tag_cardinality);
    otlp_config_metrics_delta_ttl := merge_option (otlp_config_metrics_delta_ttl config) (metrics ≫= Yaml.otlp_metrics_delta_ttl);
    otlp_config_metrics_histograms_mode := merge_option (otlp_config_metrics_histograms_mode config) (histograms ≫= Yaml.histograms_mode);
    otlp_config_metrics_histograms_send_count_sum_metrics := merge_option_to_value (otlp_config_metrics_histograms_send_count_sum_metrics config)
      (histograms ≫= Yaml.histograms_send_count_sum_metrics);
    otlp_config_metrics_histograms_send_aggregation_metrics := merge_option_to_value (otlp_config_metrics_histograms_send_aggregation_metrics config)
      (histograms ≫= Yaml.histograms_send_aggregation_metrics);
    otlp_config_metrics_sums_cumulative_monotonic_mode := merge_option (otlp_config_metrics_sums_cumulative_monotonic_mode config)
      (sums ≫= Yaml.sums_cumulative_monotonic_mode);
    otlp_config_metrics_sums_initial_cumulativ_monotonic_value := merge_option (otlp_config_metrics_sums_initial_cumulativ_monotonic_value config)
      (sums ≫= Yaml.sums_initial_cumulative_monotonic_value);
    otlp_config_metrics_summaries_mode := merge_option (otlp_config_metrics_summaries_mode config) (summaries ≫= Yaml.summaries_mode);
    otlp_config_traces_probabilistic_sampler_sampling_percentage := merge_option (otlp_config_traces_probabilistic_sampler_sampling_percentage config)
      (sampler ≫= Yaml.sampler_sampling_percentage);
    otlp_config_logs_enabled := merge_option_to_value (otlp_config_logs_enabled config) (logs ≫= Yaml.otlp_logs_enabled);
    ext := ext config;
  |}.

(** * Loading *)

(** [config.ext] replaced. *)
Definition with_ext `{!Tracer} {E} (config : Config E) (e : E) : Config E :=
  match config with
  | Build_Config _ _ x0 x1 x2 x3 x4 x5 x6 x7 x8 x9 x10 x11 x12 x13 x14 x15 x16 x17 x18 x19
        x20 x21 x22 x23 x24 x25 x26 x27 x28 x29 x30 x31 x32 x33 x34 x35 x36 x37 x38 x39
        x40 x41 x42 x43 x44 x45 x46 x47 x48 x49 x50 x51 x52 x53 x54 x55 x56 x57 x58 x59
        x60 x61 x62 x63 x64 x65 x66 x67 x68 x69 x70 x71 _ =>
      Build_Config _ _ x0 x1 x2 x3 x4 x5 x6 x7 x8 x9 x10 x11 x12 x13 x14 x15 x16 x17 x18 x19
        x20 x21 x22 x23 x24 x25 x26 x27 x28 x29 x30 x31 x32 x33 x34 x35 x36 x37 x38 x39
        x40 x41 x42 x43 x44 x45 x46 x47 x48 x49 x50 x51 x52 x53 x54 x55 x56 x57 x58 x59
        x60 x61 x62 x63 x64 x65 x66 x67 x68 x69 x70 x71 e
  end.

Section Load.
Context `{!Serde, !Tracer, !Providers} {E : Type} `{!ConfigExtension E, !ConfigEnvironment}.

(** [figment.extract::<T>()]: the settings as the structure [T]. *)
Definition extract {T} (fields : access → result T string) (figment : Figment) : result T string :=
  let? settings := figment in fields (FromMap settings).

(** The second extraction of [load], for the extension; a failure is logged. *)
Definition load_ext (figment : Figment) (config : Config E) : Config E :=
  match (let? settings := figment in de_source (VObject settings)) with
  | Ok ext_source => with_ext config (merge_from (ext config) ext_source)
  | Err _ => config
  end.

Definition env_figment : Figment :=
  figment_merge (figment_merge figment_new (env_prefixed "DATADOG_")) (env_prefixed "DD_").

Definition env_source : ConfigSource := λ config,
  match extract EnvConfig.env_config_fields env_figment with
  | Ok env_config => (load_ext env_figment (merge_env_config config env_config), Ok tt)
  | Err e => (config, Err (ParseError ("Failed to parse config from environment variables: " +:+ e
                                         +:+ ", using default config.")))
  end.

Definition yaml_figment (path : string) : Figment := figment_merge figment_new (yaml_file path).

Definition yaml_source (path : string) : ConfigSource := λ config,
  match extract Yaml.yaml_config_fields (yaml_figment path) with
  | Ok yaml_config => (load_ext (yaml_figment path) (merge_yaml_config config yaml_config), Ok tt)
  | Err e => (config, Err (ParseError ("Failed to parse config from yaml file: " +:+ e
                                         +:+ ", using default config.")))
  end.

(** [Path::join] of a relative file name. *)
Definition path_join (dir file : string) : string :=
  match String.length dir with
  | O => file
  | S n => if decide (String.get n dir = Some "/"%char) then dir +:+ file else dir +:+ "/" +:+ file
  end.

Definition get_config_with_extension (config_directory : string) : Config E :=
  let path := path_join config_directory "datadog.yaml" in
  (build (add_source (add_source builder_default (yaml_source path)) env_source)).2.
End Load.

Definition get_config `{!Serde, !Tracer, !Providers, !ConfigEnvironment} (config_directory : string) :
    Config NoExtension :=
  get_config_with_extension config_directory.
