(* ===== verification/AgentConfigSpec.v ===== *)
(** Specification of the agent configuration.

    What [AgentConfig] and [AgentSources] promise: a source is one layer of settings
    ([EnvConfig.EnvConfig]), layers compose by [override], the file is the layer
    [flatten] of its structure, and the configuration is the completion of the default
    one under the file overridden by the environment.  The theorems also say exactly
    when a source is refused, and what the completed configuration satisfies. *)
From Stdlib Require Import Ascii SpecFloat Btauto.
From S2P Require Import Prelude RStr Intake Serde AgentDeserializers AgentConfig AgentSources.

(** * Layers *)

Section Layers.
Context `{!Serde, !Tracer}.
Import EnvConfig.

(** The level of a component: its own in the upper layer, else the global one of the
    upper layer, else its own in the lower layer. *)
Definition override_level (low high_global high : option Z) : option Z :=
  merge_option (merge_option low high_global) high.

(** The settings of [high] over the settings of [low]. *)
Definition override (low high : EnvConfig) : EnvConfig := {|
  site := merge_option (site low) (site high);
  api_key := merge_option (api_key low) (api_key high);
  org_uuid := merge_option (org_uuid low) (org_uuid high);
  log_level := merge_option (log_level low) (log_level high);
  flush_timeout := merge_option (flush_timeout low) (flush_timeout high);
  proxy_https := merge_option (proxy_https low) (proxy_https high);
  proxy_no_proxy := merge_vec (proxy_no_proxy low) (proxy_no_proxy high);
  http_protocol := merge_option (http_protocol low) (http_protocol high);
  tls_cert_file := merge_option (tls_cert_file low) (tls_cert_file high);
  skip_ssl_validation := merge_option (skip_ssl_validation low) (skip_ssl_validation high);
  dd_url := merge_option (dd_url low) (dd_url high);
  url := merge_option (url low) (url high);
  additional_endpoints := merge_hashmap (additional_endpoints low) (additional_endpoints high);
  additional_endpoints_secret_arn := merge_option (additional_endpoints_secret_arn low) (additional_endpoints_secret_arn high);
  env := merge_option (env low) (env high);
  service := merge_option (service low) (service high);
  version := merge_option (version low) (version high);
  tags := merge_hashmap (tags low) (tags high);
  compression_level := merge_option (compression_level low) (compression_level high);
  logs_enabled := merge_option (logs_enabled low) (logs_enabled high);
  logs_config_logs_dd_url := merge_option (logs_config_logs_dd_url low) (logs_config_logs_dd_url high);
  logs_config_processing_rules := merge_option (logs_config_processing_rules low) (logs_config_processing_rules high);
  logs_config_use_compression := merge_option (logs_config_use_compression low) (logs_config_use_compression high);
  logs_config_compression_level := override_level (logs_config_compression_level low) (compression_level high) (logs_config_compression_level high);
  logs_config_additional_endpoints := merge_vec (logs_config_additional_endpoints low) (logs_config_additional_endpoints high);
  logs_config_additional_endpoints_secret_arn := merge_option (logs_config_additional_endpoints_secret_arn low) (logs_config_additional_endpoints_secret_arn high);
  observability_pipelines_worker_logs_enabled := merge_option (observability_pipelines_worker_logs_enabled low) (observability_pipelines_worker_logs_enabled high);
  observability_pipelines_worker_logs_url := merge_option (observability_pipelines_worker_logs_url low) (observability_pipelines_worker_logs_url high);
  service_mapping := merge_hashmap (service_mapping low) (service_mapping high);
  apm_dd_url := merge_option (apm_dd_url low) (apm_dd_url high);
  apm_replace_tags := merge_option (apm_replace_tags low) (apm_replace_tags high);
  apm_config_obfuscation_http_remove_query_string := merge_option (apm_config_obfuscation_http_remove_query_string low) (apm_config_obfuscation_http_remove_query_string high);
  apm_config_obfuscation_http_remove_paths_with_digits := merge_option (apm_config_obfuscation_http_remove_paths_with_digits low) (apm_config_obfuscation_http_remove_paths_with_digits high);
  apm_config_compression_level := override_level (apm_config_compression_level low) (compression_level high) (apm_config_compression_level high);
  apm_features := merge_vec (apm_features low) (apm_features high);
  apm_additional_endpoints := merge_hashmap (apm_additional_endpoints low) (apm_additional_endpoints high);
  apm_additional_endpoints_secret_arn := merge_option (apm_additional_endpoints_secret_arn low) (apm_additional_endpoints_secret_arn high);
  apm_filter_tags_require := merge_option (apm_filter_tags_require low) (apm_filter_tags_require high);
  apm_filter_tags_reject := merge_option (apm_filter_tags_reject low) (apm_filter_tags_reject high);
  apm_filter_tags_regex_require := merge_option (apm_filter_tags_regex_require low) (apm_filter_tags_regex_require high);
  apm_filter_tags_regex_reject := merge_option (apm_filter_tags_regex_reject low) (apm_filter_tags_regex_reject high);
  trace_aws_service_representation_enabled := merge_option (trace_aws_service_representation_enabled low) (trace_aws_service_representation_enabled high);
  trace_propagation_style := merge_vec (trace_propagation_style low) (trace_propagation_style high);
  trace_propagation_style_extract := merge_vec (trace_propagation_style_extract low) (trace_propagation_style_extract high);
  trace_propagation_extract_first := merge_option (trace_propagation_extract_first low) (trace_propagation_extract_first high);
  trace_propagation_http_baggage_enabled := merge_option (trace_propagation_http_baggage_enabled low) (trace_propagation_http_baggage_enabled high);
  metrics_config_compression_level := override_level (metrics_config_compression_level low) (compression_level high) (metrics_config_compression_level high);
  statsd_metric_namespace := merge_option (statsd_metric_namespace low) (statsd_metric_namespace high);
  dogstatsd_so_rcvbuf := merge_option (dogstatsd_so_rcvbuf low) (dogstatsd_so_rcvbuf high);
  dogstatsd_buffer_size := merge_option (dogstatsd_buffer_size low) (dogstatsd_buffer_size high);
  dogstatsd_queue_size := merge_option (dogstatsd_queue_size low) (dogstatsd_queue_size high);
  otlp_config_traces_enabled := merge_option (otlp_config_traces_enabled low) (otlp_config_traces_enabled high);
  otlp_config_traces_span_name_as_resource_name := merge_option (otlp_config_traces_span_name_as_resource_name low) (otlp_config_traces_span_name_as_resource_name high);
  otlp_config_traces_span_name_remappings := merge_hashmap (otlp_config_traces_span_name_remappings low) (otlp_config_traces_span_name_remappings high);
  otlp_config_ignore_missing_datadog_fields := merge_option (otlp_config_ignore_missing_datadog_fields low) (otlp_config_ignore_missing_datadog_fields high);
  otlp_config_receiver_protocols_http_endpoint := merge_option (otlp_config_receiver_protocols_http_endpoint low) (otlp_config_receiver_protocols_http_endpoint high);
  otlp_config_receiver_protocols_grpc_endpoint := merge_option (otlp_config_receiver_protocols_grpc_endpoint low) (otlp_config_receiver_protocols_grpc_endpoint high);
  otlp_config_receiver_protocols_grpc_transport := merge_option (otlp_config_receiver_protocols_grpc_transport low) (otlp_config_receiver_protocols_grpc_transport high);
  otlp_config_receiver_protocols_grpc_max_recv_msg_size_mib := merge_option (otlp_config_receiver_protocols_grpc_max_recv_msg_size_mib low) (otlp_config_receiver_protocols_grpc_max_recv_msg_size_mib high);
  otlp_config_metrics_enabled := merge_option (otlp_config_metrics_enabled low) (otlp_config_metrics_enabled high);
  otlp_config_metrics_resource_attributes_as_tags := merge_option (otlp_config_metrics_resource_attributes_as_tags low) (otlp_config_metrics_resource_attributes_as_tags high);
  otlp_config_metrics_instrumentation_scope_metadata_as_tags := merge_option (otlp_config_metrics_instrumentation_scope_metadata_as_tags low) (otlp_config_metrics_instrumentation_scope_metadata_as_tags high);
  otlp_config_metrics_tag_cardinality := merge_option (otlp_config_metrics_tag_cardinality low) (otlp_config_metrics_tag_cardinality high);
  otlp_config_metrics_delta_ttl := merge_option (otlp_config_metrics_delta_ttl low) (otlp_config_metrics_delta_ttl high);
  otlp_config_metrics_histograms_mode := merge_option (otlp_config_metrics_histograms_mode low) (otlp_config_metrics_histograms_mode high);
  otlp_config_metrics_histograms_send_count_sum_metrics := merge_option (otlp_config_metrics_histograms_send_count_sum_metrics low) (otlp_config_metrics_histograms_send_count_sum_metrics high);
  otlp_config_metrics_histograms_send_aggregation_metrics := merge_option (otlp_config_metrics_histograms_send_aggregation_metrics low) (otlp_config_metrics_histograms_send_aggregation_metrics high);
  otlp_config_metrics_sums_cumulative_monotonic_mode := merge_option (otlp_config_metrics_sums_cumulative_monotonic_mode low) (otlp_config_metrics_sums_cumulative_monotonic_mode high);
  otlp_config_metrics_sums_initial_cumulativ_monotonic_value := merge_option (otlp_config_metrics_sums_initial_cumulativ_monotonic_value low) (otlp_config_metrics_sums_initial_cumulativ_monotonic_value high);
  otlp_config_metrics_summaries_mode := merge_option (otlp_config_metrics_summaries_mode low) (otlp_config_metrics_summaries_mode high);
  otlp_config_traces_probabilistic_sampler_sampling_percentage := merge_option (otlp_config_traces_probabilistic_sampler_sampling_percentage low) (otlp_config_traces_probabilistic_sampler_sampling_percentage high);
  otlp_config_logs_enabled := merge_option (otlp_config_logs_enabled low) (otlp_config_logs_enabled high);
|}.

(** The layer of a file. *)
Definition flatten (yaml_config : Yaml.YamlConfig) : EnvConfig :=
  let otlp := Yaml.otlp_config yaml_config in
  let sampler := otlp ≫= Yaml.otlp_traces_probabilistic_sampler in
  let grpc := otlp ≫= Yaml.otlp_receiver_protocols_grpc in
  let metrics := otlp ≫= Yaml.otlp_metrics in
  let histograms := metrics ≫= Yaml.otlp_metrics_histograms in
  let sums := metrics ≫= Yaml.otlp_metrics_sums in
  let summaries := metrics ≫= Yaml.otlp_metrics_summaries in
  let logs := otlp ≫= Yaml.otlp_logs in
  {|
    site := Yaml.site yaml_config;
    api_key := Yaml.api_key yaml_config;
    org_uuid := Yaml.org_uuid yaml_config;
    log_level := Yaml.log_level yaml_config;
    flush_timeout := Yaml.flush_timeout yaml_config;
    proxy_https := Yaml.proxy_https (Yaml.proxy yaml_config);
    proxy_no_proxy := default [] (Yaml.proxy_no_proxy (Yaml.proxy yaml_config));
    http_protocol := Yaml.http_protocol yaml_config;
    tls_cert_file := Yaml.tls_cert_file yaml_config;
    skip_ssl_validation := Yaml.skip_ssl_validation yaml_config;
    dd_url := Yaml.dd_url yaml_config;
    url := None;
    additional_endpoints := Yaml.additional_endpoints yaml_config;
    additional_endpoints_secret_arn := None;
    env := Yaml.env yaml_config;
    service := Yaml.service yaml_config;
    version := Yaml.version yaml_config;
    tags := Yaml.tags yaml_config;
    compression_level := Yaml.compression_level yaml_config;
    logs_enabled := Yaml.logs_enabled yaml_config;
    logs_config_logs_dd_url := Yaml.logs_logs_dd_url (Yaml.logs_config yaml_config);
    logs_config_processing_rules := Yaml.logs_processing_rules (Yaml.logs_config yaml_config);
    logs_config_use_compression := Yaml.logs_use_compression (Yaml.logs_config yaml_config);
    logs_config_compression_level := Yaml.logs_compression_level (Yaml.logs_config yaml_config);
    logs_config_additional_endpoints := Yaml.logs_additional_endpoints (Yaml.logs_config yaml_config);
    logs_config_additional_endpoints_secret_arn := None;
    observability_pipelines_worker_logs_enabled := None;
    observability_pipelines_worker_logs_url := None;
    service_mapping := Yaml.service_mapping yaml_config;
    apm_dd_url := Yaml.apm_apm_dd_url (Yaml.apm_config yaml_config);
    apm_replace_tags := Yaml.apm_replace_tags (Yaml.apm_config yaml_config);
    apm_config_obfuscation_http_remove_query_string := Yaml.obfuscation_http_remove_query_string (Yaml.apm_config yaml_config);
    apm_config_obfuscation_http_remove_paths_with_digits := Yaml.obfuscation_http_remove_paths_with_digits (Yaml.apm_config yaml_config);
    apm_config_compression_level := Yaml.apm_compression_level (Yaml.apm_config yaml_config);
    apm_features := Yaml.apm_features (Yaml.apm_config yaml_config);
    apm_additional_endpoints := Yaml.apm_additional_endpoints (Yaml.apm_config yaml_config);
    apm_additional_endpoints_secret_arn := None;
    apm_filter_tags_require := None;
    apm_filter_tags_reject := None;
    apm_filter_tags_regex_require := None;
    apm_filter_tags_regex_reject := None;
    trace_aws_service_representation_enabled := Yaml.trace_aws_service_representation_enabled yaml_config;
    trace_propagation_style := Yaml.trace_propagation_style yaml_config;
    trace_propagation_style_extract := Yaml.trace_propagation_style_extract yaml_config;
    trace_propagation_extract_first := Yaml.trace_propagation_extract_first yaml_config;
    trace_propagation_http_baggage_enabled := Yaml.trace_propagation_http_baggage_enabled yaml_config;
    metrics_config_compression_level := Yaml.metrics_compression_level (Yaml.metrics_config yaml_config);
    statsd_metric_namespace := None;
    dogstatsd_so_rcvbuf := Yaml.dogstatsd_so_rcvbuf yaml_config;
    dogstatsd_buffer_size := Yaml.dogstatsd_buffer_size yaml_config;
    dogstatsd_queue_size := Yaml.dogstatsd_queue_size yaml_config;
    otlp_config_traces_enabled := otlp ≫= Yaml.otlp_traces_enabled;
    otlp_config_traces_span_name_as_resource_name := otlp ≫= Yaml.otlp_traces_span_name_as_resource_name;
    otlp_config_traces_span_name_remappings := from_option Yaml.otlp_traces_span_name_remappings ∅ otlp;
    otlp_config_ignore_missing_datadog_fields := otlp ≫= Yaml.otlp_traces_ignore_missing_datadog_fields;
    otlp_config_receiver_protocols_http_endpoint := otlp ≫= Yaml.otlp_receiver_protocols_http_endpoint;
    otlp_config_receiver_protocols_grpc_endpoint := grpc ≫= Yaml.grpc_endpoint;
    otlp_config_receiver_protocols_grpc_transport := grpc ≫= Yaml.grpc_transport;
    otlp_config_receiver_protocols_grpc_max_recv_msg_size_mib := grpc ≫= Yaml.grpc_max_recv_msg_size_mib;
    otlp_config_metrics_enabled := metrics ≫= Yaml.otlp_metrics_enabled;
    otlp_config_metrics_resource_attributes_as_tags := metrics ≫= Yaml.otlp_metrics_resource_attributes_as_tags;
    otlp_config_metrics_instrumentation_scope_metadata_as_tags := metrics ≫= Yaml.otlp_metrics_instrumentation_scope_metadata_as_tags;
    otlp_config_metrics_tag_cardinality := metrics ≫= Yaml.otlp_metrics_tag_cardinality;
    otlp_config_metrics_delta_ttl := metrics ≫= Yaml.otlp_metrics_delta_ttl;
    otlp_config_metrics_histograms_mode := histograms ≫= Yaml.histograms_mode;
    otlp_config_metrics_histograms_send_count_sum_metrics := histograms ≫= Yaml.histograms_send_count_sum_metrics;
    otlp_config_metrics_histograms_send_aggregation_metrics := histograms ≫= Yaml.histograms_send_aggregation_metrics;
    otlp_config_metrics_sums_cumulative_monotonic_mode := sums ≫= Yaml.sums_cumulative_monotonic_mode;
    otlp_config_metrics_sums_initial_cumulativ_monotonic_value := sums ≫= Yaml.sums_initial_cumulative_monotonic_value;
    otlp_config_metrics_summaries_mode := summaries ≫= Yaml.summaries_mode;
    otlp_config_traces_probabilistic_sampler_sampling_percentage := sampler ≫= Yaml.sampler_sampling_percentage;
    otlp_config_logs_enabled := logs ≫= Yaml.otlp_logs_enabled;
  |}.
End Layers.

(** The settings of the environment whose deserializers refuse a kind of values, with what
    they accept. *)
Definition strict_settings : list (string * (Value → bool)) :=
  [("proxy_no_proxy", is_string); ("tags", is_scalar); ("apm_features", is_string);
   ("apm_filter_tags_require", is_string_or_null); ("apm_filter_tags_reject", is_string_or_null);
   ("apm_filter_tags_regex_require", is_string_or_null);
   ("apm_filter_tags_regex_reject", is_string_or_null);
   ("otlp_config_traces_span_name_remappings", is_scalar)].

(** The settings of each source that are read as a JSON value: they accept what fits in
    one. *)
Definition env_json_settings : list string :=
  ["site"; "api_key"; "org_uuid"; "proxy_https"; "http_protocol"; "tls_cert_file";
   "skip_ssl_validation"; "dd_url"; "url"; "additional_endpoints"; "additional_endpoints_secret_arn";
   "env"; "service"; "version"; "logs_enabled"; "logs_config_logs_dd_url";
   "logs_config_processing_rules"; "logs_config_use_compression"; "logs_config_additional_endpoints";
   "logs_config_additional_endpoints_secret_arn"; "observability_pipelines_worker_logs_enabled";
   "observability_pipelines_worker_logs_url"; "apm_dd_url";
   "apm_config_obfuscation_http_remove_query_string";
   "apm_config_obfuscation_http_remove_paths_with_digits"; "apm_additional_endpoints";
   "apm_additional_endpoints_secret_arn"; "trace_aws_service_representation_enabled";
   "trace_propagation_extract_first"; "trace_propagation_http_baggage_enabled";
   "statsd_metric_namespace"; "otlp_config_traces_enabled";
   "otlp_config_traces_span_name_as_resource_name"; "otlp_config_ignore_missing_datadog_fields";
   "otlp_config_receiver_protocols_http_endpoint"; "otlp_config_receiver_protocols_grpc_endpoint";
   "otlp_config_receiver_protocols_grpc_transport"; "otlp_config_metrics_enabled";
   "otlp_config_metrics_resource_attributes_as_tags";
   "otlp_config_metrics_instrumentation_scope_metadata_as_tags";
   "otlp_config_metrics_tag_cardinality"; "otlp_config_metrics_histograms_mode";
   "otlp_config_metrics_histograms_send_count_sum_metrics";
   "otlp_config_metrics_histograms_send_aggregation_metrics";
   "otlp_config_metrics_sums_cumulative_monotonic_mode";
   "otlp_config_metrics_sums_initial_cumulativ_monotonic_value"; "otlp_config_metrics_summaries_mode";
   "otlp_config_logs_enabled"].
Definition yaml_json_settings : list string :=
  ["site"; "api_key"; "org_uuid"; "dd_url"; "http_protocol"; "tls_cert_file"; "skip_ssl_validation";
   "additional_endpoints"; "env"; "service"; "version"; "logs_enabled";
   "trace_aws_service_representation_enabled"; "trace_propagation_extract_first";
   "trace_propagation_http_baggage_enabled"].
Definition json_setting (name : string) : string * (Value → bool) := (name, fits).

Definition setting_ok (settings : list (string * Value)) (s : string * (Value → bool)) : bool :=
  match find_key s.1 settings with Some v => s.2 v | None => true end.

(** * Merging *)

Lemma merge_option_assoc {T} (c a b : option T) :
  merge_option (merge_option c a) b = merge_option c (merge_option a b).
Proof. by destruct b. Qed.
Lemma merge_value_assoc {T} (c : T) a b :
  merge_option_to_value (merge_option_to_value c a) b = merge_option_to_value c (merge_option a b).
Proof. by destruct b. Qed.
Lemma merge_string_assoc c a b : merge_string (merge_string c a) b = merge_string c (merge_option a b).
Proof. by destruct b. Qed.
Lemma merge_vec_assoc {T} (c a b : list T) : merge_vec (merge_vec c a) b = merge_vec c (merge_vec a b).
Proof. by destruct b. Qed.
Lemma merge_hashmap_assoc {T} (c a b : gmap string T) :
  merge_hashmap (merge_hashmap c a) b = merge_hashmap c (merge_hashmap a b).
Proof. unfold merge_hashmap. by destruct (decide (b = ∅)); [|rewrite decide_False]. Qed.
Lemma merge_level_assoc (c : Z) ga a gb b :
  merge_option_to_value (merge_option_to_value (merge_option_to_value (merge_option_to_value c ga) a) gb) b
  = merge_option_to_value (merge_option_to_value c (merge_option ga gb)) (override_level a gb b).
Proof. destruct gb, b, a; done. Qed.
Lemma namespace_assoc (c a b : option string) :
  match b with Some n => parse_metric_namespace n
  | None => match a with Some n => parse_metric_namespace n | None => c end end
  = match merge_option a b with Some n => parse_metric_namespace n | None => c end.
Proof. by destruct b. Qed.

Section Spec.
Context `{!Serde, !Tracer}.

Theorem merge_compose {E} (c : Config E) low high :
  merge_env_config (merge_env_config c low) high = merge_env_config c (override low high).
Proof.
  unfold merge_env_config, override. cbn. f_equal;
    first [apply merge_string_assoc | apply merge_option_assoc | apply merge_value_assoc
          | apply merge_vec_assoc | apply merge_hashmap_assoc | apply merge_level_assoc
          | apply namespace_assoc | done].
Qed.

Lemma merge_no_proxy (c : list string) s :
  c = [] ∨ s ≠ Some [] → merge_option_to_value c s = merge_vec c (default [] s).
Proof. destruct s as [[|]|]; naive_solver. Qed.

Theorem merge_yaml_flatten {E} (c : Config E) y :
  proxy_no_proxy c = [] ∨ Yaml.proxy_no_proxy (Yaml.proxy y) ≠ Some [] →
  merge_yaml_config c y = merge_env_config c (flatten y).
Proof.
  intros Hp. unfold merge_yaml_config, merge_env_config, flatten. cbn.
  rewrite (merge_no_proxy _ _ Hp). f_equal.
Qed.
End Spec.

(** * Extraction *)

Section Extraction.
Context `{!Serde, !SerdeLaws, !Tracer}.

(** What a field accepts is what its deserializer does. *)
Lemma field_accepts {T} (de : parser T) (ok : Value → bool) (Hde : ∀ v, is_ok (de v) = ok v) settings i name d :
  is_ok (field (FromMap settings) i name de d) = setting_ok settings (name, ok).
Proof. rewrite is_ok_field. unfold setting_ok. cbn. destruct (find_key name settings); cbn; auto. Qed.
Lemma field_graceful {T} (de : parser T) (Hde : graceful de) a i name d :
  is_ok (field a i name de d) = true.
Proof. by apply field_total. Qed.

(** Every field becomes its test, or nothing. *)
Ltac field_tests :=
  rewrite !is_ok_ap, ?(field_accepts _ _ optional_string_json), ?(field_accepts _ _ string_or_int_json),
    ?(field_accepts _ _ optional_bool_json), ?(field_accepts _ _ additional_endpoints_json),
    ?(field_accepts _ _ logs_additional_endpoints_json), ?(field_accepts _ _ processing_rules_json),
    ?(field_accepts _ _ comma_separated_ok), ?(field_accepts _ _ comma_then_space_ok),
    ?(field_accepts _ _ key_value_pairs_ok), ?(field_accepts _ _ filter_tags_ok),
    ?(field_graceful _ pair_array_graceful), ?(field_graceful _ service_mapping_graceful),
    ?(field_graceful _ apm_replace_rules_graceful), ?(field_graceful _ propagation_style_graceful),
    ?(field_graceful _ (lossless_graceful _)), ?(field_graceful _ (with_default_graceful _ _)).

(** The same tests in another order. *)
Ltac same_tests :=
  cbn [is_ok andb forallb app strict_settings env_json_settings yaml_json_settings fmap list_fmap];
  unfold json_setting; btauto.

Lemma env_fields_ok settings :
  is_ok (EnvConfig.env_config_fields (FromMap settings)) =
    forallb (setting_ok settings) (strict_settings ++ (json_setting <$> env_json_settings)).
Proof.
  unfold EnvConfig.env_config_fields. field_tests. same_tests.
Qed.

Lemma yaml_fields_ok settings :
  is_ok (Yaml.yaml_config_fields (FromMap settings)) =
    forallb (setting_ok settings) (json_setting <$> yaml_json_settings).
Proof.
  unfold Yaml.yaml_config_fields. field_tests. same_tests.
Qed.
End Extraction.

(** * Loading *)

Section Loading.
Context `{!Serde, !SerdeLaws, !Tracer, !Providers} {E : Type} `{!ConfigExtension E, !ConfigEnvironment}.
Implicit Types (c : Config E).

Lemma with_ext_merge_env c l e : merge_env_config (with_ext c e) l = with_ext (merge_env_config c l) e.
Proof. by destruct c. Qed.
Lemma with_ext_merge_yaml c y e : merge_yaml_config (with_ext c e) y = with_ext (merge_yaml_config c y) e.
Proof. by destruct c. Qed.
Lemma with_ext_twice c e1 e2 : with_ext (with_ext c e1) e2 = with_ext c e2.
Proof. by destruct c. Qed.
Lemma with_ext_same c : with_ext c (ext c) = c.
Proof. by destruct c. Qed.

(** The extension after a source: what it was when its extraction fails. *)
Lemma load_ext_spec figment c :
  load_ext figment c =
    with_ext c (match (let? settings := figment in de_source (VObject settings)) with
                | Ok s => merge_from (ext c) s | Err _ => ext c end).
Proof. unfold load_ext. destruct (let? _ := _ in _); [done|]. by rewrite with_ext_same. Qed.

(** The checked settings of a list of names hold values that fit. *)
Lemma json_settings_ok settings names :
  forallb (setting_ok settings) (json_setting <$> names) = true ↔
    ∀ name v, name ∈ names → find_key name settings = Some v → fits v = true.
Proof.
  rewrite forallb_elem. unfold setting_ok. split.
  - intros Hs name v Hin Hv. specialize (Hs (json_setting name)). cbn in Hs. rewrite Hv in Hs.
    apply Hs, list_elem_of_fmap. eauto.
  - intros Hs x (name & -> & Hin)%list_elem_of_fmap. cbn. destruct (find_key name settings) eqn:Ek; [|done].
    by eapply Hs.
Qed.

(** C31: Loading the environment fails exactly when figment fails, one of the eight strict
    settings has a value of a kind its deserializer refuses, or a setting read as a JSON
    value holds an integer of more than 64 bits; the configuration is then left alone, and
    otherwise the settings that were read are merged into it. *)
Theorem env_load_spec c :
  (is_ok (env_source c).2 = true ↔
     ∃ settings, env_figment = Ok settings ∧
       (∀ s, s ∈ strict_settings → setting_ok settings s = true) ∧
       (∀ name v, name ∈ env_json_settings → find_key name settings = Some v → fits v = true)) ∧
  (is_ok (env_source c).2 = false → (env_source c).1 = c) ∧
  (is_ok (env_source c).2 = true → ∃ l e,
     extract EnvConfig.env_config_fields env_figment = Ok l ∧
     (env_source c).1 = with_ext (merge_env_config c l) e).
Proof.
  unfold env_source.
  assert (is_ok (extract EnvConfig.env_config_fields env_figment) = true ↔
    ∃ settings, env_figment = Ok settings ∧ (∀ s, s ∈ strict_settings → setting_ok settings s = true) ∧
      (∀ name v, name ∈ env_json_settings → find_key name settings = Some v → fits v = true)) as Hiff.
  { unfold extract. destruct env_figment as [settings|]; cbn [result_bind]; [|naive_solver].
    rewrite env_fields_ok, forallb_app, andb_true_iff, json_settings_ok, forallb_elem. naive_solver. }
  destruct (extract EnvConfig.env_config_fields env_figment) as [l|err]; cbn [is_ok fst snd] in *.
  - split_and!; [done|done|]. intros _. rewrite load_ext_spec. eauto.
  - by split_and!.
Qed.

(** C32: Loading the file fails exactly when figment cannot parse it or a setting of its top
    level that is read as a JSON value holds an integer of more than 64 bits: no other
    value of a field, however nested, refuses the file.  On failure the configuration is
    left alone, and otherwise the settings that were read are merged into it. *)
Theorem yaml_load_spec path c :
  (is_ok (yaml_source path c).2 = true ↔
     ∃ settings, yaml_figment path = Ok settings ∧
       ∀ name v, name ∈ yaml_json_settings → find_key name settings = Some v → fits v = true) ∧
  (is_ok (yaml_source path c).2 = false → (yaml_source path c).1 = c) ∧
  (is_ok (yaml_source path c).2 = true → ∃ y e,
     extract Yaml.yaml_config_fields (yaml_figment path) = Ok y ∧
     (yaml_source path c).1 = with_ext (merge_yaml_config c y) e).
Proof.
  unfold yaml_source.
  assert (is_ok (extract Yaml.yaml_config_fields (yaml_figment path)) = true ↔
    ∃ settings, yaml_figment path = Ok settings ∧
      ∀ name v, name ∈ yaml_json_settings → find_key name settings = Some v → fits v = true) as Hiff.
  { unfold extract. destruct (yaml_figment path) as [settings|]; cbn [result_bind]; [|naive_solver].
    rewrite yaml_fields_ok, json_settings_ok. naive_solver. }
  destruct (extract Yaml.yaml_config_fields (yaml_figment path)) as [y|err]; cbn [is_ok fst snd] in *.
  - split_and!; [done|done|]. intros _. rewrite load_ext_spec. eauto.
  - by split_and!.
Qed.

(** ** Precedence *)

(** The settings of the sources that load, the environment over the file. *)
Definition resolved (config_directory : string) : Config E :=
  let path := path_join config_directory "datadog.yaml" in
  match extract Yaml.yaml_config_fields (yaml_figment path),
        extract EnvConfig.env_config_fields env_figment with
  | Ok y, Ok e => merge_env_config config_default (override (flatten y) e)
  | Ok y, Err _ => merge_env_config config_default (flatten y)
  | Err _, Ok e => merge_env_config config_default e
  | Err _, Err _ => config_default
  end.

(** A global level of the environment is that of every component without a level of its
    own in the environment, whatever the file says. *)
Lemma resolved_levels config_directory l g :
  extract EnvConfig.env_config_fields env_figment = Ok l → EnvConfig.compression_level l = Some g →
  let c := resolved config_directory in
  logs_config_compression_level c = default g (EnvConfig.logs_config_compression_level l) ∧
  apm_config_compression_level c = default g (EnvConfig.apm_config_compression_level l) ∧
  metrics_config_compression_level c = default g (EnvConfig.metrics_config_compression_level l).
Proof.
  intros El Eg. unfold resolved. rewrite El.
  destruct (extract Yaml.yaml_config_fields _) as [y|e]; unfold merge_env_config, override, override_level; cbn;
    rewrite Eg; cbn; split_and!;
    [destruct (EnvConfig.logs_config_compression_level l)|destruct (EnvConfig.apm_config_compression_level l)
    |destruct (EnvConfig.metrics_config_compression_level l)|destruct (EnvConfig.logs_config_compression_level l)
    |destruct (EnvConfig.apm_config_compression_level l)|destruct (EnvConfig.metrics_config_compression_level l)]; done.
Qed.

(** C30: The configuration is the completion of the default one under the settings of
    the file overridden by those of the environment, a source that does not load being
    left out.  A global compression level of the environment is the level of every
    component that has none of its own in the environment, even one with a level of its
    own in the file. *)
Theorem get_config_refines config_directory :
  let c := get_config_with_extension config_directory in
  (∃ e : E, c = complete (with_ext (resolved config_directory) e)) ∧
  ∀ l g, extract EnvConfig.env_config_fields env_figment = Ok l → EnvConfig.compression_level l = Some g →
    logs_config_compression_level c = default g (EnvConfig.logs_config_compression_level l) ∧
    apm_config_compression_level c = default g (EnvConfig.apm_config_compression_level l) ∧
    metrics_config_compression_level c = default g (EnvConfig.metrics_config_compression_level l).
Proof.
  cbv zeta.
  assert (∃ e : E, get_config_with_extension config_directory = complete (with_ext (resolved config_directory) e))
    as [e He].
  { unfold get_config_with_extension, build, add_source, builder_default, resolved.
    cbn [app sources config snd load_sources].
    set (path := path_join config_directory "datadog.yaml"). unfold yaml_source, env_source.
    destruct (extract Yaml.yaml_config_fields (yaml_figment path)) as [y|e1];
      destruct (extract EnvConfig.env_config_fields env_figment) as [l|e2]; cbn [fst is_ok];
      rewrite ?load_ext_spec, ?with_ext_merge_env, ?merge_yaml_flatten by (by left);
      rewrite ?merge_compose, ?with_ext_twice; eauto. }
  split; [eauto|]. intros l g El Eg. rewrite He. pose proof (resolved_levels config_directory l g El Eg) as Hl.
  by destruct (resolved config_directory).
Qed.

(** ** The completed configuration *)

Lemma drop_char_head (a : ascii) l l' : drop_char a l ≠ a :: l'.
Proof.
  induction l as [|b l IH]; cbn; [done|]. case_decide; [done|]. congruence.
Qed.

Lemma trim_end_char_last a s t : trim_end_char a s ≠ t +:+ String a "".
Proof.
  unfold trim_end_char. intros Heq. apply (f_equal bytes_of) in Heq.
  rewrite String.list_ascii_of_string_of_list_ascii, bytes_of_app in Heq. cbn in Heq.
  apply (f_equal (@rev ascii)) in Heq. rewrite rev_involutive, rev_unit in Heq. by apply drop_char_head in Heq.
Qed.

Lemma starts_with_app p s : starts_with p (p +:+ s) = true.
Proof. apply starts_with_spec. eauto. Qed.

Definition http_url (s : string) : Prop := starts_with "https://" s = true ∨ starts_with "http://" s = true.

Lemma logs_intake_url_spec s :
  (logs_intake_url s = "" ↔ trim s = "") ∧ (trim s ≠ "" → http_url (logs_intake_url s)).
Proof.
  unfold logs_intake_url, http_url. destruct (is_empty (trim s)) eqn:Ee.
  { apply is_empty_spec in Ee. rewrite Ee. naive_solver. }
  assert (trim s ≠ "") as Hne by (intros Ht%is_empty_spec; congruence).
  destruct (starts_with "https://" (trim s)) eqn:E1; [naive_solver|].
  destruct (starts_with "http://" (trim s)) eqn:E2; cbn [orb]; [naive_solver|].
  split; [split; [|done]|]. { by intros ?%(f_equal (starts_with "https://")). }
  intros _. left. apply starts_with_app.
Qed.

Lemma no_proxy_spec site l :
  site_in_no_proxy site l = false ↔
    (∀ v, env_var "NO_PROXY" = Some v → contains site v = false) ∧
    ∀ n, n ∈ l → contains site n = false.
Proof.
  unfold site_in_no_proxy. rewrite orb_false_iff. apply Morphisms_Prop.and_iff_morphism.
  - destruct (env_var "NO_PROXY"); naive_solver.
  - rewrite <- not_true_iff_false, existsb_exists. setoid_rewrite <- list_elem_of_In.
    split; [|intros Hn (n & Hin & Hc); by rewrite Hn in Hc].
    intros Hn n Hin. apply not_true_is_false. intros Hc. apply Hn. eauto.
Qed.

(** C33: A completed configuration has a site; its two URLs have no trailing slash; it has
    a proxy only if one was configured and no entry of [NO_PROXY] contains the site; it
    extracts some propagation style unless there is none; its logs URL has a scheme, or is
    empty because the configured one was made of slashes. *)
Theorem complete_spec c :
  let r := complete c in
  site r ≠ "" ∧
  (∀ s, dd_url r ≠ s +:+ "/") ∧ (∀ s, url r ≠ s +:+ "/") ∧
  (∀ p, proxy_https r = Some p →
     (proxy_https c = Some p ∨ proxy_https c = None ∧ env_var "HTTPS_PROXY" = Some p) ∧
     (∀ v, env_var "NO_PROXY" = Some v → contains (site r) v = false) ∧
     (∀ n, n ∈ proxy_no_proxy c → contains (site r) n = false)) ∧
  (trace_propagation_style_extract r = [] → trace_propagation_style c = []) ∧
  (logs_config_logs_dd_url r = "" ↔
     trim (logs_config_logs_dd_url c) ≠ "" ∧ trim (trim_url (logs_config_logs_dd_url c)) = "") ∧
  (logs_config_logs_dd_url r ≠ "" → http_url (logs_config_logs_dd_url r)).
Proof.
  cbv zeta. unfold complete. cbn [site dd_url url proxy_https proxy_no_proxy trace_propagation_style_extract
    trace_propagation_style logs_config_logs_dd_url].
  set (site' := if is_empty (site c) then _ else _). split_and!.
  - unfold site'. destruct (is_empty (site c)) eqn:Es; [done|]. intros Hs%is_empty_spec. congruence.
  - intros s. apply trim_end_char_last.
  - intros s. apply trim_end_char_last.
  - intros p. match goal with |- match ?m with _ => _ end = _ → _ => destruct m as [q|] eqn:Eq end; [|done].
    destruct (site_in_no_proxy site' (proxy_no_proxy c)) eqn:En; [done|]. intros [= ->].
    apply no_proxy_spec in En as [? ?]. split_and!; [|done..].
    destruct (env_var "HTTPS_PROXY"); [|by left]. destruct (proxy_https c); naive_solver.
  - by destruct (trace_propagation_style_extract c).
  - destruct (is_empty (trim (logs_config_logs_dd_url c))) eqn:Ee.
    + apply is_empty_spec in Ee. rewrite Ee. split; [done|naive_solver].
    + rewrite (proj1 (logs_intake_url_spec _)). split; [|naive_solver]. split; [|done].
      intros Ht%is_empty_spec. congruence.
  - destruct (is_empty (trim (logs_config_logs_dd_url c))); intros Hne.
    + left. apply (starts_with_app "https://").
    + apply logs_intake_url_spec. by rewrite <- (proj1 (logs_intake_url_spec _)).
Qed.
End Loading.

(** * Examples *)
Module AgentConfigExamples.
#[local] Existing Instances SerdeModel.serde SerdeModel.serde_laws.

Definition style_of (s : string) : result bool string :=
  if String.eqb s "datadog" then Ok true else if String.eqb s "tracecontext" then Ok false else Err s.
#[local] Instance tracer : Tracer := {|
  ReplaceRule := string;
  parse_rules_from_string s := Ok [s];
  rules_to_string rules := Ok (join ";" (map (λ r, r.1.1) rules));
  TracePropagationStyle := bool;
  StyleDatadog := true;
  StyleTraceContext := false;
  style_from_str := style_of;
|}.
#[local] Instance environment : ConfigEnvironment := {|
  trace_intake_url site := "https://trace.agent." +:+ site +:+ "/api/v0.2/traces";
  trace_intake_url_prefixed url := url +:+ "/api/v0.2/traces";
  env_var k := if String.eqb k "NO_PROXY" then Some "notdatadoghq.com.example" else None;
|}.

(** Settings of the file, and of the environment under the prefix [DD_]. *)
Definition providers (file env : list (string * Value)) : Providers := {|
  yaml_file _ := Ok file;
  env_prefixed p := if String.eqb p "DD_" then Ok env else Ok [];
  figment_new := Ok [];
  figment_merge low high := let? low := low in let? high := high in Ok (high ++ low);
|}.

Definition file : list (string * Value) :=
  [("site", VString "datadoghq.eu"); ("compression_level", VNumber (PosInt 5));
   ("logs_config", VObject [("compression_level", VNumber (PosInt 7)); ("logs_dd_url", VString "logs.example/")]);
   ("proxy", VObject [("https", VString "http://proxy:3128")]);
   ("tags", VArray [VString "team:a"; VString "bad"]);
   ("apm_config", VArray [VString "apm.example"])].
Definition settings : list (string * Value) :=
  [("compression_level", VNumber (PosInt 2)); ("tags", VString "env:prod,env:dev team:b"); ("log_level", VString "Info")].

(** The environment wins over the file, its global level included, and the file over the
    defaults; a structure may be given as a sequence. *)
Example layers_example :
  let c := @get_config _ _ (providers file settings) _ "/etc/dd" in
  site c = "datadoghq.eu" ∧ compression_level c = 2 ∧ logs_config_compression_level c = 2 ∧
  log_level c = Info ∧ tags c = <["env" := "dev"]> {["team" := "b"]} ∧
  logs_config_logs_dd_url c = "https://logs.example" ∧ apm_dd_url c = "apm.example/api/v0.2/traces" ∧
  proxy_https c = Some "http://proxy:3128" ∧ trace_propagation_style_extract c = [true; false].
Proof. vm_compute. repeat split. Qed.

(** One number where a list of features is expected, and every setting of the
    environment is lost. *)
Example numeric_feature_drops_the_environment :
  let c := @get_config _ _ (providers file (("apm_features", VNumber (PosInt 5)) :: settings)) _ "/etc/dd" in
  compression_level c = 5 ∧ log_level c = Warn ∧ tags c = {["team" := "a"]}.
Proof. vm_compute. repeat split. Qed.

(** A site that is a part of a host in [NO_PROXY] loses the proxy. *)
Example no_proxy_substring :
  proxy_https (@get_config _ _ (providers (("site", VString "datadoghq.com") :: file) []) _ "/etc/dd") = None.
Proof. vm_compute. reflexivity. Qed.

(** An intake made of slashes gives an empty URL, not the default one. *)
Example logs_url_of_slashes :
  logs_config_logs_dd_url
    (@get_config _ _ (providers [] [("logs_config_logs_dd_url", VString "/")]) _ "") = "".
Proof. vm_compute. reflexivity. Qed.

Lemma env_load_spec_witness :
  is_ok (@env_source _ _ (providers [] [("apm_features", VNumber (PosInt 5))]) _ no_extension config_default).2 = false.
Proof.
  destruct (@env_load_spec _ _ _ (providers [] [("apm_features", VNumber (PosInt 5))]) _ no_extension config_default)
    as [[Hok _] _].
  destruct (is_ok _); [|done].
  destruct (Hok eq_refl) as (m & Hm & Hs & _). injection Hm as <-.
  specialize (Hs ("apm_features", is_string)). exfalso.
  assert (setting_ok [("apm_features", VNumber (PosInt 5))] ("apm_features", is_string) = true) as E; [|done].
  apply Hs. by do 2 right; left.
Defined.

(** An integer of 65 bits at the top level refuses the file; in a structure it makes the
    structure that of the defaults. *)
Definition wide : Value := VNumber (PosInt (2 ^ 64)).
Example wide_integer_drops_the_file :
  let load file := @yaml_source _ _ (providers file []) _ no_extension "datadog.yaml" config_default in
  is_ok (load (("env", wide) :: file)).2 = false ∧
  (let r := load [("site", VString "datadoghq.eu"); ("logs_config", VObject [("use_compression", wide)])] in
   is_ok r.2 = true ∧ site r.1 = "datadoghq.eu").
Proof. vm_compute. repeat split. Qed.

Lemma yaml_load_spec_witness :
  is_ok (@yaml_source _ _ (providers file []) _ no_extension "datadog.yaml" config_default).2 = true.
Proof.
  refine (proj2 (proj1 (@yaml_load_spec _ _ _ (providers file []) _ no_extension "datadog.yaml" config_default)) _).
  exists file. split; [reflexivity|]. apply json_settings_ok. vm_compute. reflexivity.
Defined.

(** The file gives the logs the level 7, the environment a global level of 2. *)
Lemma get_config_refines_witness :
  logs_config_compression_level (@get_config _ _ (providers file settings) _ "/etc/dd") = 2.
Proof.
  destruct (@get_config_refines _ _ (providers file settings) _ no_extension _ "/etc/dd") as [_ Hl].
  edestruct Hl as [El _]; [vm_compute; reflexivity|reflexivity|exact El].
Defined.

Lemma merge_yaml_flatten_witness :
  ∃ y, Yaml.yaml_config_fields (FromMap file) = Ok y ∧
    merge_yaml_config (E := NoExtension) config_default y = merge_env_config config_default (flatten y).
Proof.
  eexists. split; [vm_compute; reflexivity|]. apply merge_yaml_flatten. by left.
Defined.
End AgentConfigExamples.
