(* ===== verification/AppServices.v ===== *)
(** Azure App Services metadata.

    What the metrics collector and the metadata reporter use of
    [libdd_common::azure_app_services] and [libdd_common::tag]: the names of its
    variables, the metadata of a function and the validation of tags. *)
From Stdlib Require Import Ascii.
From S2P Require Import Prelude RStr.

(** The getters of [AzureMetadata]. *)
Record AzureMetadata := {
  get_resource_group : string;
  get_subscription_id : string;
  get_site_name : string;
  get_instance_name : string;
  get_resource_id : string;
  get_region : string;
  get_operating_system : string;
  get_runtime : string;
  get_runtime_version : string;
}.

Class AppServices := {
  UNKNOWN_VALUE : string;
  REGION_NAME : string;
  WEBSITE_SKU : string;
  (** [AzureMetadata::new_function], of the variables of an environment *)
  new_function : (string → option string) → option AzureMetadata;
  (** [Tag::new], as the text of the tag *)
  tag_new : string → string → result string string;
}.

(** A valid tag reads [key:value]. *)
Class AppServicesLaws `{!AppServices} := {
  tag_new_text k v t : tag_new k v = Ok t → t = k +:+ ":" +:+ v;
}.

(** * A simple instance *)
Module AppServicesModel.
Definition find_var (env : string → option string) (k : string) : string := default "unknown" (env k).
Definition app_services : AppServices := {|
  UNKNOWN_VALUE := "unknown";
  REGION_NAME := "REGION_NAME";
  WEBSITE_SKU := "WEBSITE_SKU";
  new_function env :=
    match env "FUNCTIONS_WORKER_RUNTIME" with
    | Some runtime => Some {|
        get_resource_group := find_var env "WEBSITE_RESOURCE_GROUP";
        get_subscription_id := find_var env "WEBSITE_OWNER_NAME";
        get_site_name := find_var env "WEBSITE_SITE_NAME";
        get_instance_name := find_var env "WEBSITE_INSTANCE_ID";
        get_resource_id := "/sites/" +:+ find_var env "WEBSITE_SITE_NAME";
        get_region := find_var env "REGION_NAME";
        get_operating_system := find_var env "WEBSITE_OS";
        get_runtime := runtime;
        get_runtime_version := find_var env "FUNCTIONS_WORKER_RUNTIME_VERSION" |}
    | None => None
    end;
  tag_new k v := if starts_with ":" k || starts_with ":" (str_of (rev (bytes_of v)))
                 then Err "invalid tag" else Ok (k +:+ ":" +:+ v);
|}.
Lemma app_services_laws : @AppServicesLaws app_services.
Proof. constructor. intros k v t. cbn. destruct (_ || _); [done|]. by intros [= <-]. Qed.
End AppServicesModel.
