(* ===== verification/MetricsCollector.v ===== *)
(** Collector of the enhanced metrics of Azure Functions.

    [src/crates/datadog-metrics-collector/]: the readings of the CPU time on Linux and
    Windows, the collector that turns consecutive readings into a usage metric, the
    instance metric, and the tags both carry.  Each collector is a state and an
    operation that returns the metrics it hands to the aggregator. *)
From Stdlib Require Import Ascii SpecFloat.
From S2P Require Import Prelude RStr Float Externals Metric AppServices.

Definition CPU_USAGE_METRIC : string := "azure.functions.enhanced.cpu.usage".
Definition INSTANCE_METRIC : string := "azure.functions.enhanced.instance".

(** * Readings *)

(** [azure_linux.rs]; [contents] is what [fs::read_to_string] gives. *)
Definition read_cpuacct_usage (contents : option string) : option Z :=
  contents ≫= λ contents, parse_uint u64_max (trim contents).

Definition u64_try_from (z : Z) : option Z := if 0 <=? z then Some z else None.
Definition checked (z : Z) : option Z := if z <=? u64_max then Some z else None.

(** [azure_windows.rs]: two 64-bit signed counts of 100 nanoseconds. *)
Definition cpu_time_to_nanoseconds (user_time kernel_time : Z) : option Z :=
  u64_try_from user_time ≫= λ total_user,
  u64_try_from kernel_time ≫= λ total_kernel,
  checked (total_user + total_kernel) ≫= λ total, checked (total * 100).

Definition read_cpu_usage_from_job_object (info : option (Z * Z)) : option Z :=
  info ≫= λ times, cpu_time_to_nanoseconds times.1 times.2.

(** * CPU usage: [azure_cpu.rs] *)

(** [Duration::as_secs_f64]. *)
Definition as_secs_f64 (nanos : Z) : f64 :=
  F64.add (F64.of_Z (nanos / 10 ^ 9)) (F64.div (F64.of_Z (nanos mod 10 ^ 9)) (F64.of_Z (10 ^ 9))).

Definition compute_usage_rate_nc (current_usage_ns last_usage_ns : Z) (elapsed_secs : f64) : option f64 :=
  if current_usage_ns <? last_usage_ns then None
  else if fle elapsed_secs F64.zero then None
  else Some (F64.div (F64.of_Z (current_usage_ns - last_usage_ns)) elapsed_secs).

(** What a collection reads: the CPU time, the monotonic clock in nanoseconds, and the
    wall clock twice (in [collect_and_submit] and in [Metric::new]). *)
Record Tick := {
  reading : option Z;
  now_instant : Z;
  unix_now : Z;
  metric_clock : Z;
}.

Section Collectors.
Context `{!UstrOrd, !Hasher, !DDSketch}.

Record CpuMetricsCollector := {
  cpu_tags : option SortedTags;
  last_usage_ns : option Z;
  last_collection_time : Z;
}.

Definition cpu_collector_new (tags : option SortedTags) (now : Z) : CpuMetricsCollector :=
  {| cpu_tags := tags; last_usage_ns := None; last_collection_time := now |}.

Definition collect_and_submit (self : CpuMetricsCollector) (t : Tick) : CpuMetricsCollector * list Metric :=
  match reading t with
  | None => (self, [])
  | Some current_usage_ns =>
      let now := clock_secs (unix_now t) in
      let self' := {| cpu_tags := cpu_tags self; last_usage_ns := Some current_usage_ns;
                      last_collection_time := now_instant t |} in
      match last_usage_ns self with
      | None => (self', [])
      | Some last_usage_ns =>
          let elapsed_secs := as_secs_f64 (saturating_sub (now_instant t) (last_collection_time self)) in
          match compute_usage_rate_nc current_usage_ns last_usage_ns elapsed_secs with
          | None => (self', [])
          | Some usage_rate_nc =>
              (self', [metric_new now (metric_clock t) CPU_USAGE_METRIC (distribution usage_rate_nc)
                         (cpu_tags self) (Some now)])
          end
      end
  end.

(** A run of the collector over the ticks of its timer. *)
Fixpoint run_collector (self : CpuMetricsCollector) (ticks : list Tick) :
    CpuMetricsCollector * list Metric :=
  match ticks with
  | [] => (self, [])
  | t :: ticks =>
      let '(self, ms) := collect_and_submit self t in
      let '(self, ms') := run_collector self ticks in
      (self, ms ++ ms')
  end.

(** * Tags: [azure_tags.rs] *)

Context `{!AppServices}.

Definition make_tag (kv : string * string) : option string :=
  if is_empty kv.2 then None else result_ok (tag_new kv.1 kv.2).

Definition build_tags (pairs : list (string * string)) : option SortedTags :=
  let tags := omap make_tag pairs in
  match tags with
  | [] => None
  | _ => result_ok (parse_tags (join "," tags))
  end.

(** [var] is [env::var]; the metadata are those of the process. *)
Definition build_enhanced_metrics_tags (var : string → option string) : option SortedTags :=
  let metadata_pairs :=
    match new_function var with
    | Some m =>
        filter (λ kv : string * string, kv.2 ≠ UNKNOWN_VALUE)
          [("resource_group", get_resource_group m); ("subscription_id", get_subscription_id m);
           ("name", get_site_name m)]
    | None => []
    end in
  let env_pairs :=
    omap (λ kv : string * string, match var kv.2 with Some val => Some (kv.1, val) | None => None end)
      [("region", REGION_NAME); ("plan_tier", WEBSITE_SKU); ("service", "DD_SERVICE"); ("env", "DD_ENV");
       ("version", "DD_VERSION"); ("serverless_compat_version", "DD_SERVERLESS_COMPAT_VERSION")] in
  build_tags (metadata_pairs ++ env_pairs).

(** * The instance metric: [azure_instance.rs] *)

Record InstanceMetricsCollector := { inst_tags : option SortedTags }.

Definition instance_collector_new (metadata : option AzureMetadata) (tags : option SortedTags) :
    option InstanceMetricsCollector :=
  let instance_name :=
    metadata ≫= λ m, let n := to_lowercase (get_instance_name m) in
      if decide (n ≠ UNKNOWN_VALUE) then Some n else None in
  match instance_name with
  | None => None
  | Some instance_id =>
      let instance_tag := "instance:" +:+ instance_id in
      Some {| inst_tags :=
        match tags with
        | Some existing =>
            match parse_tags instance_tag with
            | Ok id_tag => Some (extend existing id_tag)
            | Err _ => Some existing
            end
        | None => result_ok (parse_tags instance_tag)
        end |}
  end.

Definition instance_collect_and_submit (self : InstanceMetricsCollector) (now clock : Z) : list Metric :=
  [metric_new now clock INSTANCE_METRIC (Gauge F64.one) (inst_tags self) None].
End Collectors.

(** * Facts *)

Theorem cpu_readings_exact user kernel contents :
  i64_min ≤ user ≤ i64_max → i64_min ≤ kernel ≤ i64_max →
  cpu_time_to_nanoseconds user kernel =
    (if decide (0 ≤ user ∧ 0 ≤ kernel ∧ 100 * (user + kernel) ≤ u64_max)
     then Some (100 * (user + kernel)) else None) ∧
  ∀ t, read_cpuacct_usage contents = Some t → 0 ≤ t ≤ u64_max.
Proof.
  unfold i64_min, i64_max, u64_max. intros Hu Hk. split.
  - unfold cpu_time_to_nanoseconds, u64_try_from, checked, u64_max.
    destruct (Z.leb_spec 0 user); cbn [mbind option_bind]; [|rewrite decide_False by lia; done].
    destruct (Z.leb_spec 0 kernel); cbn [mbind option_bind]; [|rewrite decide_False by lia; done].
    destruct (Z.leb_spec (user + kernel) (2 ^ 64 - 1)); cbn [mbind option_bind]; [|lia].
    destruct (Z.leb_spec ((user + kernel) * 100) (2 ^ 64 - 1)); cbn [mbind option_bind];
      [rewrite decide_True by lia; f_equal; lia|by rewrite decide_False by lia].
  - intros t. destruct contents as [s|]; cbn; [|done]. apply parse_uint_range.
Qed.

Section CollectorFacts.
Context `{!UstrOrd, !Hasher, !DDSketch}.

(** A reading that was made. *)
Record Sample := { s_usage : Z; s_tick : Tick }.
Definition sample_of (t : Tick) : option Sample :=
  match reading t with Some u => Some {| s_usage := u; s_tick := t |} | None => None end.

(** The metric of two consecutive samples. *)
Definition usage_metric (tags : option SortedTags) (from to : Sample) : option Metric :=
  match compute_usage_rate_nc (s_usage to) (s_usage from)
          (as_secs_f64 (saturating_sub (now_instant (s_tick to)) (now_instant (s_tick from)))) with
  | Some rate =>
      let now := clock_secs (unix_now (s_tick to)) in
      Some (metric_new now (metric_clock (s_tick to)) CPU_USAGE_METRIC (distribution rate) tags (Some now))
  | None => None
  end.

(** The metrics of a list of samples: one for each consecutive pair that has a rate. *)
Fixpoint usage_metrics (tags : option SortedTags) (l : list Sample) : list Metric :=
  match l with
  | [] => []
  | from :: l =>
      match l with
      | [] => []
      | to :: _ => option_list (usage_metric tags from to)
      end ++ usage_metrics tags l
  end.

Lemma run_collector_from c s ticks :
  last_usage_ns c = Some (s_usage s) → last_collection_time c = now_instant (s_tick s) →
  (run_collector c ticks).2 = usage_metrics (cpu_tags c) (s :: omap sample_of ticks).
Proof.
  revert c s. induction ticks as [|t ticks IH]; intros c s Hu Ht; [done|].
  cbn [run_collector omap list_omap]. unfold collect_and_submit, sample_of at 1.
  destruct (reading t) as [u|] eqn:Er.
  - set (s' := {| s_usage := u; s_tick := t |}). rewrite Hu, Ht.
    change (usage_metrics (cpu_tags c) (s :: s' :: omap sample_of ticks))
      with (option_list (usage_metric (cpu_tags c) s s') ++ usage_metrics (cpu_tags c) (s' :: omap sample_of ticks)).
    specialize (IH {| cpu_tags := cpu_tags c; last_usage_ns := Some u; last_collection_time := now_instant t |}
      s' eq_refl eq_refl).
    cbn [cpu_tags] in IH. rewrite <- IH. unfold usage_metric. cbn [s_usage s_tick s'].
    destruct (compute_usage_rate_nc u (s_usage s) _); by destruct (run_collector _ ticks).
  - specialize (IH c s Hu Ht). destruct (run_collector c ticks) as [c2 ms]. exact IH.
Qed.

(** C34: A run of the collector submits the usage metrics of the consecutive pairs of
    successful readings, whatever readings fail in between. *)
Theorem collector_refines tags now ticks :
  (run_collector (cpu_collector_new tags now) ticks).2 = usage_metrics tags (omap sample_of ticks).
Proof.
  generalize now. induction ticks as [|t ticks IH]; intros now'; [done|].
  cbn [run_collector omap list_omap]. unfold collect_and_submit, sample_of at 1.
  destruct (reading t) as [u|] eqn:Er; cbn [last_usage_ns cpu_collector_new cpu_tags].
  - set (s := {| s_usage := u; s_tick := t |}).
    match goal with |- context [run_collector ?c' ticks] =>
      pose proof (run_collector_from c' s ticks eq_refl eq_refl) as Hrun end.
    by destruct (run_collector _ ticks) as [c2 ms].
  - specialize (IH now'). change {| cpu_tags := tags; last_usage_ns := None; last_collection_time := now' |}
      with (cpu_collector_new tags now'). by destruct (run_collector _ ticks) as [c2 ms].
Qed.
End CollectorFacts.

(** ** Tags *)

Section TagsFacts.
Context `{!UstrOrd, !AppServices, !AppServicesLaws}.

(** The pairs that become tags. *)
Definition kept (pairs : list (string * string)) : list (string * string) :=
  filter (λ kv, is_Some (make_tag kv)) pairs.

Lemma make_tag_text kv t : make_tag kv = Some t → t = render_tag kv.
Proof.
  unfold make_tag, render_tag. destruct (is_empty kv.2); [done|].
  destruct (tag_new kv.1 kv.2) as [x|] eqn:E; [|done]. intros [= <-]. by apply tag_new_text.
Qed.

Lemma make_tags_kept pairs : omap make_tag pairs = render_tag <$> kept pairs.
Proof.
  unfold kept. induction pairs as [|kv pairs IH]; [done|]. cbn [omap list_omap]. rewrite filter_cons.
  destruct (make_tag kv) as [t|] eqn:E.
  - rewrite decide_True by eauto. cbn. f_equal; [by apply make_tag_text|exact IH].
  - rewrite decide_False by (by intros []). exact IH.
Qed.

Theorem build_tags_spec pairs :
  Forall tag_clean (kept pairs) →
  build_tags pairs =
    if decide (kept pairs = [] ∨ MAX_TAGS < zlen (dedup (kept pairs))) then None
    else Some {| values := sort_tags (dedup (kept pairs)) |}.
Proof.
  intros Hc. unfold build_tags. rewrite make_tags_kept.
  destruct (render_tag <$> kept pairs) as [|t ts] eqn:E.
  { apply fmap_nil_inv in E. rewrite decide_True; auto. }
  rewrite <- E. unfold parse_tags. rewrite section_tags_render by done.
  assert (kept pairs ≠ []) by (by intros Hk; rewrite Hk in E).
  destruct (Z.ltb_spec MAX_TAGS (zlen (dedup (kept pairs)))).
  - rewrite decide_True; auto.
  - rewrite decide_False; [done|]. intros [|]; [done|lia].
Qed.

Theorem instance_tags_spec m tags c :
  instance_collector_new m tags = Some c →
  ∃ meta, m = Some meta ∧ to_lowercase (get_instance_name meta) ≠ UNKNOWN_VALUE ∧
  (contains_char "," (to_lowercase (get_instance_name meta)) = false →
   ∃ t, inst_tags c = Some t ∧
     ∀ kv, kv ∈ values t ↔
       kv = ("instance", to_lowercase (get_instance_name meta)) ∨
       ∃ existing, tags = Some existing ∧ kv ∈ values existing).
Proof.
  unfold instance_collector_new. destruct m as [meta|]; cbn [mbind option_bind]; [|done].
  case_decide as Hn; [|done]. intros [= <-]. exists meta. split_and!; [done|done|].
  set (id := to_lowercase (get_instance_name meta)). intros Hc.
  assert (parse_tags ("instance:" +:+ id) = Ok {| values := [("instance", id)] |}) as Hp.
  { unfold parse_tags, section_tags. rewrite split_single.
    - change ("instance:" +:+ id) with ("instance" +:+ String ":" id).
      rewrite filter_cons, decide_True by done. cbn [fmap list_fmap filter list_filter].
      unfold tag_of_part. by rewrite (proj2 (split_once_some ":" _ "instance" id)).
    - change ("instance:" +:+ id) with ("instance:" +:+ id). by rewrite contains_char_app, Hc. }
  cbn [inst_tags]. rewrite Hp. destruct tags as [existing|].
  - eexists. split; [reflexivity|]. intros kv. cbn [extend values]. unfold sort_tags.
    rewrite sort_elem, dedup_elem, elem_of_app, list_elem_of_singleton. naive_solver.
  - eexists. split; [reflexivity|]. intros kv. cbn [values]. rewrite list_elem_of_singleton. naive_solver.
Qed.
End TagsFacts.

(** * Examples *)
Module MetricsCollectorExamples.
#[local] Existing Instances Concrete.ustr_ord AppServicesModel.app_services AppServicesModel.app_services_laws.

Definition tick (u : option Z) (secs : Z) : Tick :=
  {| reading := u; now_instant := secs * 10 ^ 9; unix_now := secs; metric_clock := secs |}.

(** A missed reading widens the interval; a reading that goes back skips it. *)
Example rates_example :
  map (λ p : Z * Z * Z, compute_usage_rate_nc p.1.1 p.1.2 (as_secs_f64 p.2))
    [(3000, 1000, 2 * 10 ^ 9); (1000, 3000, 10 ^ 9); (3000, 1000, 0)]
  = [Some (F64.of_Z 1000); None; None].
Proof. vm_compute. reflexivity. Qed.

(** A comma in a value splits it into two tags. *)
Example comma_splits_tag :
  (to_strings <$> build_tags [("service", "a,b"); ("env", ""); ("version", "1.0:")]) = Some ["b"; "service:a"].
Proof. vm_compute. reflexivity. Qed.

Lemma build_tags_spec_witness :
  build_tags [("service", "web"); ("env", ""); ("env", "dev")]
    = Some {| values := [("env", "dev"); ("service", "web")] |}.
Proof.
  rewrite build_tags_spec.
  - vm_compute. reflexivity.
  - assert (kept [("service", "web"); ("env", ""); ("env", "dev")] = [("service", "web"); ("env", "dev")]) as ->
      by (vm_compute; reflexivity).
    repeat constructor; done.
Defined.

Lemma cpu_readings_exact_witness :
  cpu_time_to_nanoseconds 100 200 = Some 30000 ∧ cpu_time_to_nanoseconds i64_max 100 = None.
Proof.
  split.
  - refine (proj1 (cpu_readings_exact 100 200 None _ _)); split; vm_compute; done.
  - refine (proj1 (cpu_readings_exact i64_max 100 None _ _)); split; vm_compute; done.
Defined.
End MetricsCollectorExamples.
