(* ===== verification/MetricsPipeline.v ===== *)
(** The metrics as a whole: [dogstatsd/src/dogstatsd.rs], the collectors of
    [datadog-metrics-collector/src/], [dogstatsd/src/aggregator/service.rs] and
    [dogstatsd/src/flusher.rs], as [datadog-serverless-compat/src/main.rs] joins them.

    The processor of the packets and the collectors send batches to the task that owns the
    metrics; each tick spawns a flush, and a slow flush may still run when the next one
    starts.  The transition system has all their interleavings, and follows every metric
    from its packet to the flush that sends it. *)
From Stdlib Require Import Ascii SpecFloat.
From S2P Require Import Prelude RStr Float Externals Metric Origin Aggregator Actor AggregatorService Contexts.
From S2P Require Import Flusher DogStatsD AppServices MetricsCollector.

Section MetricsPipeline.
Context `{!UstrOrd, !Hasher, !DDSketch, !HashTable Metric, !Encoders, !AppServices}.

#[local] Abbreviation AggregatorTask := (Service Aggregator AggregatorCommand Response).

(** * The handle *)

(** The answer to the flush [tx]. *)
Definition flush_answer (tx : nat) (r : Response) : option FlushResponse :=
  match r with Flushed tx' r => if decide (tx' = tx) then Some r else None | Entry _ _ => None end.

Definition flush_send (svc : AggregatorTask) (tx : nat) : option AggregatorTask := send svc (Flush tx).
Definition flush_wait (svc : AggregatorTask) (tx : nat) : option (result FlushResponse unit) :=
  response (flush_answer tx) svc.

(** * The flusher *)

(** What a flush returns: the batches to retry, if any. *)
Abbreviation Outcome := (option (list Series * list SketchPayload)).

(** The two shipping tasks of [flush_metrics], each with its network, and their join. *)
Definition shipping_tasks (serialize_series : Series → result string string)
    (serialize_sketches : SketchPayload → result string string)
    (net_series net_sketches : nat → HttpRequest → result Z (option Z))
    (cloneable : HttpRequest → bool) (compress : string → option string)
    (ser : list Series) (dist : list SketchPayload) (api : DdApi) : join_result :=
  match ship_batches (ship_series net_series cloneable compress serialize_series api) ser [] false 0,
        ship_batches (ship_distributions net_sketches cloneable compress serialize_sketches api) dist [] false 0 with
  | Some (series_failed, series_error, _), Some (sketches_failed, sketches_error, _) =>
      Joined series_failed series_error sketches_failed sketches_error
  | _, _ => JoinError
  end.

(** What a flush meets: the key it resolves, and its two shipping tasks. *)
Record World := {
  resolved_key : option string;
  tasks : list Series → list SketchPayload → DdApi → join_result;
}.

(** [Flusher::flush] after its wait. *)
Definition flush_rest (prefix : string) (strategy : RetryStrategy) (answer : result FlushResponse unit)
    (w : World) : Outcome :=
  match answer with
  | Err _ => Some ([], [])
  | Ok r =>
      (flush_metrics (series r) (distributions r) None prefix strategy (resolved_key w)
         (tasks w (series r) (distributions r))).1
  end.

(** * The state *)

(** A flush that was spawned; its number is its place, and that of its one-shot channel. *)
Inductive FlushPc :=
  | Waits
  | Returned (response : option FlushResponse) (outcome : Outcome).

Record Pipeline := {
  task : AggregatorTask;
  instance_collector : option InstanceMetricsCollector;
  cpu_collector : option CpuMetricsCollector;
  flushes : list FlushPc;
}.

Definition start (a : Aggregator) (instance : option InstanceMetricsCollector)
    (cpu : option CpuMetricsCollector) : Pipeline :=
  {| task := service_new a; instance_collector := instance; cpu_collector := cpu; flushes := [] |}.

Definition with_task (p : Pipeline) (svc : AggregatorTask) : Pipeline :=
  {| task := svc; instance_collector := instance_collector p; cpu_collector := cpu_collector p;
     flushes := flushes p |}.

(** [AggregatorHandle::insert_batch]; its callers ignore the error of a task that is gone. *)
Definition insert_batch (p : Pipeline) (metrics : list Metric) : Pipeline :=
  match send (task p) (InsertBatch metrics) with Some svc => with_task p svc | None => p end.

(** The server processes a packet. *)
Definition on_packet (p : Pipeline) (clocks : Z * Z) (namespace : option string) (buf : list ascii) : Pipeline :=
  match process_packet clocks namespace buf with Some ms => insert_batch p ms | None => p end.

Definition on_instance_tick (p : Pipeline) (now clock : Z) : Pipeline :=
  match instance_collector p with
  | Some c => insert_batch p (instance_collect_and_submit c now clock)
  | None => p
  end.

Definition on_cpu_tick (p : Pipeline) (t : Tick) : Pipeline :=
  match cpu_collector p with
  | Some c =>
      let '(c, ms) := collect_and_submit c t in
      let p := {| task := task p; instance_collector := instance_collector p; cpu_collector := Some c;
                  flushes := flushes p |} in
      match ms with [] => p | _ => insert_batch p ms end
  | None => p
  end.

(** A tick of the flush timer spawns a flush, which sends its command. *)
Definition spawn_flush (p : Pipeline) : Pipeline :=
  match flush_send (task p) (length (flushes p)) with
  | Some svc =>
      {| task := svc; instance_collector := instance_collector p; cpu_collector := cpu_collector p;
         flushes := flushes p ++ [Waits] |}
  | None =>
      {| task := task p; instance_collector := instance_collector p; cpu_collector := cpu_collector p;
         flushes := flushes p ++ [Returned None (Some ([], []))] |}
  end.

Definition end_flush (prefix : string) (strategy : RetryStrategy) (p : Pipeline) (i : nat)
    (answer : result FlushResponse unit) (w : World) : Pipeline :=
  {| task := task p; instance_collector := instance_collector p; cpu_collector := cpu_collector p;
     flushes := <[i := Returned (result_ok answer) (flush_rest prefix strategy answer w)]> (flushes p) |}.

Context (prefix : string) (strategy : RetryStrategy).

Inductive step : Pipeline → Pipeline → Prop :=
  | packet p clocks namespace buf : step p (on_packet p clocks namespace buf)
  | instance_tick p now clock : step p (on_instance_tick p now clock)
  | cpu_tick p t : step p (on_cpu_tick p t)
  | task_step p svc : serves handle (task p) svc → step p (with_task p svc)
  | flush_tick p : step p (spawn_flush p)
  | flush_ends p i answer w :
      flushes p !! i = Some Waits → flush_wait (task p) i = Some answer →
      step p (end_flush prefix strategy p i answer w)
  | shuts_down p svc : send (task p) Shutdown = Some svc → step p (with_task p svc).
End MetricsPipeline.

(** * Facts *)

(** The flushes are told apart by their channels. *)
Lemma NoDup_fst_eq {K V} (l : list (K * V)) k v v' :
  NoDup l.*1 → (k, v) ∈ l → (k, v') ∈ l → v = v'.
Proof.
  intros Hnd H1 H2. apply list_elem_of_lookup_1 in H1 as [i H1], H2 as [j H2].
  assert (i = j) as ->; [|congruence].
  apply (NoDup_lookup _ i j k Hnd); by rewrite list_lookup_fmap, ?H1, ?H2.
Qed.

Section Answers.
Context `{!UstrOrd, !Hasher, !DDSketch, !HashTable Metric, !HashTableLaws Metric}.
Context `{!Encoders, !EncoderLaws}.

Definition command_metrics (c : AggregatorCommand) : list Metric :=
  match c with InsertBatch ms => ms | _ => [] end.
Definition command_txs (c : AggregatorCommand) : list nat :=
  match c with Flush tx => [tx] | _ => [] end.
Definition flushed_response (r : Response) : option (nat * FlushResponse) :=
  match r with Flushed tx r => Some (tx, r) | Entry _ _ => None end.
Definition flushed_contexts (r : SpecResponse) : option (gmap Z Metric) :=
  match r with SpecFlushed _ M => Some M | SpecEntry _ _ => None end.

(** The flushes answered, with their channels. *)
Definition flushed (svc : Service Aggregator AggregatorCommand Response) : list (nat * FlushResponse) :=
  omap flushed_response (answered svc).

(** The metrics handled are cut into what each flush sends and what is left. *)
Lemma spec_run_segments cap cs ms ms' rs :
  run (spec_handle cap) ms cs = Some (ms', rs) →
  ∃ segs, ms ++ (cs ≫= command_metrics) = concat segs ++ ms' ∧ omap flushed_contexts rs = contexts cap <$> segs.
Proof.
  revert ms rs. induction cs as [|c cs IH]; intros ms rs; cbn [run].
  - intros [= <- <-]. exists []. by rewrite app_nil_r.
  - destruct c as [l|tx|nm ts t tx|]; cbn [spec_handle]; [| | |done];
      destruct (run (spec_handle cap) _ cs) as [[ms2 rs2]|] eqn:E; try done; intros [= <- <-];
      destruct (IH _ _ E) as (segs & Hc & Hf).
    + exists segs. by rewrite bind_cons, app_assoc.
    + exists (ms :: segs). rewrite bind_cons. cbn [command_metrics concat app] in Hc |- *.
      split; [by rewrite Hc, app_assoc|]. cbn [omap list_omap flushed_contexts]. by rewrite Hf.
    + exists segs. by rewrite bind_cons.
Qed.

Lemma answers_flushed_segments tags cap rs srs segs :
  Forall2 (answers tags) rs srs → omap flushed_contexts srs = contexts cap <$> segs →
  Forall2 (λ x seg, holds tags x.2 (contexts cap seg)) (omap flushed_response rs) segs.
Proof.
  intros Ha. revert segs. induction Ha as [|r sr rs srs [tx r' M Hh|tx m] _ IH]; intros segs; simpl.
  - destruct segs; [constructor|done].
  - destruct segs as [|seg segs]; [done|]. simpl. intros [= -> Hs]. constructor; [done|by apply IH].
  - intros Hs. by apply IH.
Qed.

(** A flush is answered at most once: its commands handled are its answers. *)
Lemma run_txs cs a s rs :
  run handle a cs = Some (s, rs) → (omap flushed_response rs).*1 = cs ≫= command_txs.
Proof.
  revert a rs. induction cs as [|c cs IH]; intros a rs; cbn [run]; [by intros [= <- <-]|].
  destruct c as [l|tx|nm ts t tx|]; cbn [handle]; [| | |done].
  - destruct (run handle _ cs) as [[s2 rs2]|] eqn:E; [|done]. intros [= <- <-]. by apply (IH _ _ E).
  - destruct (flush_all a) as [r a']. destruct (run handle _ cs) as [[s2 rs2]|] eqn:E; [|done].
    intros [= <- <-]. simpl. f_equal. by apply (IH _ _ E).
  - destruct (run handle _ cs) as [[s2 rs2]|] eqn:E; [|done]. intros [= <- <-]. by apply (IH _ _ E).
Qed.

(** What waiting gives, in terms of the flushes answered. *)
Lemma flush_wait_spec svc tx :
  flush_wait svc tx =
    match list_find (λ x, x.1 = tx) (flushed svc) with
    | Some (_, x) => Some (Ok x.2)
    | None => if stopped svc then Some (Err tt) else None
    end.
Proof.
  unfold flush_wait, response, flushed. generalize (if stopped svc then Some (Err tt : result FlushResponse unit) else None).
  intros other. induction (answered svc) as [|r rs IH]; [done|].
  destruct r as [tx' r|tx' m]; cbn [omap list_omap flush_answer flushed_response list_find fst]; [|exact IH].
  destruct (decide (tx' = tx)) as [->|Hne]; [done|]. rewrite IH.
  by destruct (list_find _ _) as [[? ?]|].
Qed.

Lemma flush_wait_ok svc tx r : flush_wait svc tx = Some (Ok r) → (tx, r) ∈ flushed svc.
Proof.
  rewrite flush_wait_spec. destruct (list_find _ _) as [[i [tx' r']]|] eqn:E; [|by case_match].
  apply list_find_Some in E as (Hi & Htx & _). simpl in *. subst. intros [= ->].
  by eapply list_elem_of_lookup_2.
Qed.

Lemma flush_wait_err svc tx :
  flush_wait svc tx = Some (Err tt) → stopped svc = true ∧ tx ∉ (flushed svc).*1.
Proof.
  rewrite flush_wait_spec. destruct (list_find _ _) as [[i x]|] eqn:E; [done|].
  destruct (stopped svc); [|done]. intros _. split; [done|].
  apply list_find_None in E.
  intros ([tx' r] & -> & Hin)%list_elem_of_fmap. rewrite Forall_forall in E. by apply (E _ Hin).
Qed.
End Answers.

Section PipelineFacts.
Context `{!UstrOrd, !Hasher, !DDSketch, !HashTable Metric, !HashTableLaws Metric}.
Context `{!Encoders, !EncoderLaws, !AppServices}.
Context (prefix : string) (strategy : RetryStrategy) (tags : SortedTags) (cap : Z) (a0 : Aggregator).
Context (Hcap : 0 ≤ cap) (Hnew : aggregator_new tags cap = Ok a0).

#[local] Abbreviation step := (step prefix strategy).

Record metrics_inv (p : Pipeline) : Prop := {
  mi_task : rtc run_step (service_new a0) (task p);
  mi_ids : Forall ids_ok (sent (task p));
  mi_txs : NoDup (sent (task p) ≫= command_txs);
  mi_fresh : Forall (λ tx, (tx < length (flushes p))%nat) (sent (task p) ≫= command_txs);
  (** a flush that returned had its own answer, or never will *)
  mi_returned : ∀ i r o, flushes p !! i = Some (Returned (Some r) o) →
    (i, r) ∈ flushed (task p) ∧ ∃ w, o = flush_rest prefix strategy (Ok r) w;
  mi_failed : ∀ i o, flushes p !! i = Some (Returned None o) →
    stopped (task p) = true ∧ i ∉ (flushed (task p)).*1 ∧ o = Some ([], []);
}.

Lemma start_metrics_inv inst cpu : metrics_inv (start a0 inst cpu).
Proof. split; try done. constructor. Qed.

(** A command that is no flush leaves the flushes as they are. *)
Lemma send_metrics_inv p c svc :
  metrics_inv p → ids_ok c → command_txs c = [] → send (task p) c = Some svc → metrics_inv (with_task p svc).
Proof.
  intros [Ht Hi Hn Hf Hr Hd] Hc Htx Hsend. destruct (send_spec _ _ _ Hsend) as [Hst E].
  assert (sent svc ≫= command_txs = sent (task p) ≫= command_txs) as Etx.
  { rewrite E. cbn [sent]. by rewrite bind_app, bind_singleton, Htx, app_nil_r. }
  split; cbn [task flushes with_task]; rewrite ?Etx; try done.
  - eapply rtc_r; [done|]. by eapply step_send.
  - rewrite E. cbn [sent]. apply Forall_app. split; [done|]. by repeat constructor.
  - intros i r o Ho. rewrite E. apply (Hr i r o Ho).
  - intros i o Ho. destruct (Hd i o Ho). congruence.
Qed.

Lemma insert_batch_inv p ms : metrics_inv p → Forall has_id ms → metrics_inv (insert_batch p ms).
Proof.
  intros Hp Hms. unfold insert_batch. destruct (send _ _) as [svc|] eqn:E; [|done].
  apply (send_metrics_inv p (InsertBatch ms) svc); [done| |done|done]. by intros l [= <-].
Qed.

Lemma collected_ids c t : Forall has_id (collect_and_submit c t).2.
Proof.
  unfold collect_and_submit. repeat case_match; by repeat constructor.
Qed.

Lemma packet_ids clocks namespace buf ms :
  process_packet clocks namespace buf = Some ms → Forall has_id ms.
Proof. by intros (_ & ? & _)%process_packet_sound. Qed.

Lemma recv_flushed svc svc' :
  recv handle svc = Some svc' → stopped svc = false ∧ ∀ x, x ∈ flushed svc → x ∈ flushed svc'.
Proof.
  unfold recv, flushed. destruct (stopped svc); [done|]. destruct (queue svc) as [|c q]; [done|].
  intros Hrecv. split; [done|]. destruct (handle (state svc) c); injection Hrecv as <-; [|done].
  cbn [answered]. intros x. rewrite omap_app. set_solver.
Qed.

Lemma task_step_inv p svc : metrics_inv p → serves handle (task p) svc → metrics_inv (with_task p svc).
Proof.
  intros [Ht Hi Hn Hf Hr Hd] Hrecv. destruct (recv_flushed _ _ Hrecv) as [Hst Hfl].
  split; cbn [task flushes with_task]; rewrite ?(recv_sent _ _ _ Hrecv); try done.
  - eapply rtc_r; [done|]. by apply step_recv.
  - intros i r o Ho. destruct (Hr i r o Ho). auto.
  - intros i o Ho. destruct (Hd i o Ho). congruence.
Qed.

(** The answers are those of the commands handled, hence of flushes that were spawned. *)
Lemma flushed_sent svc :
  rtc run_step (service_new a0) svc → ∃ rest, sent svc ≫= command_txs = (flushed svc).*1 ++ rest.
Proof.
  intros Hr. destruct (reach_sequential _ _ _ Hr) as (d & r & -> & Hrun & _).
  exists (r ≫= command_txs). rewrite bind_app. f_equal. symmetry. by apply (run_txs d a0 (state svc)).
Qed.

Lemma flushed_facts p : metrics_inv p →
  NoDup (flushed (task p)).*1 ∧ Forall (λ tx, (tx < length (flushes p))%nat) (flushed (task p)).*1.
Proof.
  intros [Ht _ Hn Hf _ _]. destruct (flushed_sent _ Ht) as [rest E]. rewrite E in Hn, Hf.
  apply NoDup_app in Hn as [? _]. by apply Forall_app in Hf as [? _].
Qed.

Lemma spawn_flush_inv p : metrics_inv p → metrics_inv (spawn_flush p).
Proof.
  intros Hp. destruct (flushed_facts p Hp) as [_ Hlt]. destruct Hp as [Ht Hi Hn Hf Hr Hd].
  unfold spawn_flush. destruct (flush_send _ _) as [svc|] eqn:E.
  - destruct (send_spec _ _ _ E) as [Hst Es].
    assert (sent svc ≫= command_txs = (sent (task p) ≫= command_txs) ++ [length (flushes p)]) as Etx.
    { rewrite Es. cbn [sent]. by rewrite bind_app, bind_singleton. }
    split; cbn [task flushes]; rewrite ?Etx.
    + eapply rtc_r; [done|]. by eapply step_send.
    + rewrite Es. cbn [sent]. apply Forall_app. split; [done|]. by repeat constructor.
    + apply NoDup_app. split_and!; [done| |by apply NoDup_singleton].
      intros tx Hin ->%list_elem_of_singleton. rewrite Forall_forall in Hf. specialize (Hf _ Hin). lia.
    + rewrite length_app. apply Forall_app. split; [|repeat constructor; simpl; lia].
      eapply Forall_impl; [done|]. simpl. lia.
    + intros i r o Ho. rewrite Es. apply lookup_app_Some in Ho as [Ho|[_ Ho]]; [apply (Hr i r o Ho)|].
      by apply list_lookup_singleton_Some in Ho as [_ ?].
    + intros i o Ho. apply lookup_app_Some in Ho as [Ho|[_ Ho]]; [destruct (Hd i o Ho); congruence|].
      by apply list_lookup_singleton_Some in Ho as [_ ?].
  - assert (stopped (task p) = true) as Hst.
    { unfold flush_send, send in E. by destruct (stopped (task p)). }
    split; cbn [task flushes]; try done.
    + rewrite length_app. eapply Forall_impl; [done|]. simpl. lia.
    + intros i r o Ho. apply lookup_app_Some in Ho as [Ho|[_ Ho]]; [by apply Hr|].
      by apply list_lookup_singleton_Some in Ho as [_ ?].
    + intros i o Ho. apply lookup_app_Some in Ho as [Ho|[Hle Ho]]; [by apply Hd|].
      apply list_lookup_singleton_Some in Ho as [Hi0 [= <-]]. split_and!; [done| |done].
      intros Hin. rewrite Forall_forall in Hlt. specialize (Hlt _ Hin). lia.
Qed.

Lemma end_flush_inv p i answer w :
  metrics_inv p → flushes p !! i = Some Waits → flush_wait (task p) i = Some answer →
  metrics_inv (end_flush prefix strategy p i answer w).
Proof.
  intros [Ht Hi Hn Hf Hr Hd] Hw Ha. pose proof (lookup_lt_Some _ _ _ Hw) as Hlen.
  split; cbn [task flushes end_flush]; rewrite ?length_insert; try done.
  - intros j r o. destruct (decide (i = j)) as [<-|Hne].
    + rewrite list_lookup_insert_eq by done. intros [= Hr' <-]. destruct answer as [r'|]; [|done].
      injection Hr' as ->. split; [by apply flush_wait_ok|by exists w].
    + rewrite list_lookup_insert_ne by done. apply Hr.
  - intros j o. destruct (decide (i = j)) as [<-|Hne].
    + rewrite list_lookup_insert_eq by done. intros [= Hr' <-]. destruct answer as [r'|[]]; [done|].
      by destruct (flush_wait_err _ _ Ha).
    + rewrite list_lookup_insert_ne by done. apply Hd.
Qed.

Lemma metrics_step_inv p p' : metrics_inv p → step p p' → metrics_inv p'.
Proof.
  intros Hp Hstep. destruct Hstep as [q clocks ns buf|q now clock|q t|q svc Hr|q|q i answer w Hw Ha|q svc Hs].
  - unfold on_packet. destruct (process_packet _ _ _) as [ms|] eqn:E; [|done].
    apply insert_batch_inv; [done|by eapply packet_ids].
  - unfold on_instance_tick. destruct (instance_collector q); [|done].
    apply insert_batch_inv; [done|by repeat constructor].
  - unfold on_cpu_tick. destruct (cpu_collector q) as [c|]; [|done].
    pose proof (collected_ids c t) as Hids. destruct (collect_and_submit c t) as [c' ms].
    assert (metrics_inv {| task := task q; instance_collector := instance_collector q;
                           cpu_collector := Some c'; flushes := flushes q |}) by (by destruct Hp).
    destruct ms; [done|]. by apply insert_batch_inv.
  - by apply task_step_inv.
  - by apply spawn_flush_inv.
  - by apply end_flush_inv.
  - by apply (send_metrics_inv q Shutdown svc).
Qed.

Lemma reach_metrics_inv inst cpu p : rtc step (start a0 inst cpu) p → metrics_inv p.
Proof.
  intros Hr. remember (start a0 inst cpu) as p0 eqn:E.
  assert (metrics_inv p0) as Hi by (subst; apply start_metrics_inv).
  clear E. induction Hr as [|x y z Hxy _ IH]; [done|]. apply IH. by eapply metrics_step_inv.
Qed.

(** C1: From a packet or a collector to the flush that sends it, under every interleaving of
    the server, the collectors, the task and the flushes, of which several may overlap:
    the metrics accepted are cut, in order, into what each answered flush sends, what the
    table holds and what is queued; the response of a flush holds the contexts of its own
    cut, each exactly once, in batches within the limits; and each response goes to one
    flush, which ships it, the others getting theirs. *)
Theorem metrics_end_to_end inst cpu p :
  rtc step (start a0 inst cpu) p →
  (∃ segs current rest,
     sent (task p) ≫= command_metrics = concat segs ++ current ++ rest ∧
     (stopped (task p) = false → rest = queue (task p) ≫= command_metrics) ∧
     agg_map (state (task p)) = contexts cap current ∧
     Forall2 (λ x seg, holds tags x.2 (contexts cap seg)) (flushed (task p)) segs) ∧
  NoDup (flushed (task p)).*1 ∧
  (∀ tx r, (tx, r) ∈ flushed (task p) →
     flushes p !! tx = Some Waits ∨
     ∃ w, flushes p !! tx = Some (Returned (Some r) (flush_rest prefix strategy (Ok r) w))) ∧
  (∀ i r o, flushes p !! i = Some (Returned (Some r) o) → (i, r) ∈ flushed (task p)).
Proof.
  intros Hreach. pose proof (reach_metrics_inv _ _ _ Hreach) as Hp.
  destruct (flushed_facts p Hp) as [Hnd Hlt]. pose proof Hp as [Ht Hi _ _ Hr Hd]. split_and!.
  - destruct (service_represents tags cap a0 _ Hcap Hnew Ht Hi)
      as (d & rest & ms & rs & Hs & Hrun & Hrep & Ha & Hq & _).
    destruct (spec_run_segments cap d [] ms rs Hrun) as (segs & Hc & Hf). simpl in Hc.
    exists segs, ms, (rest ≫= command_metrics). split_and!.
    + by rewrite Hs, bind_app, Hc, <- app_assoc.
    + intros Hst. by rewrite (Hq Hst).
    + apply Hrep.
    + by eapply answers_flushed_segments.
  - done.
  - intros tx r Hin.
    assert (tx ∈ (flushed (task p)).*1) as Htx by (by apply (list_elem_of_fmap_2 fst _ (tx, r))).
    pose proof (proj1 (Forall_forall _ _) Hlt _ Htx) as Hl.
    destruct (lookup_lt_is_Some_2 _ _ Hl) as [[|[r'|] o] Hpc]; [by left| |by destruct (Hd _ _ Hpc) as (_ & ? & _)].
    right. destruct (Hr _ _ _ Hpc) as (Hin' & w & ->). exists w.
    by rewrite Hpc, (NoDup_fst_eq _ _ _ _ Hnd Hin Hin').
  - intros i r o Hpc. by apply (Hr i r o).
Qed.
End PipelineFacts.

(** * Witnesses: two packets, two flushes that overlap; the second returns first. *)
Module MetricsPipelineExamples.
Import AggregatorExamples.
#[local] Existing Instances Concrete.ustr_ord Concrete.hasher Concrete.ddsketch
  table table_laws encoders encoder_laws AppServicesModel.app_services.

(** The shipping tasks of a network that answers 503, with the key resolved. *)
Definition down (_ : nat) (_ : HttpRequest) : result Z (option Z) := Ok 503.
Definition world1 : World :=
  {| resolved_key := Some "key";
     tasks := shipping_tasks (λ _, Ok "[]") (λ _, Ok "") down down (λ _, true) (λ _, None) |}.

#[local] Abbreviation run := (rtc (step "https://api.datadoghq.com" (Immediate 2))).

Definition handled (p : Pipeline) : Pipeline := with_task p (serving handle (task p)).
Lemma handled_run p : run p (handled p).
Proof.
  unfold handled, serving. destruct (recv handle (task p)) as [svc|] eqn:E; simpl.
  - apply rtc_once. by apply task_step.
  - destruct p. apply rtc_refl.
Qed.

(** The flush [i] ends, if it has its answer. *)
Definition ended (p : Pipeline) (i : nat) : Pipeline :=
  match flushes p !! i, flush_wait (task p) i with
  | Some Waits, Some answer => end_flush "https://api.datadoghq.com" (Immediate 2) p i answer world1
  | _, _ => p
  end.
Lemma ended_run p i : run p (ended p i).
Proof.
  unfold ended. destruct (flushes p !! i) as [[|]|] eqn:Ew; try apply rtc_refl.
  destruct (flush_wait (task p) i) eqn:Ea; [|apply rtc_refl]. apply rtc_once. by apply flush_ends.
Qed.

Definition packet1 : list ascii := bytes_of "hits:1|c".
Definition packet2 : list ascii := bytes_of "hits:2|c".
Definition p0 : Pipeline := start agg0 None None.
Definition p1 : Pipeline := spawn_flush (on_packet (spawn_flush (on_packet p0 (100, 100) None packet1)) (100, 100) None packet2).
Definition p2 : Pipeline := ended (handled (handled (handled (handled p1)))) 1.

Lemma p2_reachable : run p0 p2.
Proof.
  unfold p2. etrans; [|apply ended_run]. do 4 (etrans; [|apply handled_run]). unfold p1.
  etrans; [|apply rtc_once, flush_tick]. etrans; [|apply rtc_once, packet].
  etrans; [|apply rtc_once, flush_tick]. apply rtc_once, packet.
Qed.

(** The points of each response; the first flush still waits, the second has its batch back. *)
Definition shipped_points (p : Pipeline) : list (nat * list (string * Z)) :=
  (λ x, (x.1, (λ m, (ship_metric m, point_timestamp (ship_point m))) <$> concat (series x.2))) <$> flushed (task p).
Example overlapping_flushes :
  shipped_points p2 = [(0%nat, [("hits", 100)]); (1%nat, [("hits", 100)])] ∧
  match flushes p2 with [Waits; Returned (Some _) (Some ([_], []))] => true | _ => false end = true.
Proof. vm_compute. split; reflexivity. Qed.

Lemma metrics_end_to_end_witness :
  NoDup (flushed (task p2)).*1 ∧
  ∃ segs current rest, sent (task p2) ≫= command_metrics = concat segs ++ current ++ rest ∧
    length segs = 2%nat.
Proof.
  destruct (metrics_end_to_end "https://api.datadoghq.com" (Immediate 2) EMPTY_TAGS 10 agg0
    ltac:(lia) agg0_new None None p2 p2_reachable)
    as ((segs & current & rest & Hc & _ & _ & Hf) & Hnd & _).
  split; [exact Hnd|]. exists segs, current, rest. split; [exact Hc|].
  apply Forall2_length in Hf. rewrite <- Hf. vm_compute. reflexivity.
Defined.
End MetricsPipelineExamples.
