(* ===== verification/Metadata.v ===== *)
(** The metadata reporter.

    [src/crates/metadata/src/]: the identity of the workload ([platform/azure.rs],
    [platform/gcp.rs] with its metadata server), the payload of a report ([payload.rs])
    and the reporter with its retries ([reporter.rs]).  The environment, the HTTP
    answers and the URL parser are parameters. *)
From Stdlib Require Import Ascii.
From S2P Require Import Prelude RStr Serde AppServices TraceConfig.

(** [ProcessEnv]: a variable trimmed, [None] when nothing is left. *)
Definition get_var (var : string → option string) (name : string) : option string :=
  var name ≫= λ value, let value := trim value in if is_empty value then None else Some value.

(** [filter(|value| !value.is_empty())] *)
Definition non_empty (o : option string) : option string :=
  o ≫= λ value, if is_empty value then None else Some value.

Record PlatformData := {
  workload_type : string;
  resource_id : string;
  resource_name : string;
  metadata : gmap string Value;
}.

(** * Azure: [platform/azure.rs] *)

Section Azure.
Context `{AppServices}.

Definition known_value (value : string) : option string :=
  if bool_decide (value ≠ UNKNOWN_VALUE) && negb (is_empty value) then Some value else None.

(** [trim_start_matches('~')] *)
Definition trim_start_char (c : ascii) (s : string) : string := str_of (drop_char c (bytes_of s)).

Definition runtime_version (value : string) : option string :=
  non_empty (trim_start_char "~" <$> known_value value).

Definition runtime_with_version (runtime version : string) : option string :=
  known_value runtime ≫= λ runtime,
  Some (match runtime_version version with Some version => runtime +:+ version | None => runtime end).

Definition insert_known (m : gmap string Value) (kv : string * string) : gmap string Value :=
  match known_value kv.2 with Some value => <[kv.1 := VString value]> m | None => m end.

Definition azure_collect_from (env : string → option string) : option PlatformData :=
  new_function env ≫= λ azure,
  known_value (get_site_name azure) ≫= λ resource_name,
  known_value (get_resource_id azure) ≫= λ resource_id,
  let metadata :=
    fold_left insert_known
      [("region", get_region azure); ("azure_subscription_id", get_subscription_id azure);
       ("azure_resource_group", get_resource_group azure); ("os", get_operating_system azure)] ∅ in
  let metadata :=
    match runtime_with_version (get_runtime azure) (get_runtime_version azure) with
    | Some runtime => <["runtime" := VString runtime]> metadata
    | None => metadata
    end in
  Some {| workload_type := "azure_function"; resource_id := resource_id;
          resource_name := resource_name; metadata := metadata |}.
End Azure.

(** * Google Cloud: [platform/gcp.rs] *)

Definition METADATA_BASE_URL : string := "http://metadata.google.internal/computeMetadata/v1".
Definition MAX_METADATA_RESPONSE_BYTES : Z := 1024.

Record Identity := { id_name : string; id_region : option string; id_project : option string }.

Fixpoint first_env (env : string → option string) (names : list string) : option string :=
  match names with
  | [] => None
  | name :: names =>
      match non_empty (env name) with Some value => Some value | None => first_env env names end
  end.

Definition identity_from_env (env : string → option string) : option Identity :=
  first_env env ["FUNCTION_NAME"; "K_SERVICE"] ≫= λ name,
  Some {| id_name := name;
          id_region := first_env env ["FUNCTION_REGION"; "GOOGLE_CLOUD_REGION"; "REGION_NAME"];
          id_project := first_env env ["GCP_PROJECT"; "GCLOUD_PROJECT"; "GOOGLE_CLOUD_PROJECT"] |}.

Fixpoint detect_in (env : string → option string) (l : list (string * string)) : option string :=
  match l with
  | [] => None
  | (runtime, variable) :: l =>
      match first_env env [variable] with Some version => Some (runtime +:+ version) | None => detect_in env l end
  end.
Definition detect_runtime (env : string → option string) : option string :=
  detect_in env [("node", "NODE_VERSION"); ("python", "PYTHON_VERSION"); ("java", "JAVA_VERSION");
                 ("go", "GO_VERSION")].

(** An answer of the metadata server; a chunk is its bytes or a transport error. *)
Record Response := {
  resp_status : Z;
  resp_flavor : option string;
  resp_content_length : option Z;
  resp_chunks : list (result (list ascii) string);
}.

Definition is_success (status : Z) : bool := (200 <=? status) && (status <? 300).

(** The loop over [response.chunk()]. *)
Fixpoint read_body (body : list ascii) (chunks : list (result (list ascii) string)) : option (list ascii) :=
  match chunks with
  | [] => Some body
  | Ok chunk :: chunks =>
      if zlen body + zlen chunk <=? MAX_METADATA_RESPONSE_BYTES then read_body (body ++ chunk) chunks else None
  | Err _ :: _ => None
  end.

(** [get] answers a GET of a URL. *)
Definition fetch_metadata_value (get : string → result Response string) (base_url path : string)
    (parse : string → option string) : option string :=
  match get (trim_end_char "/" base_url +:+ "/" +:+ path) with
  | Err _ => None
  | Ok response =>
      if negb (is_success (resp_status response)) then None
      else if bool_decide (resp_flavor response ≠ Some "Google") then None
      else if match resp_content_length response with
              | Some length => MAX_METADATA_RESPONSE_BYTES <? length | None => false end then None
      else (read_body [] (resp_chunks response) ≫= from_utf8) ≫= λ body, parse (trim body)
  end.

Definition parse_region (body : string) : option string := non_empty (last (split "/" body)).
Definition parse_project (body : string) : option string := if is_empty body then None else Some body.

Definition fetch_region (get : string → result Response string) (base_url : string) : option string :=
  fetch_metadata_value get base_url "instance/region" parse_region.
Definition fetch_project (get : string → result Response string) (base_url : string) : option string :=
  fetch_metadata_value get base_url "project/project-id" parse_project.

Definition build_platform_data (identity : Identity) (env : string → option string) : option PlatformData :=
  id_region identity ≫= λ region,
  id_project identity ≫= λ project,
  let metadata : gmap string Value := <["gcp_project_id" := VString project]> {["region" := VString region]} in
  let metadata :=
    match detect_runtime env with
    | Some runtime => <["runtime" := VString runtime]> metadata
    | None => metadata
    end in
  Some {| workload_type := "cloud_function";
          resource_id := "//cloudfunctions.googleapis.com/projects/" +:+ project +:+ "/locations/"
                           +:+ region +:+ "/functions/" +:+ id_name identity;
          resource_name := id_name identity; metadata := metadata |}.

(** [client] tells whether the HTTP client could be built. *)
Definition gcp_collect_from (env : string → option string) (client : bool)
    (get : string → result Response string) (base_url : string) : option PlatformData :=
  identity_from_env env ≫= λ identity,
  match id_region identity, id_project identity with
  | Some _, Some _ => build_platform_data identity env
  | region, project =>
      if negb client then None else
      let region := match region with None => fetch_region get base_url | r => r end in
      let project := match project with None => fetch_project get base_url | p => p end in
      build_platform_data {| id_name := id_name identity; id_region := region; id_project := project |} env
  end.

(** [platform::collect] *)
Definition collect `{AppServices} (env : string → option string) (client : bool)
    (get : string → result Response string) (env_type : EnvironmentType) : option PlatformData :=
  match env_type with
  | AzureFunction => azure_collect_from env
  | CloudFunction => gcp_collect_from env client get METADATA_BASE_URL
  | LambdaFunction | AzureSpringApp => None
  end.

(** * The payload: [payload.rs] *)

(** [as i64] of a [u128]. *)
Definition i64_of_u128 (z : Z) : Z := (z + 2 ^ 63) mod 2 ^ 64 - 2 ^ 63.

Definition insert_env (env : string → option string) (m : gmap string Value) (keys : string * string) :
    gmap string Value :=
  match non_empty (env keys.1) with Some value => <[keys.2 := VString value]> m | None => m end.

Definition insert_opt (key : string) (value : option string) (m : gmap string Value) : gmap string Value :=
  match value with Some value => <[key := VString value]> m | None => m end.

Definition agent_metadata (report_reason : string) (platform : PlatformData) (dd_site : string)
    (env : string → option string) (embedded_version : option string) : gmap string Value :=
  let compat_runtime_version := non_empty (env "DD_SERVERLESS_COMPAT_VERSION") in
  let compat_binary_version := non_empty (trim <$> embedded_version) in
  let m := metadata platform in
  let m := <["flavor" := VString "serverless-compat"]> m in
  let m := <["workload_type" := VString (workload_type platform)]> m in
  let m := <["report_reason" := VString report_reason]> m in
  let m := <["resource_id" := VString (resource_id platform)]> m in
  let m := <["resource_name" := VString (resource_name platform)]> m in
  let m := insert_opt "serverless_compat_runtime_version" compat_runtime_version m in
  let m := insert_opt "serverless_compat_binary_version" compat_binary_version m in
  let m := <["dd_site" := VString dd_site]> m in
  fold_left (insert_env env) [("DD_ENV", "dd_env"); ("DD_SERVICE", "dd_service"); ("DD_VERSION", "dd_version")] m.

(** The object serialized by [build_with_env]; [nanos] is the wall clock since the
    epoch, [None] before it. *)
Definition build_with_env (process_id report_reason : string) (platform : PlatformData) (dd_site : string)
    (env : string → option string) (embedded_version : option string) (nanos : option Z) : Value :=
  let timestamp := match nanos with Some n => i64_of_u128 n | None => 0 end in
  VObject [("uuid", VString process_id);
           ("timestamp", VNumber (if 0 <=? timestamp then PosInt timestamp else NegInt timestamp));
           ("agent_metadata",
            VObject (map_to_list (agent_metadata report_reason platform dd_site env embedded_version)))].

(** * The reporter: [reporter.rs] *)

Definition METADATA_INTERVAL_SECS : Z := 30 * 60.
Definition MAX_ATTEMPTS : Z := 3.

Definition is_metadata_enabled (env : string → option string) : bool :=
  match env "DD_SERVERLESS_COMPAT_METADATA_ENABLED" with
  | Some value => bool_decide (to_lowercase value = "true")
  | None => false
  end.

Definition is_supported (env_type : EnvironmentType) : bool :=
  match env_type with AzureFunction | CloudFunction => true | _ => false end.

Definition should_retry_status (status : Z) : bool :=
  (status =? 429) || ((500 <=? status) && (status <=? 599)).

Definition retry_backoff (attempt : Z) : Z := 2 ^ attempt.

Definition is_site_byte (c : ascii) : bool :=
  is_ascii_alphanumeric c || bool_decide (c = "."%char) || bool_decide (c = "_"%char)
  || bool_decide (c = "-"%char) || bool_decide (c = ":"%char).

(** [parse_url] is [reqwest::Url::parse]. *)
Definition build_intake_url {Url} (parse_url : string → result Url string) (dd_site : string) :
    result Url string :=
  if is_empty dd_site || negb (forallb is_site_byte (bytes_of dd_site))
  then Err ("invalid site: " +:+ dd_site)
  else parse_url ("https://api." +:+ dd_site +:+ "/api/v1/metadata").

(** What [send_report] does, in order: POSTs and pauses in seconds; and how it ends. *)
Inductive ReportAction := PostReport | Pause (secs : Z).
Inductive ReportFate := Reported (status : Z) | Rejected (status : Z) | Unreachable | LoopEnded.

(** [for attempt in 0..MAX_ATTEMPTS]; [net attempt] is the answer to that attempt. *)
Fixpoint send_report_loop (net : Z → result Z string) (turns : nat) (attempt : Z) :
    list ReportAction * ReportFate :=
  match turns with
  | O => ([], LoopEnded)
  | S turns =>
      let retry :=
        let '(actions, fate) := send_report_loop net turns (attempt + 1) in
        (PostReport :: Pause (retry_backoff attempt) :: actions, fate) in
      match net attempt with
      | Ok status =>
          if status <? 300 then ([PostReport], Reported status)
          else if should_retry_status status && (attempt + 1 <? MAX_ATTEMPTS) then retry
          else ([PostReport], Rejected status)
      | Err _ => if attempt + 1 <? MAX_ATTEMPTS then retry else ([PostReport], Unreachable)
      end
  end.
Definition send_report (net : Z → result Z string) : list ReportAction * ReportFate :=
  send_report_loop net (Z.to_nat MAX_ATTEMPTS) 0.

(** [run_metadata_reporter] up to its loop: the reporter, or why there is none. *)
Inductive NoReporter := Disabled | NoApiKey | InvalidSite (e : string) | NoIdentity | NoClient (e : string).
Record Reporter {Url} := {
  rep_api_key : string;
  rep_dd_site : string;
  rep_intake_url : Url;
  rep_platform : PlatformData;
}.
Arguments Reporter Url : clear implicits.

Definition start_reporter `{AppServices} {Url} (parse_url : string → result Url string)
    (var : string → option string) (client : bool) (get : string → result Response string)
    (build_client : option string → result unit string)
    (api_key : option string) (dd_site : string) (https_proxy : option string)
    (env_type : EnvironmentType) : result (Reporter Url) NoReporter :=
  let env := get_var var in
  if negb (is_metadata_enabled env) || negb (is_supported env_type) then Err Disabled else
  let? api_key := ok_or api_key NoApiKey in
  match build_intake_url parse_url dd_site with
  | Err error => Err (InvalidSite error)
  | Ok intake_url =>
      let? platform := ok_or (collect env client get env_type) NoIdentity in
      match build_client https_proxy with
      | Err error => Err (NoClient error)
      | Ok _ => Ok {| rep_api_key := api_key; rep_dd_site := dd_site; rep_intake_url := intake_url;
                      rep_platform := platform |}
      end
  end.

(** The reason of the [n]th report. *)
Definition report_reason (n : nat) : string := match n with O => "startup" | S _ => "periodic" end.

(** * Facts *)

(** ** The metadata server *)

Lemma read_body_spec body chunks b :
  read_body body chunks = Some b ↔
    ∃ l, chunks = map Ok l ∧ b = body ++ concat l ∧
      (l = [] ∨ zlen b ≤ MAX_METADATA_RESPONSE_BYTES).
Proof.
  revert body. induction chunks as [|[chunk|e] chunks IH]; intros body; cbn [read_body].
  - split; [intros [= <-]; exists []; rewrite app_nil_r; auto|].
    intros ([|? l] & Hl & -> & _); [by rewrite app_nil_r|done].
  - destruct (Z.leb_spec (zlen body + zlen chunk) MAX_METADATA_RESPONSE_BYTES) as [Hle|Hgt].
    + rewrite IH. split.
      * intros (l & -> & -> & Hb). exists (chunk :: l). cbn. rewrite app_assoc. split_and!; [done..|].
        right. destruct Hb as [->|?]; [|done]. cbn. rewrite app_nil_r, length_app. lia.
      * intros ([|c l] & [= -> ->] & -> & Hb). exists l. cbn in *. rewrite app_assoc in *.
        split_and!; [done..|]. destruct Hb; [done|auto].
    + split; [done|]. intros ([|c l] & [= -> ->] & -> & [|Hb]); try done.
      cbn in Hb. rewrite !length_app in Hb. lia.
  - split; [done|]. by intros ([|? ?] & ? & _).
Qed.

(** What may be taken from an answer: the concatenation of its chunks, when it comes
    from the metadata server, succeeded and is small. *)
Definition trusted_body (response : Response) (body : string) : Prop :=
  is_success (resp_status response) = true ∧ resp_flavor response = Some "Google" ∧
  (∀ n, resp_content_length response = Some n → n ≤ MAX_METADATA_RESPONSE_BYTES) ∧
  ∃ l, resp_chunks response = map Ok l ∧ from_utf8 (concat l) = Some body ∧
    zlen (concat l) ≤ MAX_METADATA_RESPONSE_BYTES.

(** A value is taken from the metadata server exactly when its answer can be trusted
    and parses. *)
Theorem fetch_metadata_value_spec get base_url path parse v :
  fetch_metadata_value get base_url path parse = Some v ↔
    ∃ response body, get (trim_end_char "/" base_url +:+ "/" +:+ path) = Ok response ∧
      trusted_body response body ∧ parse (trim body) = Some v.
Proof.
  unfold fetch_metadata_value, trusted_body. destruct (get _) as [r|e]; [|naive_solver].
  destruct (is_success (resp_status r)) eqn:Es; cbn [negb].
  2: { split; [done|]. intros (r' & b & [= <-] & (Hs & _) & _). congruence. }
  destruct (decide (resp_flavor r = Some "Google")) as [Hf|Hf].
  2: { rewrite bool_decide_true by done. split; [done|]. by intros (r' & b & [= <-] & (_ & Hg & _) & _). }
  rewrite bool_decide_false by (intros Hn; by apply Hn).
  assert (∀ b, (∃ l, resp_chunks r = map Ok l ∧ from_utf8 (concat l) = Some b ∧
      zlen (concat l) ≤ MAX_METADATA_RESPONSE_BYTES) ↔ read_body [] (resp_chunks r) ≫= from_utf8 = Some b) as Hb.
  { intros b. rewrite bind_Some. setoid_rewrite read_body_spec. cbn [app]. split.
    - intros (l & Hl & Hu & Hn). exists (concat l). split; [|done]. exists l. auto.
    - intros (x & (l & Hl & -> & Hn) & Hu). exists l. split_and!; [done..|].
      destruct Hn as [->|]; [done|done]. }
  assert (match resp_content_length r with Some n => MAX_METADATA_RESPONSE_BYTES <? n | None => false end = false
    ↔ ∀ n, resp_content_length r = Some n → n ≤ MAX_METADATA_RESPONSE_BYTES) as Hl.
  { destruct (resp_content_length r) as [n|]; [|done]. rewrite Z.ltb_ge. naive_solver. }
  destruct (match resp_content_length r with Some n => _ | None => false end).
  - split; [done|]. intros (r' & b & [= <-] & (_ & _ & Hn & _) & _). by apply Hl in Hn.
  - rewrite bind_Some. setoid_rewrite <- Hb. split.
    + intros (b & Hx & Hp). exists r, b. pose proof (proj1 Hl eq_refl). by split_and!.
    + intros (r' & b & [= <-] & (_ & _ & _ & Hx) & Hp). eauto.
Qed.

(** ** The identity of a Cloud Function *)

(** A part of the identity: from the environment, or else from the metadata server. *)
Definition part_of (client : bool) (from_env fetched : option string) (x : string) : Prop :=
  from_env = Some x ∨ from_env = None ∧ client = true ∧ fetched = Some x.

Theorem gcp_collect_spec env client get base_url p :
  gcp_collect_from env client get base_url = Some p ↔
    ∃ name region project,
      first_env env ["FUNCTION_NAME"; "K_SERVICE"] = Some name ∧
      part_of client (first_env env ["FUNCTION_REGION"; "GOOGLE_CLOUD_REGION"; "REGION_NAME"])
        (fetch_region get base_url) region ∧
      part_of client (first_env env ["GCP_PROJECT"; "GCLOUD_PROJECT"; "GOOGLE_CLOUD_PROJECT"])
        (fetch_project get base_url) project ∧
      build_platform_data {| id_name := name; id_region := Some region; id_project := Some project |} env = Some p.
Proof.
  unfold gcp_collect_from, identity_from_env, part_of.
  destruct (first_env env ["FUNCTION_NAME"; "K_SERVICE"]) as [name|]; cbn [mbind option_bind]; [|naive_solver].
  cbn [id_region id_project id_name].
  destruct (first_env env ["FUNCTION_REGION"; _; _]) as [r|];
    destruct (first_env env ["GCP_PROJECT"; _; _]) as [q|].
  - split; [naive_solver|]. intros (? & ? & ? & [= <-] & [[= <-]|[? _]] & [[= <-]|[? _]] & ?); done.
  - destruct client; cbn [negb]; [|split; [done|]; by intros (? & ? & ? & _ & _ & [|(_ & ? & _)] & _)].
    destruct (fetch_project get base_url) as [q|].
    + split; [naive_solver|]. intros (? & ? & ? & [= <-] & [[= <-]|[? _]] & [?|(_ & _ & [= <-])] & ?); done.
    + split; [done|]. by intros (? & ? & ? & _ & _ & [|(_ & _ & ?)] & _).
  - destruct client; cbn [negb]; [|split; [done|]; by intros (? & ? & ? & _ & [|(_ & ? & _)] & _)].
    destruct (fetch_region get base_url) as [r|].
    + split; [naive_solver|]. intros (? & ? & ? & [= <-] & [?|(_ & _ & [= <-])] & [[= <-]|[? _]] & ?); done.
    + split; [done|]. by intros (? & ? & ? & _ & [|(_ & _ & ?)] & _).
  - destruct client; cbn [negb]; [|split; [done|]; by intros (? & ? & ? & _ & [|(_ & ? & _)] & _)].
    destruct (fetch_region get base_url) as [r|].
    2: { split; [done|]. by intros (? & ? & ? & _ & [|(_ & _ & ?)] & _). }
    destruct (fetch_project get base_url) as [q|].
    + split; [naive_solver|].
      intros (? & ? & ? & [= <-] & [?|(_ & _ & [= <-])] & [?|(_ & _ & [= <-])] & ?); done.
    + split; [done|]. by intros (? & ? & ? & _ & _ & [|(_ & _ & ?)] & _).
Qed.

(** ** The payload *)

(** The fields a report sets itself, over those of the platform. *)
Definition own_fields (report_reason : string) (platform : PlatformData) (dd_site : string)
    (env : string → option string) (embedded_version : option string) (key : string) : option string :=
  if String.eqb key "flavor" then Some "serverless-compat"
  else if String.eqb key "workload_type" then Some (workload_type platform)
  else if String.eqb key "report_reason" then Some report_reason
  else if String.eqb key "resource_id" then Some (resource_id platform)
  else if String.eqb key "resource_name" then Some (resource_name platform)
  else if String.eqb key "dd_site" then Some dd_site
  else if String.eqb key "serverless_compat_runtime_version" then non_empty (env "DD_SERVERLESS_COMPAT_VERSION")
  else if String.eqb key "serverless_compat_binary_version" then non_empty (trim <$> embedded_version)
  else if String.eqb key "dd_env" then non_empty (env "DD_ENV")
  else if String.eqb key "dd_service" then non_empty (env "DD_SERVICE")
  else if String.eqb key "dd_version" then non_empty (env "DD_VERSION")
  else None.

Lemma insert_opt_lookup key value m k :
  insert_opt key value m !! k =
    if String.eqb k key then match value with Some v => Some (VString v) | None => m !! k end else m !! k.
Proof.
  unfold insert_opt. destruct value as [v|]; destruct (String.eqb_spec k key) as [->|]; try done.
  - by rewrite lookup_insert_eq.
  - by rewrite lookup_insert_ne.
Qed.
Lemma insert_str_lookup key v (m : gmap string Value) k :
  <[key := VString v]> m !! k = if String.eqb k key then Some (VString v) else m !! k.
Proof. exact (insert_opt_lookup key (Some v) m k). Qed.

Lemma insert_env_lookup env m keys k :
  insert_env env m keys !! k =
    if String.eqb k keys.2
    then match non_empty (env keys.1) with Some v => Some (VString v) | None => m !! k end else m !! k.
Proof. exact (insert_opt_lookup keys.2 (non_empty (env keys.1)) m k). Qed.

Theorem agent_metadata_spec report_reason platform dd_site env embedded_version k :
  agent_metadata report_reason platform dd_site env embedded_version !! k =
    match own_fields report_reason platform dd_site env embedded_version k with
    | Some v => Some (VString v)
    | None => metadata platform !! k
    end.
Proof.
  unfold agent_metadata, own_fields. cbn [fold_left]. rewrite !insert_env_lookup. cbn [fst snd].
  repeat first [rewrite insert_opt_lookup | rewrite insert_str_lookup].
  repeat match goal with |- context [String.eqb k ?key] => destruct (String.eqb_spec k key) as [->|] end;
    cbn [String.eqb Ascii.eqb Bool.eqb andb]; try done.
Qed.

(** ** Sending *)

Definition transient (answer : result Z string) : bool :=
  match answer with Ok status => negb (status <? 300) && should_retry_status status | Err _ => true end.
Definition verdict (answer : result Z string) : ReportFate :=
  match answer with
  | Ok status => if status <? 300 then Reported status else Rejected status
  | Err _ => Unreachable
  end.
(** [n] attempts, with the pauses between them. *)
Definition attempts (n : nat) : list ReportAction :=
  flat_map (λ i, [PostReport; Pause (2 ^ Z.of_nat i)]) (seq 0 (n - 1)) ++ [PostReport].

Lemma send_report_step net turns attempt :
  send_report_loop net (S turns) attempt =
    if transient (net attempt) && (attempt + 1 <? MAX_ATTEMPTS)
    then (PostReport :: Pause (retry_backoff attempt) :: (send_report_loop net turns (attempt + 1)).1,
          (send_report_loop net turns (attempt + 1)).2)
    else ([PostReport], verdict (net attempt)).
Proof.
  cbn [send_report_loop]. destruct (send_report_loop net turns (attempt + 1)) as [actions fate].
  unfold transient, verdict. destruct (net attempt) as [s|e]; [|by destruct (attempt + 1 <? MAX_ATTEMPTS)].
  destruct (s <? 300); [done|]. by destruct (should_retry_status s), (attempt + 1 <? MAX_ATTEMPTS).
Qed.

(** A report takes [n] attempts, at most three: all but the last failed transiently,
    the pauses double, the last was not transient unless it is the third, and it decides. *)
Theorem send_report_spec net :
  ∃ n, (1 ≤ n ≤ 3)%nat ∧
    send_report net = (attempts n, verdict (net (Z.of_nat n - 1))) ∧
    (∀ i, 0 ≤ i < Z.of_nat n - 1 → transient (net i) = true) ∧
    ((n < 3)%nat → transient (net (Z.of_nat n - 1)) = false).
Proof.
  unfold send_report. change (Z.to_nat MAX_ATTEMPTS) with 3%nat. rewrite !send_report_step.
  change (0 + 1 + 1 + 1) with 3. change (0 + 1 + 1) with 2. change (0 + 1) with 1.
  change (1 <? MAX_ATTEMPTS) with true. change (2 <? MAX_ATTEMPTS) with true.
  change (3 <? MAX_ATTEMPTS) with false. rewrite !andb_true_r, andb_false_r.
  destruct (transient (net 0)) eqn:E0; cbn [fst snd].
  2: { exists 1%nat. split_and!; [lia|lia|reflexivity|intros; lia|intros; exact E0]. }
  destruct (transient (net 1)) eqn:E1; cbn [fst snd].
  2: { exists 2%nat. split_and!; [lia|lia|reflexivity| |intros; exact E1]. intros i Hi. by replace i with 0 by lia. }
  exists 3%nat. split_and!; [lia|lia|reflexivity| |lia].
  intros i Hi. assert (i = 0 ∨ i = 1) as [-> | ->] by lia; done.
Qed.

(** ** Starting *)

Lemma intake_url_safe {Url} (parse_url : string → result Url string) dd_site u :
  build_intake_url parse_url dd_site = Ok u →
  dd_site ≠ "" ∧ Forall (λ c, is_site_byte c = true) (bytes_of dd_site) ∧
  parse_url ("https://api." +:+ dd_site +:+ "/api/v1/metadata") = Ok u.
Proof.
  unfold build_intake_url. destruct (is_empty dd_site) eqn:Ee; [done|].
  destruct (forallb is_site_byte (bytes_of dd_site)) eqn:Ef; cbn [orb negb]; [|done].
  intros Hu. split_and!; [by intros ->| |done].
  apply Forall_forall. intros c Hc. by apply (proj1 (forallb_elem _ _) Ef).
Qed.

Theorem start_reporter_spec `{AppServices} {Url} (parse_url : string → result Url string)
    var client get build_client api_key dd_site https_proxy env_type r :
  start_reporter parse_url var client get build_client api_key dd_site https_proxy env_type = Ok r →
  (∃ v, var "DD_SERVERLESS_COMPAT_METADATA_ENABLED" = Some v ∧ to_lowercase (trim v) = "true") ∧
  (env_type = AzureFunction ∨ env_type = CloudFunction) ∧
  api_key = Some (rep_api_key r) ∧
  (dd_site ≠ "" ∧ Forall (λ c, is_site_byte c = true) (bytes_of dd_site) ∧
   parse_url ("https://api." +:+ dd_site +:+ "/api/v1/metadata") = Ok (rep_intake_url r)) ∧
  collect (get_var var) client get env_type = Some (rep_platform r) ∧
  is_ok (build_client https_proxy) = true.
Proof.
  unfold start_reporter.
  destruct (is_metadata_enabled (get_var var)) eqn:Een; cbn [negb orb]; [|done].
  destruct (is_supported env_type) eqn:Es; cbn [negb orb]; [|done].
  destruct api_key as [key|]; cbn [ok_or result_bind]; [|done].
  destruct (build_intake_url parse_url dd_site) as [u|] eqn:Eu; [|done]. apply intake_url_safe in Eu.
  destruct (collect (get_var var) client get env_type) as [p|]; cbn [ok_or result_bind]; [|done].
  destruct (build_client https_proxy) as [[]|]; [|done]. intros [= <-]. cbn.
  split_and!; try done; try apply Eu.
  - unfold is_metadata_enabled, get_var in Een. destruct (var _) as [v|]; cbn in Een; [|done].
    exists v. split; [done|]. destruct (is_empty (trim v)); [done|]. by apply bool_decide_eq_true in Een.
  - destruct env_type; auto; done.
Qed.

(** The clock fits until 2262. *)
Lemma i64_of_u128_small n : 0 ≤ n ≤ i64_max → i64_of_u128 n = n.
Proof. unfold i64_max, i64_of_u128. intros Hn. rewrite Z.mod_small; lia. Qed.

(** * Examples *)
Module MetadataExamples.
#[local] Existing Instances AppServicesModel.app_services.

Definition vars (l : list (string * string)) (k : string) : option string := find_key k l.
Definition function_vars : list (string * string) :=
  [("DD_SERVERLESS_COMPAT_METADATA_ENABLED", " True "); ("K_SERVICE", "fn"); ("FUNCTION_REGION", "us-central1");
   ("PYTHON_VERSION", "3.12"); ("DD_ENV", "  ")].

(** The metadata server completes the identity; a body of more than a kilobyte is refused. *)
Definition server (project : string) (url : string) : result Response string :=
  if String.eqb url "http://metadata.google.internal/computeMetadata/v1/project/project-id"
  then Ok {| resp_status := 200; resp_flavor := Some "Google"; resp_content_length := None;
             resp_chunks := [Ok (bytes_of project); Ok (bytes_of " ")] |}
  else Err "not found".

Example gcp_example :
  (resource_id <$> gcp_collect_from (get_var (vars function_vars)) true (server "proj") METADATA_BASE_URL) =
    Some "//cloudfunctions.googleapis.com/projects/proj/locations/us-central1/functions/fn" ∧
  gcp_collect_from (get_var (vars function_vars)) true
    (server (str_of (replicate 1024 "x"%char))) METADATA_BASE_URL = None.
Proof. vm_compute. done. Qed.

Example azure_runtime : runtime_with_version "dotnet" "~8.0" = Some "dotnet8.0" ∧ runtime_with_version "unknown" "1" = None.
Proof. vm_compute. done. Qed.

(** Two transient failures, then an answer. *)
Example send_example :
  send_report (λ attempt, if attempt =? 0 then Err "timeout" else if attempt =? 1 then Ok 503 else Ok 202)
    = ([PostReport; Pause 1; PostReport; Pause 2; PostReport], Reported 202).
Proof. vm_compute. reflexivity. Qed.

(** A site that would change the host is refused. *)
Example site_example : is_ok (build_intake_url (Ok (E := string)) "datadoghq.com@attacker.example") = false.
Proof. vm_compute. reflexivity. Qed.

Lemma start_reporter_spec_witness :
  ∃ r, start_reporter (Ok (E := string)) (vars function_vars) true (server "proj") (λ _, Ok tt)
         (Some "key") "datadoghq.com" None CloudFunction = Ok r ∧
       rep_api_key r = "key" ∧ rep_intake_url r = "https://api.datadoghq.com/api/v1/metadata".
Proof.
  eexists. split; [vm_compute; reflexivity|].
  match goal with |- rep_api_key ?r = _ ∧ _ =>
    destruct (start_reporter_spec (Ok (E := string)) (vars function_vars) true (server "proj") (λ _, Ok tt)
      (Some "key") "datadoghq.com" None CloudFunction r ltac:(vm_compute; reflexivity))
      as (_ & _ & Hk & (_ & _ & Hu) & _) end.
  split; [exact (f_equal (default "") (eq_sym Hk))|exact (eq_sym (result_eq_inv _ _ Hu))].
Defined.
End MetadataExamples.
