(* ===== verification/Logging.v ===== *)
(** Log filter of the agents: [datadog-serverless-logging/src/lib.rs].

    [EnvFilter] and [Directive] are types of [tracing_subscriber]; building a filter,
    parsing a directive and adding it to a filter are parameters. *)
From Stdlib Require Import Ascii.
From S2P Require Import Prelude RStr.

Definition LEVEL_BY_TARGET_ENV_VAR : string := "DD_LOG_LEVEL_BY_TARGET".

(** [matches!] of [parse_target_level]. *)
Definition level_names : list string := ["off"; "error"; "warn"; "info"; "debug"; "trace"].
Definition valid_level (level : string) : bool := bool_decide (to_lowercase level ∈ level_names).

Definition is_bracket (c : ascii) : bool :=
  bool_decide (c = "["%char) || bool_decide (c = "]"%char)
  || bool_decide (c = "{"%char) || bool_decide (c = "}"%char).
Definition valid_target (target : string) : bool :=
  negb (is_empty target) && negb (has_ws (bytes_of target) || existsb is_bracket (bytes_of target)).

Section Entry.
(** [str::parse::<Directive>().ok()] *)
Context {Directive : Type} (parse_directive : string → option Directive).

Definition parse_target_level (entry : string) : option Directive :=
  match split_once "="%char entry with
  | None => None
  | Some (target, level) =>
      let target := trim target in
      let level := trim level in
      if negb (valid_target target && valid_level level) then None
      else parse_directive (target +:+ "=" +:+ level)
  end.

End Entry.

Definition level_entries (levels_by_target : string) : list string :=
  filter (λ e, is_empty e = false) (map trim (split ","%char levels_by_target)).

Section Logging.
Context {EnvFilter Directive ParseError : Type}.
Context (try_new : string → result EnvFilter ParseError).
Context (add_directive : EnvFilter → Directive → EnvFilter).
Context (parse_directive : string → option Directive).

(** The loop of [build_env_filter]. *)
Fixpoint add_entries (env_filter : EnvFilter) (invalid_entries : list string) (entries : list string)
    : EnvFilter * list string :=
  match entries with
  | [] => (env_filter, invalid_entries)
  | entry :: entries =>
      match parse_target_level parse_directive entry with
      | Some directive => add_entries (add_directive env_filter directive) invalid_entries entries
      | None => add_entries env_filter (invalid_entries ++ [entry]) entries
      end
  end.

Definition build_env_filter (base levels_by_target : string) : result (EnvFilter * list string) ParseError :=
  let? env_filter := try_new base in
  Ok (add_entries env_filter [] (level_entries levels_by_target)).

End Logging.

(** * Facts *)

Section EntryFacts.
Context {Directive : Type} (parse_directive : string → option Directive).

Lemma valid_target_spec target :
  valid_target target = true ↔ word target ∧ Forall (λ c, is_bracket c = false) (bytes_of target).
Proof.
  unfold valid_target, word. rewrite andb_true_iff, !negb_true_iff, orb_false_iff, has_ws_free.
  assert (is_empty target = false ↔ target ≠ EmptyString) as -> by (by destruct target).
  assert (existsb is_bracket (bytes_of target) = false ↔ Forall (λ c, is_bracket c = false) (bytes_of target)) as ->.
  { induction (bytes_of target) as [|c l IH]; [done|]. cbn [existsb]. by rewrite Forall_cons, orb_false_iff, IH. }
  naive_solver.
Qed.

(** The entries that are accepted, and the directive they stand for. *)
Definition accepts (entry : string) (d : Directive) : Prop :=
  ∃ before after, entry = before +:+ "=" +:+ after ∧ contains_char "="%char before = false ∧
    word (trim before) ∧ Forall (λ c, is_bracket c = false) (bytes_of (trim before)) ∧
    to_lowercase (trim after) ∈ level_names ∧
    parse_directive (trim before +:+ "=" +:+ trim after) = Some d.

Lemma parse_target_level_accepts entry d : parse_target_level parse_directive entry = Some d ↔ accepts entry d.
Proof.
  unfold parse_target_level, accepts. split.
  - destruct (split_once "=" entry) as [[before after]|] eqn:E; [|done].
    apply split_once_some in E as [-> Hb]. cbv zeta.
    destruct (valid_target (trim before)) eqn:Ht; [|done]. unfold valid_level.
    case_bool_decide as Hl; [|done]. intros Hd. apply valid_target_spec in Ht as [Hw Hbr].
    exists before, after. done.
  - intros (before & after & -> & Hb & Hw & Hbr & Hl & Hd).
    rewrite (proj2 (split_once_some "=" (before +:+ "=" +:+ after) before after)) by done. cbv zeta.
    rewrite (proj2 (valid_target_spec _)) by done. unfold valid_level. by rewrite bool_decide_true.
Qed.

End EntryFacts.

Section LoggingFacts.
Context {EnvFilter Directive ParseError : Type} (try_new : string → result EnvFilter ParseError)
  (add_directive : EnvFilter → Directive → EnvFilter) (parse_directive : string → option Directive).
#[local] Abbreviation add_all := (add_entries add_directive parse_directive).
#[local] Abbreviation build := (build_env_filter try_new add_directive parse_directive).

Lemma add_entries_spec f invalid entries :
  add_all f invalid entries =
    (fold_left add_directive (omap (parse_target_level parse_directive) entries) f,
     invalid ++ filter (λ e, parse_target_level parse_directive e = None) entries).
Proof.
  revert f invalid. induction entries as [|e entries IH]; intros f invalid; [by rewrite app_nil_r|].
  cbn [add_entries omap list_omap]. rewrite filter_cons. destruct (parse_target_level parse_directive e) as [d|] eqn:E.
  - by rewrite IH, decide_False.
  - by rewrite IH, decide_True, <- app_assoc.
Qed.

(** The filter is built exactly when the base is one: it is then the base followed by
    the directives of the accepted entries, in their order, and the other entries are
    returned, in their order too.  An entry is accepted only for a target, without
    spaces and brackets, and one of the six levels, so that the directive added never
    sets the default level. *)
Theorem build_env_filter_spec base levels :
  let entries := level_entries levels in
  match try_new base with
  | Err e => build base levels = Err e
  | Ok f => ∃ ds invalid,
      build base levels = Ok (fold_left add_directive ds f, invalid) ∧
      ds = omap (parse_target_level parse_directive) entries ∧
      (∀ e d, parse_target_level parse_directive e = Some d ↔ accepts parse_directive e d) ∧
      (∀ e, e ∈ invalid ↔ e ∈ entries ∧ ∀ d, ¬ accepts parse_directive e d) ∧
      invalid `sublist_of` entries ∧ (length ds + length invalid = length entries)%nat
  end.
Proof.
  cbv zeta. unfold build_env_filter. destruct (try_new base) as [f|e]; [|done]. cbn [result_bind].
  rewrite add_entries_spec. eexists _, _. split; [done|]. split; [done|].
  split; [apply parse_target_level_accepts|]. cbn [app]. split_and!.
  - intros e. rewrite list_elem_of_filter. setoid_rewrite <- parse_target_level_accepts.
    destruct (parse_target_level parse_directive e) as [d|]; naive_solver.
  - apply sublist_filter.
  - induction (level_entries levels) as [|e es IH]; [done|]. cbn [omap list_omap]. rewrite filter_cons.
    destruct (parse_target_level parse_directive e) as [d|].
    + rewrite decide_False by done. cbn. by rewrite IH.
    + rewrite decide_True by done. cbn. by rewrite Nat.add_succ_r, IH.
Qed.

End LoggingFacts.

(** ** Writing the variable *)

(** An entry written with spaces around its parts. *)
Record LevelEntry := { en_target : string; en_level : string; en_spaces : nat * nat * nat * nat }.

Definition render_entry (e : LevelEntry) : string :=
  let '(a, b, c, d) := en_spaces e in
  (spaces a +:+ en_target e +:+ spaces b) +:+ "=" +:+ (spaces c +:+ en_level e +:+ spaces d).

Definition entry_ok (e : LevelEntry) : Prop :=
  word (en_target e) ∧ Forall (λ c, is_bracket c = false) (bytes_of (en_target e)) ∧
  contains_char ","%char (en_target e) = false ∧ contains_char "="%char (en_target e) = false ∧
  to_lowercase (en_level e) ∈ level_names.

Lemma level_alphabetic level :
  to_lowercase level ∈ level_names →
  level ≠ EmptyString ∧ Forall (λ a, is_ascii_alphabetic a = true) (bytes_of level).
Proof.
  intros Hl. split.
  { intros ->. by repeat (apply elem_of_cons in Hl as [Hl|Hl]; [done|]); apply not_elem_of_nil in Hl. }
  assert (Forall (λ a, is_ascii_alphabetic a = true) (bytes_of (to_lowercase level))) as H.
  { repeat (apply elem_of_cons in Hl as [->|Hl]; [by repeat constructor|]). by apply not_elem_of_nil in Hl. }
  rewrite bytes_of_lower, Forall_fmap in H. eapply Forall_impl; [exact H|].
  intros a. cbn. by rewrite lower_alphabetic.
Qed.

(** The text of an entry, spaces around it apart. *)
Definition entry_core (e : LevelEntry) : string :=
  let '(_, b, c, _) := en_spaces e in en_target e +:+ spaces b +:+ "=" +:+ spaces c +:+ en_level e.

Lemma render_entry_core e :
  render_entry e = spaces (en_spaces e).1.1.1 +:+ entry_core e +:+ spaces (en_spaces e).2.
Proof.
  unfold render_entry, entry_core. destruct (en_spaces e) as [[[a b] c] d]. cbn [fst snd].
  by rewrite !app_assoc_str.
Qed.

Lemma entry_core_tight e : entry_ok e → tight (entry_core e).
Proof.
  intros (Hw & _ & _ & _ & Hl). destruct (level_alphabetic _ Hl) as [Hne Ha]. clear Hl.
  unfold entry_core. destruct (en_spaces e) as [[[a b] c] d]. destruct e as [t l sp]. cbn [en_target en_level] in *.
  destruct (word_tight _ Hw) as (Hnt & Hh & _). split_and!.
  - by destruct t.
  - rewrite !bytes_of_app, bytes_of_spaces.
    destruct b as [|b]; (apply head_ws_ascii; [done|by destruct t|done]).
  - rewrite !bytes_of_app, !app_assoc, rev_app_distr.
    assert (rev (bytes_of l) ≠ []) as Hr.
    { intros Hr. apply Hne. destruct l; [done|]. apply (f_equal (@length _)) in Hr.
      rewrite length_rev in Hr. done. }
    apply Forall_rev in Ha. destruct (rev (bytes_of l)) as [|x r]; [done|].
    apply Forall_cons in Ha as [Hx _]. by apply alphabetic_tail.
Qed.

Lemma spaces_free x n : x ≠ " "%char → contains_char x (spaces n) = false.
Proof.
  intros Hx. apply contains_char_bytes. rewrite bytes_of_spaces. apply Forall_replicate. congruence.
Qed.

Lemma render_entry_no_comma e : entry_ok e → contains_char "," (render_entry e) = false.
Proof.
  intros (_ & _ & Hc & _ & Hl). destruct (level_alphabetic _ Hl) as [_ Ha].
  unfold render_entry. destruct (en_spaces e) as [[[a b] c] d].
  rewrite !contains_char_app, !spaces_free, Hc by done. cbn. rewrite !orb_false_r.
  apply contains_char_bytes. eapply Forall_impl; [exact Ha|]. by intros ? ? ->.
Qed.

Section ReadBack.
Context {EnvFilter Directive ParseError : Type} (try_new : string → result EnvFilter ParseError)
  (add_directive : EnvFilter → Directive → EnvFilter) (parse_directive : string → option Directive).

Lemma render_entry_accepted e d :
  entry_ok e → parse_directive (en_target e +:+ "=" +:+ en_level e) = Some d →
  parse_target_level parse_directive (trim (render_entry e)) = Some d.
Proof.
  intros He Hd. rewrite render_entry_core, trim_tight by (by apply entry_core_tight).
  apply parse_target_level_accepts. destruct He as (Hw & Hb & _ & Hq & Hl).
  destruct (level_alphabetic _ Hl) as [Hne Ha].
  assert (tight (en_level e)) as Hlt by (by apply word_tight, alphabetic_word).
  unfold entry_core. destruct (en_spaces e) as [[[a b] c] s].
  assert (trim (en_target e +:+ spaces b) = en_target e) as Ht
    by exact (trim_tight 0 b _ (word_tight _ Hw)).
  assert (trim (spaces c +:+ en_level e) = en_level e) as Hlv.
  { rewrite <- (trim_tight c 0 _ Hlt) at 2. cbn. by rewrite app_nil_str. }
  exists (en_target e +:+ spaces b), (spaces c +:+ en_level e).
  rewrite Ht, Hlv. split_and!; try done; [by rewrite app_assoc_str|].
  by rewrite contains_char_app, Hq, spaces_free.
Qed.

(** Entries written with commas, and spaces anywhere around their parts, are all added,
    in order. *)
Theorem level_entries_roundtrip base f es dir :
  try_new base = Ok f → es ≠ [] → Forall entry_ok es →
  (∀ e, e ∈ es → parse_directive (en_target e +:+ "=" +:+ en_level e) = Some (dir e)) →
  build_env_filter try_new add_directive parse_directive base (join "," (map render_entry es))
    = Ok (fold_left add_directive (map dir es) f, []).
Proof.
  intros Hf Hne Hes Hd. unfold build_env_filter. rewrite Hf. cbn [result_bind]. rewrite add_entries_spec.
  assert (level_entries (join "," (map render_entry es)) = map (λ e, trim (render_entry e)) es) as ->.
  { unfold level_entries. rewrite (split_join "," (map render_entry es)).
    - rewrite map_map. clear Hne Hd. induction Hes as [|e es He Hes IH]; [done|]. cbn [map]. rewrite filter_cons.
      rewrite decide_True; [by rewrite IH|]. rewrite render_entry_core, trim_tight by (by apply entry_core_tight).
      destruct (entry_core_tight e He) as [Hn _]. by destruct (entry_core e).
    - by destruct es.
    - intros x Hx. apply list_elem_of_fmap in Hx as (e & -> & He). apply render_entry_no_comma.
      by eapply Forall_forall. }
  assert (∀ e, e ∈ es → parse_target_level parse_directive (trim (render_entry e)) = Some (dir e)) as Hr.
  { intros e He. apply render_entry_accepted; [by eapply Forall_forall|by apply Hd]. }
  clear -Hr. cbn [app]. induction es as [|e es IH] in f, Hr |- *; [done|].
  cbn [map omap list_omap]. rewrite filter_cons, Hr by set_solver. rewrite decide_False by done.
  cbn [fold_left]. apply IH. set_solver.
Qed.
End ReadBack.

(** * Examples *)
Module LoggingExamples.
(** Filters as the list of their directives. *)
Definition try_new (base : string) : result (list string) string :=
  if contains "verbose" base then Err "invalid" else Ok (split ","%char base).
Definition add_directive (f : list string) (d : string) : list string := f ++ [d].

Example mixed_entries :
  build_env_filter try_new add_directive Some "h2=off,info"
    "debug,cold_start_duration=verbose,=debug,[span]=debug, trace_flush_duration = TRACE ,a b=debug,x=y=warn"
  = Ok (["h2=off"; "info"; "trace_flush_duration=TRACE"],
        ["debug"; "cold_start_duration=verbose"; "=debug"; "[span]=debug"; "a b=debug"; "x=y=warn"]).
Proof. vm_compute. reflexivity. Qed.

Definition entry1 : LevelEntry := {| en_target := "h2"; en_level := "Warn"; en_spaces := (1, 0, 2, 1)%nat |}.
Lemma level_entries_roundtrip_witness :
  build_env_filter try_new add_directive Some "info" (join "," (map render_entry [entry1; entry1]))
    = Ok (["info"; "h2=Warn"; "h2=Warn"], []).
Proof.
  refine (level_entries_roundtrip try_new add_directive Some "info" ["info"] [entry1; entry1]
    (λ e, en_target e +:+ "=" +:+ en_level e) _ _ _ _).
  - reflexivity.
  - discriminate.
  - assert (entry_ok entry1); [|by repeat constructor].
    split_and!; [|by repeat constructor|done|done|].
    + split; [done|]. by repeat split.
    + apply (bool_decide_unpack _). vm_compute. done.
  - done.
Defined.
End LoggingExamples.
