(* ===== verification/Fips.v ===== *)
(** TLS client of the FIPS builds: [datadog-fips/src/certificate_distrust.rs] and
    [reqwest_adapter.rs].

    The verifier wraps the one of rustls and refuses eight compromised public keys, in
    the chains presented by servers and among the trust anchors.  rustls is a class: the
    trait [ServerCertVerifier] is a record of operations, certificates, anchors and
    providers are types, and parsing them and building a verifier are parameters. *)
From Stdlib Require Import Ascii.
From S2P Require Import Prelude RStr.

(** * The compromised keys *)

Abbreviation bytes := (list Z).

Definition hex_val (c : ascii) : Z :=
  if is_digit (byte_val c) then byte_val c - 48 else byte_val c - 87.
Fixpoint of_hex (s : string) : bytes :=
  match s with
  | String a (String b s) => 16 * hex_val a + hex_val b :: of_hex s
  | _ => []
  end.

(** The files of [data/distrusted], in the order of the source. *)
Definition distrusted_hex : list string :=
  ["3076301006072a8648ce3d020106052b8104002203620004e79ed9c04a9773c4735e51111da85ac2bd5e64ab374b80e12cbc2038ec1e4f0e3b812fc9859e1e67afb04e2f8bc97f7485ba65aa911ee8a4e45b62d5cc03d56be678b3c38cb4dc937ca2460e238453c892935d29d44f91e15606b63ccedab468";
   "3076301006072a8648ce3d020106052b81040022036200043a7a7862c8c44d324ddd69033a6782c0efeefe4055e68a123fa0371ba3bd9194514ee172a433e3630f02bd188037d9e5149f9b77db94a281df987b2fea888b74bdfe8fda4c1099ee6ca19566fe3ef0e5f6b09a556ccc8ba50561df1b2a441d01";
   "3076301006072a8648ce3d020106052b810400220362000425dba85a64d397da0b1052e9ea546e487befea9c9d9d68a0c5eadcfeef75a69bb5d6fc01f42bfbca6eb40bcd64c0767e36ffd05d97a813c5aa0c6c9530e79cf5f0866468f13806420aa5c851840b1e252540e790e4b654c3852ed64af1e8657d";
   "3076301006072a8648ce3d020106052b81040022036200042d56e829a6fb82c64a4697d960af951e9067ae91f926d34306da48a8aaeb7869b6a67e6d27426e0442aa03b36e1988dff636514ee1cf07f5ba4b3ff2a06645ae7d31d5866ad31aa3d246eb0b3177ee99cb7566c516ce74808a668f91f0c47fca";
   "3076301006072a8648ce3d020106052b810400220362000473897aa0eb3cfdca8b12402ffaf0abc4e1212baf8dee778ac9ee2d6db83fac280c5e05638ae7a2acd71c322a8e361cdeb9f69c4302b9dd8d73d1cc6caab2cc0aee4e216ce979dd518a4af4b626e5684cdd658037ed0c854e4cc12f4cf8646d0d";
   "3076301006072a8648ce3d020106052b8104002203620004138251cd52ac9298c1c8aad977321deb97e709bd0b4ca0aca55dc8ad51dcfc9d1589a1597e3a5120e1efd631c63e1835cacae29869a62e1631e8a28181ab56616dc45d918abc09f3ab0e63cf792aa4dced7387be37bba569549f1c02b270ed67";
   "3076301006072a8648ce3d020106052b8104002203620004aabb0fb0666acfcf01fad52bfcfd4c2bf2cb3c3497de73950e5819b61fe695098741c8c491439b34a0431caffe5bf9b4c1c8e8ae0001f9f4dc8ad82c59f3639e96cd6c3d4db0cefec26c3d62517b37761372743f8e8add77b10064f2abe5e050";
   "3076301006072a8648ce3d020106052b8104002203620004b9f0e0634702a69ca6aadd443cfd62c41b9ba4b20924697d7974e7691a126fb96afb3e34c2fd3bc5f483061f265dc2a58436347323510436b28f04f3862363067980e2503e02532d6546235a7165a259a1ef496f741b5fdee7787208e4b8faef"].
Definition DISTRUSTED_SPKIS : list bytes := map of_hex distrusted_hex.

(** * rustls *)

Class Tls := {
  TrustAnchor : Type;
  (** [subject_public_key_info], without the header of its sequence *)
  anchor_spki : TrustAnchor → bytes;
  CertificateDer : Type;
  TlsError : Type;
  ApplicationVerificationFailure : TlsError;
  (** [ParsedCertificate::try_from] and its [subject_public_key_info], a complete sequence *)
  parsed_spki : CertificateDer → result bytes TlsError;
  Provider : Type;
  provider_fips : Provider → bool;
  ServerName : Type;
  Signature : Type;
  Scheme : Type;
  Subject : Type;
}.

Section Verifier.
Context `{!Tls}.

(** The trait [ServerCertVerifier]. *)
Record ServerCertVerifier := {
  verify_server_cert :
    CertificateDer → list CertificateDer → ServerName → bytes → Z → result unit TlsError;
  verify_tls12_signature : bytes → CertificateDer → Signature → result unit TlsError;
  verify_tls13_signature : bytes → CertificateDer → Signature → result unit TlsError;
  supported_verify_schemes : list Scheme;
  requires_raw_public_keys : bool;
  root_hint_subjects : option (list Subject);
}.

(** [WebPkiServerVerifier::builder_with_provider(roots, provider).build()] *)
Context (webpki_build : list TrustAnchor → Provider → result ServerCertVerifier string).

(** * The verifier *)

Record DistrustServerCertVerifier := { inner : ServerCertVerifier }.

Definition is_allowed (anchor : TrustAnchor) : bool :=
  negb (existsb (λ spki, bool_decide (anchor_spki anchor = drop 2 spki)) DISTRUSTED_SPKIS).

Definition distrust_new (roots : list TrustAnchor) (provider : Provider) :
    result DistrustServerCertVerifier string :=
  let roots :=
    if existsb (λ anchor, negb (is_allowed anchor)) roots
    then filter (λ anchor, is_allowed anchor = true) roots else roots in
  match webpki_build roots provider with
  | Err error => Err ("Failed to build TLS verifier after applying certificate distrust: " +:+ error)
  | Ok inner => Ok {| inner := inner |}
  end.

Definition is_blocked (spki : bytes) : bool :=
  existsb (λ blocked, bool_decide (spki = blocked)) DISTRUSTED_SPKIS.

(** The loop of [verify_server_cert] over the presented certificates. *)
Fixpoint check_presented (certs : list CertificateDer) : result unit TlsError :=
  match certs with
  | [] => Ok tt
  | cert :: certs =>
      let? spki := parsed_spki cert in
      if is_blocked spki then Err ApplicationVerificationFailure else check_presented certs
  end.

(** [impl ServerCertVerifier for DistrustServerCertVerifier] *)
Definition distrust_verifier (self : DistrustServerCertVerifier) : ServerCertVerifier := {|
  verify_server_cert end_entity intermediates server_name ocsp_response now :=
    let? _ := check_presented (end_entity :: intermediates) in
    verify_server_cert (inner self) end_entity intermediates server_name ocsp_response now;
  verify_tls12_signature := verify_tls12_signature (inner self);
  verify_tls13_signature := verify_tls13_signature (inner self);
  supported_verify_schemes := supported_verify_schemes (inner self);
  requires_raw_public_keys := requires_raw_public_keys (inner self);
  root_hint_subjects := root_hint_subjects (inner self);
|}.

(** * The client: [reqwest_adapter.rs] *)

Record ClientConfig := { cc_provider : Provider; cc_verifier : ServerCertVerifier }.

(** [with_protocol_versions] of all the versions, [ClientConfig::fips] and
    [RootCertStore::add]. *)
Context (versions_ok : Provider → bool) (config_fips : ClientConfig → bool).
Context (add_root : CertificateDer → result TrustAnchor string).

Definition fips_client_config (root_cert_store : list TrustAnchor) (provider : Provider) :
    result ClientConfig string :=
  let? verifier := distrust_new root_cert_store provider in
  if negb (versions_ok provider) then Err "Failed to set protocol versions" else
  let config := {| cc_provider := provider; cc_verifier := distrust_verifier verifier |} in
  if negb (config_fips config) then Err "The final TLS configuration is not FIPS-compliant"
  else Ok config.

(** The loop over the native certificates: the root store and [valid_count]. *)
Fixpoint add_native (store : list TrustAnchor) (valid_count : Z) (certs : list CertificateDer) :
    list TrustAnchor * Z :=
  match certs with
  | [] => (store, valid_count)
  | cert :: certs =>
      match add_root cert with
      | Ok anchor => add_native (store ++ [anchor]) (valid_count + 1) certs
      | Err _ => add_native store valid_count certs
      end
  end.

(** The TLS settings of the client: those of reqwest over rustls, or prepared ones. *)
Inductive TlsBackend := UseRustlsTls | UsePreconfiguredTls (config : ClientConfig).

(** [create_reqwest_client_builder]: [fips] is the feature, [default_provider] the provider
    installed in the process, [native_certs] what the system trusts. *)
Definition create_reqwest_client_builder (fips : bool) (default_provider : option Provider)
    (native_certs : list CertificateDer) : result TlsBackend string :=
  if negb fips then Ok UseRustlsTls else
  let? provider := ok_or default_provider "No crypto provider configured" in
  if negb (provider_fips provider) then Err "Crypto provider is not FIPS-compliant" else
  let '(root_cert_store, valid_count) := add_native [] 0 native_certs in
  if valid_count =? 0 then Err "No valid certificates found in native root store" else
  let? config := fips_client_config root_cert_store provider in
  Ok (UsePreconfiguredTls config).
End Verifier.

(** * Facts *)

(** Every key is a sequence of 118 bytes. *)
Lemma distrusted_shape :
  Forall (λ k, k = 48 :: 118 :: drop 2 k ∧ length (drop 2 k) = 118%nat) DISTRUSTED_SPKIS.
Proof. apply (bool_decide_unpack _). vm_compute. done. Qed.

(** The definite lengths of DER, up to two bytes. *)
Definition der_length (n : Z) : bytes :=
  if n <? 128 then [n] else if n <? 256 then [129; n] else [130; n / 256; n mod 256].
Definition der_sequence (contents : bytes) : bytes := 48 :: der_length (zlen contents) ++ contents.

(** The two comparisons agree: the contents of a sequence are those of a compromised key
    exactly when the sequence is one. *)
Lemma key_forms_agree contents :
  existsb (λ spki, bool_decide (contents = drop 2 spki)) DISTRUSTED_SPKIS = is_blocked (der_sequence contents).
Proof.
  apply eq_true_iff_eq. unfold is_blocked. rewrite !existsb_exists.
  pose proof distrusted_shape as Hs. rewrite Forall_forall in Hs.
  split; intros (k & Hk & He%bool_decide_eq_true); exists k; (split; [done|]); apply bool_decide_eq_true;
    apply list_elem_of_In, Hs in Hk as [Ek Hl].
  - subst contents. rewrite Ek at 2. unfold der_sequence, der_length. rewrite Hl. done.
  - assert (der_length (zlen contents) ++ contents = 118 :: drop 2 k) as Hd.
    { unfold der_sequence in He. rewrite Ek in He at 1. by injection He. }
    unfold der_length in Hd.
    destruct (Z.ltb_spec (zlen contents) 128); [by injection Hd as _ Hd|].
    by destruct (Z.ltb_spec (zlen contents) 256).
Qed.

Section FipsFacts.
Context `{!Tls} (webpki_build : list TrustAnchor → Provider → result ServerCertVerifier string)
  (versions_ok : Provider → bool) (config_fips : ClientConfig → bool)
  (add_root : CertificateDer → result TrustAnchor string).

Lemma is_allowed_spec anchor :
  is_allowed anchor = true ↔ is_blocked (der_sequence (anchor_spki anchor)) = false.
Proof. unfold is_allowed. by rewrite key_forms_agree, negb_true_iff. Qed.

(** The anchors kept. *)
Definition allowed (roots : list TrustAnchor) : list TrustAnchor :=
  filter (λ anchor, is_allowed anchor = true) roots.

Lemma distrust_new_ok roots provider v :
  distrust_new webpki_build roots provider = Ok v ↔ webpki_build (allowed roots) provider = Ok (inner v).
Proof.
  unfold distrust_new.
  assert ((if existsb (λ anchor, negb (is_allowed anchor)) roots
           then filter (λ anchor, is_allowed anchor = true) roots else roots) = allowed roots) as ->.
  { destruct (existsb _ roots) eqn:E; [done|]. unfold allowed. clear -E.
    induction roots as [|a roots IH]; [done|]. cbn [existsb] in E. apply orb_false_iff in E as [Ha E].
    apply negb_false_iff in Ha. rewrite filter_cons, decide_True by done. f_equal. by apply IH. }
  destruct (webpki_build _ _) as [i|e]; [|done]. destruct v. cbn. split; congruence.
Qed.

(** A certificate that may be presented. *)
Definition presentable (cert : CertificateDer) : Prop :=
  ∃ spki, parsed_spki cert = Ok spki ∧ is_blocked spki = false.

Lemma check_presented_ok certs : check_presented certs = Ok tt ↔ Forall presentable certs.
Proof.
  induction certs as [|cert certs IH]; [done|]. cbn [check_presented]. rewrite Forall_cons, <- IH.
  unfold presentable. destruct (parsed_spki cert) as [spki|e]; cbn [result_bind].
  2: { split; [done|]. by intros [(? & ? & _) _]. }
  destruct (is_blocked spki) eqn:E.
  - split; [done|]. intros [(k & [= <-] & ?) _]. congruence.
  - split; [by eauto|]. by intros [_ ?].
Qed.

(** The first certificate that may not be presented decides of the error. *)
Lemma check_presented_err certs e :
  check_presented certs = Err e ↔
    ∃ before cert after, certs = before ++ cert :: after ∧ Forall presentable before ∧
      (parsed_spki cert = Err e ∨
       ∃ spki, parsed_spki cert = Ok spki ∧ is_blocked spki = true ∧ e = ApplicationVerificationFailure).
Proof.
  induction certs as [|cert certs IH]; cbn [check_presented].
  { split; [done|]. by intros ([|] & ? & ? & ? & _). }
  split.
  - destruct (parsed_spki cert) as [spki|e'] eqn:Ep; cbn [result_bind].
    2: { intros [= ->]. exists [], cert, certs. auto. }
    destruct (is_blocked spki) eqn:Eb.
    + intros [= <-]. exists [], cert, certs. split_and!; eauto.
    + intros (before & c & after & -> & Hb & Hc)%IH. exists (cert :: before), c, after.
      split_and!; [done| |done]. constructor; [by exists spki|done].
  - intros ([|c0 before] & c & after & [= -> ->] & Hb & Hc).
    + destruct Hc as [->|(spki & -> & Hk & ->)]; [done|]. cbn [result_bind]. by rewrite Hk.
    + apply Forall_cons in Hb as [(spki & -> & Hk) Hb]. cbn [result_bind]. rewrite Hk.
      apply IH. eauto 10.
Qed.

Lemma add_native_spec store n certs :
  add_native add_root store n certs =
    (store ++ omap (λ c, result_ok (add_root c)) certs, n + zlen (omap (λ c, result_ok (add_root c)) certs)).
Proof.
  revert store n. induction certs as [|c certs IH]; intros store n; cbn [add_native omap list_omap].
  { rewrite app_nil_r. f_equal. cbn. lia. }
  destruct (add_root c) as [a|e]; rewrite IH; cbn [result_ok]; [|done].
  rewrite <- app_assoc. f_equal. cbn [length]. lia.
Qed.

Lemma fips_client_config_ok roots provider c :
  fips_client_config webpki_build versions_ok config_fips roots provider = Ok c ↔
    ∃ i, webpki_build (allowed roots) provider = Ok i ∧ versions_ok provider = true ∧ config_fips c = true ∧
      c = {| cc_provider := provider; cc_verifier := distrust_verifier {| inner := i |} |}.
Proof.
  unfold fips_client_config. destruct (distrust_new webpki_build roots provider) as [v|e] eqn:E; cbn [result_bind].
  - apply distrust_new_ok in E. rewrite E.
    destruct (versions_ok provider); cbn [negb]; [|split; [done|]; by intros (? & _ & ? & _)].
    destruct v as [i]. cbn [inner]. destruct (config_fips _) eqn:Ef; cbn [negb]; split.
    + intros [= <-]. eauto.
    + by intros (? & [= <-] & _ & _ & ->).
    + done.
    + intros (? & [= <-] & _ & Hf & ->). congruence.
  - split; [done|]. intros (i & Hi & _). apply (distrust_new_ok _ _ {| inner := i |}) in Hi. congruence.
Qed.

(** C35: A FIPS client exists only over the provider of the process, which is a FIPS one and
    is the one its configuration uses, for all the versions of TLS and a configuration that
    rustls reports as FIPS, and over some native root.  Its connections are those the
    verifier of rustls accepts over the native roots without the compromised keys, less the
    chains that present one of them or a certificate that does not parse; the signatures of
    the handshakes are checked by the verifier of rustls itself. *)
Theorem fips_client_spec default_provider native_certs c :
  create_reqwest_client_builder webpki_build versions_ok config_fips add_root true
    default_provider native_certs = Ok (UsePreconfiguredTls c) →
  ∃ provider i, default_provider = Some provider ∧ provider_fips provider = true ∧
    cc_provider c = provider ∧ versions_ok provider = true ∧ config_fips c = true ∧
    let roots := omap (λ cert, result_ok (add_root cert)) native_certs in
    roots ≠ [] ∧ webpki_build (allowed roots) provider = Ok i ∧
    (∀ anchor, anchor ∈ allowed roots ↔
       anchor ∈ roots ∧ is_blocked (der_sequence (anchor_spki anchor)) = false) ∧
    verify_tls12_signature (cc_verifier c) = verify_tls12_signature i ∧
    verify_tls13_signature (cc_verifier c) = verify_tls13_signature i ∧
    supported_verify_schemes (cc_verifier c) = supported_verify_schemes i ∧
    ∀ end_entity intermediates server_name ocsp_response now,
      verify_server_cert (cc_verifier c) end_entity intermediates server_name ocsp_response now = Ok tt ↔
      Forall presentable (end_entity :: intermediates) ∧
      verify_server_cert i end_entity intermediates server_name ocsp_response now = Ok tt.
Proof.
  unfold create_reqwest_client_builder. cbn [negb].
  destruct default_provider as [provider|]; cbn [ok_or result_bind]; [|done].
  destruct (provider_fips provider) eqn:Ef; cbn [negb]; [|done].
  rewrite add_native_spec. cbn [app]. set (roots := omap _ native_certs). rewrite Z.add_0_l.
  destruct (Z.eqb_spec (zlen roots) 0) as [|Hr]; [done|].
  destruct (fips_client_config _ _ _ _ _) as [c'|] eqn:E; cbn [result_bind]; [|done]. intros [= ->].
  apply fips_client_config_ok in E as (i & Hi & Hv & Hf & ->). exists provider, i. split_and!; try done.
  - by intros ->.
  - intros anchor. unfold allowed. rewrite list_elem_of_filter, is_allowed_spec. tauto.
  - intros ee ints name ocsp now. cbn [cc_verifier distrust_verifier verify_server_cert inner].
    rewrite <- check_presented_ok. destruct (check_presented _) as [[]|]; cbn [result_bind]; [tauto|].
    split; [done|]. by intros [? _].
Qed.
End FipsFacts.

(** * Examples *)
Module FipsExamples.
(** A certificate and an anchor are the contents of a public key; a chain is verified
    when its first certificate has the key of a root. *)
#[local] Instance tls : Tls := {|
  TrustAnchor := bytes; anchor_spki a := a;
  CertificateDer := option bytes; TlsError := string;
  ApplicationVerificationFailure := "distrusted";
  parsed_spki c := match c with Some k => Ok (der_sequence k) | None => Err "malformed" end;
  Provider := bool; provider_fips p := p;
  ServerName := string; Signature := unit; Scheme := unit; Subject := unit;
|}.
Definition webpki_build (roots : list bytes) (_ : bool) : result ServerCertVerifier string :=
  match roots with
  | [] => Err "no root trust anchors"
  | _ => Ok {| verify_server_cert ee _ _ _ _ :=
                 if existsb (λ r, bool_decide (ee = Some r)) roots then Ok tt else Err "UnknownIssuer";
               verify_tls12_signature _ _ _ := Ok tt; verify_tls13_signature _ _ _ := Ok tt;
               supported_verify_schemes := []; requires_raw_public_keys := false;
               root_hint_subjects := None |}
  end.
Definition add_root (c : option bytes) : result bytes string := ok_or c "malformed".

Definition good : bytes := [1; 2; 3].
Definition blocked : bytes := drop 2 (of_hex (hd EmptyString distrusted_hex)).

(** The compromised anchor is dropped, so its own certificate is not trusted, and a
    chain that presents it is refused even if its leaf is good. *)
Definition connect (native chain : list (option bytes)) : result unit string :=
  let? backend := create_reqwest_client_builder webpki_build (λ _, true) (λ _, true) add_root true
                    (Some true) native in
  match backend, chain with
  | UsePreconfiguredTls c, leaf :: rest => verify_server_cert (cc_verifier c) leaf rest "host" [] 0
  | _, _ => Err "no chain"
  end.

Example connections :
  map (connect [Some good; None; Some blocked])
    [[Some good]; [Some [7]]; [Some blocked]; [Some good; Some blocked]; [Some good; None]]
  = [Ok tt; Err "UnknownIssuer"; Err "distrusted"; Err "distrusted"; Err "malformed"].
Proof. vm_compute. reflexivity. Qed.

Example only_blocked_roots : connect [Some blocked] [Some good]
  = Err "Failed to build TLS verifier after applying certificate distrust: no root trust anchors".
Proof. vm_compute. reflexivity. Qed.

Lemma fips_client_spec_witness : ∃ c i,
  create_reqwest_client_builder webpki_build (λ _, true) (λ _, true) add_root true (Some true)
    [Some good; Some blocked] = Ok (UsePreconfiguredTls c) ∧ webpki_build [good] true = Ok i ∧
  verify_server_cert (cc_verifier c) (Some good) [Some blocked] "host" [] 0 ≠ Ok tt.
Proof.
  eexists _, _. split; [reflexivity|]. split; [reflexivity|]. intros Hv.
  edestruct (@fips_client_spec tls webpki_build (λ _, true) (λ _, true) add_root (Some true) [Some good; Some blocked])
    as (p & i & _ & _ & _ & _ & _ & _ & _ & _ & _ & _ & _ & Hc); [reflexivity|].
  apply Hc in Hv as [[_ [(k & Hk & Hb) _]%Forall_cons]%Forall_cons _].
  injection Hk as <-. vm_compute in Hb. discriminate Hb.
Defined.
End FipsExamples.
