(* ===== verification/DogStatsDServer.v ===== *)
(** Set-up of the DogStatsD server, and its mode with a Windows named pipe:
    [dogstatsd/src/dogstatsd.rs].

    [dogstatsd_new] chooses the transport and the sizes.  Module [Beside] is the pipe
    server, its clients, the UDP reader beside it, the supervisor of both and the
    processing loop, as a transition system over the states of [DogStatsD.Queue].
    Sockets are parameters: each system call succeeds or gives an error. *)
From Stdlib Require Import Ascii.
From S2P Require Import Prelude RStr DogStatsD.

Record DogStatsDConfig := {
  host : string;
  port : Z;
  metric_namespace : option string;
  (** only in the builds for Windows with the feature of the named pipes *)
  windows_pipe_name : option string;
  so_rcvbuf : option Z;
  buffer_size : option Z;
  queue_size : option Z;
}.

(** * Sockets *)

Class UdpSockets := {
  SocketAddr : Type;
  IoError : Type;
  invalid_input : string → IoError;
  (** the addresses a name resolves to *)
  lookup_host : string → result (list SocketAddr) IoError;
  socket_new : result unit IoError;
  set_recv_buffer_size : Z → result unit IoError;
  set_nonblocking : result unit IoError;
  socket_bind : SocketAddr → result unit IoError;
  from_std : result unit IoError;
}.

Section Setup.
Context `{!UdpSockets}.

Record UdpSocket := { bound_to : SocketAddr; requested_rcvbuf : option Z }.

Definition create_udp_socket (addr : string) (so_rcvbuf : option Z) : result UdpSocket IoError :=
  let? addrs := lookup_host addr in
  let? socket_addr := ok_or (head addrs) (invalid_input ("Could not resolve address '" +:+ addr +:+ "'")) in
  let? _ := socket_new in
  let? _ := match so_rcvbuf with Some buf_size => set_recv_buffer_size buf_size | None => Ok tt end in
  let? _ := set_nonblocking in
  let? _ := socket_bind socket_addr in
  let? _ := from_std in
  Ok {| bound_to := socket_addr; requested_rcvbuf := so_rcvbuf |}.

Inductive Transport :=
  | Reader (socket : UdpSocket)
  | NamedPipe (pipe_name : string) (udp_socket : option UdpSocket).

Record Server := {
  transport : Transport;
  server_namespace : option string;
  server_buf_size : Z;
  server_queue_size : Z;
}.

(** [DogStatsD::new]; [None] is a panic. *)
Definition dogstatsd_new (windows_pipes : bool) (config : DogStatsDConfig) : option Server :=
  let pipe_name_opt := if windows_pipes then windows_pipe_name config else None in
  let buf_size := configured_size (buffer_size config) DEFAULT_BUFFER_SIZE in
  let addr := host config +:+ ":" +:+ show_Z (port config) in
  let transport :=
    match pipe_name_opt with
    | Some pipe_name =>
        Some (NamedPipe pipe_name
          (if port config =? 0 then None
           else result_ok (create_udp_socket addr (so_rcvbuf config))))
    | None => Reader <$> result_ok (create_udp_socket addr (so_rcvbuf config))
    end in
  let queue_size := configured_size (queue_size config) DEFAULT_QUEUE_SIZE in
  match transport with
  | None => None
  | Some transport =>
      Some {| transport := transport; server_namespace := metric_namespace config;
              server_buf_size := buf_size; server_queue_size := queue_size |}
  end.
End Setup.

(** * Errors of a UDP socket on Windows *)

Inductive ErrorKind := ConnectionAborted | ConnectionReset | ConnectionRefused | OtherKind.
Record ReadFailure := { kind : ErrorKind; raw_os_error : option Z }.

Definition is_connection_error (e : ReadFailure) : bool :=
  match kind e with ConnectionAborted | ConnectionReset | ConnectionRefused => true | OtherKind => false end.

Definition WSAEMSGSIZE : Z := 10040.
Definition WSAENETRESET : Z := 10052.
Definition is_datagram_error (e : ReadFailure) : bool :=
  match raw_os_error e with Some n => (n =? WSAEMSGSIZE) || (n =? WSAENETRESET) | None => false end.

(** * The named pipe and the UDP reader beside it *)
Module Beside.
Import Queue.

(** The queue, its processor and the UDP reader, as in [Queue], whose [cancelled] is the
    token [stop] here; whether there is a UDP reader, whether the pipe server runs, the
    number of its clients, and the failure of the UDP reader.  [dropped] counts the drops
    of the reader and of all the clients. *)
Record State := {
  ends : Queue.State;
  udp_on : bool;
  pipe_on : bool;
  clients : nat;
  udp_failed : option ReadFailure;
}.

Definition start (udp : bool) : State :=
  {| ends := if udp then init else reader_at init RExit 0 0 0;
     udp_on := udp; pipe_on := true; clients := 0; udp_failed := None |}.

Definition with_ends (s : State) (q : Queue.State) : State :=
  {| ends := q; udp_on := udp_on s; pipe_on := pipe_on s; clients := clients s;
     udp_failed := udp_failed s |}.
Definition with_pipe (s : State) (on : bool) (n : nat) : State :=
  {| ends := ends s; udp_on := udp_on s; pipe_on := on; clients := n; udp_failed := udp_failed s |}.

(** What [recv_from] gives. *)
Inductive Datagram := Got (p : Packet) | Failed (e : ReadFailure).

Section Server.
Context (queue_size : nat).

(** A turn of [udp_read_loop_beside_pipe] once a datagram or an error arrives. *)
Definition udp_read (s : State) (r : Datagram) : State :=
  let q := ends s in
  match r with
  | Got p =>
      match data p with
      | [] => with_ends s (reader_at q RTop (S (pool q)) (allocated q) (leaked q))
      | _ => with_ends s (try_send_packet queue_size q p (pool q) (allocated q) RTop RExit)
      end
  | Failed e =>
      if is_connection_error e || is_datagram_error e then
        with_ends s (reader_at q RTop (S (pool q)) (allocated q) (leaked q))
      else
        {| ends := reader_at q RExit (S (pool q)) (allocated q) (leaked q);
           udp_on := udp_on s; pipe_on := pipe_on s; clients := clients s; udp_failed := Some e |}
  end.

(** A client hands the complete messages of a read over, in a buffer of their own; it
    stops when the queue is closed. *)
Definition client_send (s : State) (p : Packet) : State :=
  let q := ends s in
  let base queue acc dr ref :=
    {| reader := reader q; processor := processor q; cancelled := cancelled q; queue := queue;
       pool := pool q; dropped := dr; received := received q ++ [p]; accepted := acc;
       processed := processed q; refused := ref; lost := lost q;
       allocated := allocated q; leaked := leaked q |} in
  if closed q then
    with_pipe (with_ends s (base (queue q) (accepted q) (dropped q) (refused q ++ [p])))
      (pipe_on s) (pred (clients s))
  else if (length (queue q) <? queue_size)%nat then
    with_ends s (base (queue q ++ [p]) (accepted q ++ [p]) (dropped q) (refused q))
  else
    with_ends s (base (queue q) (accepted q) (dropped q + 1) (refused q)).

(** Neither transport has stopped. *)
Definition transports_run (s : State) : bool :=
  pipe_on s && (negb (udp_on s) || match reader (ends s) with RExit => false | _ => true end).

(** What the tasks do by themselves: the UDP reader moves on or stops, the pipe server
    and its clients stop, [supervise] cancels the token when a transport has stopped,
    and the processing loop advances. *)
Inductive internal : State → State → Prop :=
  | udp_top s : udp_on s = true → reader (ends s) = RTop → internal s (with_ends s (reader_top (ends s)))
  | udp_stop s : udp_on s = true → reader (ends s) = RWait → cancelled (ends s) = true →
      internal s (with_ends s (reader_cancel (ends s)))
  | pipe_stop s : pipe_on s = true → cancelled (ends s) = true → internal s (with_pipe s false (clients s))
  | client_stop s n : clients s = S n → cancelled (ends s) = true → internal s (with_pipe s (pipe_on s) n)
  | supervise s : transports_run s = false → cancelled (ends s) = false →
      internal s (with_ends s (cancel (ends s)))
  | process s p q : processor (ends s) = PServe ∨ processor (ends s) = PDrain → queue (ends s) = p :: q →
      internal s (with_ends s (process_one (ends s) p q))
  | senders_gone s : processor (ends s) = PServe → reader (ends s) = RExit → pipe_on s = false →
      clients s = O → queue (ends s) = [] → internal s (with_ends s (processor_at (ends s) PLeave))
  | process_cancelled s : processor (ends s) = PServe → cancelled (ends s) = true →
      internal s (with_ends s (processor_at (ends s) PDrain))
  | process_drained s : processor (ends s) = PDrain → queue (ends s) = [] →
      internal s (with_ends s (processor_at (ends s) PLeave))
  | process_leave s : processor (ends s) = PLeave → internal s (with_ends s (drop_receiver (ends s))).

(** What happens to them: a datagram or an error, a client that connects, writes or goes,
    the pipe server panics, the caller's cancellation. *)
Inductive external : State → State → Prop :=
  | udp_arrives s r : udp_on s = true → reader (ends s) = RWait →
      match r with Got p => is_pooled p = true | Failed _ => True end → external s (udp_read s r)
  | client_connects s : pipe_on s = true → external s (with_pipe s true (S (clients s)))
  | client_writes s p : (0 < clients s)%nat → is_pooled p = false → external s (client_send s p)
  | client_goes s n : clients s = S n → external s (with_pipe s (pipe_on s) n)
  | pipe_panics s : pipe_on s = true → external s (with_pipe s false (clients s))
  | caller_cancels s : external s (with_ends s (cancel (ends s))).

Definition step (s s' : State) : Prop := internal s s' ∨ external s s'.
End Server.
End Beside.

(** * Facts *)

(** The server always has room for a packet and a buffer; it panics exactly when UDP is
    its only transport and its socket fails, and with a pipe a failed socket, or port 0,
    only leaves UDP off. *)
Theorem dogstatsd_new_spec `{!UdpSockets} (windows_pipes : bool) config :
  (∀ n, buffer_size config = Some n → 0 ≤ n) → (∀ n, queue_size config = Some n → 0 ≤ n) →
  let pipe := if windows_pipes then windows_pipe_name config else None in
  let udp := create_udp_socket (host config +:+ ":" +:+ show_Z (port config)) (so_rcvbuf config) in
  match dogstatsd_new windows_pipes config with
  | None => pipe = None ∧ is_ok udp = false
  | Some server =>
      0 < server_buf_size server ∧ 0 < server_queue_size server ∧
      server_namespace server = metric_namespace config ∧
      match transport server with
      | Reader socket => pipe = None ∧ udp = Ok socket
      | NamedPipe name socket =>
          pipe = Some name ∧ ∀ x, socket = Some x ↔ port config ≠ 0 ∧ udp = Ok x
      end
  end.
Proof.
  intros Hb Hq. cbv zeta.
  assert (∀ o d, (∀ n, o = Some n → 0 ≤ n) → 0 < d → 0 < configured_size o d) as Hsize.
  { intros [n|] d Hn Hd; unfold configured_size; [|done]. specialize (Hn n eq_refl).
    destruct (Z.eqb_spec n 0); lia. }
  unfold dogstatsd_new. cbv zeta. destruct (if windows_pipes then _ else None) as [name|].
  - split_and!; [by apply Hsize..|done|]. cbn [transport]. split; [done|]. intros x.
    destruct (Z.eqb_spec (port config) 0) as [Hp|Hp]; [naive_solver|].
    destruct (create_udp_socket _ _); cbn [result_ok]; naive_solver.
  - destruct (create_udp_socket _ _) as [socket|e]; cbn [result_ok fmap option_fmap option_map]; [|done].
    split_and!; try done; by apply Hsize.
Qed.

Module BesideFacts.
Import Queue QueueFacts Beside.
Section Server.
Context (queue_size : nat).

(** What holds of every reachable state. *)
Record beside_inv (s : Beside.State) : Prop := {
  bi_queue : queue_inv queue_size (ends s);
  bi_reader : if udp_on s then reader (ends s) ≠ RDrain else reader (ends s) = RExit;
  bi_senders : cancelled (ends s) = true ∨ processor (ends s) = PServe ∨ pipe_on s = false ∧ clients s = O;
}.

Lemma start_inv udp : beside_inv (start udp).
Proof.
  split; [|by destruct udp|right; left; by destruct udp].
  destruct udp; [apply queue_init_inv|]. apply reader_at_inv; [apply queue_init_inv|done|done].
Qed.

Lemma try_send_fields q p pl al pc :
  let q' := try_send_packet queue_size q p pl al pc RExit in
  cancelled q' = cancelled q ∧ processor q' = processor q ∧ (reader q' = pc ∨ reader q' = RExit).
Proof. unfold try_send_packet. destruct (closed q), (length (queue q) <? queue_size)%nat; simpl; auto. Qed.

Lemma udp_read_inv s r :
  beside_inv s → udp_on s = true → reader (ends s) = RWait →
  match r with Got p => is_pooled p = true | Failed _ => True end → beside_inv (udp_read queue_size s r).
Proof.
  intros [Hq Hr Hs] Hu Hw Hp. pose proof (inv_buffers _ _ Hq) as Hal. unfold in_hand in Hal. rewrite Hw in Hal.
  assert (reader (ends s) ≠ RExit) by congruence.
  assert (∀ pc, pc ≠ RWait → pc ≠ RDrain → beside_inv (with_ends s
    (reader_at (ends s) pc (S (pool (ends s))) (allocated (ends s)) (leaked (ends s))))) as Hat.
  { intros pc Hpc Hd. split; [|by simpl; rewrite Hu|done].
    apply reader_at_inv; [done|done|]. unfold buffers_out. destruct pc; done || lia. }
  destruct r as [p|e]; unfold udp_read.
  - destruct (data p); [by apply Hat|].
    destruct (try_send_fields (ends s) p (pool (ends s)) (allocated (ends s)) RTop) as (Hc & Hpr & Hrd).
    split; simpl.
    + apply try_send_inv; try done. unfold buffers_out. lia.
    + rewrite Hu. destruct Hrd as [->| ->]; done.
    + by rewrite Hc, Hpr.
  - destruct (is_connection_error e || is_datagram_error e); [by apply Hat|].
    destruct (Hat RExit) as [Hq' _ Hs']; [done..|]. split; simpl; [done|by rewrite Hu|done].
Qed.

Lemma client_send_inv s p :
  beside_inv s → (0 < clients s)%nat → is_pooled p = false → beside_inv (client_send queue_size s p).
Proof.
  intros [[Hb Hf Ho Hc Hal Hop Hu] Hr Hs] Hcl Hp.
  assert (cancelled (ends s) = true ∨ lost (ends s) = [] ∧ processor (ends s) = PServe) as Hu'.
  { destruct Hs as [?|[?|[_ ?]]]; [auto| |lia]. destruct Hu as [?|[? _]]; auto. }
  assert (sublist (accepted (ends s) ++ [p]) (received (ends s) ++ [p])) by by apply sublist_app.
  assert (sublist (accepted (ends s)) (received (ends s) ++ [p])) by by apply sublist_inserts_r.
  assert (∀ q, beside_inv (with_ends s q) → beside_inv (with_pipe (with_ends s q) (pipe_on s) (pred (clients s)))) as Hpred.
  { intros q [Hq' Hr' Hs']. split; [done|done|]. simpl in *. destruct Hs' as [?|[?|[? ?]]]; auto.
    right. right. split; [done|]. lia. }
  unfold client_send, closed.
  destruct (processor (ends s)) eqn:Ep;
    [destruct (Nat.ltb_spec (length (queue (ends s))) queue_size)..|apply Hpred];
    (split; [split|exact Hr|]; unfold in_hand in *; simpl;
     rewrite ?Ep, ?pooled_count_app, ?length_app, ?pooled_count_cons, ?Hp; simpl;
     try done; try (rewrite Hf, !app_assoc; done); try (change (pooled_count []) with 0%nat);
     try (destruct (reader (ends s)); lia); try lia; tauto).
Qed.

Lemma internal_inv s s' : beside_inv s → internal s s' → beside_inv s'.
Proof.
  intros Hinv Hstep. pose proof Hinv as [Hq Hr Hs].
  destruct Hstep as [s Hu Hrd|s Hu Hrd Hc|s Hp Hc|s n Hn Hc|s Ht Hc|s p q Hpr Hqu|s Hpr Hrd Hp Hn Hqu|s Hpr Hc|s Hpr Hqu|s Hpr].
  - split; [by apply reader_top_inv| |].
    + simpl. rewrite Hu. unfold reader_top, take_buffer. by destruct (cancelled (ends s)), (pool (ends s)).
    + simpl. unfold reader_top, take_buffer. destruct (cancelled (ends s)) eqn:E, (pool (ends s)); simpl; rewrite E; auto.
  - split; [|by simpl; rewrite Hu|done]. apply (queue_step_inv queue_size (ends s)); [done|].
    by apply step_reader_cancel.
  - split; [done|done|by left].
  - split; [done|done|by left].
  - split; [|done|by left]. apply (queue_step_inv queue_size (ends s)); [done|constructor].
  - split; [by apply process_one_inv|done|]. simpl. done.
  - split; [|done|simpl; auto]. apply (queue_step_inv queue_size (ends s)); [done|].
    by apply step_senders_gone.
  - split; [|done|by left]. apply (queue_step_inv queue_size (ends s)); [done|]. by apply step_cancelled.
  - split; [|done|].
    + apply (queue_step_inv queue_size (ends s)); [done|]. by apply step_drained.
    + destruct Hs as [?|[?|?]]; [by left|congruence|by right; right].
  - split; [|done|].
    + apply (queue_step_inv queue_size (ends s)); [done|]. by apply step_leave.
    + destruct Hs as [?|[?|?]]; [by left|congruence|by right; right].
Qed.

Lemma external_inv s s' : beside_inv s → external queue_size s s' → beside_inv s'.
Proof.
  intros Hinv Hstep. pose proof Hinv as [Hq Hr Hs].
  destruct Hstep as [s r Hu Hw Hp|s Hp|s p Hc Hp|s n Hn|s Hp|s].
  - by apply udp_read_inv.
  - split; [done|done|]. simpl. destruct Hs as [?|[?|[? _]]]; [auto|auto|congruence].
  - by apply client_send_inv.
  - split; [done|done|]. simpl. destruct Hs as [?|[?|[? ?]]]; [auto|auto|congruence].
  - split; [done|done|]. simpl. destruct Hs as [?|[?|[? _]]]; [auto|auto|congruence].
  - split; [|done|by left]. apply (queue_step_inv queue_size (ends s)); [done|constructor].
Qed.

Lemma beside_reach udp s : rtc (Beside.step queue_size) (start udp) s → beside_inv s.
Proof.
  intros Hr. remember (start udp) as s0 eqn:E. assert (beside_inv s0) as Hi by (subst; apply start_inv).
  clear E. induction Hr as [|x y z [Hxy|Hxy] _ IH]; [done|..]; apply IH.
  - by eapply internal_inv.
  - by eapply external_inv.
Qed.

(** The tasks cannot run by themselves forever. *)
Definition measure (s : Beside.State) : nat :=
  2 * length (queue (ends s)) + match reader (ends s) with RTop => 2 | RWait => 1 | _ => 0 end
  + (if pipe_on s then 1 else 0) + clients s + (if cancelled (ends s) then 0 else 1)
  + match processor (ends s) with PServe => 3 | PDrain => 2 | PLeave => 1 | PExit => 0 end.

Lemma internal_decreases s s' : internal s s' → (measure s' < measure s)%nat.
Proof.
  unfold measure.
  destruct 1 as [s Hu Hrd|s Hu Hrd Hc|s Hp Hc|s n Hn Hc|s Ht Hc|s p q Hpr Hqu|s Hpr Hrd Hp Hn Hqu|s Hpr Hc|s Hpr Hqu|s Hpr]; simpl.
  - unfold reader_top, take_buffer.
    destruct (cancelled (ends s)) eqn:E, (pool (ends s)); simpl; rewrite ?E, Hrd; lia.
  - rewrite Hrd. lia.
  - rewrite Hp. lia.
  - rewrite Hn. lia.
  - rewrite Hc. lia.
  - rewrite Hqu. simpl. lia.
  - rewrite Hpr. lia.
  - rewrite Hpr. lia.
  - rewrite Hpr. lia.
  - rewrite Hpr. lia.
Qed.

(** Everything runs, waiting for the clients; or nothing does. *)
Definition all_run (s : Beside.State) : Prop :=
  cancelled (ends s) = false ∧ pipe_on s = true ∧ (udp_on s = true → reader (ends s) = RWait) ∧
  processor (ends s) = PServe ∧ queue (ends s) = [].
Definition all_stopped (s : Beside.State) : Prop :=
  cancelled (ends s) = true ∧ pipe_on s = false ∧ reader (ends s) = RExit ∧ clients s = O ∧ processor (ends s) = PExit ∧
  queue (ends s) = [].

Lemma progress s : beside_inv s → (∃ s', internal s s') ∨ all_run s ∨ all_stopped s.
Proof.
  intros [Hq Hr Hs]. destruct (cancelled (ends s)) eqn:Hc.
  - destruct (pipe_on s) eqn:Hp; [left; eexists; by apply pipe_stop|].
    destruct (clients s) as [|n] eqn:Hn; [|left; eexists; by apply client_stop].
    assert (reader (ends s) = RExit ∨ ∃ s', internal s s') as [Hre|?]; [|  |by left].
    { destruct (udp_on s) eqn:Hu; [|by left]. destruct (reader (ends s)) eqn:Er; [| |done|by left]; right; eexists.
      - by apply udp_top.
      - by apply udp_stop. }
    destruct (processor (ends s)) eqn:Ep.
    + left. eexists. by apply process_cancelled.
    + left. destruct (queue (ends s)) eqn:Eq; eexists; [by apply process_drained|eapply process; eauto].
    + left. eexists. by apply process_leave.
    + right. right. pose proof (inv_open _ _ Hq) as Hop. rewrite Ep in Hop. done.
  - destruct (transports_run s) eqn:Ht; [|left; eexists; by apply supervise].
    unfold transports_run in Ht. apply andb_true_iff in Ht as [Hp Ht].
    assert (processor (ends s) = PServe) as Hpr by (destruct Hs as [?|[?|[? _]]]; congruence).
    destruct (queue (ends s)) as [|p q] eqn:Eq; [|left; eexists; eapply process; eauto].
    assert ((udp_on s = true → reader (ends s) = RWait) → all_run s) as Hrun by (unfold all_run; auto).
    destruct (udp_on s) eqn:Hu; [|right; left; apply Hrun; congruence].
    destruct (reader (ends s)) eqn:Er; [left; eexists; by apply udp_top|right; left; by apply Hrun|done|done].
Qed.

(** The tasks only stop together. *)
Definition stopping (s : Beside.State) : bool := cancelled (ends s) || negb (transports_run s).

Lemma internal_stopping s s' : internal s s' → stopping s' = stopping s.
Proof.
  unfold stopping, transports_run.
  destruct 1 as [s Hu Hrd|s Hu Hrd Hc|s Hp Hc|s n Hn Hc|s Ht Hc|s p q Hpr Hqu|s Hpr Hrd Hp Hn Hqu|s Hpr Hc|s Hpr Hqu|s Hpr]; simpl.
  - rewrite Hu, Hrd. unfold reader_top, take_buffer.
    destruct (cancelled (ends s)) eqn:E, (pool (ends s)); simpl; rewrite E; done.
  - by rewrite Hc.
  - by rewrite Hc.
  - by rewrite Hc.
  - unfold transports_run in Ht. by rewrite Ht, orb_true_r.
  - done.
  - by rewrite Hp.
  - by rewrite Hc.
  - done.
  - done.
Qed.

Lemma settled_stopping s :
  (all_run s → stopping s = false) ∧ (all_stopped s → stopping s = true).
Proof.
  unfold stopping, transports_run. split.
  - intros (-> & -> & Hr & _). destruct (udp_on s); [by rewrite Hr|done].
  - by intros (-> & _).
Qed.

Lemma settled_quiet s s' : beside_inv s → all_run s ∨ all_stopped s → ¬ internal s s'.
Proof.
  intros [_ Hr _] [(Hc & Hp & Hw & Hpr & Hqu)|(Hc & Hp & Hre & Hn & Hpr & Hqu)] Hs.
  - assert (transports_run s = true) as Ht.
    { unfold transports_run. rewrite Hp. destruct (udp_on s); [by rewrite Hw|done]. }
    destruct Hs; try congruence. rewrite Hw in *; congruence.
  - destruct Hs as [| | | | |? ? ? [?|?]| | | |]; congruence.
Qed.

Lemma internal_settles s :
  beside_inv s → ∃ s', rtc internal s s' ∧ beside_inv s' ∧ (all_run s' ∨ all_stopped s').
Proof.
  intros Hi. destruct (measure_reaches internal measure beside_inv (λ s, all_run s ∨ all_stopped s))
    with s as (s' & ?); [|done|by exists s'].
  intros x Hx. destruct (progress x Hx) as [[y Hy]|?]; [left|by right].
  exists y. split_and!; [done|by eapply internal_inv|by apply internal_decreases].
Qed.

Lemma internal_run s s' :
  rtc internal s s' → beside_inv s → beside_inv s' ∧ stopping s' = stopping s.
Proof.
  induction 1 as [|x y z Hxy _ IH]; [done|]. intros Hx.
  destruct IH as [? Hst]; [by eapply internal_inv|]. split; [done|].
  by rewrite Hst, (internal_stopping x y).
Qed.

(** C36: Beside a pipe, under every interleaving of the UDP reader, the pipe server, its
    clients, the supervisor and the processing loop: the queue stays within its capacity
    and accounts for every packet; and, left to themselves, the tasks settle, all of them
    waiting for clients, or, as soon as one transport has stopped or the caller cancels,
    all of them stopped. *)
Theorem pipe_all_or_nothing udp s :
  rtc (Beside.step queue_size) (start udp) s →
  (length (queue (ends s)) ≤ queue_size)%nat ∧
  accepted (ends s) = processed (ends s) ++ lost (ends s) ++ queue (ends s) ∧
  zlen (received (ends s)) = zlen (accepted (ends s)) + dropped (ends s) + zlen (refused (ends s)) ∧
  (cancelled (ends s) = false → lost (ends s) = []) ∧
  (∃ s', rtc internal s s' ∧ ∀ s'', ¬ internal s' s'') ∧
  (∀ s', rtc internal s s' → (∀ s'', ¬ internal s' s'') →
     if stopping s then all_stopped s' else all_run s').
Proof.
  intros Hinv%beside_reach. destruct (bi_queue _ Hinv) as [Hb Hf _ Hc _ _ Hu].
  split_and!; try done.
  - intros Hca. destruct Hu as [?|[? _]]; [congruence|done].
  - destruct (internal_settles s Hinv) as (s' & Hr & Hi & Hs). exists s'. split; [done|].
    intros s''. by apply settled_quiet.
  - intros s' Hr Hno. destruct (internal_run s s' Hr Hinv) as [Hi Hst]. rewrite <- Hst.
    destruct (settled_stopping s') as [Hrun Hstop].
    destruct (progress s' Hi) as [[s'' Hs]|[H|H]]; [by destruct (Hno s'')|..].
    + by rewrite (Hrun H).
    + by rewrite (Hstop H).
Qed.
End Server.
End BesideFacts.

(** * Examples *)
Module DogStatsDServerExamples.
Import Queue Beside BesideFacts.

(** The UDP reader fails while the pipe server waits. *)
Definition broken : ReadFailure := {| kind := OtherKind; raw_os_error := Some 10038 |}.
Definition waiting : Beside.State := with_ends (start true) (reader_top (ends (start true))).
Definition failed : Beside.State := udp_read 4 waiting (Failed broken).

Lemma pipe_all_or_nothing_witness : ∃ s', rtc internal failed s' ∧ all_stopped s'.
Proof.
  assert (rtc (Beside.step 4) (start true) failed) as Hr.
  { eapply rtc_l; [left; by apply udp_top|]. eapply rtc_l; [right; by apply (udp_arrives _ _ (Failed broken))|].
    apply rtc_refl. }
  destruct (pipe_all_or_nothing 4 true failed Hr) as (_ & _ & _ & _ & (s' & Hs & Hno) & H).
  exists s'. split; [exact Hs|]. exact (H s' Hs Hno).
Defined.

(** A large datagram is skipped. *)
Example large_datagram : reader (ends (udp_read 4 waiting
  (Failed {| kind := OtherKind; raw_os_error := Some 10040 |}))) = RTop.
Proof. reflexivity. Qed.

#[local] Instance sockets : UdpSockets := {|
  SocketAddr := string; IoError := string; invalid_input e := e;
  lookup_host a := Ok [a]; socket_new := Ok tt; set_recv_buffer_size _ := Ok tt;
  set_nonblocking := Ok tt;
  socket_bind a := if String.eqb a "0.0.0.0:8125" then Err "in use" else Ok tt; from_std := Ok tt |}.
Definition config (port : Z) : DogStatsDConfig :=
  {| host := "0.0.0.0"; port := port; metric_namespace := None; windows_pipe_name := Some "p";
     so_rcvbuf := None; buffer_size := Some 0; queue_size := None |}.

Example taken_port :
  dogstatsd_new false (config 8125) = None ∧
  (transport <$> dogstatsd_new true (config 8125)) = Some (DogStatsDServer.NamedPipe "p" None) ∧
  (transport <$> dogstatsd_new true (config 0)) = Some (DogStatsDServer.NamedPipe "p" None).
Proof. split_and!; reflexivity. Qed.

Lemma dogstatsd_new_spec_witness :
  match dogstatsd_new false (config 8126) with Some server => 0 < server_buf_size server | None => False end.
Proof.
  pose proof (dogstatsd_new_spec false (config 8126)) as H.
  destruct (dogstatsd_new false (config 8126)) as [server|] eqn:E; [|discriminate E].
  apply H; cbn; [intros n [= <-]; lia|discriminate].
Defined.
End DogStatsDServerExamples.
