(* ===== verification/AgentServer.v ===== *)
(** The tasks of the trace agent: [start_mini_agent], [serve_accept_loop_tcp],
    [serve_accept_loop_named_pipe] and the supervision of [serve] in
    [datadog-trace-agent/src/mini_agent.rs].

    Both accept loops are one transition system, over the connections of their join set;
    module [Supervised] runs them with the supervisor of [serve], whose actions after the
    first event are those of [MiniAgent.serve]. *)
From Stdlib Require Import Ascii.
From S2P Require Import Prelude RStr MiniAgent DogStatsDServer.

Definition TRACER_PAYLOAD_CHANNEL_BUFFER_SIZE : Z := 10.
Definition STATS_PAYLOAD_CHANNEL_BUFFER_SIZE : Z := 10.
Definition PROXY_PAYLOAD_CHANNEL_BUFFER_SIZE : Z := 10.

(** * Start-up *)

Inductive Listening := { on_tcp : bool; on_pipe : option string }.
Inductive AgentStart :=
  | ProcessExit
  | BindFailed (e : string)
  | Listening_on (l : Listening).

(** [start_mini_agent] up to [serve]: [verified] is what the verifier gives, nothing when
    it exits the process; [bind] is the bind of the receiver port. *)
Definition start_mini_agent {Metadata} (verified : option Metadata) (windows_pipes : bool)
    (dd_apm_windows_pipe_name : option string) (bind : result unit string) : AgentStart :=
  match verified with
  | None => ProcessExit
  | Some _ =>
      let pipe := if windows_pipes then dd_apm_windows_pipe_name else None in
      match pipe, bind with
      | Some _, _ => Listening_on {| on_tcp := is_ok bind; on_pipe := pipe |}
      | None, Ok _ => Listening_on {| on_tcp := true; on_pipe := None |}
      | None, Err e => BindFailed e
      end
  end.

(** * The accept loops *)
Module Accept.

(** A connection: serving its requests, finishing them after the shutdown, or over. *)
Inductive Conn := Serving | Draining | Over (panicked : bool).

Definition live (c : Conn) : bool := match c with Over _ => false | _ => true end.

Inductive Pc :=
  | Accepting
  | DrainingAll
  | Returned (r : result unit ReadFailure)
  | Unwound.

(** [joinset] holds the connections not joined yet.  The ghosts count the connections
    spawned, those that ran to their end, those that panicked and those aborted with the
    join set. *)
Record Loop := {
  pc : Pc;
  joinset : list Conn;
  spawned : nat;
  completed : nat;
  panics : nat;
  aborted : nat;
}.

Definition loop_new : Loop :=
  {| pc := Accepting; joinset := []; spawned := 0; completed := 0; panics := 0; aborted := 0 |}.

Definition living (l : Loop) : nat := length (List.filter live (joinset l)).

Definition at_pc (l : Loop) (p : Pc) : Loop :=
  {| pc := p; joinset := joinset l; spawned := spawned l; completed := completed l;
     panics := panics l; aborted := aborted l |}.
Definition with_joinset (l : Loop) (js : list Conn) : Loop :=
  {| pc := pc l; joinset := js; spawned := spawned l; completed := completed l;
     panics := panics l; aborted := aborted l |}.

(** The task ends, by returning or by unwinding: its join set is dropped. *)
Definition leave (l : Loop) (p : Pc) : Loop :=
  {| pc := p; joinset := []; spawned := spawned l; completed := completed l;
     panics := panics l; aborted := aborted l + living l |}.

(** What [accept], or the creation of a pipe and its [connect], gives. *)
Definition on_accept (l : Loop) (r : result unit ReadFailure) : Loop :=
  match r with
  | Ok _ =>
      {| pc := pc l; joinset := joinset l ++ [Serving]; spawned := S (spawned l);
         completed := completed l; panics := panics l; aborted := aborted l |}
  | Err e => if is_connection_error e then l else leave l (Returned (Err e))
  end.

(** A task joined, in the loop or while draining. *)
Definition on_join (l : Loop) (i : nat) (panicked : bool) : Loop :=
  if panicked then leave (with_joinset l (delete i (joinset l))) Unwound
  else with_joinset l (delete i (joinset l)).

(** A connection is over. *)
Definition conn_over (l : Loop) (i : nat) (panicked : bool) : Loop :=
  {| pc := pc l; joinset := <[i := Over panicked]> (joinset l); spawned := spawned l;
     completed := if panicked then completed l else S (completed l);
     panics := if panicked then S (panics l) else panics l; aborted := aborted l |}.

(** The steps of the loop and of its connections; [shutdown] tells whether the shutdown
    was signalled. *)
Inductive step (shutdown : bool) : Loop → Loop → Prop :=
  | accepts l r : pc l = Accepting → step shutdown l (on_accept l r)
  | joins l i p : pc l = Accepting ∨ pc l = DrainingAll → joinset l !! i = Some (Over p) →
      step shutdown l (on_join l i p)
  | sees_shutdown l : pc l = Accepting → shutdown = true → step shutdown l (at_pc l DrainingAll)
  | drained l : pc l = DrainingAll → joinset l = [] → step shutdown l (at_pc l (Returned (Ok tt)))
  | conn_ends l i c p : joinset l !! i = Some c → live c = true → step shutdown l (conn_over l i p)
  | conn_shutdown l i : joinset l !! i = Some Serving → shutdown = true →
      step shutdown l (with_joinset l (<[i := Draining]> (joinset l))).

Definition ended (l : Loop) : bool :=
  match pc l with Returned _ | Unwound => true | _ => false end.
End Accept.

(** * The loops and their supervisor *)
Module Supervised.
Import Accept.

(** Where [serve] is: waiting for the first event, draining the transports after the
    shutdown, waiting for the stats flusher it told to flush, or done. *)
Inductive Pc :=
  | Selecting
  | AwaitTcp
  | AwaitPipe
  | Signalled
  | Finished (r : result unit string).

Record State := {
  shutdown : bool;
  tcp : option Loop;
  pipe : option Loop;
  supervisor : Pc;
  (** ghost: the final flush was asked for *)
  flush_signalled : bool;
}.

Definition start (l : Listening) : State :=
  {| shutdown := false; tcp := if on_tcp l then Some loop_new else None;
     pipe := (λ _, loop_new) <$> on_pipe l; supervisor := Selecting; flush_signalled := false |}.

Definition with_tcp (s : State) (t : option Loop) : State :=
  {| shutdown := shutdown s; tcp := t; pipe := pipe s; supervisor := supervisor s;
     flush_signalled := flush_signalled s |}.
Definition with_pipe (s : State) (p : option Loop) : State :=
  {| shutdown := shutdown s; tcp := tcp s; pipe := p; supervisor := supervisor s;
     flush_signalled := flush_signalled s |}.
Definition at_pc (s : State) (p : Pc) : State :=
  {| shutdown := shutdown s; tcp := tcp s; pipe := pipe s; supervisor := p;
     flush_signalled := flush_signalled s |}.

(** The end of an optional transport. *)
Definition over (t : option Loop) : bool := match t with Some l => ended l | None => true end.

(** A task is aborted: its join set goes with it. *)
Definition abort (t : option Loop) : option Loop :=
  (λ l, if ended l then l else leave l Unwound) <$> t.

(** The surviving tasks are aborted when [serve] is done. *)
Definition finish (s : State) (r : result unit string) : State :=
  {| shutdown := shutdown s; tcp := abort (tcp s); pipe := abort (pipe s); supervisor := Finished r;
     flush_signalled := flush_signalled s |}.

(** The task whose end [serve] sees first; the shutdown has priority ([biased]). *)
Definition died (s : State) (t : TaskId) : Prop :=
  match t with
  | Tcp => ∃ l, tcp s = Some l ∧ ended l = true
  | MiniAgent.NamedPipe => ∃ l, pipe s = Some l ∧ ended l = true
  | TraceFlusher | StatsFlusher | Concentrator => True
  end.

Inductive step : State → State → Prop :=
  | signal_shutdown s :
      step s {| shutdown := true; tcp := tcp s; pipe := pipe s; supervisor := supervisor s;
                flush_signalled := flush_signalled s |}
  | tcp_step s l l' : tcp s = Some l → Accept.step (shutdown s) l l' → step s (with_tcp s (Some l'))
  | pipe_step s l l' : pipe s = Some l → Accept.step (shutdown s) l l' → step s (with_pipe s (Some l'))
  | select_shutdown s : supervisor s = Selecting → shutdown s = true → step s (at_pc s AwaitTcp)
  | select_died s t : supervisor s = Selecting → shutdown s = false → died s t →
      step s (finish s (Err (died_message t)))
  | tcp_awaited s : supervisor s = AwaitTcp → over (tcp s) = true → step s (at_pc s AwaitPipe)
  | pipe_awaited s : supervisor s = AwaitPipe → over (pipe s) = true →
      step s {| shutdown := shutdown s; tcp := tcp s; pipe := pipe s; supervisor := Signalled;
                flush_signalled := true |}
  | stats_flushed s (stats_end : result unit string) : supervisor s = Signalled →
      step s (finish s (match stats_end with
                        | Ok _ => Ok tt
                        | Err e => Err ("Stats flusher task failed during shutdown: " +:+ e)
                        end)).
End Supervised.

(** * Facts *)

(** A started agent listens on some transport; it gives up exactly when the port cannot be
    bound and no pipe is configured. *)
Theorem start_mini_agent_spec {Metadata} (m : Metadata) (windows_pipes : bool) pipe_name bind :
  match start_mini_agent (Some m) windows_pipes pipe_name bind with
  | ProcessExit => False
  | BindFailed e => bind = Err e ∧ (windows_pipes = false ∨ pipe_name = None)
  | Listening_on l =>
      on_tcp l = is_ok bind ∧ on_pipe l = (if windows_pipes then pipe_name else None) ∧
      (on_tcp l = true ∨ ∃ p, on_pipe l = Some p)
  end.
Proof.
  unfold start_mini_agent. destruct windows_pipes, pipe_name as [p|], bind as [[]|e]; simpl; eauto 6.
Qed.

Module AcceptFacts.
Import Accept.

Definition is_panicked (c : Conn) : bool := match c with Over true => true | _ => false end.
Definition panicked_conns (l : Loop) : nat := length (List.filter is_panicked (joinset l)).

Record loop_inv (shutdown : bool) (l : Loop) : Prop := {
  li_count : (spawned l = completed l + panics l + aborted l + living l)%nat;
  li_pc : match pc l with
          | Accepting => aborted l = O ∧ panics l = panicked_conns l
          | DrainingAll => shutdown = true ∧ aborted l = O ∧ panics l = panicked_conns l
          | Returned (Ok _) => shutdown = true ∧ aborted l = O ∧ panics l = O ∧ joinset l = []
          | Returned (Err _) | Unwound => joinset l = []
          end;
}.

Lemma filter_insert_count (P : Conn → bool) (js : list Conn) i c c' :
  js !! i = Some c →
  (length (List.filter P (<[i := c']> js)) + (if P c then 1 else 0)
   = length (List.filter P js) + (if P c' then 1 else 0))%nat.
Proof.
  revert i. induction js as [|x js IH]; intros [|i] Hi; [done|done|..].
  - injection Hi as ->. simpl. destruct (P c), (P c'); simpl; lia.
  - specialize (IH i Hi). simpl. destruct (P x); simpl; lia.
Qed.

Lemma filter_delete_count (P : Conn → bool) (js : list Conn) i c :
  js !! i = Some c →
  length (List.filter P js) =
    (length (List.filter P (delete i js)) + (if P c then 1 else 0))%nat.
Proof.
  revert i. induction js as [|x js IH]; intros [|i] Hi; [done|done|..].
  - injection Hi as ->. simpl. destruct (P c); simpl; lia.
  - specialize (IH i Hi). simpl. destruct (P x); simpl; lia.
Qed.

Lemma leave_inv shutdown l p :
  (spawned l = completed l + panics l + aborted l + living l)%nat →
  match p with Returned (Err _) | Unwound => True | _ => False end → loop_inv shutdown (leave l p).
Proof.
  intros Hc Hp. split; [unfold leave, living in *; simpl in *; lia|].
  by destruct p as [| |[]|].
Qed.

Lemma accept_step_inv shutdown l l' : loop_inv shutdown l → step shutdown l l' → loop_inv shutdown l'.
Proof.
  intros [Hc Hp] Hs. destruct Hs as [l r Ha|l i p Hl Hi|l Ha Hsh|l Hd Hj|l i c p Hi Hlive|l i Hi Hsh].
  - rewrite Ha in Hp. destruct r as [[]|e]; unfold on_accept.
    + split; simpl; unfold living, panicked_conns in *; simpl; rewrite !List.filter_app, !length_app; simpl;
        [lia|rewrite Ha; lia].
    + destruct (is_connection_error e); [split; [done|by rewrite Ha]|by apply leave_inv].
  - pose proof (filter_delete_count live _ _ _ Hi) as Hlv.
    pose proof (filter_delete_count is_panicked _ _ _ Hi) as Hpn. simpl in Hlv, Hpn.
    unfold on_join. destruct p; [apply leave_inv; [|done]|].
    + unfold living in *. simpl. lia.
    + split; [unfold living in *; simpl; lia|]. unfold panicked_conns in *. simpl.
      destruct Hl as [Hl|Hl]; rewrite Hl in *; simpl; lia || (split_and!; [tauto|tauto|lia]).
  - rewrite Ha in Hp. split; [done|]. simpl. tauto.
  - rewrite Hd in Hp. destruct Hp as (Hsh & Hab & Hpn). split; [done|]. simpl.
    unfold panicked_conns in Hpn. rewrite Hj in Hpn. done.
  - pose proof (filter_insert_count live _ _ _ (Over p) Hi) as Hlv.
    pose proof (filter_insert_count is_panicked _ _ _ (Over p) Hi) as Hpn. simpl in Hlv, Hpn.
    rewrite Hlive in Hlv. assert (is_panicked c = false) as Hcp by (by destruct c).
    rewrite Hcp in Hpn. assert (joinset l ≠ []) as Hne by (intros E; by rewrite E in Hi).
    split; [unfold living in *; simpl; destruct p; lia|]. unfold panicked_conns in *. simpl in *.
    destruct (pc l) as [| |[]|]; [destruct p; lia| |tauto|tauto|tauto].
    split_and!; [tauto|tauto|destruct p; lia].
  - pose proof (filter_insert_count live _ _ _ Draining Hi) as Hlv.
    pose proof (filter_insert_count is_panicked _ _ _ Draining Hi) as Hpn. simpl in Hlv, Hpn.
    assert (joinset l ≠ []) as Hne by (intros E; by rewrite E in Hi).
    split; [unfold living in *; simpl; lia|]. unfold panicked_conns in *. simpl in *.
    destruct (pc l) as [| |[]|]; [lia| |tauto|tauto|tauto]. split_and!; [tauto|tauto|lia].
Qed.

Lemma loop_inv_shutdown shutdown l : loop_inv shutdown l → loop_inv true l.
Proof. intros [Hc Hp]. split; [done|]. destruct (pc l) as [| |[]|]; tauto. Qed.

(** Steps left before the loop ends, once the shutdown is signalled. *)
Definition steps_left (l : Loop) : nat :=
  match pc l with
  | Accepting => 2 + length (joinset l) + living l
  | DrainingAll => 1 + length (joinset l) + living l
  | _ => 0
  end.

Lemma loop_progress l :
  ended l = false → ∃ l', step true l l' ∧ (steps_left l' < steps_left l)%nat.
Proof.
  intros He. destruct (pc l) eqn:Ep; unfold ended in He; rewrite Ep in He; try done.
  { exists (at_pc l DrainingAll). split; [by apply sees_shutdown|]. unfold steps_left. simpl. rewrite Ep.
    unfold living. simpl. lia. }
  destruct (joinset l) as [|c js] eqn:Ej.
  { exists (at_pc l (Returned (Ok tt))). split; [by apply drained|]. unfold steps_left. rewrite Ep. simpl. lia. }
  assert (joinset l !! 0%nat = Some c) as Hi by by rewrite Ej.
  destruct (live c) eqn:Hl.
  - exists (conn_over l 0 false). split; [by eapply conn_ends|].
    pose proof (filter_insert_count live _ _ _ (Over false) Hi) as Hlv. simpl in Hlv. rewrite Hl in Hlv.
    unfold steps_left, living. simpl. rewrite Ep, length_insert. lia.
  - destruct c as [| |p]; try done. exists (on_join l 0 p). split; [apply joins; auto|].
    pose proof (filter_delete_count live _ _ _ Hi) as Hlv. simpl in Hlv.
    unfold steps_left, on_join. rewrite Ep. destruct p; simpl; [lia|]. rewrite Ep. unfold living. simpl.
    rewrite Ej in *. simpl in *. lia.
Qed.

(** Once the shutdown is signalled the loop can end. *)
Lemma loop_can_end l : ∃ l', rtc (step true) l l' ∧ ended l' = true.
Proof.
  destruct (measure_reaches (step true) steps_left (λ _, True) (λ l, ended l = true)) with l
    as (l' & ? & _ & ?); [|done|by exists l'].
  intros x _. destruct (ended x) eqn:He; [by right|left].
  destruct (loop_progress x He) as (y & ? & ?). by exists y.
Qed.
End AcceptFacts.

Module SupervisedFacts.
Import Accept AcceptFacts Supervised.

Definition opt_inv (shutdown : bool) (t : option Loop) : Prop := from_option (loop_inv shutdown) True t.

Record sup_inv (s : State) : Prop := {
  si_tcp : opt_inv (shutdown s) (tcp s);
  si_pipe : opt_inv (shutdown s) (pipe s);
  si_pc : match supervisor s with
          | Selecting => flush_signalled s = false
          | AwaitTcp => shutdown s = true ∧ flush_signalled s = false
          | AwaitPipe => shutdown s = true ∧ flush_signalled s = false ∧ over (tcp s) = true
          | Signalled => shutdown s = true ∧ flush_signalled s = true ∧ over (tcp s) = true ∧ over (pipe s) = true
          | Finished r => over (tcp s) = true ∧ over (pipe s) = true ∧
              (flush_signalled s = true → shutdown s = true) ∧ (flush_signalled s = false → is_ok r = false)
          end;
}.

Lemma step_ended shutdown l l' : loop_inv shutdown l → ended l = true → Accept.step shutdown l l' → False.
Proof.
  intros [_ Hp] He Hs. unfold ended in He.
  assert (joinset l = []) as Hj by (destruct (pc l) as [| |[]|]; tauto || done).
  destruct Hs as [l r Ha|l i p [Ha|Ha] Hi|l Ha _|l Ha _|l i c p Hi _|l i Hi _]; rewrite ?Hj in *; try done;
    rewrite Ha in *; done.
Qed.

Lemma abort_inv shutdown t : opt_inv shutdown t → opt_inv shutdown (abort t) ∧ over (abort t) = true.
Proof.
  destruct t as [l|]; [|done]. simpl. intros Hi. destruct (ended l) eqn:E; [done|]. split; [|done].
  apply leave_inv; [apply Hi|done].
Qed.

Lemma opt_inv_shutdown shutdown t : opt_inv shutdown t → opt_inv true t.
Proof. destruct t; [apply loop_inv_shutdown|done]. Qed.

Lemma finish_inv s r :
  opt_inv (shutdown s) (tcp s) → opt_inv (shutdown s) (pipe s) →
  (flush_signalled s = true → shutdown s = true) → (flush_signalled s = false → is_ok r = false) →
  sup_inv (finish s r).
Proof.
  intros Ht%abort_inv Hp%abort_inv Hf Hr. split; simpl; tauto.
Qed.

Lemma sup_step_inv s s' : sup_inv s → step s s' → sup_inv s'.
Proof.
  intros [Ht Hp Hpc] Hs.
  destruct Hs as [s|s l l' El Hl|s l l' El Hl|s Hsel Hsh|s t Hsel Hsh _|s Hsup Ho|s Hsup Ho|s e Hsup].
  - split; simpl; [by eapply opt_inv_shutdown|by eapply opt_inv_shutdown|].
    destruct (supervisor s); tauto.
  - rewrite El in Ht. simpl in Ht. split; simpl; [by eapply accept_step_inv|done|].
    destruct (ended l) eqn:E; [by destruct (step_ended _ _ _ Ht E Hl)|].
    rewrite El in Hpc. simpl in Hpc. rewrite E in Hpc. destruct (supervisor s); naive_solver.
  - rewrite El in Hp. simpl in Hp. split; simpl; [done|by eapply accept_step_inv|].
    destruct (ended l) eqn:E; [by destruct (step_ended _ _ _ Hp E Hl)|].
    rewrite El in Hpc. simpl in Hpc. rewrite E in Hpc. destruct (supervisor s); naive_solver.
  - rewrite Hsel in Hpc. split; simpl; done.
  - rewrite Hsel in Hpc. apply finish_inv; [done|done|congruence|done].
  - rewrite Hsup in Hpc. split; simpl; tauto.
  - rewrite Hsup in Hpc. split; simpl; tauto.
  - rewrite Hsup in Hpc. apply finish_inv; [done|done|tauto|]. intros Hf. destruct Hpc as (_ & ? & _). congruence.
Qed.

Lemma start_sup_inv l : sup_inv (start l).
Proof. split; [by destruct l as [[] p]|by destruct l as [t []]|done]. Qed.

Lemma sup_reach l s : rtc step (start l) s → sup_inv s.
Proof.
  intros Hr. remember (start l) as s0 eqn:E. assert (sup_inv s0) as Hi by (subst; apply start_sup_inv).
  clear E. induction Hr as [|x y z Hxy _ IH]; [done|]. apply IH. by eapply sup_step_inv.
Qed.

Lemma lift_tcp s l l' :
  shutdown s = true → tcp s = Some l → rtc (Accept.step true) l l' → rtc step s (with_tcp s (Some l')).
Proof.
  intros Hsh El Hr. revert s Hsh El. induction Hr as [l|l l1 l2 H1 _ IH]; intros s Hsh El.
  - destruct s. simpl in *. subst. apply rtc_refl.
  - eapply rtc_l; [apply (tcp_step s l l1); [done|by rewrite Hsh]|]. apply (IH (with_tcp s (Some l1))); done.
Qed.
Lemma lift_pipe s l l' :
  shutdown s = true → pipe s = Some l → rtc (Accept.step true) l l' → rtc step s (with_pipe s (Some l')).
Proof.
  intros Hsh El Hr. revert s Hsh El. induction Hr as [l|l l1 l2 H1 _ IH]; intros s Hsh El.
  - destruct s. simpl in *. subst. apply rtc_refl.
  - eapply rtc_l; [apply (pipe_step s l l1); [done|by rewrite Hsh]|]. apply (IH (with_pipe s (Some l1))); done.
Qed.

(** Each transport can end after the shutdown. *)
Lemma transports_end s :
  shutdown s = true →
  ∃ s', rtc step s s' ∧ over (tcp s') = true ∧ over (pipe s') = true ∧ supervisor s' = supervisor s ∧
    shutdown s' = true.
Proof.
  intros Hsh.
  assert (∃ s1, rtc step s s1 ∧ over (tcp s1) = true ∧ supervisor s1 = supervisor s ∧ shutdown s1 = true)
    as (s1 & Hr1 & Ho1 & Hs1 & Hsh1).
  { destruct (tcp s) as [l|] eqn:E; [|exists s; by rewrite E]. destruct (loop_can_end l) as (l' & Hl & He).
    exists (with_tcp s (Some l')). split; [by eapply lift_tcp|done]. }
  destruct (pipe s1) as [l|] eqn:E; [|exists s1; by rewrite E]. destruct (loop_can_end l) as (l' & Hl & He).
  exists (with_pipe s1 (Some l')). split; [|done]. etrans; [done|]. by eapply lift_pipe.
Qed.

Lemma sup_inv_run s s' : sup_inv s → rtc step s s' → sup_inv s'.
Proof. intros Hi Hr. induction Hr as [|x y z Hxy _ IH]; [done|]. apply IH. by eapply sup_step_inv. Qed.

(** After the shutdown the supervisor can get to the last flush. *)
Lemma can_signal s :
  sup_inv s → shutdown s = true → (∀ r, supervisor s ≠ Finished r) →
  ∃ s', rtc step s s' ∧ supervisor s' = Signalled.
Proof.
  intros Hi Hsh Hnf. destruct (transports_end s Hsh) as (s1 & Hr1 & Ho1 & Ho2 & Hs1 & _).
  assert (∀ s2, supervisor s2 = AwaitPipe → over (pipe s2) = true →
    ∃ s', rtc step s2 s' ∧ supervisor s' = Signalled) as Hpipe.
  { intros s2 E Ho. eexists. split; [by apply rtc_once, pipe_awaited|done]. }
  assert (∀ s2, supervisor s2 = AwaitTcp → over (tcp s2) = true → over (pipe s2) = true →
    ∃ s', rtc step s2 s' ∧ supervisor s' = Signalled) as Htcp.
  { intros s2 E Ho Ho'. destruct (Hpipe (at_pc s2 AwaitPipe)) as (s' & Hr' & H'); [done|done|].
    exists s'. split; [|done]. eapply rtc_l; [by apply tcp_awaited|done]. }
  assert (∃ s', rtc step s1 s' ∧ supervisor s' = Signalled) as (s' & Hr' & H').
  { destruct (supervisor s1) as [| | | |r] eqn:E;
      [|by apply Htcp|by apply Hpipe|by exists s1|by destruct (Hnf r); rewrite <- Hs1].
    destruct (Htcp (at_pc s1 AwaitTcp)) as (s' & Hr' & H'); [done..|].
    exists s'. split; [|done]. eapply rtc_l; [|done]. apply select_shutdown; [done|].
    clear -Hsh Hr1. induction Hr1 as [|x y z Hxy _ IH]; [done|]. apply IH. by destruct Hxy. }
  exists s'. split; [by etrans|done].
Qed.

(** What is running when the last flush is asked for: no connection. *)
Definition running (t : option Loop) : nat := match t with Some l => living l | None => O end.

Lemma over_running shutdown t : opt_inv shutdown t → over t = true → running t = O.
Proof.
  destruct t as [l|]; [|done]. simpl. intros [_ Hp] Ho. unfold ended in Ho. unfold living.
  destruct (pc l) as [| |[]|]; try done; [destruct Hp as (_ & _ & _ & ->)|rewrite Hp|rewrite Hp]; done.
Qed.

Lemma signalled_running s :
  sup_inv s → flush_signalled s = true → running (tcp s) = O ∧ running (pipe s) = O.
Proof.
  intros [Ht Hp Hpc] Hf. assert (over (tcp s) = true ∧ over (pipe s) = true) as [? ?].
  { destruct (supervisor s); destruct_and?; try congruence; tauto. }
  split; by eapply over_running.
Qed.

(** The supervisor ends well only from its wait for the last flush, and once. *)
Lemma finish_from s s' r :
  step s s' → supervisor s' = Finished r →
  supervisor s = Finished r ∨ supervisor s = Signalled ∨ (supervisor s = Selecting ∧ is_ok r = false).
Proof.
  intros Hs E. destruct Hs; simpl in E; auto; try congruence. injection E as <-. auto.
Qed.

Lemma finished_stays s s' r : rtc step s s' → supervisor s = Finished r → supervisor s' = Finished r.
Proof.
  intros Hr. induction Hr as [|x y z Hxy _ IH]; [done|]. intros E. apply IH.
  destruct Hxy; simpl in *; congruence.
Qed.

(** C37: Under every interleaving of the accept loops, their connections and the
    supervisor: the final flush of the statistics is asked for only after the shutdown and
    once no connection runs any more, a transport that drained without an error having
    served all its connections to their end; the agent ends well only after that flush;
    a transport never drops a connection before it ends; and after the shutdown, unless
    a task had died first, the agent can reach its end through that flush. *)
Theorem flush_after_drain l s :
  rtc step (start l) s →
  (flush_signalled s = true → shutdown s = true ∧ over (tcp s) = true ∧ over (pipe s) = true) ∧
  (∀ t, tcp s = Some t ∨ pipe s = Some t →
     (ended t = true → joinset t = []) ∧ (ended t = false → aborted t = O) ∧
     (pc t = Returned (Ok tt) → shutdown s = true ∧ spawned t = completed t)) ∧
  (∀ r, supervisor s = Finished r → is_ok r = true → flush_signalled s = true) ∧
  (shutdown s = true → (∀ r, supervisor s ≠ Finished r) →
     ∃ s', rtc step s s' ∧ supervisor s' = Finished (Ok tt) ∧ flush_signalled s' = true).
Proof.
  intros Hinv%sup_reach. pose proof Hinv as [Ht Hp Hpc]. split_and!.
  - intros Hf. destruct (supervisor s); try (destruct_and?; congruence); tauto.
  - intros t Hin. assert (loop_inv (shutdown s) t) as [Hc Hl].
    { destruct Hin as [E|E]; [by rewrite E in Ht|by rewrite E in Hp]. }
    unfold ended. split_and!.
    + destruct (pc t) as [| |[]|]; tauto || done.
    + destruct (pc t) as [| |[]|]; tauto || done.
    + intros E. rewrite E in Hl. destruct Hl as (? & Ha & Hpn & Hj). split; [done|].
      unfold living in Hc. rewrite Hj in Hc. simpl in Hc. lia.
  - intros r E Hr. rewrite E in Hpc. destruct Hpc as (_ & _ & _ & Hf).
    destruct (flush_signalled s); [done|]. rewrite Hf in Hr; done.
  - intros Hsh Hnf. destruct (can_signal s Hinv Hsh Hnf) as (s1 & Hr1 & E).
    exists (finish s1 (Ok tt)). split_and!; [|done|].
    + eapply rtc_r; [done|]. by apply (stats_flushed s1 (Ok tt)).
    + destruct (sup_inv_run s s1 Hinv Hr1) as [_ _ Hpc1]. rewrite E in Hpc1. tauto.
Qed.
End SupervisedFacts.

(** * Examples *)
Module AgentServerExamples.
Import Accept Supervised SupervisedFacts.

Definition tcp_only : Listening := {| on_tcp := true; on_pipe := None |}.
Definition one_conn : State := with_tcp (start tcp_only) (Some (on_accept loop_new (Ok tt))).

Lemma flush_after_drain_witness :
  ∃ s s', rtc step one_conn s ∧ shutdown s = true ∧ rtc step s s' ∧ supervisor s' = Finished (Ok tt).
Proof.
  eexists {| shutdown := true; tcp := tcp one_conn; pipe := None; supervisor := Selecting; flush_signalled := false |}.
  assert (rtc step (start tcp_only) one_conn) as H0.
  { apply rtc_once. apply (tcp_step _ loop_new); [reflexivity|]. by apply (accepts _ loop_new (Ok tt)). }
  assert (rtc step one_conn {| shutdown := true; tcp := tcp one_conn; pipe := None;
    supervisor := Selecting; flush_signalled := false |}) as H1 by (apply rtc_once, (signal_shutdown one_conn)).
  edestruct (flush_after_drain tcp_only) as (_ & _ & _ & H); [etrans; [exact H0|exact H1]|].
  destruct H as (s' & Hr & Hs & _); [done|done|]. exists s'. split_and!; [exact H1|done|exact Hr|exact Hs].
Defined.
End AgentServerExamples.
