(* ===== verification/TraceFlusher.v ===== *)
(** Shipping of the traces: [datadog-trace-agent/src/trace_flusher.rs].

    The task that receives the payloads and the loop that flushes share the aggregator
    of [TraceAggregator] under a mutex; they are a transition system over all their
    interleavings.  The HTTP client and [SendData::send] are parameters. *)
From Stdlib Require Import Ascii.
From S2P Require Import Prelude RStr TraceAggregator AgentServer.

(** * The HTTP client *)

Section Client.
(** Parsing a proxy, building a connector over it and without it. *)
Context {Uri : Type} (parse_uri : string → result Uri string).
Context (from_proxy : Uri → result unit string) (connector_new : result unit string).

Record ProxyHttpClient := { https_proxy : option Uri; pool_max_idle_per_host : option Z }.

Definition with_proxy_pooling (proxy_https : option string) (connection_pooling : bool) :
    result ProxyHttpClient string :=
  let? proxy :=
    match proxy_https with
    | Some proxy =>
        let? uri := parse_uri proxy in
        let? _ := from_proxy uri in Ok (Some uri)
    | None => let? _ := connector_new in Ok None
    end in
  Ok {| https_proxy := proxy;
        pool_max_idle_per_host := if connection_pooling then None else Some 0 |}.

Definition with_proxy (proxy_https : option string) : result ProxyHttpClient string :=
  with_proxy_pooling proxy_https true.

Inductive HttpError := Network (e : string) | ResponseBody (e : string).

(** [request]: the head of the response, then its body. *)
Definition request {Head} (answer : result (Head * result (list ascii) string) string) :
    result (Head * list ascii) HttpError :=
  match answer with
  | Err e => Err (Network e)
  | Ok (parts, body) =>
      match body with
      | Err e => Err (ResponseBody e)
      | Ok collected => Ok (parts, collected)
      end
  end.
End Client.

(** * The flusher *)
Section Flusher.
Context {SendData : Type} (len : SendData → Z).
(** [coalesce_send_data] *)
Context (coalesce : list SendData → list SendData).

(** What [send] does with a batch: the payloads it sends, none when there is no client. *)
Definition send (client : result unit string) (traces : list SendData) : list SendData :=
  match traces with
  | [] => []
  | _ => match client with Ok _ => coalesce traces | Err _ => [] end
  end.

(** The channel, the payload the receiving task has in hand, the aggregator and, while
    [flush] holds its lock, the batch being sent.  The ghosts record the payloads the
    channel accepted and the batches handed to [send]. *)
Record State := {
  channel : list SendData;
  in_hand : option SendData;
  aggregator : @TraceAggregator SendData;
  flushing : option (list SendData);
  accepted : list SendData;
  handed : list (list SendData);
}.

Definition init : State :=
  {| channel := []; in_hand := None; aggregator := trace_aggregator_default; flushing := None;
     accepted := []; handed := [] |}.

(** A handler sends a payload: it waits while the channel is full. *)
Definition send_payload (s : State) (p : SendData) : State :=
  {| channel := channel s ++ [p]; in_hand := in_hand s; aggregator := aggregator s;
     flushing := flushing s; accepted := accepted s ++ [p]; handed := handed s |}.

(** [rx.recv()] *)
Definition receive (s : State) (p : SendData) (rest : list SendData) : State :=
  {| channel := rest; in_hand := Some p; aggregator := aggregator s; flushing := flushing s;
     accepted := accepted s; handed := handed s |}.

(** [guard.add(tracer_payload)], with the lock. *)
Definition add_received (s : State) (p : SendData) : State :=
  {| channel := channel s; in_hand := None; aggregator := add (aggregator s) p; flushing := flushing s;
     accepted := accepted s; handed := handed s |}.

(** A batch taken by [flush]: the lock is released when it is empty. *)
Definition next_batch (s : State) (sent : list (list SendData)) : State :=
  let '(traces, aggregator) := get_batch len (aggregator s) in
  {| channel := channel s; in_hand := in_hand s; aggregator := aggregator;
     flushing := match traces with [] => None | _ => Some traces end;
     accepted := accepted s; handed := sent |}.

(** The steps of the receiving task and of the flushes. *)
Inductive internal : State → State → Prop :=
  | task_receives s p rest : in_hand s = None → channel s = p :: rest → internal s (receive s p rest)
  | task_adds s p : in_hand s = Some p → flushing s = None → internal s (add_received s p)
  | flush_starts s : flushing s = None → internal s (next_batch s (handed s))
  | batch_sent s traces : flushing s = Some traces → internal s (next_batch s (handed s ++ [traces])).

Inductive step : State → State → Prop :=
  | handler_sends s p : zlen (channel s) < TRACER_PAYLOAD_CHANNEL_BUFFER_SIZE → step s (send_payload s p)
  | flusher_step s s' : internal s s' → step s s'.

(** * Facts *)

Definition limit : Z := MAX_CONTENT_SIZE_BYTES.
Definition batch_fits (b : list SendData) : Prop :=
  b ≠ [] ∧ (batch_size len b ≤ limit ∨ length b = 1%nat).

Record flusher_inv (s : State) : Prop := {
  fi_order : accepted s = concat (handed s) ++ default [] (flushing s) ++ queue (aggregator s)
               ++ option_list (in_hand s) ++ channel s;
  fi_bound : zlen (channel s) ≤ TRACER_PAYLOAD_CHANNEL_BUFFER_SIZE;
  fi_agg : max_content_size_bytes (aggregator s) = limit ∧ buffer (aggregator s) = [];
  fi_batches : Forall batch_fits (handed s ++ option_list (flushing s));
}.

Lemma take_batch_spec (a : @TraceAggregator SendData) :
  max_content_size_bytes a = limit → buffer a = [] →
  ∃ batch rest, get_batch len a = (batch, {| queue := rest; max_content_size_bytes := limit; buffer := [] |}) ∧
    queue a = batch ++ rest ∧ (batch ≠ [] → batch_fits batch) ∧ (batch = [] → queue a = []).
Proof.
  destruct a as [q max buf]. simpl. intros -> ->. unfold get_batch. simpl.
  destruct (fill_spec len limit [] q) as (taken & rest & E & -> & Hok & He); [done|done|].
  change (batch_size len []) with 0 in E. rewrite E. exists taken, rest. split_and!; try done.
  intros Hne. destruct (Hok Hne) as (? & ? & _). done.
Qed.

Lemma next_batch_inv s sent :
  flusher_inv s → Forall batch_fits sent →
  accepted s = concat sent ++ queue (aggregator s) ++ option_list (in_hand s) ++ channel s →
  flusher_inv (next_batch s sent).
Proof.
  intros [_ Hb [Hm Hbuf] _] Hs Ho. unfold next_batch.
  destruct (take_batch_spec (aggregator s) Hm Hbuf) as (batch & rest & -> & Hq & Hok & _). split; simpl; try done.
  - rewrite Ho, Hq. destruct batch; simpl; by rewrite <- ?app_assoc.
  - apply Forall_app. split; [done|]. destruct batch; [done|]. simpl. constructor; [by apply Hok|done].
Qed.

Lemma send_payload_inv s p :
  flusher_inv s → zlen (channel s) < TRACER_PAYLOAD_CHANNEL_BUFFER_SIZE → flusher_inv (send_payload s p).
Proof.
  intros [Ho Hb Ha Hf] Hl. split; simpl; try done; [|rewrite length_app; simpl; lia].
  by rewrite Ho, <- !app_assoc.
Qed.

Lemma flusher_internal_inv s s' : flusher_inv s → internal s s' → flusher_inv s'.
Proof.
  intros Hinv Hs. pose proof Hinv as [Ho Hb Ha Hf].
  destruct Hs as [s p rest Hh Hc|s p Hh Hfl|s Hfl|s traces Hfl].
  - rewrite Hh, Hc in *. split; simpl; try done. simpl in Hb. lia.
  - rewrite Hh, Hfl in *. split; simpl; rewrite ?Hfl; try done. simpl in Ho. by rewrite Ho, <- !app_assoc.
  - rewrite Hfl in *. simpl in *. apply next_batch_inv; [done| |done]. by rewrite app_nil_r in Hf.
  - rewrite Hfl in *. simpl in *. apply next_batch_inv; [done|done|].
    rewrite Ho, concat_app. simpl. by rewrite app_nil_r, <- !app_assoc.
Qed.

Lemma init_inv : flusher_inv init.
Proof. split; simpl; try done. Qed.

Lemma flusher_reach s : rtc step init s → flusher_inv s.
Proof.
  intros Hr. remember init as s0 eqn:E. assert (flusher_inv s0) as Hi by (subst; apply init_inv).
  clear E. induction Hr as [|x y z [? ? ?|? ? ?] _ IH]; [done|..]; apply IH.
  - by apply send_payload_inv.
  - by eapply flusher_internal_inv.
Qed.

Lemma internal_accepted s s' : internal s s' → accepted s' = accepted s.
Proof. by destruct 1 as [| |s ?|s ? ?]; unfold next_batch; try destruct (get_batch _ _). Qed.

(** What a flush has left: each batch it takes shortens the queue. *)
Definition flush_left (s : State) : nat :=
  2 * length (queue (aggregator s)) + match flushing s with Some _ => 1 | None => 0 end.

Definition flushed (s : State) : Prop := flushing s = None ∧ queue (aggregator s) = [].

Lemma next_batch_left s sent :
  flusher_inv s → queue (aggregator s) ≠ [] ∨ is_Some (flushing s) →
  (flush_left (next_batch s sent) < flush_left s)%nat ∧
  channel (next_batch s sent) = channel s ∧ in_hand (next_batch s sent) = in_hand s.
Proof.
  intros [_ _ [Hm Hbuf] _] Hleft. unfold flush_left, next_batch.
  destruct (take_batch_spec (aggregator s) Hm Hbuf) as (batch & rest & -> & Hq & _ & He). simpl.
  split; [|done]. destruct batch as [|p batch]; rewrite Hq.
  - specialize (He eq_refl). rewrite He in *. destruct Hleft as [?|[traces ->]]; [done|].
    simpl in Hq. subst rest. simpl. lia.
  - rewrite length_app. simpl. lia.
Qed.

Lemma flush_progress s :
  flusher_inv s → (∃ s', internal s s' ∧ (flush_left s' < flush_left s)%nat ∧
                         channel s' = channel s ∧ in_hand s' = in_hand s) ∨ flushed s.
Proof.
  intros Hi. unfold flushed. destruct (flushing s) as [traces|] eqn:Hfl.
  - left. exists (next_batch s (handed s ++ [traces])). split; [by apply batch_sent|].
    apply next_batch_left; eauto.
  - destruct (queue (aggregator s)) as [|p q] eqn:Hq; [by right|left].
    exists (next_batch s (handed s)). split; [by apply flush_starts|].
    apply next_batch_left; [done|]. left. by rewrite Hq.
Qed.

(** What the task and the flushes have left of all the channel accepted. *)
Definition shipping_left (s : State) : nat :=
  4 * length (channel s) + 3 * length (option_list (in_hand s)) + flush_left s.

Definition all_shipped (s : State) : Prop :=
  flushed s ∧ in_hand s = None ∧ channel s = [].

Lemma shipping_progress s :
  flusher_inv s → (∃ s', internal s s' ∧ (shipping_left s' < shipping_left s)%nat) ∨ all_shipped s.
Proof.
  intros Hi. unfold shipping_left.
  destruct (flush_progress s Hi) as [(s' & Hs & Hlt & Hc & Hh)|[Hfl Hq]];
    [left; exists s'; rewrite Hc, Hh; split; [done|lia]|].
  destruct (in_hand s) as [p|] eqn:Hh.
  - left. exists (add_received s p). split; [by apply task_adds|].
    unfold flush_left, add_received. simpl. rewrite Hfl, length_app. simpl. lia.
  - destruct (channel s) as [|p rest] eqn:Hc; [by right|left].
    exists (receive s p rest). split; [by apply task_receives|]. unfold flush_left. simpl. lia.
Qed.

(** Under every interleaving of the handlers, the receiving task and the flushes, every
    payload the channel accepted is handed to [send] exactly once and in the order it was
    accepted, or still in the batch being sent, the aggregator, the task's hand or the
    channel; batches are within the limit or made of one payload; and an undisturbed
    flush empties the aggregator. *)
Theorem trace_flusher_conserves s :
  rtc step init s →
  accepted s = concat (handed s) ++ default [] (flushing s) ++ queue (aggregator s)
                 ++ option_list (in_hand s) ++ channel s ∧
  zlen (channel s) ≤ TRACER_PAYLOAD_CHANNEL_BUFFER_SIZE ∧
  Forall batch_fits (handed s ++ option_list (flushing s)) ∧
  ∃ s', rtc step s s' ∧ flushing s' = None ∧ queue (aggregator s') = [] ∧ channel s' = channel s ∧
    in_hand s' = in_hand s ∧ accepted s' = accepted s.
Proof.
  intros Hr. pose proof (flusher_reach s Hr) as Hinv. pose proof Hinv as [Ho Hb Ha Hf].
  split_and!; try done.
  destruct (measure_reaches internal flush_left
    (λ s', flusher_inv s' ∧ channel s' = channel s ∧ in_hand s' = in_hand s ∧ accepted s' = accepted s) flushed)
    with s as (s' & Hs' & (_ & ? & ? & ?) & ? & ?); [|done|].
  - intros x (Hx & Hc & Hh & Hacc). destruct (flush_progress x Hx) as [(y & Hxy & Hlt & Hc' & Hh')|?]; [left|by right].
    exists y. split_and!; [done|by eapply flusher_internal_inv|congruence|congruence| |done].
    by rewrite (internal_accepted _ _ Hxy).
  - exists s'. split_and!; try done. eapply rtc_subrel; [|exact Hs']. intros. by apply flusher_step.
Qed.
End Flusher.

(** * Examples *)
Module TraceFlusherExamples.
Definition two : @State Z := send_payload (send_payload init 3000000) 1000000.

Lemma trace_flusher_conserves_witness :
  ∃ s', rtc (step id) two s' ∧ accepted s' = [3000000; 1000000] ∧ channel s' = [3000000; 1000000].
Proof.
  assert (rtc (step id) init two) as Hr.
  { eapply rtc_l; [by apply (handler_sends id init 3000000)|]. apply rtc_once. by apply handler_sends. }
  destruct (trace_flusher_conserves id two Hr) as (_ & _ & _ & s' & Hs & _ & _ & Hc & _ & Ha).
  exists s'. split_and!; done.
Defined.

Example no_client : send id (Err "proxy") [1; 2] = [].
Proof. reflexivity. Qed.
End TraceFlusherExamples.
