(* ===== verification/TracesPipeline.v ===== *)
(** The path of the traces through the agent: [ServerlessTraceProcessor] of
    [datadog-trace-agent/src/trace_processor.rs], the flusher of [trace_flusher.rs] and the
    concentrator of [stats_concentrator_service.rs].

    Requests hold one of ten permits from before their body is read until the task that
    hands their pieces to the flusher ends.  A request that gets none in time is shed:
    answered with a success, its traces dropped.  The requests, those tasks, the flusher and
    the concentrator run concurrently: a transition system whose steps are those of
    [process_traces] around its waits, the sends to the bounded channel, the steps of
    [TraceFlusher] and those of the concentrator's service.

    The processor sends the chunks to the concentrator and then samples under a lock;
    [finishes] makes them one step, as the two concern states that share nothing. *)
From Stdlib Require Import SpecFloat.
From S2P Require Import Prelude RStr Float Actor ScoreSampler TraceAggregator TraceProcessor Stats AgentServer TraceFlusher.

Definition MAX_IN_FLIGHT_ENQUEUES : nat := 10.

Section TracesPipeline.
Context `{Hpb : PbTypes, !TraceUtils, !MapOrder, !SpanConcentrator, !ConcentratorOrder}.

#[local] Abbreviation Concentrator :=
  (Service (gmap TracerMetadata concentrator) Timed StatsResponse).

(** * The state *)

(** A request for [process_traces]: its headers, what its body decodes to, and the clocks
    read while it is processed. *)
Record TraceRequest := {
  tr_headers : Headers;
  tr_decoded : result (Z * raw_traces) string;
  tr_clock : Z;
  tr_stats_clock : TracerMetadata → Z;
}.

(** Ghost: a request whose task was spawned, with the rescue state it found and what the
    processor made of it. *)
Record Buffered := {
  bf_request : TraceRequest;
  bf_before : ErrorRescueState;
  bf_processed : Processed;
}.

(** [decoding] are the requests that hold a permit and have no task yet, [enqueues] the
    tasks, with the pieces left to send, under the number of their request.  A piece goes
    with that number, which is a ghost; so are [buffered] and [replies], the requests
    answered so far with their answers. *)
Record Pipeline := {
  enqueue_permits : nat;
  error_rescue_state : ErrorRescueState;
  stats_concentrator : option Concentrator;
  decoding : list TraceRequest;
  enqueues : gmap nat (list SendData);
  flusher : @State (nat * SendData);
  buffered : list Buffered;
  replies : list (TraceRequest * HttpResponse);
}.

Context (config : ProcessorConfig) (error_sampler : ErrorSamplerConfig) (stats_config : StatsConfig).

(** [ServerlessTraceProcessor::new], with the services around it. *)
Definition start (with_concentrator : bool) : Pipeline :=
  {| enqueue_permits := MAX_IN_FLIGHT_ENQUEUES; error_rescue_state := rescue_new error_sampler;
     stats_concentrator := if with_concentrator then Some stats_service_new else None;
     decoding := []; enqueues := ∅; flusher := init; buffered := []; replies := [] |}.

Definition error_rescue_enabled : bool := negb (is_disabled (sampler (rescue_new error_sampler))).

Definition verified (req : TraceRequest) : bool :=
  match verify_request_content_length (tr_headers req) (max_request_content_length config)
          "Error processing traces" with
  | Some _ => false
  | None => true
  end.

(** [acquire_owned]: a request that passes the check takes a permit, or waits. *)
Definition acquire (p : Pipeline) (req : TraceRequest) : Pipeline :=
  {| enqueue_permits := pred (enqueue_permits p); error_rescue_state := error_rescue_state p;
     stats_concentrator := stats_concentrator p; decoding := decoding p ++ [req];
     enqueues := enqueues p; flusher := flusher p; buffered := buffered p; replies := replies p |}.

(** A request whose connection ends: its permit is dropped with it. *)
Definition cancel (p : Pipeline) (n : nat) : Pipeline :=
  {| enqueue_permits := S (enqueue_permits p); error_rescue_state := error_rescue_state p;
     stats_concentrator := stats_concentrator p; decoding := delete n (decoding p);
     enqueues := enqueues p; flusher := flusher p; buffered := buffered p; replies := replies p |}.

(** [send_to_concentrator]: an error is logged, and the next chunk is sent. *)
Definition add_chunks (c : Concentrator) (clock : TracerMetadata → Z)
    (chunks : list (TraceChunk * TracerMetadata)) : Concentrator :=
  fold_left (λ c x, default c (add_chunk c x.1 x.2 clock)) chunks c.

(** An answer sent. *)
Definition replied (p : Pipeline) (req : TraceRequest) (resp : HttpResponse) : Pipeline :=
  {| enqueue_permits := enqueue_permits p; error_rescue_state := error_rescue_state p;
     stats_concentrator := stats_concentrator p; decoding := decoding p; enqueues := enqueues p;
     flusher := flusher p; buffered := buffered p; replies := replies p ++ [(req, resp)] |}.

(** [process_traces] of a request that gets no permit: refused by the check, or shed when
    none came in time.  It holds none to give back and spawns no task. *)
Definition turn_away (p : Pipeline) (req : TraceRequest) : option (HttpResponse * Pipeline) :=
  match process_traces config (bool_decide (is_Some (stats_concentrator p))) error_rescue_enabled
          (error_rescue_state p) (tr_headers req) false (tr_decoded req) (tr_clock req) with
  | None => None
  | Some r =>
      Some (response r,
        {| enqueue_permits := enqueue_permits p;
           error_rescue_state := rescue_state r;
           stats_concentrator :=
             (λ c, add_chunks c (tr_stats_clock req) (to_concentrator r)) <$> stats_concentrator p;
           decoding := decoding p; enqueues := enqueues p; flusher := flusher p;
           buffered := buffered p; replies := replies p ++ [(req, response r)] |})
  end.

(** [process_traces] from the permit on: its answer, and the task it spawns with the permit;
    the permit is dropped where it spawns none.  [None] is a panic. *)
Definition finish (p : Pipeline) (n : nat) (req : TraceRequest) : option (HttpResponse * Pipeline) :=
  match process_traces config (bool_decide (is_Some (stats_concentrator p))) error_rescue_enabled
          (error_rescue_state p) (tr_headers req) true (tr_decoded req) (tr_clock req) with
  | None => None
  | Some r =>
      let spawned := status (response r) =? 200 in
      Some (response r,
        {| enqueue_permits := if spawned then enqueue_permits p else S (enqueue_permits p);
           error_rescue_state := rescue_state r;
           stats_concentrator :=
             (λ c, add_chunks c (tr_stats_clock req) (to_concentrator r)) <$> stats_concentrator p;
           decoding := delete n (decoding p);
           enqueues := if spawned then <[length (buffered p) := enqueued r]> (enqueues p) else enqueues p;
           flusher := flusher p;
           buffered :=
             if spawned
             then buffered p ++ [{| bf_request := req; bf_before := error_rescue_state p; bf_processed := r |}]
             else buffered p;
           replies := replies p ++ [(req, response r)] |})
  end.

(** The spawned task: [tx.send(send_data).await] for each piece, then the permit is
    released. *)
Definition enqueue_send (p : Pipeline) (i : nat) (d : SendData) (rest : list SendData) : Pipeline :=
  {| enqueue_permits := enqueue_permits p; error_rescue_state := error_rescue_state p;
     stats_concentrator := stats_concentrator p; decoding := decoding p;
     enqueues := <[i := rest]> (enqueues p); flusher := send_payload (flusher p) (i, d);
     buffered := buffered p; replies := replies p |}.

Definition enqueue_end (p : Pipeline) (i : nat) : Pipeline :=
  {| enqueue_permits := S (enqueue_permits p); error_rescue_state := error_rescue_state p;
     stats_concentrator := stats_concentrator p; decoding := decoding p;
     enqueues := delete i (enqueues p); flusher := flusher p; buffered := buffered p; replies := replies p |}.

Definition with_flusher (p : Pipeline) (f : @State (nat * SendData)) : Pipeline :=
  {| enqueue_permits := enqueue_permits p; error_rescue_state := error_rescue_state p;
     stats_concentrator := stats_concentrator p; decoding := decoding p;
     enqueues := enqueues p; flusher := f; buffered := buffered p; replies := replies p |}.

Definition with_concentrator (p : Pipeline) (c : Concentrator) : Pipeline :=
  {| enqueue_permits := enqueue_permits p; error_rescue_state := error_rescue_state p;
     stats_concentrator := Some c; decoding := decoding p;
     enqueues := enqueues p; flusher := flusher p; buffered := buffered p; replies := replies p |}.

(** The size of a piece, whatever its number. *)
Definition piece_len (x : nat * SendData) : Z := sd_size x.2.

(** The steps of the tasks the agent has started. *)
Inductive internal : Pipeline → Pipeline → Prop :=
  | enqueue_sends p i d rest :
      enqueues p !! i = Some (d :: rest) →
      zlen (channel (flusher p)) < TRACER_PAYLOAD_CHANNEL_BUFFER_SIZE →
      internal p (enqueue_send p i d rest)
  | enqueue_ends p i : enqueues p !! i = Some [] → internal p (enqueue_end p i)
  | flusher_steps p f : TraceFlusher.internal piece_len (flusher p) f → internal p (with_flusher p f)
  | concentrator_steps p c c' :
      stats_concentrator p = Some c → serves (handle stats_config) c c' →
      internal p (with_concentrator p c').

(** The clients, and the statistics flusher that asks the concentrator.  A request is turned
    away by the check, or by the timeout while there is no permit. *)
Inductive external : Pipeline → Pipeline → Prop :=
  | turns_away p req resp p' :
      verified req = false ∨ enqueue_permits p = O → turn_away p req = Some (resp, p') → external p p'
  | acquires p req : verified req = true → enqueue_permits p ≠ O → external p (acquire p req)
  | finishes p n req resp p' :
      decoding p !! n = Some req → finish p n req = Some (resp, p') → external p p'
  | panics p n req : decoding p !! n = Some req → finish p n req = None → external p (cancel p n)
  | disconnects p n req : decoding p !! n = Some req → external p (cancel p n)
  | stats_flushes p c force tx clock c' :
      stats_concentrator p = Some c → flush_send c force tx clock = Some c' →
      external p (with_concentrator p c').

Definition step (p p' : Pipeline) : Prop := internal p p' ∨ external p p'.

(** An answer of success to a request whose traces are not dropped. *)
Definition taken_in (x : TraceRequest * HttpResponse) : Prop := status x.2 = 200 ∧ x.2 ≠ shed_reply.
#[export] Instance taken_in_dec x : Decision (taken_in x).
Proof. apply _. Defined.
End TracesPipeline.

(** * Facts *)

(** All the flusher took from the channel or has in it, oldest first. *)
Definition shipment {A} (f : @State A) : list A :=
  concat (handed f) ++ default [] (flushing f) ++ queue (aggregator f) ++ option_list (in_hand f) ++ channel f.

(** The pieces of a request. *)
Definition pieces_of {A} (i : nat) (l : list (nat * A)) : list A := (filter (λ x, x.1 = i) l).*2.

Lemma pieces_of_app {A} i (l k : list (nat * A)) : pieces_of i (l ++ k) = pieces_of i l ++ pieces_of i k.
Proof. unfold pieces_of. by rewrite filter_app, fmap_app. Qed.

Lemma pieces_of_one {A} i j (x : A) : pieces_of i [(j, x)] = if decide (j = i) then [x] else [].
Proof. unfold pieces_of. rewrite filter_cons, filter_nil. cbn [fst]. by case_decide. Qed.

Section TracesFacts.
Context `{Hpb : PbTypes, !TraceUtils, !TraceUtilsLaws, !MapOrder, !MapOrderLaw}.
Context `{!SpanConcentrator, !ConcentratorOrder, !ConcentratorOrderLaw}.
Context (config : ProcessorConfig) (error_sampler : ErrorSamplerConfig) (stats_config : StatsConfig).
Context (with_stats : bool).

#[local] Abbreviation start := (start error_sampler with_stats).
#[local] Abbreviation finish := (finish config error_sampler).
#[local] Abbreviation turn_away := (turn_away config error_sampler).
#[local] Abbreviation internal := (internal stats_config).
#[local] Abbreviation external := (external config error_sampler).
#[local] Abbreviation step := (step config error_sampler stats_config).
#[local] Abbreviation rescue_enabled := (error_rescue_enabled error_sampler).

(** The chunks among the commands of the concentrator. *)
Definition added_chunk (c : Timed) : option (TraceChunk * TracerMetadata) :=
  match c.1 with AddChunk chunk md => Some (chunk, md) | Flush _ _ => None end.

(** What the processor made of a request it answered with success. *)
Definition buffered_ok (b : Buffered) : Prop :=
  let req := bf_request b in let r := bf_processed b in
  verified config req = true ∧ sampler_inv (sampler (bf_before b)) ∧ status (response r) = 200 ∧
  process_traces config with_stats rescue_enabled (bf_before b) (tr_headers req) true (tr_decoded req)
    (tr_clock req) = Some r.

(** The pieces of a request carry its chunks, in order, unchanged but for the rates of the
    rescue; what is not split is sent as it came. *)
Definition whole (b : Buffered) : Prop :=
  ∃ body_size traces payload,
    tr_decoded (bf_request b) = Ok (body_size, traces) ∧
    collect_pb_trace_chunks traces (process_chunk (cloud_function config)) = Some (Ok payload) ∧
    match insert_function_tags (function_tags config) payload with
    | V07 ps =>
        prod_map id unrated_chunk <$> (enqueued (bf_processed b) ≫= sent_chunks) = unrated ps ∧
        Forall sent_piece (enqueued (bf_processed b))
    | other => enqueued (bf_processed b) = [{| sd_size := body_size; sd_payload := other |}]
    end.

Definition expected (p : Pipeline) (i : nat) : list SendData :=
  match buffered p !! i with Some b => enqueued (bf_processed b) | None => [] end.

Record concentrator_inv (c : Service (gmap TracerMetadata concentrator) Timed StatsResponse)
    (bs : list Buffered) : Prop := {
  ci_reach : rtc (Actor.step (handle stats_config)) stats_service_new c;
  ci_runs : stopped c = false;
  ci_chunks : omap added_chunk (sent c) = bs ≫= λ b, to_concentrator (bf_processed b);
}.

Record pipeline_inv (p : Pipeline) : Prop := {
  pi_permits : (enqueue_permits p + length (decoding p) + size (enqueues p) = MAX_IN_FLIGHT_ENQUEUES)%nat;
  pi_verified : Forall (λ req, verified config req = true) (decoding p);
  pi_sampler : sampler_inv (sampler (error_rescue_state p));
  pi_flusher : flusher_inv piece_len (flusher p);
  pi_pieces : ∀ i, pieces_of i (accepted (flusher p)) ++ default [] (enqueues p !! i) = expected p i;
  pi_tasks : ∀ i, is_Some (enqueues p !! i) → (i < length (buffered p))%nat;
  pi_buffered : Forall buffered_ok (buffered p);
  pi_replies : (filter taken_in (replies p)).*1 = bf_request <$> buffered p;
  pi_stats : is_Some (stats_concentrator p) ↔ with_stats = true;
  pi_concentrator : ∀ c, stats_concentrator p = Some c → concentrator_inv c (buffered p);
}.

Lemma traces_start_inv : pipeline_inv start.
Proof.
  split; try done.
  - cbn. apply sampler_new_inv.
  - intros i. cbn. rewrite lookup_empty. by intros [].
  - cbn. destruct with_stats; [by split|]. split; [by intros []|done].
  - cbn. destruct with_stats; [|done]. intros c [= <-]. by split.
Qed.

Lemma send_concentrator c c' cmd bs :
  concentrator_inv c bs → Actor.send c cmd = Some c' → added_chunk cmd = None → concentrator_inv c' bs.
Proof.
  intros [Hr Hs Hc] Hsend Hcmd. pose proof (send_spec _ _ _ Hsend) as [_ E]. split.
  - eapply rtc_r; [exact Hr|]. by eapply step_send.
  - by rewrite E.
  - rewrite E. cbn [sent]. rewrite omap_app, Hc. cbn. rewrite Hcmd. apply app_nil_r.
Qed.

Lemma add_chunks_inv c clock chunks :
  stopped c = false → rtc (Actor.step (handle stats_config)) stats_service_new c →
  let c' := add_chunks c clock chunks in
  stopped c' = false ∧ rtc (Actor.step (handle stats_config)) stats_service_new c' ∧
  omap added_chunk (sent c') = omap added_chunk (sent c) ++ chunks.
Proof.
  revert c. induction chunks as [|[chunk md] chunks IH]; intros c Hs Hr; cbn zeta.
  { cbn. by rewrite app_nil_r. }
  unfold add_chunks. cbn [fold_left fst snd].
  destruct (add_chunk c chunk md clock) as [c1|] eqn:E; [|by unfold add_chunk, Actor.send in E; rewrite Hs in E].
  pose proof (send_spec _ _ _ E) as [_ E1]. cbn [default from_option id].
  destruct (IH c1) as (Hs' & Hr' & Hc'); [by rewrite E1|eapply rtc_r; [exact Hr|by eapply step_send]|].
  split_and!; [done|done|]. etrans; [exact Hc'|]. rewrite E1. cbn [sent]. rewrite omap_app, <- app_assoc. done.
Qed.

(** The processor answers every request that holds a permit. *)
Lemma finish_total p n req : pipeline_inv p → is_Some (finish p n req).
Proof.
  intros Hi. unfold TracesPipeline.finish.
  destruct (process_traces_total config (bool_decide (is_Some (stats_concentrator p))) rescue_enabled
    (error_rescue_state p) (tr_headers req) true (tr_decoded req) (tr_clock req) (pi_sampler p Hi)) as (r & -> & _).
  by eexists.
Qed.

Lemma expected_app p b bs i :
  buffered p = bs ++ [b] →
  expected p i = if decide (i = length bs) then enqueued (bf_processed b)
                 else match bs !! i with Some b => enqueued (bf_processed b) | None => [] end.
Proof.
  intros E. unfold expected. rewrite E. case_decide as Hi.
  - subst i. by rewrite list_lookup_middle.
  - destruct (decide (i < length bs)%nat); [by rewrite lookup_app_l|].
    rewrite !lookup_ge_None_2; [done|lia|]. rewrite length_app. simpl. lia.
Qed.

(** One more answer. *)
Lemma replies_one (l : list (TraceRequest * HttpResponse)) req resp (bs : list Buffered) new :
  (filter taken_in l).*1 = bf_request <$> bs →
  (if decide (taken_in (req, resp)) then [req] else []) = new →
  (filter taken_in (l ++ [(req, resp)])).*1 = (bf_request <$> bs) ++ new.
Proof. intros E <-. rewrite filter_app, fmap_app, E, filter_cons, filter_nil. by case_decide. Qed.

(** A request turned away changes nothing: it is refused, or shed with a success. *)
Lemma turn_away_spec p req :
  ∃ resp, turn_away p req = Some (resp, replied p req resp) ∧
    if verified config req then resp = shed_reply else status resp ≠ 200.
Proof.
  unfold TracesPipeline.turn_away, verified. rewrite process_traces_shed. eexists. split.
  - unfold replied. cbn [response rescue_state to_concentrator]. do 3 f_equal.
    by destruct (stats_concentrator p).
  - destruct (verify_request_content_length _ _ _) as [resp|] eqn:E; [|done]. by apply verify_refuses in E.
Qed.

Lemma turn_away_inv p req resp p' :
  pipeline_inv p → turn_away p req = Some (resp, p') → pipeline_inv p' ∧ p' = replied p req resp.
Proof.
  intros [Hp Hv Hs Hfl Hpc Ht Hb Hrp Hst Hc] E. destruct (turn_away_spec p req) as (r & E' & Hr).
  rewrite E in E'. injection E' as -> ->. split; [|done].
  split; cbn [replied enqueue_permits error_rescue_state stats_concentrator decoding enqueues flusher buffered replies]; try done.
  rewrite <- (app_nil_r (bf_request <$> _)). apply replies_one; [done|].
  rewrite decide_False; [done|]. intros [? ?]. cbn in *. by destruct (verified config req).
Qed.

Lemma traces_finish_inv p n req resp p' :
  pipeline_inv p → decoding p !! n = Some req → finish p n req = Some (resp, p') → pipeline_inv p'.
Proof.
  intros Hi Hn Hf. unfold TracesPipeline.finish in Hf.
  pose proof Hi as [Hp Hv Hs Hfl Hpc Ht Hb Hrp Hst Hc].
  assert (bool_decide (is_Some (stats_concentrator p)) = with_stats) as Ews.
  { destruct with_stats; [by apply bool_decide_eq_true, Hst|].
    apply bool_decide_eq_false. intros ?%Hst. done. }
  rewrite Ews in Hf.
  destruct (process_traces_cases config with_stats rescue_enabled (error_rescue_state p) (tr_headers req) true
    (tr_decoded req) (tr_clock req) Hs) as (r & E & Hs' & _ & Hno & _).
  rewrite E in Hf. injection Hf as <- <-.
  pose proof (Forall_lookup_1 _ _ _ _ Hv Hn) as Hvr. cbn beta in Hvr.
  assert (length (delete n (decoding p)) = (length (decoding p) - 1)%nat) as Hl by (rewrite length_delete; eauto). pose proof (lookup_lt_Some _ _ _ Hn) as Hln.
  assert (enqueues p !! length (buffered p) = None) as Hfresh.
  { apply eq_None_not_Some. intros Hsm%Ht. lia. }
  assert (∀ c, stats_concentrator p = Some c → ∀ bs, bs ≫= (λ b, to_concentrator (bf_processed b)) =
     (buffered p ≫= (λ b, to_concentrator (bf_processed b))) ++ to_concentrator r →
     concentrator_inv (add_chunks c (tr_stats_clock req) (to_concentrator r)) bs) as Hconc.
  { intros c Ec bs Ebs. destruct (Hc c Ec) as [Hcr Hcs Hcc].
    destruct (add_chunks_inv c (tr_stats_clock req) (to_concentrator r) Hcs Hcr) as (? & ? & Ech).
    split; [done|done|]. by rewrite Ech, Hcc, Ebs. }
  destruct (Z.eqb_spec (status (response r)) 200) as [Hok|Hno'].
  - split; cbn [enqueue_permits error_rescue_state stats_concentrator decoding enqueues flusher buffered replies]; try done.
    + rewrite map_size_insert_None by done. lia.
    + by apply Forall_delete.
    + intros i. erewrite expected_app by done. specialize (Hpc i). unfold expected in Hpc. case_decide as Hd.
      * subst i. rewrite lookup_insert_eq. rewrite Hfresh, lookup_ge_None_2 in Hpc by lia.
        apply app_eq_nil in Hpc as [-> _]. done.
      * by rewrite lookup_insert_ne.
    + intros i. rewrite length_app. simpl. destruct (decide (i = length (buffered p))); [lia|].
      rewrite lookup_insert_ne by done. intros ?%Ht. lia.
    + apply Forall_app. split; [done|]. constructor; [|done]. split_and!; done.
    + rewrite fmap_app. apply replies_one; [done|]. rewrite decide_True; [done|].
      split; [done|by apply process_traces_not_shed in E].
    + rewrite fmap_is_Some. done.
    + intros c' (c & Ec & ->)%fmap_Some. apply (Hconc c Ec).
      rewrite bind_app, bind_singleton. done.
  - destruct (Hno (or_introl Hno')) as (_ & Htc & _).
    split; cbn [enqueue_permits error_rescue_state stats_concentrator decoding enqueues flusher buffered replies]; try done.
    + lia.
    + by apply Forall_delete.
    + rewrite <- (app_nil_r (bf_request <$> _)). apply replies_one; [done|]. by rewrite decide_False by (intros [Hst200 _]; by cbn in Hst200).
    + rewrite fmap_is_Some. done.
    + intros c' (c & Ec & ->)%fmap_Some. apply (Hconc c Ec). by rewrite Htc, app_nil_r.
Qed.

Lemma cancel_inv p n req : pipeline_inv p → decoding p !! n = Some req → pipeline_inv (cancel p n).
Proof.
  intros [Hp Hv Hs Hfl Hpc Ht Hb Hrp Hst Hc] Hn. pose proof (lookup_lt_Some _ _ _ Hn) as Hl.
  split; cbn [cancel enqueue_permits error_rescue_state stats_concentrator decoding enqueues flusher buffered replies];
    try done; [|by apply Forall_delete].
  rewrite length_delete by eauto. lia.
Qed.

Lemma traces_with_concentrator_inv p c' :
  pipeline_inv p → is_Some (stats_concentrator p) → concentrator_inv c' (buffered p) →
  pipeline_inv (with_concentrator p c').
Proof.
  intros [Hp Hv Hs Hfl Hpc Ht Hb Hrp Hst Hc] Hsome Hc'. split; try done; cbn.
  - rewrite <- Hst. split; eauto.
  - by intros c [= <-].
Qed.

Lemma traces_external_inv p p' : pipeline_inv p → external p p' → pipeline_inv p'.
Proof.
  intros Hi Hs. destruct Hs as [p req resp p' _ Ht|p req Hvr Hpm|p n req resp p' Hn Hf|p n req Hn Hf|p n req Hn|p c force tx clock c' Ec Hsend].
  - by apply (turn_away_inv p req resp p').
  - destruct Hi as [Hp Hv Hs Hfl Hpc Ht Hb Hrp Hst Hc].
    split; cbn [acquire enqueue_permits error_rescue_state stats_concentrator decoding enqueues flusher buffered replies]; try done.
    + rewrite length_app. simpl. lia.
    + apply Forall_app. by repeat constructor.
  - by eapply traces_finish_inv.
  - by eapply cancel_inv.
  - by eapply cancel_inv.
  - apply traces_with_concentrator_inv; [done|by eauto|].
    by eapply send_concentrator; [apply (pi_concentrator p Hi c Ec)|exact Hsend|].
Qed.

Lemma serves_inv c c' bs : concentrator_inv c bs → serves (handle stats_config) c c' → concentrator_inv c' bs.
Proof.
  intros [Hr Hs Hc] Hserve. split.
  - eapply rtc_r; [exact Hr|]. by apply step_recv.
  - unfold serves, recv in Hserve. rewrite Hs in Hserve. destruct (Actor.queue c) as [|cmd q]; [done|].
    destruct (handle_alone stats_config (state c) cmd) as (s' & rs & E & _). rewrite E in Hserve.
    by injection Hserve as <-.
  - by rewrite (recv_sent _ _ _ Hserve).
Qed.

Lemma traces_internal_inv p p' : pipeline_inv p → internal p p' → pipeline_inv p' ∧ buffered p' = buffered p ∧ decoding p' = decoding p.
Proof.
  intros Hi Hs. pose proof Hi as [Hp Hv Hsa Hfl Hpc Ht Hb Hrp Hst Hc].
  destruct Hs as [p i d rest Hq Hroom|p i Hq|p f Hf|p c c' Ec Hserve]; (split; [|done]).
  - split; cbn [enqueue_send enqueue_permits error_rescue_state stats_concentrator decoding enqueues flusher buffered replies]; try done.
    + rewrite map_size_insert_Some by eauto. done.
    + by apply send_payload_inv.
    + intros j. cbn [send_payload accepted]. change (expected (enqueue_send p i d rest) j) with (expected p j).
      rewrite <- (Hpc j), pieces_of_app, pieces_of_one. case_decide as Hj.
      * subst j. rewrite lookup_insert_eq, Hq. cbn. by rewrite <- app_assoc.
      * rewrite lookup_insert_ne by done. by rewrite app_nil_r.
    + intros j. destruct (decide (i = j)) as [<-|Hne]; [intros _; apply Ht; rewrite Hq; eauto|].
      by rewrite lookup_insert_ne; [apply Ht|].
  - split; cbn [enqueue_end enqueue_permits error_rescue_state stats_concentrator decoding enqueues flusher buffered replies]; try done.
    + rewrite map_size_delete_Some by eauto. assert (size (enqueues p) ≠ O); [|lia].
      intros E%map_size_empty_inv. by rewrite E, lookup_empty in Hq.
    + intros j. change (expected (enqueue_end p i) j) with (expected p j). rewrite <- (Hpc j).
      destruct (decide (i = j)) as [<-|]; [|by rewrite lookup_delete_ne by done].
      by rewrite lookup_delete_eq, Hq.
    + intros j (x & [_ Hx]%lookup_delete_Some). apply Ht. eauto.
  - split; cbn [with_flusher enqueue_permits error_rescue_state stats_concentrator decoding enqueues flusher buffered replies]; try done.
    + by eapply TraceFlusher.flusher_internal_inv.
    + intros j. rewrite (internal_accepted _ _ _ Hf). apply Hpc.
  - apply traces_with_concentrator_inv; [done|by eauto|]. eapply serves_inv; [by apply Hc|done].
Qed.

Lemma traces_inv_run p p' : pipeline_inv p → rtc step p p' → pipeline_inv p'.
Proof.
  intros Hi Hr. induction Hr as [|x y z [Hxy|Hxy] _ IH]; [done|..]; apply IH.
  - by apply (traces_internal_inv x).
  - by eapply traces_external_inv.
Qed.

Lemma traces_reach_inv p : rtc step start p → pipeline_inv p.
Proof. apply traces_inv_run, traces_start_inv. Qed.

(** The shipment of the flusher is all it accepted. *)
Lemma inv_shipment p i :
  pipeline_inv p → pieces_of i (shipment (flusher p)) ++ default [] (enqueues p !! i) = expected p i.
Proof. intros Hi. unfold shipment. rewrite <- (fi_order _ _ (pi_flusher p Hi)). apply (pi_pieces p Hi). Qed.

Lemma buffered_whole b : buffered_ok b → whole b.
Proof.
  intros (Hv & Hs & Hok & E). unfold whole.
  destruct (process_traces_cases config with_stats rescue_enabled (bf_before b) (tr_headers (bf_request b)) true
    (tr_decoded (bf_request b)) (tr_clock (bf_request b)) Hs) as (r & E' & _ & _ & _ & Hcase).
  rewrite E in E'. injection E' as <-. revert E. unfold verified in Hv.
  destruct (verify_request_content_length _ _ _) eqn:Ev; [done|].
  unfold process_traces. rewrite Ev. cbn [negb]. destruct (tr_decoded (bf_request b)) as [[body traces]|err] eqn:Ed;
    [|by intros [= E]; rewrite <- E in Hok].
  destruct (Z.ltb_spec (max_request_content_length config) body) as [|Hfit]; [by intros [= E]; rewrite <- E in Hok|].
  destruct (collect_pb_trace_chunks traces _) as [[payload|err]|] eqn:Ec; [|by intros [= E]; rewrite <- E in Hok|done].
  intros _. exists body, traces, payload. split_and!; [done|done|].
  destruct (Hcase body traces payload eq_refl eq_refl eq_refl Hfit Ec) as (_ & _ & final & Er & Hfinal).
  destruct (insert_function_tags _ payload) as [ps|o].
  - destruct (rescue_unrated _ _ _ _ _ _ _ _ Er) as (ps' & -> & Hu). destruct Hfinal as [-> ?].
    by rewrite <- Hu.
  - unfold apply_error_rescue in Er. injection Er as <- _. exact Hfinal.
Qed.

(** ** What the tasks have left *)

Definition task_cost (_ : nat) (ds : list SendData) (n : nat) : nat := 5 * length ds + 1 + n.
Definition tasks_left (m : gmap nat (list SendData)) : nat := map_fold task_cost O m.

Lemma tasks_left_delete m i ds :
  m !! i = Some ds → tasks_left m = (5 * length ds + 1 + tasks_left (delete i m))%nat.
Proof.
  intros Hi. unfold tasks_left. rewrite (map_fold_delete_L _ _ i ds m); [done| |done].
  intros. unfold task_cost. lia.
Qed.

Lemma tasks_left_insert m i ds ds' :
  m !! i = Some ds → (tasks_left (<[i := ds']> m) + 5 * length ds = tasks_left m + 5 * length ds')%nat.
Proof.
  intros Hi. rewrite (tasks_left_delete m i ds Hi), (tasks_left_delete (<[i := ds']> m) i ds') by apply lookup_insert_eq.
  rewrite delete_insert_eq. lia.
Qed.

Definition commands_left (p : Pipeline) : nat :=
  match stats_concentrator p with Some c => length (Actor.queue c) | None => O end.

Definition work_left (p : Pipeline) : nat :=
  tasks_left (enqueues p) + shipping_left (flusher p) + commands_left p.

Definition drained (p : Pipeline) : Prop :=
  enqueues p = ∅ ∧ all_shipped (flusher p) ∧ commands_left p = O.

Lemma traces_internal_progress p :
  pipeline_inv p → (∃ p', internal p p' ∧ (work_left p' < work_left p)%nat) ∨ drained p.
Proof.
  intros Hi. pose proof Hi as [_ _ _ Hfl _ _ _ _ _ Hc]. unfold work_left.
  destruct (shipping_progress piece_len (flusher p) Hfl) as [(f & Hf & Hlt)|Hsh].
  { left. exists (with_flusher p f). split; [by apply flusher_steps|].
    change (commands_left (with_flusher p f)) with (commands_left p). cbn [with_flusher enqueues flusher]. lia. }
  pose proof Hsh as (_ & _ & Hch).
  destruct (map_choose_or_empty (enqueues p)) as [(i & [|d rest] & Hq)|Hem].
  - left. exists (enqueue_end p i). split; [by apply enqueue_ends|].
    unfold commands_left. cbn. rewrite (tasks_left_delete _ _ _ Hq). cbn. lia.
  - left. exists (enqueue_send p i d rest). split; [apply enqueue_sends; [done|by rewrite Hch]|].
    pose proof (tasks_left_insert (enqueues p) i (d :: rest) rest Hq) as Hti. simpl in Hti.
    unfold commands_left, shipping_left, flush_left, TracesPipeline.enqueue_send, send_payload.
    cbn [enqueues flusher stats_concentrator channel in_hand aggregator flushing]. rewrite length_app. simpl. lia.
  - unfold drained, commands_left. destruct (stats_concentrator p) as [c|] eqn:Ec; [|by right].
    destruct (Actor.queue c) as [|cmd q] eqn:Eq; [by right|left].
    destruct (recv (handle stats_config) c) as [c'|] eqn:Er.
    + exists (with_concentrator p c'). split; [by eapply concentrator_steps|].
      pose proof (recv_shrinks _ _ _ Er). rewrite Eq in *. cbn in *. lia.
    + apply recv_none in Er as [Er|Er]; [|congruence]. pose proof (ci_runs _ _ (Hc c eq_refl)). congruence.
Qed.

(** C3: Under every interleaving of the requests, their tasks, the flusher and the
    statistics, at most ten requests are between their permit and the end of their task.  A
    request that got no permit changes nothing: it is refused, or shed, that is answered
    with a success while its traces are dropped.  A request with a permit is always
    answered, and those answered with success are, in order, the ones buffered.  The
    channel and the batches keep their bounds, and every piece of a buffered request is,
    once and in order, handed to [send], on its way there or left in its task, while
    nothing else is; the pieces carry exactly the chunks decoded from the request, in order
    and unchanged but for the rates of the rescue. *)
Theorem traces_end_to_end p :
  rtc step start p →
  (enqueue_permits p + length (decoding p) + size (enqueues p) = MAX_IN_FLIGHT_ENQUEUES)%nat ∧
  (∀ req, ∃ resp, turn_away p req = Some (resp, replied p req resp) ∧
     if verified config req then resp = shed_reply else status resp ≠ 200) ∧
  (∀ n req, decoding p !! n = Some req → is_Some (finish p n req)) ∧
  (filter taken_in (replies p)).*1 = bf_request <$> buffered p ∧
  zlen (channel (flusher p)) ≤ TRACER_PAYLOAD_CHANNEL_BUFFER_SIZE ∧
  Forall (batch_fits piece_len) (handed (flusher p) ++ option_list (flushing (flusher p))) ∧
  (∀ i, pieces_of i (shipment (flusher p)) ++ default [] (enqueues p !! i) = expected p i) ∧
  Forall whole (buffered p).
Proof.
  intros Hi%traces_reach_inv. pose proof (pi_flusher p Hi) as [_ Hb _ Hf]. split_and!; try done.
  - apply Hi.
  - apply turn_away_spec.
  - intros n req _. by apply finish_total.
  - apply Hi.
  - intros i. by apply inv_shipment.
  - eapply Forall_impl; [apply (pi_buffered p Hi)|]. apply buffered_whole.
Qed.

End TracesFacts.

(** * Examples *)
Module TracesPipelineExamples.
Import TraceProcessorExamples StatsExamples.
#[local] Existing Instances TraceProcessorExamples.types utils utils_laws order order_law counter conc_order conc_order_law.

Definition keep_errors : ErrorSamplerConfig :=
  {| mode := ModeAlwaysKeep; config_target_tps := F64.of_Z 10; extra_sample_rate := F64.one |}.

(** A request with an erroneous chunk and a healthy one: two pieces. *)
Definition a_request : TraceRequest :=
  {| tr_headers := {| content_length := Some (Some "100"); transfer_encoding := false |};
     tr_decoded := Ok (100, traces); tr_clock := 5; tr_stats_clock := λ _, 7 |}.

Definition p0 : Pipeline := start keep_errors true.
Definition p1 : Pipeline := acquire p0 a_request.
Definition p2 : Pipeline := from_option snd p1 (finish config keep_errors p1 0 a_request).
Definition piece1 : SendData := nth 0 (expected p2 0) {| sd_size := 0; sd_payload := V07 [] |}.
Definition piece2 : SendData := nth 1 (expected p2 0) {| sd_size := 0; sd_payload := V07 [] |}.
Definition p3 : Pipeline := enqueue_send p2 0 piece1 [piece2].

(** The first piece is in the channel, the second in the task. *)
Lemma p3_reached : rtc (step config keep_errors stats_config) p0 p3.
Proof.
  eapply rtc_l; [right; apply (acquires config keep_errors p0 a_request); [reflexivity|done]|].
  eapply rtc_l; [right; apply (finishes config keep_errors p1 0 a_request (response (bf_processed (nth 0 (buffered p2)
    {| bf_request := a_request; bf_before := rescue_new keep_errors;
       bf_processed := {| response := {| status := 0; body := Message "" |}; enqueued := []; to_concentrator := [];
                          rescue_state := rescue_new keep_errors |} |}))) p2); [reflexivity|vm_compute; reflexivity]|].
  apply rtc_once. left. apply enqueue_sends; [vm_compute; reflexivity|done].
Qed.

Lemma traces_end_to_end_witness :
  enqueue_permits p3 = 9%nat ∧ (filter taken_in (replies p3)).*1 = [a_request] ∧ pieces_of 0 (shipment (flusher p3)) = [piece1] ∧
  length (expected p3 0) = 2%nat ∧ Forall (whole config) (buffered p3).
Proof.
  destruct (traces_end_to_end config keep_errors stats_config true p3 p3_reached)
    as (Hp & _ & _ & Hr & _ & _ & Hpieces & Hw).
  split_and!; [|rewrite Hr; reflexivity|vm_compute; reflexivity|vm_compute; reflexivity|exact Hw].
  change (length (decoding p3)) with 0%nat in Hp. change (size (enqueues p3)) with 1%nat in Hp.
  unfold MAX_IN_FLIGHT_ENQUEUES in Hp. lia.
Defined.


(** A request that passes the check is shed while there is no permit, and taken in with one. *)
Definition no_permit : Pipeline := Nat.iter 10 (λ p, acquire p a_request) p0.

Example shed_is_success :
  enqueue_permits no_permit = 0%nat ∧
  fst <$> turn_away config keep_errors no_permit a_request = Some shed_reply ∧
  filter taken_in [(a_request, shed_reply)] = [].
Proof. split_and!; vm_compute; reflexivity. Qed.
End TracesPipelineExamples.
