(* ===== verification/StatsPipeline.v ===== *)
(** The statistics as a whole: the handler of [datadog-trace-agent/src/stats_processor.rs],
    the concentrator of [stats_concentrator_service.rs] and the flusher of
    [stats_flusher.rs], with the channel of [mini_agent.rs] between them.

    Tracers send statistics, the trace processor sends chunks, and the flusher sends both to
    the intake on a timer and once more on the shutdown.  They run concurrently: a
    transition system whose steps are the requests, the commands of the concentrator and
    those of the loop of the flusher, around its wait for the concentrator. *)
From Stdlib Require Import Ascii SpecFloat.
From S2P Require Import Prelude RStr Float Actor TraceProcessor TraceConfig Stats AgentServer.

(** What the concentrator reads in the configuration. *)
Definition stats_config_of `{ConfigEnv} (config : Config) : StatsConfig :=
  {| Stats.peer_tags := TraceConfig.peer_tags config;
     Stats.additional_metric_tags := TraceConfig.additional_metric_tags config;
     Stats.additional_metric_tags_cardinality_limit :=
       TraceConfig.additional_metric_tags_cardinality_limit config;
     Stats.config_env := TraceConfig.env config |}.

Section StatsPipeline.
Context `{Hpb : PbTypes, !SpanConcentrator, !ConcentratorOrder}.

#[local] Abbreviation Concentrator :=
  (Service (gmap TracerMetadata concentrator) Timed StatsResponse).

Context (stats_config : StatsConfig) (agent_stats : bool) (max_length : Z).
Context (serialize : StatsSend → result string string) (api_key : option string).

(** * The intake *)

Inductive StatsFate := NotSerialized (err : string) | Posted (body key : string).

(** [send_stats_payload]: a payload that cannot be serialized is dropped; [None] is the panic
    of the [unwrap] of the key. *)
Definition send_stats_payload (s : StatsSend) : option StatsFate :=
  match serialize s with
  | Err err => Some (NotSerialized err)
  | Ok serialized => Posted serialized <$> api_key
  end.

(** * The state *)

(** The flusher in its loop, in [flush_stats] waiting for the answer [tx] of the
    concentrator, after its last flush, or dead. *)
Inductive FlusherPc := Looping | Awaiting (tx : nat) (force_flush : bool) | Done | Panicked.

Definition gone (pc : FlusherPc) : bool := match pc with Done | Panicked => true | _ => false end.

(** [next_tx] numbers the one-shot channels.  The ghosts are the payloads of the requests
    answered 202 for them and the calls of [send_stats_payload]. *)
Record Pipeline := {
  channel : list ClientStatsPayload;
  buffer : list ClientStatsPayload;
  pc : FlusherPc;
  stats_concentrator : option Concentrator;
  next_tx : nat;
  accepted : list ClientStatsPayload;
  sends : list StatsSend;
}.

Definition start (with_concentrator : bool) : Pipeline :=
  {| channel := []; buffer := []; pc := Looping;
     stats_concentrator := if with_concentrator then Some stats_service_new else None;
     next_tx := 0; accepted := []; sends := [] |}.

(** A request for [process_stats]; the send waits while the channel is full, and fails once
    the flusher is gone. *)
Definition on_request (p : Pipeline) (headers : Headers) (decoded : result ClientStatsPayload string)
    (timestamp_ns : Z) : HttpResponse * Pipeline :=
  let sent := if gone (pc p) then Some "channel closed" else None in
  let '(resp, ps) := process_stats agent_stats max_length headers decoded timestamp_ns sent in
  (resp, {| channel := channel p ++ ps; buffer := buffer p; pc := pc p;
            stats_concentrator := stats_concentrator p; next_tx := next_tx p;
            accepted := accepted p ++ ps; sends := sends p |}).

(** [Some(stats) = rx.recv()] *)
Definition receive (p : Pipeline) (x : ClientStatsPayload) (rest : list ClientStatsPayload) : Pipeline :=
  {| channel := rest; buffer := buffer p ++ [x]; pc := pc p;
     stats_concentrator := stats_concentrator p; next_tx := next_tx p;
     accepted := accepted p; sends := sends p |}.

Definition with_concentrator (p : Pipeline) (c : Concentrator) : Pipeline :=
  {| channel := channel p; buffer := buffer p; pc := pc p; stats_concentrator := Some c;
     next_tx := next_tx p; accepted := accepted p; sends := sends p |}.

Definition with_pc (p : Pipeline) (x : FlusherPc) : Pipeline :=
  {| channel := channel p; buffer := buffer p; pc := x; stats_concentrator := stats_concentrator p;
     next_tx := next_tx p; accepted := accepted p; sends := sends p |}.

(** After a flush the loop goes on, unless it was the last one. *)
Definition after (p : Pipeline) (force_flush : bool) : Pipeline :=
  with_pc p (if force_flush then Done else Looping).

(** Sending a payload, and what comes next. *)
Definition sending (p : Pipeline) (s : StatsSend) (next : Pipeline → Pipeline) : Pipeline :=
  match send_stats_payload s with
  | None => with_pc p Panicked
  | Some _ =>
      next {| channel := channel p; buffer := buffer p; pc := pc p;
              stats_concentrator := stats_concentrator p; next_tx := next_tx p;
              accepted := accepted p; sends := sends p ++ [s] |}
  end.

(** [flush_stats] from the call of the concentrator to its wait. *)
Definition ask_concentrator (force_flush : bool) (clock : TracerMetadata → Z) (p : Pipeline) : Pipeline :=
  match stats_concentrator p with
  | None => after p force_flush
  | Some c =>
      match flush_send c force_flush (next_tx p) clock with
      | None => after p force_flush
      | Some c =>
          {| channel := channel p; buffer := buffer p; pc := Awaiting (next_tx p) force_flush;
             stats_concentrator := Some c; next_tx := S (next_tx p); accepted := accepted p;
             sends := sends p |}
      end
  end.

(** [flush_stats] up to its wait: what the tracers computed is sent first. *)
Definition flush_begin (p : Pipeline) (client_stats : list ClientStatsPayload) (force_flush : bool)
    (clock : TracerMetadata → Z) : Pipeline :=
  match client_stats with
  | [] => ask_concentrator force_flush clock p
  | _ => sending p (ClientComputed client_stats) (ask_concentrator force_flush clock)
  end.

(** The rest of [flush_stats], with what the wait gives. *)
Definition flush_end (p : Pipeline) (force_flush : bool)
    (answer : result (list ClientStatsPayload) unit) : Pipeline :=
  match answer with
  | Ok [] | Err _ => after p force_flush
  | Ok stats => sending p (AgentComputed stats) (λ p, after p force_flush)
  end.

(** The buffer is taken, with what [try_recv] drains from the channel. *)
Definition take_buffer (p : Pipeline) (rest : list ClientStatsPayload) : Pipeline :=
  {| channel := rest; buffer := []; pc := pc p; stats_concentrator := stats_concentrator p;
     next_tx := next_tx p; accepted := accepted p; sends := sends p |}.

(** A tick of the timer. *)
Definition on_tick (p : Pipeline) (clock : TracerMetadata → Z) : Pipeline :=
  match buffer p, stats_concentrator p with
  | [], None => p
  | client_stats, _ => flush_begin (take_buffer p (channel p)) client_stats false clock
  end.

(** The shutdown signal. *)
Definition on_shutdown (p : Pipeline) (clock : TracerMetadata → Z) : Pipeline :=
  flush_begin (take_buffer p []) (buffer p ++ channel p) true clock.

(** The steps that need neither a client nor a timer. *)
Inductive internal : Pipeline → Pipeline → Prop :=
  | receives p x rest : pc p = Looping → channel p = x :: rest → internal p (receive p x rest)
  | flush_ends p tx force c answer :
      pc p = Awaiting tx force → stats_concentrator p = Some c → flush_wait c tx = Some answer →
      internal p (flush_end p force answer)
  | concentrator_steps p c c' :
      stats_concentrator p = Some c → serves (handle stats_config) c c' →
      internal p (with_concentrator p c').

Inductive step : Pipeline → Pipeline → Prop :=
  | internal_step p p' : internal p p' → step p p'
  | requests p headers decoded ts :
      zlen (channel p) < STATS_PAYLOAD_CHANNEL_BUFFER_SIZE ∨ gone (pc p) = true →
      step p (on_request p headers decoded ts).2
  | chunk_sent p c chunk md clock c' :
      stats_concentrator p = Some c → add_chunk c chunk md clock = Some c' →
      step p (with_concentrator p c')
  | ticks p clock : pc p = Looping → step p (on_tick p clock)
  | shuts_down p clock : pc p = Looping → step p (on_shutdown p clock).
End StatsPipeline.

(** * Facts *)
Section StatsFacts.
Context `{Hpb : PbTypes, !SpanConcentrator, !ConcentratorOrder, !ConcentratorOrderLaw}.
Context (stats_config : StatsConfig) (agent_stats : bool) (max_length : Z).
Context (serialize : StatsSend → result string string) (api_key : option string).
Context (Hkey : is_Some api_key).

#[local] Abbreviation internal := (internal stats_config serialize api_key).
#[local] Abbreviation step := (step stats_config agent_stats max_length serialize api_key).
#[local] Abbreviation Task := (Service (gmap TracerMetadata concentrator) Timed StatsResponse).

Definition agent_computed (l : list StatsSend) : list ClientStatsPayload :=
  l ≫= λ s, match s with AgentComputed ps => ps | ClientComputed _ => [] end.

(** The flushes among the commands of the concentrator, and what its answers hold. *)
Definition flush_txs (c : Timed) : list nat := match c.1 with Flush _ tx => [tx] | _ => [] end.
Definition flush_forced (c : Timed) : list bool := match c.1 with Flush force _ => [force] | _ => [] end.
Definition answer_tx (r : StatsResponse) : nat := match r with Payloads tx _ => tx end.
Definition answer_payloads (r : StatsResponse) : list ClientStatsPayload := match r with Payloads _ ps => ps end.

(** What the concentrator has answered to the flusher that waits. *)
Definition in_flight (c : Task) (x : FlusherPc) : list ClientStatsPayload :=
  match x with
  | Awaiting tx _ => match flush_wait c tx with Some (Ok ps) => ps | _ => [] end
  | _ => []
  end.

(** The flusher has begun its last flush. *)
Definition ending (x : FlusherPc) : bool :=
  match x with Done | Awaiting _ true => true | _ => false end.

Definition asked (c : Task) (next : nat) (x : FlusherPc) : Prop :=
  match x with
  | Awaiting tx _ =>
      (tx < next)%nat ∧
      ((omap (payloads_for tx) (answered c) = [] ∧ Actor.queue c ≫= flush_txs = [tx]) ∨
       (∃ ps, omap (payloads_for tx) (answered c) = [ps] ∧ Actor.queue c ≫= flush_txs = []))
  | _ => Actor.queue c ≫= flush_txs = []
  end.

Record concentrator_inv (c : Task) (next : nat) (x : FlusherPc) (sent_payloads : list StatsSend) : Prop := {
  ci_reach : rtc (Actor.step (handle stats_config)) stats_service_new c;
  ci_runs : stopped c = false;
  ci_asked : asked c next x;
  ci_fresh : Forall (λ r, (answer_tx r < next)%nat) (answered c);
  ci_answers : answered c ≫= answer_payloads = agent_computed sent_payloads ++ in_flight c x;
  ci_forced : ∃ n, sent c ≫= flush_forced = replicate n false ++ (if ending x then [true] else []);
}.

Record pipeline_inv (p : Pipeline) : Prop := {
  pi_order : accepted p = client_computed (sends p) ++ buffer p ++ channel p;
  pi_bound : zlen (channel p) ≤ STATS_PAYLOAD_CHANNEL_BUFFER_SIZE;
  pi_runs : pc p ≠ Panicked;
  pi_over : ending (pc p) = true → buffer p = [];
  pi_none : stats_concentrator p = None → agent_computed (sends p) = [] ∧ ∀ tx force, pc p ≠ Awaiting tx force;
  pi_concentrator : ∀ c, stats_concentrator p = Some c → concentrator_inv c (next_tx p) (pc p) (sends p);
}.

Lemma payloads_other tx rs : Forall (λ r, (answer_tx r < tx)%nat) rs → omap (payloads_for tx) rs = [].
Proof.
  induction 1 as [|[tx' ps] rs Hr _ IH]; [done|]. cbn [omap list_omap payloads_for]. simpl in Hr.
  rewrite decide_False by lia. exact IH.
Qed.

Lemma wait_head c tx :
  stopped c = false → flush_wait c tx = Ok <$> head (omap (payloads_for tx) (answered c)).
Proof. intros Hs. unfold flush_wait, Actor.response. destruct (omap _ _); [by rewrite Hs|done]. Qed.

Lemma stats_start_inv with_c : pipeline_inv (start with_c).
Proof.
  split; try done; cbn; destruct with_c; try done.
  intros c [= <-]. split; try done. by exists O.
Qed.

(** A chunk changes nothing for the flusher. *)
Lemma chunk_inv c chunk md clock c' next x l :
  concentrator_inv c next x l → add_chunk c chunk md clock = Some c' → concentrator_inv c' next x l.
Proof.
  intros [Hr Hs Ha Hf Hp Hforce] Hsend. pose proof (send_spec _ _ _ Hsend) as [_ E]. subst c'.
  split; cbn [state Actor.queue stopped answered sent]; try done.
  - eapply rtc_r; [exact Hr|]. by eapply step_send.
  - unfold asked in *. cbn [Actor.queue answered]. by rewrite !bind_app, !bind_singleton, !app_nil_r.
  - rewrite Hp. f_equal. unfold in_flight. destruct x; try done. by rewrite !wait_head.
  - rewrite bind_app, bind_singleton. cbn [flush_forced fst]. by rewrite app_nil_r.
Qed.

(** The concentrator handles a command. *)
Lemma serve_inv c c' next x l :
  concentrator_inv c next x l → serves (handle stats_config) c c' → concentrator_inv c' next x l.
Proof.
  intros [Hr Hs Ha Hf Hp Hforce] Hserve.
  assert (rtc (Actor.step (handle stats_config)) stats_service_new c') as Hr'
    by (eapply rtc_r; [exact Hr|by apply step_recv]).
  assert (sent c' = sent c) as Esent by by eapply recv_sent.
  unfold serves, recv in Hserve. rewrite Hs in Hserve.
  destruct (Actor.queue c) as [|[[chunk md|force tx] clock] q] eqn:Eq; [done| |]; injection Hserve as <-.
  - split; cbn [state Actor.queue stopped answered sent]; try done.
    + unfold asked in *. cbn [Actor.queue answered]. by rewrite app_nil_r, Eq in *.
    + by rewrite app_nil_r.
    + rewrite app_nil_r, Hp. f_equal. unfold in_flight. destruct x; try done.
      by rewrite !wait_head.
  - destruct x as [|tx' f| |]; unfold asked in Ha; rewrite Eq in Ha; [done| |done..].
    destruct Ha as (Hlt & [[Hno Hq]|(ps & _ & Hq)]); [|done].
    rewrite bind_cons in Hq. cbn [flush_txs fst app] in Hq. injection Hq as -> Hq.
    cbn [handle fst snd] in *. set (ps := omap (stats_payload _ _ _) _) in *.
    assert (omap (payloads_for tx') (answered c ++ [Payloads tx' ps]) = [ps]) as Hone.
    { rewrite omap_app, Hno. cbn. by rewrite decide_True. }
    split; cbn [state Actor.queue stopped answered sent]; try done.
    + unfold asked. cbn [Actor.queue answered]. split; [done|]. right. by exists ps.
    + apply Forall_app. split; [done|]. by repeat constructor.
    + rewrite bind_app, bind_singleton, Hp. unfold in_flight. rewrite !wait_head by done. cbn [answered].
      rewrite Hone, Hno. cbn. by rewrite app_nil_r.
Qed.

(** With a key no send panics. *)
Lemma sending_ok p s next :
  sending serialize api_key p s next =
  next {| channel := channel p; buffer := buffer p; pc := pc p; stats_concentrator := stats_concentrator p;
          next_tx := next_tx p; accepted := accepted p; sends := sends p ++ [s] |}.
Proof.
  unfold sending, send_stats_payload. destruct Hkey as [k ->]. by destruct (serialize s).
Qed.

Lemma client_computed_app l k : client_computed (l ++ k) = client_computed l ++ client_computed k.
Proof. apply bind_app. Qed.
Lemma agent_computed_app l k : agent_computed (l ++ k) = agent_computed l ++ agent_computed k.
Proof. apply bind_app. Qed.

(** The flusher asks the concentrator, if there is one. *)
Lemma ask_inv p force clock :
  pipeline_inv p → pc p = Looping → (force = true → buffer p = []) →
  let p' := ask_concentrator force clock p in
  pipeline_inv p' ∧ ending (pc p') = force ∧ accepted p' = accepted p.
Proof.
  intros [Ho Hb _ _ Hn Hc] Hpc Hforce. unfold ask_concentrator. cbv zeta.
  destruct (stats_concentrator p) as [c|] eqn:Ec.
  - destruct (Hc c eq_refl) as [Hr Hs Ha Hf Hp (n & Hfo)]. rewrite Hpc in Ha, Hp, Hfo.
    destruct (flush_send c force (next_tx p) clock) as [c1|] eqn:Esend; [|unfold flush_send, send in Esend; by rewrite Hs in Esend].
    destruct (send_spec _ _ _ Esend) as [_ E1]. cbn. split_and!; [|by destruct force|done].
    assert (omap (payloads_for (next_tx p)) (answered c) = []) as Hno by by apply payloads_other.
    split; cbn; try done; [by destruct force|].
    intros c' [= <-]. split; [|rewrite E1; cbn [state Actor.queue stopped answered sent]..]; try done.
    + eapply rtc_r; [exact Hr|]. by eapply step_send.
    + unfold asked. cbn [Actor.queue answered]. split; [lia|]. left. split; [done|].
      unfold asked in Ha. by rewrite bind_app, Ha.
    + eapply Forall_impl; [exact Hf|]. simpl. lia.
    + rewrite Hp. unfold in_flight. rewrite wait_head by done. cbn [answered]. by rewrite Hno.
    + rewrite bind_app, Hfo, bind_singleton. cbn [flush_forced fst ending]. rewrite app_nil_r.
      destruct force; [by exists n|]. exists (S n). by rewrite app_nil_r, replicate_S_end.
  - unfold after, with_pc. cbn. split_and!; [|by destruct force|done].
    destruct (Hn eq_refl) as [Hn1 _]. split; cbn; rewrite ?Ec; try done; try by destruct force.
Qed.

Lemma flush_begin_inv p client rest force clock :
  pipeline_inv p → pc p = Looping → buffer p ++ channel p = client ++ rest →
  (length rest ≤ length (channel p))%nat →
  let p' := flush_begin serialize api_key (take_buffer p rest) client force clock in
  pipeline_inv p' ∧ ending (pc p') = force ∧ accepted p' = accepted p.
Proof.
  intros [Ho Hb Hru Hov Hn Hc] Hpc Hcut Hl. unfold flush_begin, take_buffer. rewrite Hcut in Ho.
  destruct client as [|x client]; [|rewrite sending_ok];
    match goal with |- context [ask_concentrator force clock ?q] => apply (ask_inv q force clock) end; try done; split;
    cbn [channel buffer pc stats_concentrator next_tx accepted sends]; try done; try lia.
  - rewrite client_computed_app. cbn [client_computed mbind list_bind]. by rewrite !app_nil_r, <- app_assoc.
  - rewrite agent_computed_app. cbn. by rewrite app_nil_r.
  - intros c Ec. destruct (Hc c Ec) as [? ? ? ? Hp ?]. split; try done.
    by rewrite agent_computed_app, app_nil_r.
Qed.

Lemma flush_end_inv p tx force c answer :
  pipeline_inv p → pc p = Awaiting tx force → stats_concentrator p = Some c → flush_wait c tx = Some answer →
  let p' := flush_end serialize api_key p force answer in
  pipeline_inv p' ∧ ending (pc p') = ending (pc p) ∧ accepted p' = accepted p ∧
  pc p' = (if force then Done else Looping) ∧ stats_concentrator p' = Some c ∧ channel p' = channel p.
Proof.
  intros [Ho Hb _ Hov _ Hc] Hpc Ec Hw. destruct (Hc c Ec) as [Hr Hs Ha Hf Hp (n & Hfo)].
  rewrite Hpc in Ha, Hp, Hfo, Hov. unfold in_flight in Hp. rewrite Hw in Hp.
  rewrite wait_head in Hw by done. destruct Ha as (Hlt & [[Hno _]|(ps & Hone & Hq)]); [by rewrite Hno in Hw|].
  rewrite Hone in Hw. injection Hw as <-. rewrite Hpc.
  assert (∀ l, agent_computed l = agent_computed (sends p) ++ ps → client_computed l = client_computed (sends p) →
    pipeline_inv {| channel := channel p; buffer := buffer p; pc := if force then Done else Looping;
                    stats_concentrator := stats_concentrator p; next_tx := next_tx p;
                    accepted := accepted p; sends := l |}) as Hinv.
  { intros l Hla Hlc. split; cbn [channel buffer pc stats_concentrator next_tx accepted sends];
      try done; try congruence; [by destruct force|by destruct force|].
    rewrite Ec. intros c' [= <-]. split; try done.
    - by destruct force.
    - rewrite Hp, Hla. by destruct force; rewrite app_nil_r.
    - exists n. by destruct force. }
  unfold flush_end. destruct ps as [|x ps].
  - split_and!; [|by destruct force|done|done|done|done]. apply Hinv; [by rewrite app_nil_r|done].
  - rewrite sending_ok. split_and!; [|by destruct force|done|done|done|done].
    apply (Hinv (sends p ++ [AgentComputed (x :: ps)])); [|by rewrite client_computed_app; cbn; rewrite app_nil_r].
    rewrite agent_computed_app. cbn [agent_computed mbind list_bind]. by rewrite app_nil_r.
Qed.

Lemma stats_with_concentrator_inv p c c' :
  pipeline_inv p → stats_concentrator p = Some c → concentrator_inv c' (next_tx p) (pc p) (sends p) →
  pipeline_inv (with_concentrator p c').
Proof. intros [Ho Hb Hru Hov Hn Hc] Ec Hc'. split; try done. cbn. by intros ? [= <-]. Qed.

Lemma stats_internal_inv p p' :
  pipeline_inv p → internal p p' → pipeline_inv p' ∧ accepted p' = accepted p ∧ ending (pc p') = ending (pc p) ∧
    (ending (pc p) = true → channel p' = channel p).
Proof.
  intros Hp Hs. destruct Hs as [p x rest Hpc Hch|p tx force c answer Hpc Ec Hw|p c c' Ec Hserve].
  - split_and!; [|done|done|by rewrite Hpc]. destruct Hp as [Ho Hb Hru Hov Hn Hc]. rewrite Hch in Ho, Hb.
    split; cbn [receive channel buffer pc stats_concentrator next_tx accepted sends]; try done.
    + by rewrite <- app_assoc.
    + simpl in Hb. lia.
    + by rewrite Hpc.
  - destruct (flush_end_inv p tx force c answer Hp Hpc Ec Hw) as (? & ? & ? & _ & _ & ?). done.
  - split; [|done]. eapply stats_with_concentrator_inv; [done..|]. by eapply serve_inv; [apply Hp|].
Qed.

Lemma on_request_inv p headers decoded ts :
  pipeline_inv p → zlen (channel p) < STATS_PAYLOAD_CHANNEL_BUFFER_SIZE ∨ gone (pc p) = true →
  pipeline_inv (on_request agent_stats max_length p headers decoded ts).2.
Proof.
  intros [Ho Hb Hru Hov Hn Hc] Hroom. unfold on_request.
  destruct (process_stats _ _ _ _ _ _) as [resp ps] eqn:E. cbn [snd].
  assert ((length ps ≤ 1)%nat ∧ (gone (pc p) = true → ps = [])) as [Hl Hg].
  { revert E. unfold process_stats. destruct agent_stats; [intros [= _ <-]; simpl; split; [lia|done]|].
    destruct (verify_request_content_length _ _ _); [intros [= _ <-]; simpl; split; [lia|done]|].
    destruct decoded, (gone (pc p)); intros [= _ <-]; simpl; split; done || lia. }
  split; cbn [channel buffer pc stats_concentrator next_tx accepted sends]; try done.
  - by rewrite Ho, <- !app_assoc.
  - rewrite length_app. destruct Hroom as [?|Hg']; [lia|]. rewrite (Hg Hg'). simpl. lia.
Qed.

Lemma stats_step_inv p p' : pipeline_inv p → step p p' → pipeline_inv p'.
Proof.
  intros Hp Hs. destruct Hs as [p p' Hs|p headers decoded ts Hroom|p c chunk md clock c' Ec Hsend|p clock Hpc|p clock Hpc].
  - by eapply stats_internal_inv.
  - by apply on_request_inv.
  - eapply stats_with_concentrator_inv; [done..|]. by eapply chunk_inv; [apply Hp|].
  - unfold on_tick.
    assert (pipeline_inv (flush_begin serialize api_key (take_buffer p (channel p)) (buffer p) false clock)) as Hf
      by by apply flush_begin_inv.
    by destruct (buffer p), (stats_concentrator p).
  - apply (flush_begin_inv p _ []); [done..|by rewrite app_nil_r|simpl; lia].
Qed.

Lemma stats_inv_run p p' : pipeline_inv p → rtc step p p' → pipeline_inv p'.
Proof. intros Hi Hr. induction Hr as [|x y z Hxy _ IH]; [done|]. apply IH. by eapply stats_step_inv. Qed.

Lemma stats_reach_inv with_c p : rtc step (start with_c) p → pipeline_inv p.
Proof. apply stats_inv_run, stats_start_inv. Qed.

(** The concentrator only serves while no one sends to it. *)
Lemma stats_internal_concentrator p p' :
  pipeline_inv p → internal p p' →
  stats_concentrator p' = stats_concentrator p ∨
  ∃ c c', stats_concentrator p = Some c ∧ stats_concentrator p' = Some c' ∧ serves (handle stats_config) c c'.
Proof.
  intros Hp Hs. destruct Hs as [p x rest Hpc Hch|p tx force c answer Hpc Ec Hw|p c c' Ec Hserve].
  - by left.
  - left. rewrite Ec. by destruct (flush_end_inv p tx force c answer Hp Hpc Ec Hw) as (_ & _ & _ & _ & ? & _).
  - right. by exists c, c'.
Qed.

(** The chunks of a request, sent one by one. *)
Lemma add_chunk_run p c chunk md clock c' :
  stats_concentrator p = Some c → add_chunk c chunk md clock = Some c' → rtc step p (with_concentrator p c').
Proof. intros. apply rtc_once. by eapply chunk_sent. Qed.

(** ** Settling *)

Definition commands_left (p : Pipeline) : nat :=
  match stats_concentrator p with Some c => length (Actor.queue c) | None => O end.
Definition work_left (p : Pipeline) : nat :=
  length (channel p) + commands_left p + match pc p with Awaiting _ _ => 1 | _ => 0 end.

(** The flusher is in its loop with nothing to receive, or has ended. *)
Definition settled (p : Pipeline) : Prop :=
  commands_left p = O ∧ (pc p = Done ∨ pc p = Looping ∧ channel p = []).

Lemma stats_internal_progress p :
  pipeline_inv p → (∃ p', internal p p' ∧ (work_left p' < work_left p)%nat) ∨ settled p.
Proof.
  intros Hp. unfold settled, work_left, commands_left.
  destruct (stats_concentrator p) as [c|] eqn:Ec.
  - destruct (pi_concentrator p Hp c Ec) as [_ Hs Ha _ _ _].
    destruct (recv (handle stats_config) c) as [c'|] eqn:Er.
    { left. exists (with_concentrator p c'). split; [by eapply concentrator_steps|].
      pose proof (recv_shrinks _ _ _ Er). cbn. lia. }
    apply recv_none in Er as [Er|Er]; [congruence|]. rewrite Er.
    destruct (pc p) as [|tx force| |] eqn:Hpc; [|left|by right; split; [|left]|by destruct (pi_runs p Hp)].
    + destruct (channel p) as [|x rest] eqn:Hch; [by right; split; [|right]|left].
      exists (receive p x rest). split; [by apply receives|]. cbn. rewrite Ec, Er, Hpc. simpl. lia.
    + unfold asked in Ha. rewrite Er in Ha. destruct Ha as (_ & [[_ ?]|(ps & Hone & _)]); [done|].
      assert (flush_wait c tx = Some (Ok ps)) as Hw by by rewrite wait_head, Hone.
      exists (flush_end serialize api_key p force (Ok ps)). split; [by eapply flush_ends|].
      destruct (flush_end_inv p tx force c (Ok ps) Hp Hpc Ec Hw) as (_ & _ & _ & -> & -> & ->).
      rewrite Er. destruct force; simpl; lia.
  - destruct (pc p) as [|tx force| |] eqn:Hpc; [|by destruct (pi_none p Hp Ec) as [_ Hn]; destruct (Hn tx force)|by right; split; [|left]|by destruct (pi_runs p Hp)].
    destruct (channel p) as [|x rest] eqn:Hch; [by right; split; [|right]|left].
    exists (receive p x rest). split; [by apply receives|]. cbn. rewrite Ec, Hpc. simpl. lia.
Qed.

Lemma settles p :
  pipeline_inv p →
  ∃ p', rtc internal p p' ∧ pipeline_inv p' ∧ accepted p' = accepted p ∧ ending (pc p') = ending (pc p) ∧
    (ending (pc p) = true → channel p' = channel p) ∧ settled p'.
Proof.
  intros Hp. destruct (measure_reaches internal work_left
    (λ x, pipeline_inv x ∧ accepted x = accepted p ∧ ending (pc x) = ending (pc p) ∧
          (ending (pc p) = true → channel x = channel p)) settled)
    with p as (p' & Hs & (? & ? & ? & ?) & ?); [|done|by exists p'].
  intros x (Hx & Ha & He & Hch). destruct (stats_internal_progress x Hx) as [(y & Hxy & Hlt)|?]; [left|by right].
  exists y. destruct (stats_internal_inv x y Hx Hxy) as (? & ? & ? & Hch').
  split_and!; [done|done|congruence|congruence| |done]. intros E. rewrite Hch', Hch; congruence.
Qed.


(** A flush begins by asking the concentrator. *)
Lemma flush_begin_asks p client force clock :
  (∀ c, stats_concentrator p = Some c → stopped c = false) →
  let p' := flush_begin serialize api_key p client force clock in
  channel p' = channel p ∧
  (stats_concentrator p = None ∧ stats_concentrator p' = None ∨
   ∃ c c', stats_concentrator p = Some c ∧ stats_concentrator p' = Some c' ∧
     flush_send c force (next_tx p) clock = Some c').
Proof.
  intros Hp. cbv zeta. unfold flush_begin.
  assert (∀ q, stats_concentrator q = stats_concentrator p → channel q = channel p → next_tx q = next_tx p →
    channel (ask_concentrator force clock q) = channel p ∧
    (stats_concentrator p = None ∧ stats_concentrator (ask_concentrator force clock q) = None ∨
     ∃ c c', stats_concentrator p = Some c ∧ stats_concentrator (ask_concentrator force clock q) = Some c' ∧
       flush_send c force (next_tx p) clock = Some c')) as Hask.
  { intros q Ec Ech Etx. unfold ask_concentrator. rewrite Ec, Etx.
    destruct (stats_concentrator p) as [c|] eqn:E; [|split; [done|by left]].
    destruct (flush_send c force (next_tx p) clock) as [c'|] eqn:Es; [split; [done|right; by exists c, c']|].
    unfold flush_send, send in Es. by rewrite (Hp c eq_refl) in Es. }
  destruct client; [by apply Hask|]. rewrite sending_ok. by apply Hask.
Qed.

(** From the loop to the end: the last flush. *)
Lemma last_flush p clock :
  pipeline_inv p → pc p = Looping →
  ∃ p', rtc internal (on_shutdown serialize api_key p clock) p' ∧ pipeline_inv p' ∧
    pc p' = Done ∧ accepted p' = accepted p ∧ channel p' = [] ∧ commands_left p' = O.
Proof.
  intros Hp Hpc.
  destruct (flush_begin_inv p (buffer p ++ channel p) [] true clock Hp Hpc) as (Hf & Hef & Haf);
    [by rewrite app_nil_r|simpl; lia|].
  destruct (settles _ Hf) as (p' & Hs & Hp' & Hacc' & Heq' & Hch' & Hset).
  rewrite Hef in Heq', Hch'. specialize (Hch' eq_refl). destruct Hset as [Hcl [Hd|[Hd _]]]; [|by rewrite Hd in Heq'].
  exists p'. split_and!; [done|done|done|congruence| |done]. rewrite Hch'.
  unfold flush_begin. destruct (_ ++ _); [|rewrite sending_ok]; unfold ask_concentrator;
    cbn [stats_concentrator take_buffer]; destruct (stats_concentrator p); try done; by destruct (flush_send _ _ _ _).
Qed.
End StatsFacts.

(** ** The agent with its configuration *)
Section StatsAgent.
Context `{Hpb : PbTypes, !SpanConcentrator, !ConcentratorOrder, !ConcentratorOrderLaw, !ConfigEnv}.
Context (var : string → option string) (config : Config).
Context (serialize : StatsSend → result string string).
Context (Hconfig : config_new var = Some (Ok config)).

#[local] Abbreviation stats_config := (stats_config_of config).
#[local] Abbreviation key := (ep_api_key (trace_stats_intake config)).
#[local] Abbreviation internal := (internal stats_config serialize key).
#[local] Abbreviation step :=
  (step stats_config (agent_stats_computation_enabled config) (max_request_content_length config) serialize key).

Lemma key_present : is_Some key.
Proof. by eapply config_has_key. Qed.

(** C7: Under every interleaving of the tracers, the trace processor, the timer, the shutdown
    and the concentrator: every payload of a tracer answered 202 for it is, once and in
    order, sent, in the buffer or in the channel, which stays within its bound; the
    payloads the concentrator answers are sent exactly once and in order, or on their way
    to the flusher; it is asked for a forced flush once, at the end; and with the key of
    the configuration no send panics. *)
Theorem stats_end_to_end with_c p :
  rtc step (start with_c) p →
  accepted p = client_computed (sends p) ++ buffer p ++ channel p ∧
  zlen (channel p) ≤ STATS_PAYLOAD_CHANNEL_BUFFER_SIZE ∧ pc p ≠ Panicked ∧
  (ending (pc p) = true → buffer p = []) ∧
  ∀ c, stats_concentrator p = Some c →
    answered c ≫= answer_payloads = agent_computed (sends p) ++ in_flight c (pc p) ∧
    (∃ n, sent c ≫= flush_forced = replicate n false ++ (if ending (pc p) then [true] else [])) ∧
    ∃ done_, sent c = done_ ++ Actor.queue c ∧
      ∀ md, state c !! md = fold_left (alone stats_config md) done_ None.
Proof.
  intros Hp%(stats_reach_inv _ _ _ _ _ key_present). split_and!; [apply Hp..|]. intros c Ec.
  destruct (pi_concentrator _ p Hp c Ec) as [Hr Hs _ _ Ha Hfo]. split_and!; [done|done|].
  by eapply running_alone.
Qed.

(** A shutdown always ends, without help from the clients: from any state in which the
    flusher still runs it can finish the flush it is in, take the signal, and stop after a
    last flush.  Then everything accepted from the tracers has been sent, the concentrator
    has handled all its commands, and everything it answered has been sent. *)
Theorem shutdown_sends_everything with_c p :
  rtc step (start with_c) p → ending (pc p) = false →
  ∃ q clock p', rtc internal p q ∧ pc q = Looping ∧
    rtc internal (on_shutdown serialize key q clock) p' ∧
    pc p' = Done ∧ accepted p' = accepted p ∧ client_computed (sends p') = accepted p ∧ channel p' = [] ∧
    ∀ c, stats_concentrator p' = Some c →
      Actor.queue c = [] ∧ answered c ≫= answer_payloads = agent_computed (sends p').
Proof.
  intros Hp%(stats_reach_inv _ _ _ _ _ key_present) Hend. destruct (settles stats_config serialize key key_present p Hp) as (q & Hpq & Hq & Hacc & Heq & _ & [_ [Hd|[Hpc Hch]]]).
  { by rewrite Hd, Hend in Heq. }
  destruct (last_flush stats_config serialize key key_present q (λ _, 0) Hq Hpc)
    as (p' & Hs & Hp' & Hd & Hacc' & Hnil & Hcl).
  exists q, (λ _, 0), p'. split_and!; [done|done|done|done|congruence| |done|].
  - pose proof (pi_order _ p' Hp') as Ho. rewrite (pi_over _ p' Hp') in Ho by by rewrite Hd.
    rewrite Hnil in Ho. cbn in Ho. rewrite app_nil_r in Ho. congruence.
  - intros c Ec. unfold commands_left in Hcl. rewrite Ec in Hcl. apply length_zero_iff_nil in Hcl.
    destruct (pi_concentrator _ p' Hp' c Ec) as [_ _ _ _ Ha _]. rewrite Hd in Ha. cbn in Ha.
    by rewrite app_nil_r in Ha.
Qed.
End StatsAgent.

(** * Examples *)
Module StatsPipelineExamples.
Import TraceConfigExamples TraceProcessorExamples StatsExamples.
#[local] Existing Instances lambda_env TraceProcessorExamples.types counter conc_order conc_order_law.

(** An agent that takes the statistics of the tracers. *)
Definition environment : string → option string := vars ("DD_AGENT_STATS_COMPUTATION_ENABLED", "false").
Definition build_ok : match config_new environment with Some (Ok _) => True | _ => False end.
Proof. vm_compute. exact I. Defined.
Definition config1 : Config :=
  match config_new environment as b return match b with Some (Ok _) => True | _ => False end → Config with
  | Some (Ok c) => λ _, c
  | _ => λ absurd, match absurd with end
  end build_ok.
Definition no_serializer (_ : StatsSend) : result string string := Ok "".

Definition p0 : Pipeline := start true.
Definition p1 : Pipeline :=
  (on_request false (max_request_content_length config1) p0 {| content_length := Some (Some "100"); transfer_encoding := false |}
     (Ok a_md_payload) 7).2.
Definition c2 : Service (gmap TracerMetadata concentrator) Timed StatsResponse :=
  default stats_service_new (add_chunk stats_service_new healthy (md "a") (λ _, 5)).
Definition p2 : Pipeline := with_concentrator p1 c2.

(** A payload in the channel, a chunk queued. *)
Lemma p2_reached :
  rtc (step (stats_config_of config1) (agent_stats_computation_enabled config1)
         (max_request_content_length config1) no_serializer (ep_api_key (trace_stats_intake config1))) p0 p2.
Proof.
  eapply rtc_l.
  { apply (requests _ _ _ _ _ p0 {| content_length := Some (Some "100"); transfer_encoding := false |}
      (Ok a_md_payload) 7). by left. }
  apply rtc_once. apply (chunk_sent _ _ _ _ _ p1 stats_service_new healthy (md "a") (λ _, 5)); reflexivity.
Qed.

Lemma stats_end_to_end_witness : length (accepted p2) = 1%nat ∧ accepted p2 = channel p2 ∧ pc p2 ≠ Panicked.
Proof.
  destruct (stats_end_to_end environment config1 no_serializer ltac:(reflexivity) true p2 p2_reached)
    as (Ho & _ & Hpc & _).
  split_and!; [vm_compute; reflexivity|exact Ho|exact Hpc].
Defined.

Lemma shutdown_sends_everything_witness : ∃ q clock p',
  rtc (internal (stats_config_of config1) no_serializer (ep_api_key (trace_stats_intake config1)))
    (on_shutdown no_serializer (ep_api_key (trace_stats_intake config1)) q clock) p' ∧
  pc p' = Done ∧ length (client_computed (sends p')) = 1%nat.
Proof.
  destruct (shutdown_sends_everything environment config1 no_serializer ltac:(reflexivity) true p2 p2_reached eq_refl)
    as (q & clock & p' & _ & _ & Hs & Hd & _ & Hc & _).
  exists q, clock, p'. split; [exact Hs|]. split; [exact Hd|]. rewrite Hc. vm_compute. reflexivity.
Defined.
End StatsPipelineExamples.
