(* ===== verification/TraceAgent.v ===== *)
(** The trace agent as a whole: [MiniAgent::start_mini_agent] and [serve] of
    [datadog-trace-agent/src/mini_agent.rs], around the request path of the traces and that
    of the statistics.

    The supervisor and the accept loops of [AgentServer], the pipeline of [TracesPipeline]
    and that of [StatsPipeline] run side by side.  They meet in three places: a request
    needs a connection, the two pipelines share the concentrator, and the last flush of the
    statistics waits for the supervisor, which waits for its end.  A task aborted takes no
    further step, and a connection that ends drops the request it serves. *)
From Stdlib Require Import Ascii SpecFloat.
From S2P Require Import Prelude RStr Float Actor ScoreSampler TraceConfig TraceAggregator TraceProcessor Stats.
From S2P Require Import MiniAgent AgentServer TraceFlusher TracesPipeline StatsPipeline.

Section TraceAgent.
Context `{Hpb : PbTypes, !TraceUtils, !MapOrder, !SpanConcentrator, !ConcentratorOrder, !ConfigEnv}.
Context (config : Config) (serialize : StatsSend → result string string).

#[local] Abbreviation Concentrator :=
  (Service (gmap TracerMetadata concentrator) Timed StatsResponse).
#[local] Abbreviation stats_config := (stats_config_of config).
#[local] Abbreviation stats_key := (ep_api_key (trace_stats_intake config)).

(** * The state *)

Record Agent := {
  server : Supervised.State;
  traces : TracesPipeline.Pipeline;
  stats : StatsPipeline.Pipeline;
}.

Definition start (listening : Listening) : Agent :=
  {| server := Supervised.start listening;
     traces := TracesPipeline.start (error_sampler config) (TraceConfig.agent_stats_computation_enabled config);
     stats := StatsPipeline.start (TraceConfig.agent_stats_computation_enabled config) |}.

(** The connections alive. *)
Definition connections (s : Supervised.State) : nat :=
  SupervisedFacts.running (Supervised.tcp s) + SupervisedFacts.running (Supervised.pipe s).

(** The concentrator after a step of one pipeline, in the other. *)
Definition share_with_stats (st : StatsPipeline.Pipeline) (c : option Concentrator) : StatsPipeline.Pipeline :=
  match c with Some c => StatsPipeline.with_concentrator st c | None => st end.
Definition share_with_traces (t : TracesPipeline.Pipeline) (c : option Concentrator) : TracesPipeline.Pipeline :=
  match c with Some c => TracesPipeline.with_concentrator t c | None => t end.

Definition after_traces (a : Agent) (t : TracesPipeline.Pipeline) : Agent :=
  {| server := server a; traces := t;
     stats := share_with_stats (stats a) (TracesPipeline.stats_concentrator t) |}.
Definition after_stats (a : Agent) (st : StatsPipeline.Pipeline) : Agent :=
  {| server := server a; traces := share_with_traces (traces a) (StatsPipeline.stats_concentrator st);
     stats := st |}.

(** A connection drops the request it serves. *)
Definition drops (t t' : TracesPipeline.Pipeline) : Prop :=
  ∃ n req, decoding t !! n = Some req ∧ t' = cancel t n.

(** What the supervisor sees of the statistics flusher it waits for. *)
Definition joined (st : StatsPipeline.Pipeline) (r : result unit string) : Prop :=
  pc st = if is_ok r then Done else Panicked.

(** [serve] has returned: the surviving tasks are aborted. *)
Definition unfinished (a : Agent) : Prop := ∀ r, Supervised.supervisor (server a) ≠ Supervised.Finished r.

(** The accept loops, the connections, the supervisor and the shutdown; every request in
    progress keeps a connection. *)
Inductive step : Agent → Agent → Prop :=
  | server_steps a s t :
      Supervised.step (server a) s → rtc drops (traces a) t → (length (decoding t) ≤ connections s)%nat →
      (∀ r, Supervised.supervisor (server a) = Supervised.Signalled →
            Supervised.supervisor s = Supervised.Finished r → joined (stats a) r) →
      step a {| server := s; traces := t; stats := stats a |}
  | request_turned_away a req resp t :
      unfinished a → (length (decoding (traces a)) < connections (server a))%nat →
      verified (processor_config config) req = false ∨ enqueue_permits (traces a) = O →
      turn_away (processor_config config) (error_sampler config) (traces a) req = Some (resp, t) →
      step a (after_traces a t)
  | request_acquires a req :
      unfinished a → (length (decoding (traces a)) < connections (server a))%nat →
      verified (processor_config config) req = true → enqueue_permits (traces a) ≠ O →
      step a (after_traces a (acquire (traces a) req))
  | request_finishes a n req resp t :
      unfinished a → decoding (traces a) !! n = Some req →
      TracesPipeline.finish (processor_config config) (error_sampler config) (traces a) n req = Some (resp, t) →
      step a (after_traces a t)
  | traces_step a t :
      unfinished a → TracesPipeline.internal stats_config (traces a) t → step a (after_traces a t)
  | stats_request a headers decoded ts :
      unfinished a → (length (decoding (traces a)) < connections (server a))%nat →
      zlen (channel (stats a)) < STATS_PAYLOAD_CHANNEL_BUFFER_SIZE ∨ gone (pc (stats a)) = true →
      step a (after_stats a (on_request (TraceConfig.agent_stats_computation_enabled config)
                (TraceConfig.max_request_content_length config) (stats a) headers decoded ts).2)
  | stats_step a st :
      unfinished a → StatsPipeline.internal stats_config serialize stats_key (stats a) st →
      step a (after_stats a st)
  | stats_tick a clock :
      unfinished a → pc (stats a) = Looping →
      step a (after_stats a (on_tick serialize stats_key (stats a) clock))
  | stats_shutdown a clock :
      unfinished a → pc (stats a) = Looping → Supervised.flush_signalled (server a) = true →
      step a (after_stats a (on_shutdown serialize stats_key (stats a) clock)).
End TraceAgent.

(** * Facts *)
Section AgentFacts.
Context `{Hpb : PbTypes, !TraceUtils, !TraceUtilsLaws, !MapOrder, !MapOrderLaw}.
Context `{!SpanConcentrator, !ConcentratorOrder, !ConcentratorOrderLaw, !ConfigEnv}.
Context (var : string → option string) (config : Config) (serialize : StatsSend → result string string).
Context (Hconfig : config_new var = Some (Ok config)).

#[local] Abbreviation Concentrator :=
  (Service (gmap TracerMetadata concentrator) Timed StatsResponse).
#[local] Abbreviation stats_config := (stats_config_of config).
#[local] Abbreviation stats_key := (ep_api_key (trace_stats_intake config)).
#[local] Abbreviation with_stats := (TraceConfig.agent_stats_computation_enabled config).
#[local] Abbreviation start := (start config).
#[local] Abbreviation step := (step config serialize).
#[local] Abbreviation traces_steps :=
  (TracesPipeline.step (processor_config config) (error_sampler config) stats_config).
#[local] Abbreviation traces_inv :=
  (TracesPipeline.pipeline_inv (processor_config config) (error_sampler config) stats_config with_stats).
#[local] Abbreviation stats_internal := (StatsPipeline.internal stats_config serialize stats_key).
#[local] Abbreviation stats_steps :=
  (StatsPipeline.step stats_config with_stats (TraceConfig.max_request_content_length config) serialize stats_key).
#[local] Abbreviation stats_inv := (StatsPipeline.pipeline_inv stats_config).

Lemma stats_key_present : is_Some stats_key.
Proof. by eapply config_has_key. Qed.

(** ** The shared concentrator *)

(** Both pipelines see one concentrator. *)
Definition shared (a : Agent) : Prop :=
  TracesPipeline.stats_concentrator (traces a) = StatsPipeline.stats_concentrator (stats a).

Lemma share_with_stats_same st : share_with_stats st (StatsPipeline.stats_concentrator st) = st.
Proof. by destruct st as [? ? ? [c|] ? ? ?]. Qed.
Lemma share_with_traces_same t : share_with_traces t (TracesPipeline.stats_concentrator t) = t.
Proof. by destruct t as [? ? [c|] ? ? ? ? ?]. Qed.

Lemma after_traces_shared a t :
  shared a → (is_Some (TracesPipeline.stats_concentrator t) ↔ is_Some (TracesPipeline.stats_concentrator (traces a))) →
  shared (after_traces a t).
Proof.
  unfold shared. intros Hsh Hsome. cbn [after_traces traces stats]. rewrite Hsh in Hsome.
  destruct (TracesPipeline.stats_concentrator t); [done|]. cbn. symmetry. apply eq_None_not_Some. by intros []%Hsome%is_Some_None.
Qed.
Lemma after_stats_shared a st :
  shared a → (is_Some (StatsPipeline.stats_concentrator st) ↔ is_Some (StatsPipeline.stats_concentrator (stats a))) →
  shared (after_stats a st).
Proof.
  unfold shared. intros Hsh Hsome. cbn [after_stats traces stats]. rewrite <- Hsh in Hsome.
  destruct (StatsPipeline.stats_concentrator st); [done|]. cbn. apply eq_None_not_Some. by intros []%Hsome%is_Some_None.
Qed.

(** What one pipeline does to the concentrator the other sees as its own steps. *)
Lemma stats_seen_by_traces t st c :
  TracesPipeline.stats_concentrator t = StatsPipeline.stats_concentrator st →
  c = StatsPipeline.stats_concentrator st ∨
  (∃ x y, StatsPipeline.stats_concentrator st = Some x ∧ c = Some y ∧ serves (handle stats_config) x y) ∨
  (∃ x y force tx clock, StatsPipeline.stats_concentrator st = Some x ∧ c = Some y ∧
     flush_send x force tx clock = Some y) →
  rtc traces_steps t (share_with_traces t c).
Proof.
  intros Hsh [->|[(x & y & Ex & -> & Hs)|(x & y & force & tx & clock & Ex & -> & Hs)]]; rewrite <- Hsh in *.
  - by rewrite share_with_traces_same.
  - apply rtc_once. left. by eapply TracesPipeline.concentrator_steps.
  - apply rtc_once. right. by eapply stats_flushes.
Qed.

Lemma chunks_seen_by_stats st c clock chunks :
  StatsPipeline.stats_concentrator st = Some c → stopped c = false →
  rtc stats_steps st (StatsPipeline.with_concentrator st (add_chunks c clock chunks)).
Proof.
  revert st c. induction chunks as [|[chunk md] chunks IH]; intros st c Ec Hs.
  { destruct st. simpl in Ec. subst. apply rtc_refl. }
  unfold add_chunks. cbn [fold_left fst snd].
  destruct (add_chunk c chunk md clock) as [c1|] eqn:E; [|by unfold add_chunk, Actor.send in E; rewrite Hs in E].
  etrans; [by eapply add_chunk_run|]. apply (IH (StatsPipeline.with_concentrator st c1) c1); [done|].
  pose proof (send_spec _ _ _ E) as [_ ->]. done.
Qed.

Lemma rtc_drops t t' : rtc drops t t' → rtc traces_steps t t'.
Proof.
  induction 1 as [|x y z (n & req & Hn & ->) _ IH]; [done|]. eapply rtc_l; [|exact IH].
  right. by eapply disconnects.
Qed.

Lemma drops_concentrator t t' :
  rtc drops t t' → TracesPipeline.stats_concentrator t' = TracesPipeline.stats_concentrator t ∧
    buffered t' = buffered t.
Proof. induction 1 as [|x y z (n & req & Hn & ->) _ [-> ->]]; done. Qed.

(** ** The flusher asks the concentrator *)

Lemma tick_asks st clock :
  stats_inv st →
  StatsPipeline.stats_concentrator (on_tick serialize stats_key st clock) = StatsPipeline.stats_concentrator st ∨
  ∃ x y, StatsPipeline.stats_concentrator st = Some x ∧
    StatsPipeline.stats_concentrator (on_tick serialize stats_key st clock) = Some y ∧
    flush_send x false (next_tx st) clock = Some y.
Proof.
  intros Hi.
  destruct (flush_begin_asks serialize stats_key stats_key_present
    (take_buffer st (StatsPipeline.channel st)) (buffer st) false clock) as [_ Hask].
  { intros c Ec. apply (StatsPipeline.ci_runs _ _ _ _ _ (StatsPipeline.pi_concentrator _ _ Hi c Ec)). }
  unfold on_tick. destruct (buffer st) eqn:Eb, (StatsPipeline.stats_concentrator st) eqn:Ec; cbn [take_buffer StatsPipeline.stats_concentrator next_tx] in Hask; rewrite ?Ec in Hask;
    try (by left); destruct Hask as [[? E]|(x & y & Ex & Ey & Hs)]; try done; try (left; exact E);
    right; by exists x, y.
Qed.

Lemma shutdown_asks st clock :
  stats_inv st →
  let st' := on_shutdown serialize stats_key st clock in
  StatsPipeline.channel st' = [] ∧
  (StatsPipeline.stats_concentrator st = None ∧ StatsPipeline.stats_concentrator st' = None ∨
   ∃ x y, StatsPipeline.stats_concentrator st = Some x ∧ StatsPipeline.stats_concentrator st' = Some y ∧
     flush_send x true (next_tx st) clock = Some y).
Proof.
  intros Hi. apply (flush_begin_asks serialize stats_key stats_key_present (take_buffer st [])).
  intros c Ec. apply (StatsPipeline.ci_runs _ _ _ _ _ (StatsPipeline.pi_concentrator _ _ Hi c Ec)).
Qed.

(** ** The invariant *)

(** The last command of the concentrator is the forced flush. *)
Definition flushed_last (st : StatsPipeline.Pipeline) : Prop :=
  ∀ c, StatsPipeline.stats_concentrator st = Some c →
    ∃ cmds tx clock, sent c = cmds ++ [(Flush true tx, clock)].

(** Once the last flush has begun nothing more can reach the flusher. *)
Definition closed (a : Agent) : Prop :=
  Supervised.flush_signalled (server a) = true ∧ StatsPipeline.channel (stats a) = [] ∧ flushed_last (stats a).

Record agent_inv (a : Agent) : Prop := {
  ai_server : SupervisedFacts.sup_inv (server a);
  ai_traces : traces_inv (traces a);
  ai_stats : stats_inv (stats a);
  ai_shared : shared a;
  ai_requests : (length (decoding (traces a)) ≤ connections (server a))%nat;
  ai_ending : ending (pc (stats a)) = true → closed a;
  ai_finished : ∀ r, Supervised.supervisor (server a) = Supervised.Finished r → is_ok r = true → pc (stats a) = Done;
}.

Lemma agent_start_inv listening : agent_inv (start listening).
Proof.
  split; cbn; [apply SupervisedFacts.start_sup_inv|apply traces_start_inv|apply stats_start_inv| |lia|done|done].
  unfold shared. cbn. by destruct (TraceConfig.agent_stats_computation_enabled config).
Qed.

(** No connection is left once the last flush is asked for. *)
Lemma signalled_idle a :
  SupervisedFacts.sup_inv (server a) → Supervised.flush_signalled (server a) = true → connections (server a) = O.
Proof. intros Hs Hf. unfold connections. by destruct (SupervisedFacts.signalled_running _ Hs Hf) as [-> ->]. Qed.

Lemma busy_not_ending a : agent_inv a → (0 < connections (server a))%nat → ending (pc (stats a)) = false.
Proof.
  intros Hi Hc. destruct (ending (pc (stats a))) eqn:E; [|done].
  pose proof (signalled_idle a (ai_server a Hi) (proj1 (ai_ending a Hi E))). lia.
Qed.

(** How the concentrator may change under the statistics. *)
Definition asks_or_serves (c c' : option Concentrator) : Prop :=
  c' = c ∨ (∃ x y, c = Some x ∧ c' = Some y ∧ serves (handle stats_config) x y) ∨
  (∃ x y force tx clock, c = Some x ∧ c' = Some y ∧ flush_send x force tx clock = Some y).

Lemma asks_or_serves_some c c' : asks_or_serves c c' → is_Some c' ↔ is_Some c.
Proof. intros [->|[(? & ? & -> & -> & _)|(? & ? & ? & ? & ? & -> & -> & _)]]; [done|split; by eauto..]. Qed.

(** A step of the statistics: a run of their pipeline, of which the traces see the effect on
    the concentrator. *)
Lemma after_stats_inv a st :
  agent_inv a → unfinished a → stats_steps (stats a) st →
  asks_or_serves (StatsPipeline.stats_concentrator (stats a)) (StatsPipeline.stats_concentrator st) →
  (ending (pc st) = true → Supervised.flush_signalled (server a) = true ∧ StatsPipeline.channel st = [] ∧ flushed_last st) →
  agent_inv (after_stats a st) ∧ rtc traces_steps (traces a) (traces (after_stats a st)).
Proof.
  intros [Hsv Ht Hst Hsh Hreq _ _] Hun Hs Hask Hend.
  assert (rtc traces_steps (traces a) (traces (after_stats a st))) as Hrun
    by by eapply stats_seen_by_traces.
  split; [|done]. split; cbn [server stats after_stats]; [done|by eapply traces_inv_run| | | |exact Hend|].
  - eapply stats_inv_run; [apply stats_key_present|done|by apply rtc_once].
  - apply after_stats_shared; [done|by apply asks_or_serves_some].
  - cbn. by destruct (StatsPipeline.stats_concentrator st).
  - intros r E. by destruct (Hun r).
Qed.

(** A step of the traces: a run of their pipeline, of which the statistics see the effect on
    the concentrator. *)
Lemma after_traces_inv a t :
  agent_inv a → unfinished a → traces_steps (traces a) t →
  (length (decoding t) ≤ connections (server a))%nat →
  (is_Some (TracesPipeline.stats_concentrator t) ↔ is_Some (TracesPipeline.stats_concentrator (traces a))) →
  rtc stats_steps (stats a) (stats (after_traces a t)) →
  (ending (pc (stats a)) = true → flushed_last (stats (after_traces a t))) →
  agent_inv (after_traces a t).
Proof.
  intros Hi Hun Hs Hreq Hsome Hrun Hlast. pose proof Hi as [Hsv Ht Hst Hsh _ Hend _].
  split; cbn [server traces after_traces]; [done|by eapply traces_inv_run, rtc_once| | |done| |].
  - eapply stats_inv_run; [apply stats_key_present|done|done].
  - by apply after_traces_shared.
  - intros E. assert (ending (pc (stats a)) = true) as E'
      by (revert E; cbn; by destruct (TracesPipeline.stats_concentrator t)).
    destruct (Hend E') as (? & Hch & _). split; [done|]. split; [|by apply Hlast].
    cbn. by destruct (TracesPipeline.stats_concentrator t).
  - intros r E. by destruct (Hun r).
Qed.

Lemma keeps_signalled s s' :
  Supervised.step s s' → Supervised.flush_signalled s = true → Supervised.flush_signalled s' = true.
Proof. by destruct 1. Qed.

(** ** The steps *)

#[local] Abbreviation projects a a' :=
  (rtc traces_steps (traces a) (traces a') ∧ rtc stats_steps (stats a) (stats a') ∧
   rtc Supervised.step (server a) (server a')).

Lemma server_steps_inv a s t :
  agent_inv a → Supervised.step (server a) s → rtc drops (traces a) t → (length (decoding t) ≤ connections s)%nat →
  (∀ r, Supervised.supervisor (server a) = Supervised.Signalled →
        Supervised.supervisor s = Supervised.Finished r → joined (stats a) r) →
  agent_inv {| server := s; traces := t; stats := stats a |}.
Proof.
  intros [Hsv Ht Hst Hsh _ Hend Hfin] Hs Hd Hreq Hjoin. destruct (drops_concentrator _ _ Hd) as [Ec _].
  split; cbn [server traces stats]; try done.
  - by eapply SupervisedFacts.sup_step_inv.
  - by eapply traces_inv_run, rtc_drops.
  - unfold shared. cbn. by rewrite Ec.
  - intros E. destruct (Hend E) as (Hf & Hc & Hl). split; [by eapply keeps_signalled|done].
  - intros r E Hr. destruct (SupervisedFacts.finish_from _ _ _ Hs E) as [E'|[E'|[_ E']]]; [by eapply Hfin| |congruence].
    specialize (Hjoin r E' E). unfold joined in Hjoin. by rewrite Hr in Hjoin.
Qed.

Lemma request_finishes_inv a n req resp t :
  agent_inv a → unfinished a → decoding (traces a) !! n = Some req →
  TracesPipeline.finish (processor_config config) (error_sampler config) (traces a) n req = Some (resp, t) →
  agent_inv (after_traces a t) ∧ rtc stats_steps (stats a) (stats (after_traces a t)) ∧
  decoding t = delete n (decoding (traces a)).
Proof.
  intros Hi Hun Hn Hf. pose proof Hi as [Hsv Ht Hst Hsh Hreq Hend _].
  pose proof (lookup_lt_Some _ _ _ Hn) as Hln.
  assert (traces_steps (traces a) t) as Hs by (right; by eapply finishes).
  assert (∃ clock chunks, TracesPipeline.stats_concentrator t =
            (λ c, add_chunks c clock chunks) <$> TracesPipeline.stats_concentrator (traces a) ∧
          decoding t = delete n (decoding (traces a))) as (clock & chunks & Ec & Ed).
  { unfold TracesPipeline.finish in Hf. destruct (process_traces _ _ _ _ _ _ _ _) as [r|]; [|done].
    injection Hf as <- <-. by eexists _, _. }
  assert (rtc stats_steps (stats a) (stats (after_traces a t))) as Hrun.
  { cbn [after_traces stats]. rewrite Ec, Hsh. destruct (StatsPipeline.stats_concentrator (stats a)) as [c|] eqn:Esc; [|done].
    apply chunks_seen_by_stats; [done|]. apply (StatsPipeline.ci_runs _ _ _ _ _ (StatsPipeline.pi_concentrator _ _ Hst c Esc)). }
  split_and!; [|done|done]. apply after_traces_inv; try done.
  - rewrite Ed, length_delete by eauto. lia.
  - by rewrite Ec, fmap_is_Some.
  - rewrite busy_not_ending by (done || lia). done.
Qed.

Lemma request_turned_away_inv a req resp t :
  agent_inv a → unfinished a →
  verified (processor_config config) req = false ∨ enqueue_permits (traces a) = O →
  turn_away (processor_config config) (error_sampler config) (traces a) req = Some (resp, t) →
  agent_inv (after_traces a t) ∧ stats (after_traces a t) = stats a.
Proof.
  intros Hi Hun Hno Ht.
  destruct (turn_away_inv _ _ _ _ _ _ _ _ (ai_traces a Hi) Ht) as [_ E].
  assert (traces_steps (traces a) t) as Hs by (right; by eapply turns_away). subst t.
  assert (stats (after_traces a (replied (traces a) req resp)) = stats a) as Est
    by (cbn; rewrite (ai_shared a Hi); apply share_with_stats_same).
  split; [|done]. apply after_traces_inv; try done.
  - apply Hi.
  - by rewrite Est.
  - rewrite Est. intros E. apply (ai_ending a Hi E).
Qed.

Lemma request_acquires_inv a req :
  agent_inv a → unfinished a → (length (decoding (traces a)) < connections (server a))%nat →
  verified (processor_config config) req = true → enqueue_permits (traces a) ≠ O →
  agent_inv (after_traces a (acquire (traces a) req)) ∧ stats (after_traces a (acquire (traces a) req)) = stats a.
Proof.
  intros Hi Hun Hlt Hv Hp.
  assert (stats (after_traces a (acquire (traces a) req)) = stats a) as Est
    by (cbn; rewrite (ai_shared a Hi); apply share_with_stats_same).
  split; [|done]. apply after_traces_inv; try done.
  - right. by apply acquires.
  - cbn. rewrite length_app. simpl. lia.
  - by rewrite Est.
  - rewrite Est. intros E. apply (ai_ending a Hi E).
Qed.

Lemma traces_step_inv a t :
  agent_inv a → unfinished a → TracesPipeline.internal stats_config (traces a) t →
  agent_inv (after_traces a t) ∧ rtc stats_steps (stats a) (stats (after_traces a t)).
Proof.
  intros Hi Hun Hs. pose proof (ai_shared a Hi) as Hsh. unfold shared in Hsh.
  destruct (traces_internal_inv _ _ _ _ _ _ (ai_traces a Hi) Hs) as (_ & _ & Ed).
  assert (TracesPipeline.stats_concentrator t = TracesPipeline.stats_concentrator (traces a) ∨
          ∃ x y, StatsPipeline.stats_concentrator (stats a) = Some x ∧ TracesPipeline.stats_concentrator t = Some y ∧
            serves (handle stats_config) x y) as Hc.
  { destruct Hs as [| | |p x y Ex Hs]; [by left..|right]. rewrite Hsh in Ex. by exists x, y. }
  assert (rtc stats_steps (stats a) (stats (after_traces a t))) as Hrun.
  { cbn. destruct Hc as [->|(x & y & Ex & -> & Hs')].
    - by rewrite Hsh, share_with_stats_same.
    - apply rtc_once, internal_step. by eapply StatsPipeline.concentrator_steps. }
  split; [|done]. apply after_traces_inv; try done; [by left|rewrite Ed; apply Hi| |].
  - destruct Hc as [->|(x & y & Ex & -> & _)]; [done|]. rewrite Hsh, Ex. split; eauto.
  - intros E. destruct (ai_ending a Hi E) as (_ & _ & Hl). destruct Hc as [Ec|(x & y & Ex & Ec & Hs')]; cbn; rewrite Ec.
    + by rewrite Hsh, share_with_stats_same.
    + intros c [= <-]. rewrite (recv_sent _ _ _ Hs'). by apply Hl.
Qed.

Lemma stats_step_agent a st :
  agent_inv a → unfinished a → stats_internal (stats a) st →
  agent_inv (after_stats a st) ∧ rtc traces_steps (traces a) (traces (after_stats a st)).
Proof.
  intros Hi Hun Hs. pose proof (ai_stats a Hi) as Hst.
  destruct (stats_internal_inv _ _ _ stats_key_present _ _ Hst Hs) as (_ & _ & Een & Ech).
  pose proof (stats_internal_concentrator _ _ _ stats_key_present _ _ Hst Hs) as Hc.
  apply after_stats_inv; [done|done|by apply internal_step| |].
  - destruct Hc as [->|(x & y & Ex & Ey & Hs')]; [by left|right; left; by exists x, y].
  - rewrite Een. intros E. destruct (ai_ending a Hi E) as (? & ? & Hl). split; [done|]. split; [by rewrite Ech|].
    destruct Hc as [Ec|(x & y & Ex & Ey & Hs')]; intros c Ec'.
    + rewrite Ec in Ec'. by apply Hl.
    + rewrite Ey in Ec'. injection Ec' as <-. rewrite (recv_sent _ _ _ Hs'). by apply Hl.
Qed.

Lemma stats_shutdown_agent a clock :
  agent_inv a → unfinished a → pc (stats a) = Looping → Supervised.flush_signalled (server a) = true →
  let st := on_shutdown serialize stats_key (stats a) clock in
  agent_inv (after_stats a st) ∧ rtc traces_steps (traces a) (traces (after_stats a st)).
Proof.
  intros Hi Hun Hpc Hf. cbv zeta.
  destruct (shutdown_asks (stats a) clock (ai_stats a Hi)) as [Hch Hc].
  apply after_stats_inv; [done|done|by apply shuts_down| |].
  - destruct Hc as [[-> ->]|(x & y & Ex & Ey & Hs)]; [by left|right; right].
    by exists x, y, true, (next_tx (stats a)), clock.
  - intros _. split_and!; [done|done|]. intros c Ec.
    destruct Hc as [[_ E]|(x & y & Ex & Ey & Hs)]; [by rewrite E in Ec|].
    rewrite Ey in Ec. injection Ec as <-. pose proof (send_spec _ _ _ Hs) as [_ ->]. by eexists _, _, _.
Qed.

Lemma stats_tick_agent a clock :
  agent_inv a → unfinished a → pc (stats a) = Looping →
  let st := on_tick serialize stats_key (stats a) clock in
  agent_inv (after_stats a st) ∧ rtc traces_steps (traces a) (traces (after_stats a st)).
Proof.
  intros Hi Hun Hpc. cbv zeta. apply after_stats_inv; [done|done|by apply ticks| |].
  - destruct (tick_asks (stats a) clock (ai_stats a Hi)) as [->|(x & y & Ex & Ey & Hs)]; [by left|right; right].
    by exists x, y, false, (next_tx (stats a)), clock.
  - destruct (flush_begin_inv stats_config serialize stats_key stats_key_present (stats a) (buffer (stats a)) (StatsPipeline.channel (stats a))
      false clock (ai_stats a Hi) Hpc eq_refl) as (_ & He & _); [lia|].
    unfold on_tick. destruct (buffer (stats a)); [destruct (StatsPipeline.stats_concentrator (stats a))|];
      rewrite ?He, ?Hpc; done.
Qed.

Lemma stats_request_agent a headers decoded ts :
  agent_inv a → unfinished a → (length (decoding (traces a)) < connections (server a))%nat →
  zlen (StatsPipeline.channel (stats a)) < STATS_PAYLOAD_CHANNEL_BUFFER_SIZE ∨ gone (pc (stats a)) = true →
  let st := (on_request with_stats (TraceConfig.max_request_content_length config) (stats a) headers decoded ts).2 in
  agent_inv (after_stats a st) ∧ rtc traces_steps (traces a) (traces (after_stats a st)).
Proof.
  intros Hi Hun Hlt Hroom. cbv zeta. pose proof (busy_not_ending a Hi) as Hb.
  apply after_stats_inv; [done|done|by apply requests| |].
  - left. unfold on_request. by destruct (process_stats _ _ _ _ _ _).
  - assert (pc (on_request with_stats (TraceConfig.max_request_content_length config) (stats a) headers decoded ts).2
      = pc (stats a)) as -> by (unfold on_request; by destruct (process_stats _ _ _ _ _ _)).
    rewrite Hb by lia. done.
Qed.

Lemma agent_step_inv a a' : agent_inv a → step a a' → agent_inv a' ∧ projects a a'.
Proof.
  intros Hi Hs. destruct Hs as [a s t Hs Hd Hreq Hjoin|a req resp t Hun _ Hno Ht|a req Hun Hlt Hv Hp|a n req resp t Hun Hn Hf|a t Hun Hs
    |a headers decoded ts Hun Hlt Hroom|a st Hun Hs|a clock Hun Hpc|a clock Hun Hpc Hf].
  - split; [by apply server_steps_inv|]. split_and!; [by apply rtc_drops|done|by apply rtc_once].
  - destruct (request_turned_away_inv a req resp t) as [? E]; [done..|]. rewrite E.
    split_and!; [done| |done|done]. apply rtc_once. right. by eapply turns_away.
  - destruct (request_acquires_inv a req) as [? E]; [done..|]. rewrite E.
    split_and!; [done| |done|done]. apply rtc_once. right. by apply acquires.
  - destruct (request_finishes_inv a n req resp t) as (? & ? & _); [done..|].
    split_and!; [done| |done|done]. apply rtc_once. right. by eapply finishes.
  - destruct (traces_step_inv a t) as (? & ?); [done..|]. split_and!; [done| |done|done]. apply rtc_once. by left.
  - destruct (stats_request_agent a headers decoded ts) as (? & ?); [done..|].
    split_and!; [done|done| |done]. by apply rtc_once, requests.
  - destruct (stats_step_agent a st) as (? & ?); [done..|].
    split_and!; [done|done| |done]. by apply rtc_once, internal_step.
  - destruct (stats_tick_agent a clock) as (? & ?); [done..|]. split_and!; [done|done| |done]. by apply rtc_once, ticks.
  - destruct (stats_shutdown_agent a clock) as (? & ?); [done..|].
    split_and!; [done|done| |done]. by apply rtc_once, shuts_down.
Qed.

Lemma agent_run a a' : agent_inv a → rtc step a a' → agent_inv a' ∧ projects a a'.
Proof.
  intros Hi Hr. revert Hi. induction Hr as [|x y z Hxy _ IH]; intros Hi; [done|].
  destruct (agent_step_inv x y Hi Hxy) as (Hy & ? & ? & ?). destruct (IH Hy) as (? & ? & ? & ?).
  split_and!; [done|by etrans..].
Qed.

(** ** The end *)

(** A concentrator that was asked for its last flush, and whose flusher is done, has nothing
    left to handle. *)
Lemma done_concentrator st c :
  stats_inv st → pc st = Done → flushed_last st → StatsPipeline.stats_concentrator st = Some c →
  Actor.queue c = [] ∧ answered c ≫= answer_payloads = agent_computed (sends st).
Proof.
  intros Hi Hd Hl Ec. destruct (StatsPipeline.pi_concentrator _ _ Hi c Ec) as [Hr Hst Ha _ Hp _].
  rewrite Hd in Ha, Hp. cbn in Ha, Hp. rewrite app_nil_r in Hp. split; [|done].
  destruct (Hl c Ec) as (cmds & tx & clock & E).
  destruct (running_alone _ _ Hr Hst) as (d & Hsent & _). rewrite E in Hsent.
  destruct (Actor.queue c) as [|x q _] using rev_ind; [done|]. rewrite bind_app, bind_singleton in Ha.
  rewrite app_assoc in Hsent. apply app_inj_tail in Hsent as [_ <-].
  apply app_eq_nil in Ha as [_ Ha]. done.
Qed.


(** ** Reaching the end *)

(** What the way to the end leaves as it is: the flusher of the traces, the pieces still in
    their tasks, and what was accepted of the tracers' statistics. *)
Definition keeps (a a' : Agent) : Prop :=
  flusher (traces a') = flusher (traces a) ∧ accepted (stats a') = accepted (stats a) ∧
  ∃ bs, buffered (traces a') = buffered (traces a) ++ bs ∧
    ∀ i, (i < length (buffered (traces a)))%nat → enqueues (traces a') !! i = enqueues (traces a) !! i.

#[local] Instance keeps_preorder : PreOrder keeps.
Proof.
  split.
  - intros a. split_and!; [done|done|]. exists []. by rewrite app_nil_r.
  - intros a b c (Hf & Ha & bs & Hb & Hq) (Hf' & Ha' & bs' & Hb' & Hq'). split_and!; [congruence..|].
    exists (bs ++ bs'). split; [by rewrite Hb', Hb, app_assoc|]. intros i Hi. rewrite Hq', Hq; [done|done|].
    rewrite Hb, length_app. lia.
Qed.

(** [a] can go on to [a'] without its supervisor. *)
#[local] Abbreviation goes_on a a' := (rtc step a a' ∧ agent_inv a' ∧ server a' = server a ∧ keeps a a').

Lemma goes_on_trans a b c : goes_on a b → goes_on b c → goes_on a c.
Proof. intros (? & ? & Es & ?) (? & ? & Es' & ?). split_and!; [by etrans|done|congruence|by etrans]. Qed.

Lemma unfinished_same a a' : server a' = server a → unfinished a → unfinished a'.
Proof. unfold unfinished. by intros ->. Qed.

(** The processor answers the requests being read. *)
Lemma requests_end a :
  agent_inv a → unfinished a → ∃ a', goes_on a a' ∧ decoding (traces a') = [].
Proof.
  remember (length (decoding (traces a))) as n eqn:En. revert a En.
  induction n as [|n IH]; intros a En Hi Hun.
  { exists a. symmetry in En. apply length_zero_iff_nil in En. by split_and!. }
  destruct (decoding (traces a)) as [|req rest] eqn:Ed; [done|].
  assert (decoding (traces a) !! 0%nat = Some req) as Hreq0 by by rewrite Ed.
  destruct (finish_total _ _ _ _ _ 0 req (ai_traces a Hi)) as [[resp t] Hf].
  destruct (request_finishes_inv a 0 req resp t Hi Hun Hreq0 Hf) as (Hi' & _ & Ed').
  destruct (IH (after_traces a t)) as (a' & Hgo & Hd); [|done|done|].
  { cbn. rewrite Ed', Ed. simpl in *. lia. }
  exists a'. split; [|done]. eapply goes_on_trans; [|exact Hgo]. split_and!; [|done|done|].
  { apply rtc_once. by eapply request_finishes. }
  unfold TracesPipeline.finish in Hf. destruct (process_traces _ _ _ _ _ _ _ _) as [r|]; [|done].
  injection Hf as _ <-. unfold keeps. cbn. split_and!; [done|by destruct (TracesPipeline.stats_concentrator (traces a))|].
  destruct (_ =? _); eexists; (split; [reflexivity || by rewrite app_nil_r|]); [|done].
  intros i Hlt. rewrite lookup_insert_ne; [done|lia].
Qed.

(** The server runs by itself while no request is being read. *)
Lemma server_runs a s :
  decoding (traces a) = [] → rtc Supervised.step (server a) s → (∀ r, Supervised.supervisor s ≠ Supervised.Finished r) →
  rtc step a {| server := s; traces := traces a; stats := stats a |}.
Proof.
  intros Hd Hr. destruct a as [s0 t st]. cbn in *.
  induction Hr as [s|x y z Hxy Hyz IH]; intros Hnf; [done|].
  eapply rtc_l; [|by apply IH]. apply server_steps; cbn; [done|done|rewrite Hd; simpl; lia|].
  intros r _ E. by destruct (Hnf r); apply (SupervisedFacts.finished_stays y).
Qed.

Lemma stats_keeps a st : accepted st = accepted (stats a) → keeps a (after_stats a st).
Proof.
  intros E. unfold keeps. cbn. destruct (StatsPipeline.stats_concentrator st); cbn;
    (split_and!; [done|done|exists []; by rewrite app_nil_r]).
Qed.

(** The statistics run by themselves. *)
Lemma agent_stats_run a st :
  rtc stats_internal (stats a) st → agent_inv a → unfinished a → ∃ a', goes_on a a' ∧ stats a' = st.
Proof.
  intros Hr. remember (stats a) as st0 eqn:E. revert a E.
  induction Hr as [st|x y z Hxy _ IH]; intros a E Hi Hun; subst; [by exists a|].
  destruct (stats_step_agent a y Hi Hun Hxy) as [Hi' _].
  destruct (IH (after_stats a y)) as (a' & Hgo & Es); [done..|]. exists a'. split; [|done].
  eapply goes_on_trans; [|exact Hgo]. split_and!; [by apply rtc_once, stats_step|done|done|].
  apply stats_keeps. by destruct (stats_internal_inv _ _ _ stats_key_present _ _ (ai_stats a Hi) Hxy) as (_ & ? & _).
Qed.

(** The statistics flusher ends once it is told to. *)
Lemma flusher_ends a :
  agent_inv a → unfinished a → Supervised.flush_signalled (server a) = true →
  ∃ a', goes_on a a' ∧ pc (stats a') = Done.
Proof.
  intros Hi Hun Hf.
  destruct (settles _ serialize _ stats_key_present _ (ai_stats a Hi)) as (st & Hr & _ & _ & _ & _ & _ & Hd).
  destruct (agent_stats_run a st Hr Hi Hun) as (a1 & Hgo1 & <-). destruct Hd as [Hd|[Hpc _]]; [by exists a1|].
  pose proof Hgo1 as (_ & Hi1 & Es1 & _).
  assert (unfinished a1) as Hun1 by by eapply unfinished_same.
  destruct (stats_shutdown_agent a1 (λ _, 0) Hi1 Hun1 Hpc) as [Hi2 _]; [by rewrite Es1|].
  destruct (last_flush _ serialize _ stats_key_present _ (λ _, 0) (ai_stats a1 Hi1) Hpc) as (st & Hr2 & _ & Hd & Hacc & _).
  destruct (agent_stats_run (after_stats a1 (on_shutdown serialize stats_key (stats a1) (λ _, 0))) st)
    as (a3 & Hgo3 & <-); [done..|].
  exists a3. split; [|done]. eapply goes_on_trans; [done|]. eapply goes_on_trans; [|done].
  split_and!; [by apply rtc_once, stats_shutdown; rewrite ?Es1|done|done|]. apply stats_keeps.
  destruct (flush_begin_inv _ serialize _ stats_key_present (stats a1) (buffer (stats a1) ++ StatsPipeline.channel (stats a1)) [] true
    (λ _, 0) (ai_stats a1 Hi1) Hpc) as (_ & _ & ?); [by rewrite app_nil_r|simpl; lia|done].
Qed.

(** From a shutdown to the end. *)
Lemma agent_drains a :
  agent_inv a → Supervised.shutdown (server a) = true → unfinished a →
  ∃ a', rtc step a a' ∧ Supervised.supervisor (server a') = Supervised.Finished (Ok tt) ∧ keeps a a'.
Proof.
  intros Hi Hsh Hun.
  destruct (requests_end a Hi Hun) as (a1 & (Hr1 & Hi1 & Es1 & Hk1) & Hd1).
  destruct (SupervisedFacts.can_signal (server a) (ai_server a Hi) Hsh Hun) as (s & Hrs & Esig).
  set (a2 := {| server := s; traces := traces a1; stats := stats a1 |}).
  assert (unfinished a2) as Hun2 by (intros r; cbn; by rewrite Esig).
  assert (rtc step a1 a2) as Hr2 by (apply server_runs; [done|by rewrite Es1|exact Hun2]).
  destruct (agent_run a1 a2 Hi1 Hr2) as (Hi2 & _).
  assert (Supervised.flush_signalled (server a2) = true) as Hf.
  { pose proof (SupervisedFacts.si_pc _ (ai_server a2 Hi2)) as Hpc. cbn in Hpc. rewrite Esig in Hpc. tauto. }
  destruct (flusher_ends a2 Hi2 Hun2 Hf) as (a3 & (Hr3 & Hi3 & Es3 & Hk3) & Hd3).
  eexists. split_and!; [etrans; [exact Hr1|etrans; [exact Hr2|etrans; [exact Hr3|apply rtc_once]]]| |].
  - apply (server_steps _ _ a3 (Supervised.finish (server a3) (Ok tt)) (traces a3)); [|done| |].
    + rewrite Es3. by apply (Supervised.stats_flushed s (Ok tt)).
    + pose proof (ai_requests a3 Hi3) as Hreq. rewrite (signalled_idle a3 (ai_server a3 Hi3)) in Hreq by (by rewrite Es3). lia.
    + intros r _ [= <-]. exact Hd3.
  - done.
  - etrans; [exact Hk1|]. exact Hk3.
Qed.

End AgentFacts.

(** * Examples *)
Module TraceAgentExamples.
Import TraceConfigExamples StatsExamples TracesPipelineExamples AgentServerExamples.
#[local] Existing Instances lambda_env TraceProcessorExamples.types TraceProcessorExamples.utils
  TraceProcessorExamples.utils_laws TraceProcessorExamples.order TraceProcessorExamples.order_law counter conc_order
  conc_order_law.

(** An agent that computes the statistics itself. *)
Definition agent_environment : string → option string := vars ("DD_SITE", "datadoghq.eu").
Definition agent_config_ok : match config_new agent_environment with Some (Ok _) => True | _ => False end.
Proof. vm_compute. exact I. Defined.
Definition agent_config : Config :=
  match config_new agent_environment as b return match b with Some (Ok _) => True | _ => False end → Config with
  | Some (Ok c) => λ _, c
  | _ => λ absurd, match absurd with end
  end agent_config_ok.
Definition to_nothing (_ : StatsSend) : result string string := Ok "".

(** A connection, a request on it, its answer, the shutdown. *)
Definition a0 : Agent := start agent_config tcp_only.
Definition a1 : Agent := {| server := one_conn; traces := traces a0; stats := stats a0 |}.
Definition a2 : Agent := after_traces a1 (acquire (traces a1) a_request).
Definition answer2 : HttpResponse * TracesPipeline.Pipeline :=
  default ({| status := 0; body := Message "" |}, traces a2)
    (TracesPipeline.finish (processor_config agent_config) (error_sampler agent_config) (traces a2) 0 a_request).
Definition a3 : Agent := after_traces a2 answer2.2.
Definition a4 : Agent :=
  {| server := {| Supervised.shutdown := true; Supervised.tcp := Supervised.tcp one_conn; Supervised.pipe := None;
                  Supervised.supervisor := Supervised.Selecting; Supervised.flush_signalled := false |};
     traces := traces a3; stats := stats a3 |}.

Lemma a4_reached : rtc (step agent_config to_nothing) a0 a4.
Proof.
  eapply rtc_l.
  { apply (server_steps _ _ a0 one_conn (traces a0)); [|done|vm_compute; lia|done].
    apply (Supervised.tcp_step _ Accept.loop_new); [reflexivity|]. by apply (Accept.accepts _ Accept.loop_new (Ok tt)). }
  eapply rtc_l.
  { apply (request_acquires _ _ a1 a_request); [done|vm_compute; lia|reflexivity|done]. }
  eapply rtc_l.
  { apply (request_finishes _ _ a2 0 a_request answer2.1 answer2.2); [done|reflexivity|vm_compute; reflexivity]. }
  apply rtc_once. apply (server_steps _ _ a3); [apply (Supervised.signal_shutdown one_conn)|done|vm_compute; lia|done].
Qed.

Lemma agent_config_built : config_new agent_environment = Some (Ok agent_config).
Proof. reflexivity. Qed.

Lemma a4_inv : agent_inv agent_config a4.
Proof.
  apply (agent_run agent_environment agent_config to_nothing agent_config_built a0); [|exact a4_reached].
  apply agent_start_inv.
Qed.


End TraceAgentExamples.
