(* ===== verification/CompatMain.v ===== *)
(** The compatibility binary: [datadog-serverless-compat/src/main.rs].

    The settings read from the environment, the start-up of the components, every
    decision and failure in the order of [main], and the loop over its three timers.
    The components are those of the other files; reqwest and the installation of the log
    subscriber are parameters. *)
From Stdlib Require Import Ascii SpecFloat.
From S2P Require Import Prelude RStr Float Externals Metric Origin Aggregator Actor AggregatorService Flusher Intake.
From S2P Require Import DogStatsD LogsFlusher TraceConfig Serde AppServices MetricsCollector Metadata Fips DogStatsDServer AgentServer.

Definition CPU_METRICS_COLLECTION_INTERVAL_SECS : Z := 1.
Definition DOGSTATSD_FLUSH_INTERVAL : Z := 10.
Definition INSTANCE_METRICS_COLLECTION_INTERVAL_SECS : Z := 3.
Definition DOGSTATSD_TIMEOUT_DURATION : Z := 5.
Definition DEFAULT_DOGSTATSD_PORT : Z := 8125.
Definition DEFAULT_LOG_INTAKE_PORT : Z := 10517.
Definition AGENT_HOST : string := "0.0.0.0".

(** * Settings *)

Definition env_dogstatsd_tags (env_type : EnvironmentType) : string :=
  match env_type with
  | CloudFunction => "origin:cloudfunction,dd.origin:cloudfunction"
  | AzureFunction => "origin:azurefunction,dd.origin:azurefunction"
  | AzureSpringApp => "origin:azurespringapp,dd.origin:azurespringapp"
  | LambdaFunction => "origin:lambda,dd.origin:lambda"
  end.

Definition is_azure_function (env_type : EnvironmentType) : bool :=
  match env_type with AzureFunction => true | _ => false end.

Definition decide_dogstatsd_port (has_pipe : bool) (configured_port : option string) : Z :=
  match configured_port ≫= parse_uint u16_max with
  | Some port => port
  | None => if has_pipe then 0 else DEFAULT_DOGSTATSD_PORT
  end.

Record EnabledMetricsComponents := {
  start_metrics_aggregator_and_flusher : bool;
  start_dogstatsd_listener_flag : bool;
  start_instance_metrics_collector : bool;
  start_cpu_metrics_collector : bool;
}.

Definition decide_metrics_components (dd_use_dogstatsd instance_metric_enabled dd_enhanced_metrics : bool) :
    EnabledMetricsComponents :=
  {| start_metrics_aggregator_and_flusher :=
       dd_use_dogstatsd || instance_metric_enabled || dd_enhanced_metrics;
     start_dogstatsd_listener_flag := dd_use_dogstatsd;
     start_instance_metrics_collector := instance_metric_enabled;
     start_cpu_metrics_collector := dd_enhanced_metrics |}.

(** [val.to_lowercase() != FALSE], true when the variable is not set. *)
Definition not_false (o : option string) : bool :=
  match o with Some val => negb (String.eqb (to_lowercase val) "false") | None => true end.

Record Settings := {
  log_level : string;
  platform : EnvironmentType;
  dogstatsd_tags : string;
  dd_api_key : option string;
  dogstatsd_pipe_name : option string;
  dogstatsd_port_setting : Z;
  site_setting : string;
  dd_use_dogstatsd : bool;
  dd_statsd_metric_namespace : option string;
  dd_enhanced_metrics : bool;
  proxy_setting : option string;
  dd_logs_enabled : bool;
  dd_logs_port : Z;
  instance_metric_enabled : bool;
}.

Section Settings.
Context `{!ConfigEnv} (var : string → option string).

(** The settings at the head of [main]; [None] when the platform is not identified. *)
Definition read_settings : option Settings :=
  match read_cloud_env with
  | None => None
  | Some (_, env_type) =>
      let pipe :=
        if windows_pipes then normalize_pipe_name <$> var "DD_DOGSTATSD_WINDOWS_PIPE_NAME" else None in
      Some {|
        log_level := default "info" (to_lowercase <$> var "DD_LOG_LEVEL");
        platform := env_type;
        dogstatsd_tags := env_dogstatsd_tags env_type;
        dd_api_key := var "DD_API_KEY";
        dogstatsd_pipe_name := pipe;
        dogstatsd_port_setting :=
          decide_dogstatsd_port (bool_decide (is_Some pipe)) (var "DD_DOGSTATSD_PORT");
        site_setting := default "datadoghq.com" (var "DD_SITE");
        dd_use_dogstatsd := not_false (var "DD_USE_DOGSTATSD");
        dd_statsd_metric_namespace := var "DD_STATSD_METRIC_NAMESPACE" ≫= parse_metric_namespace;
        dd_enhanced_metrics :=
          is_azure_function env_type && not_false (var "DD_ENHANCED_METRICS_ENABLED");
        proxy_setting :=
          match var "DD_PROXY_HTTPS" with Some p => Some p | None => var "HTTPS_PROXY" end;
        dd_logs_enabled :=
          match var "DD_LOGS_ENABLED" with Some val => String.eqb (to_lowercase val) "true" | None => false end;
        dd_logs_port := default DEFAULT_LOG_INTAKE_PORT (var "DD_LOGS_PORT" ≫= parse_uint u16_max);
        instance_metric_enabled := is_azure_function env_type |}
  end.

Definition env_filter (s : Settings) : string := "h2=off,hyper=off,rustls=off," +:+ log_level s.
End Settings.

(** * The HTTP clients *)

(** What [datadog-fips] uses of the process, and reqwest. *)
Class HttpEnv `{!Tls} := {
  fips_feature : bool;
  default_provider : option Provider;
  native_certs : list CertificateDer;
  webpki_build : list TrustAnchor → Provider → result ServerCertVerifier string;
  versions_ok : Provider → bool;
  config_fips : ClientConfig → bool;
  add_root : CertificateDer → result TrustAnchor string;
  Proxy : Type;
  Client : Type;
  (** [reqwest::Proxy::https] *)
  proxy_https : string → result Proxy string;
  (** [ClientBuilder::build], over the TLS settings, a timeout and a proxy *)
  build_client : TlsBackend → Z → option Proxy → result Client string;
}.

Section Clients.
Context `{!Tls, !HttpEnv}.

Definition client_builder : result TlsBackend string :=
  create_reqwest_client_builder webpki_build versions_ok config_fips add_root fips_feature
    default_provider native_certs.

Definition build_metrics_client (https_proxy : option string) (timeout : Z) : result Client string :=
  let? builder := client_builder in
  let? proxy :=
    match https_proxy with
    | Some proxy => let? p := proxy_https proxy in Ok (Some p)
    | None => Ok None
    end in
  build_client builder timeout proxy.

(** The client of [start_log_agent]: a proxy that does not parse is only logged. *)
Definition build_log_client (https_proxy : option string) : option Client :=
  b ← result_ok client_builder;
  result_ok (build_client b DOGSTATSD_TIMEOUT_DURATION
    (https_proxy ≫= λ proxy, result_ok (proxy_https proxy))).
End Clients.

(** * Components *)
Section Components.
Context `{!UstrOrd, !Hasher, !DDSketch, !HashTable Metric, !Encoders, !AppServices}.
Context `{!ConfigEnv, !UdpSockets}.
Context `{!Tls, !HttpEnv}.
Context (var : string → option string).

Record MetricsFlusher := {
  mf_api_key : string;
  mf_url_prefix : string;
  mf_client : Client;
  mf_retry_strategy : RetryStrategy;
  mf_compression_level : Z;
}.

#[local] Abbreviation AggregatorHandle := (Service Aggregator AggregatorCommand AggregatorService.Response).

(** The match on the API key in [start_aggregator]; the outer [None] is a panic. *)
Definition make_metrics_flusher (dd_api_key : option string) (dd_site : string)
    (https_proxy : option string) : option (option MetricsFlusher) :=
  match dd_api_key with
  | None => Some None
  | Some dd_api_key =>
      match build_metrics_client https_proxy DOGSTATSD_TIMEOUT_DURATION with
      | Err _ => Some None
      | Ok client =>
          match site_new dd_site with
          | Err _ => Some None
          | Ok site =>
              match intake_prefix_new (Some site) None with
              | Panic => None
              | MissingIntakeUrl => Some None
              | Prefix prefix =>
                  Some (Some {| mf_api_key := dd_api_key; mf_url_prefix := prefix; mf_client := client;
                                mf_retry_strategy := LinearBackoff 3 1; mf_compression_level := 6 |})
              end
          end
      end
  end.

(** [start_aggregator]; [None] is a panic. *)
Definition start_aggregator (dd_api_key : option string) (dd_site : string)
    (https_proxy : option string) (dogstatsd_tags : string) : option (option MetricsFlusher * AggregatorHandle) :=
  match aggregator_service_new (default EMPTY_TAGS (result_ok (parse_tags dogstatsd_tags))) CONTEXTS with
  | Err _ => None
  | Ok handle =>
      match make_metrics_flusher dd_api_key dd_site https_proxy with
      | None => None
      | Some metrics_flusher => Some (metrics_flusher, handle)
      end
  end.

(** [start_dogstatsd_listener]: the server it spawns; [None] is a panic. *)
Definition start_dogstatsd_listener (port : Z) (metric_namespace windows_pipe_name : option string) :
    option Server :=
  dogstatsd_new windows_pipes
    {| host := AGENT_HOST; port := port; metric_namespace := metric_namespace;
       windows_pipe_name := windows_pipe_name; so_rcvbuf := None; buffer_size := None;
       DogStatsDServer.queue_size := None |}.

Record LogAgent := {
  la_config : LogFlusherConfig;
  la_client : Client;
  la_host : string;
  la_port : Z;
}.

(** The configuration of the log flusher: the one of the environment with the key given. *)
Definition log_config (endpoints_json : string → result (list RawEndpoint) string) (api_key : string) :
    LogFlusherConfig :=
  let c := LogsFlusher.from_env endpoints_json var in
  {| cfg_api_key := api_key; LogsFlusher.site := LogsFlusher.site c; mode := mode c;
     additional_endpoints := additional_endpoints c; use_compression := use_compression c;
     compression_level := compression_level c; flush_timeout := flush_timeout c |}.

Definition opw_without_url (m : LogsFlusher.Destination) : bool :=
  match m with ObservabilityPipelinesWorker url => is_empty url | Datadog => false end.

Definition start_log_agent (endpoints_json : string → result (list RawEndpoint) string)
    (dd_api_key https_proxy : option string) (logs_port : Z) : option LogAgent :=
  api_key ← dd_api_key;
  client ← build_log_client https_proxy;
  let config := log_config endpoints_json api_key in
  if opw_without_url (mode config) then None else
  Some {| la_config := config; la_client := client; la_host := AGENT_HOST; la_port := logs_port |}.
End Components.

(** * Start-up *)

(** What the agents read of the world while they start. *)
Class StartupEnv := {
  (** the log filter parses and its subscriber is installed *)
  log_filter_valid : string → bool;
  endpoints_json : string → result (list RawEndpoint) string;
  (** the metadata reporter: URLs, the metadata server, its client *)
  Url : Type;
  parse_url : string → result Url string;
  metadata_client : bool;
  metadata_get : string → result Metadata.Response string;
  build_metadata_client : option string → result unit string;
  (** the environment verifier and the bind of the receiver port *)
  VerifiedMetadata : Type;
  verified : option VerifiedMetadata;
  bind_receiver : Z → result unit string;
  start_instant : Z;
}.

Section Main.
Context `{!UstrOrd, !Hasher, !DDSketch, !HashTable Metric, !Encoders, !AppServices}.
Context `{!ConfigEnv, !UdpSockets, !Tls, !HttpEnv, !StartupEnv}.
Context (var : string → option string).

#[local] Abbreviation AggregatorHandle := (Service Aggregator AggregatorCommand AggregatorService.Response).

(** What runs when [main] reaches its loop. *)
Record Agent := {
  ag_settings : Settings;
  ag_reporter : result (Reporter Url) NoReporter;
  ag_config : Config;
  (** the concentrator, shared by the trace processor and the stats flusher *)
  ag_concentrator : bool;
  ag_mini_agent : AgentStart;
  ag_metrics_flusher : option MetricsFlusher;
  ag_aggregator : option AggregatorHandle;
  ag_dogstatsd : option Server;
  ag_instance_collector : option InstanceMetricsCollector;
  ag_cpu_collector : option CpuMetricsCollector;
  ag_log_agent : option LogAgent;
}.

Inductive Startup :=
  | Unidentified
  | ConfigError (e : string)
  | Panicked
  | Running (a : Agent).

(** The metrics flusher, the aggregator and the DogStatsD server; [None] is a panic. *)
Definition start_metrics (s : Settings) (enabled : EnabledMetricsComponents) :
    option (option MetricsFlusher * option AggregatorHandle * option Server) :=
  if start_metrics_aggregator_and_flusher enabled then
    match start_aggregator (dd_api_key s) (site_setting s) (proxy_setting s) (dogstatsd_tags s) with
    | None => None
    | Some (flusher, handle) =>
        if start_dogstatsd_listener_flag enabled then
          match start_dogstatsd_listener (dogstatsd_port_setting s) (dd_statsd_metric_namespace s)
                  (dogstatsd_pipe_name s) with
          | None => None
          | Some server => Some (flusher, Some handle, Some server)
          end
        else Some (flusher, Some handle, None)
    end
  else Some (None, None, None).

Definition is_present {A} (o : option A) : bool := match o with Some _ => true | None => false end.

Definition start_instance_collector (enabled : EnabledMetricsComponents) (flusher : option MetricsFlusher)
    (handle : option AggregatorHandle) : option InstanceMetricsCollector :=
  if start_instance_metrics_collector enabled && is_present flusher then
    match handle with
    | Some _ => instance_collector_new (new_function var) (build_enhanced_metrics_tags var)
    | None => None
    end
  else None.

Definition start_cpu_collector (enabled : EnabledMetricsComponents) (flusher : option MetricsFlusher)
    (handle : option AggregatorHandle) : option CpuMetricsCollector :=
  if start_cpu_metrics_collector enabled && is_present flusher then
    (λ _, cpu_collector_new (build_enhanced_metrics_tags var) start_instant) <$> handle
  else None.

(** [main] up to its loop. *)
Definition main_startup : Startup :=
  match read_settings var with
  | None => Unidentified
  | Some s =>
  if negb (log_filter_valid (env_filter s)) then Panicked else
  let reporter := start_reporter parse_url var metadata_client metadata_get build_metadata_client
                    (dd_api_key s) (site_setting s) (proxy_setting s) (platform s) in
  match config_new var with
  | None => Panicked
  | Some (Err e) => ConfigError e
  | Some (Ok config) =>
  let mini_agent := start_mini_agent verified windows_pipes (dd_apm_windows_pipe_name config)
                      (bind_receiver (dd_apm_receiver_port config)) in
  let enabled := decide_metrics_components (dd_use_dogstatsd s) (instance_metric_enabled s)
                   (dd_enhanced_metrics s) in
  match start_metrics s enabled with
  | None => Panicked
  | Some (metrics_flusher, aggregator_handle, server) =>
  Running {|
    ag_settings := s;
    ag_reporter := reporter;
    ag_config := config;
    ag_concentrator := agent_stats_computation_enabled config;
    ag_mini_agent := mini_agent;
    ag_metrics_flusher := metrics_flusher;
    ag_aggregator := aggregator_handle;
    ag_dogstatsd := server;
    ag_instance_collector := start_instance_collector enabled metrics_flusher aggregator_handle;
    ag_cpu_collector := start_cpu_collector enabled metrics_flusher aggregator_handle;
    ag_log_agent :=
      if dd_logs_enabled s
      then start_log_agent var endpoints_json (dd_api_key s) (proxy_setting s) (dd_logs_port s)
      else None |}
  end end end.

(** * The loop *)

(** A turn of the loop: the timer that fired, with what the work it starts meets: the
    batches of the logs and the answers of the network, or the clocks. *)
Inductive Tick :=
  | FlushTick (batches : result (list string) string) (net : Send → Z → result Z unit)
  | InstanceTick (now clock : Z)
  | CpuTick (t : MetricsCollector.Tick).

(** [metrics_flushes] counts the flushes spawned, [submitted] holds the metrics the
    collectors gave to the aggregator; the ghosts are the log requests made for the
    primary destination and those settled, with their fates. *)
Record LoopState := {
  cpu_collector : option CpuMetricsCollector;
  pending_log_retries : list LogRequest;
  metrics_flushes : nat;
  submitted : list Metric;
  requested : list LogRequest;
  settled : list (LogRequest * Fate);
}.

Definition loop_init (a : Agent) : LoopState :=
  {| cpu_collector := ag_cpu_collector a; pending_log_retries := []; metrics_flushes := 0; submitted := [];
     requested := []; settled := [] |}.

Context (cloneable : LogRequest → bool) (compress_zstd : string → Z → result string string).

Definition on_flush (a : Agent) (s : LoopState) (batches : result (list string) string)
    (net : Send → Z → result Z unit) : LoopState :=
  let flushes := if is_present (ag_metrics_flusher a) then S (metrics_flushes s) else metrics_flushes s in
  match ag_log_agent a with
  | None =>
      {| cpu_collector := cpu_collector s; pending_log_retries := pending_log_retries s;
         metrics_flushes := flushes; submitted := submitted s; requested := requested s;
         settled := settled s |}
  | Some log_flusher =>
      let retry_in := pending_log_retries s in
      let failed := (LogsFlusher.flush (la_config log_flusher) net cloneable compress_zstd retry_in batches).1 in
      let primaries := primary_sends compress_zstd (la_config log_flusher) batches in
      {| cpu_collector := cpu_collector s; pending_log_retries := failed;
         metrics_flushes := flushes; submitted := submitted s;
         requested := requested s ++ (snd <$> primaries);
         settled := settled s ++ settled_sends cloneable net (imap (λ i b, (Redrive i, b)) retry_in ++ primaries) |}
  end.

Definition submit (s : LoopState) (cpu : option CpuMetricsCollector) (ms : list Metric) : LoopState :=
  {| cpu_collector := cpu; pending_log_retries := pending_log_retries s; metrics_flushes := metrics_flushes s;
     submitted := submitted s ++ ms; requested := requested s; settled := settled s |}.

Definition on_tick (a : Agent) (s : LoopState) (t : Tick) : LoopState :=
  match t with
  | FlushTick batches net => on_flush a s batches net
  | InstanceTick now clock =>
      match ag_instance_collector a with
      | Some collector => submit s (cpu_collector s) (instance_collect_and_submit collector now clock)
      | None => s
      end
  | CpuTick t =>
      match cpu_collector s with
      | Some collector =>
          let '(collector, ms) := collect_and_submit collector t in submit s (Some collector) ms
      | None => s
      end
  end.

Definition main_loop (a : Agent) (ticks : list Tick) : LoopState :=
  fold_left (on_tick a) ticks (loop_init a).
End Main.

(** * Facts *)

Lemma is_present_spec {A} (o : option A) : is_present o = true ↔ is_Some o.
Proof. destruct o; simpl; split; [eauto|done|done|by intros []]. Qed.

Section LoopFacts.
Context `{!UstrOrd, !Hasher, !DDSketch, !HashTable Metric, !Encoders, !AppServices}.
Context `{!ConfigEnv, !UdpSockets, !Tls, !HttpEnv, !StartupEnv}.
Context (cloneable : LogRequest → bool) (compress_zstd : string → Z → result string string).
Context (Hclone : ∀ b, cloneable b = true).

Definition is_flush (t : Tick) : bool := match t with FlushTick _ _ => true | _ => false end.
Definition cpu_ticks (ticks : list Tick) : list MetricsCollector.Tick :=
  omap (λ t, match t with CpuTick t => Some t | _ => None end) ticks.
Definition instance_metrics (collector : InstanceMetricsCollector) (ticks : list Tick) : list Metric :=
  ticks ≫= λ t, match t with
                | InstanceTick now clock => instance_collect_and_submit collector now clock
                | _ => []
                end.

(** What the collectors submit in a run, from a state of the CPU collector. *)
Definition collected (a : Agent) (cpu : option CpuMetricsCollector) (ticks : list Tick) : list Metric :=
  match ag_instance_collector a with Some c => instance_metrics c ticks | None => [] end ++
  match cpu with Some c => (run_collector c (cpu_ticks ticks)).2 | None => [] end.

Lemma on_tick_logs a s t :
  requested s ≡ₚ pending_log_retries s ++ (settled s).*1 → Forall (λ x, final x.2) (settled s) →
  let s' := on_tick cloneable compress_zstd a s t in
  requested s' ≡ₚ pending_log_retries s' ++ (settled s').*1 ∧ Forall (λ x, final x.2) (settled s').
Proof.
  intros Hp Hf. destruct t as [batches net|now clock|t]; cbn [on_tick].
  - unfold on_flush. destruct (ag_log_agent a) as [l|]; [|done]. cbn.
    change (imap (λ i b, (Redrive i, b)) (pending_log_retries s)) with (redriven (pending_log_retries s)).
    rewrite flush_failed. set (sends := redriven _ ++ _).
    destruct (sends_partition cloneable Hclone net sends) as [Hs Hsf]. split; [|by apply Forall_app].
    unfold sends in Hs at 1. rewrite fmap_app, redriven_snd in Hs.
    rewrite Hp, fmap_app, <- app_assoc, (Permutation_app_comm (settled s).*1), app_assoc, Hs, <- app_assoc.
    by rewrite (Permutation_app_comm (settled s).*1).
  - by destruct (ag_instance_collector a).
  - destruct (cpu_collector s) as [c|]; [|done]. by destruct (collect_and_submit c t).
Qed.

Lemma on_tick_runs a s t :
  let s' := on_tick cloneable compress_zstd a s t in
  metrics_flushes s' = (metrics_flushes s +
    if is_present (ag_metrics_flusher a) && is_flush t then 1 else 0)%nat ∧
  ∀ ticks, submitted s' ++ collected a (cpu_collector s') ticks ≡ₚ
    submitted s ++ collected a (cpu_collector s) (t :: ticks).
Proof.
  cbv zeta. destruct t as [batches net|now clock|t]; cbn [on_tick is_flush]; rewrite ?andb_true_r, ?andb_false_r.
  - unfold on_flush. destruct (ag_log_agent a), (is_present (ag_metrics_flusher a)); cbn; (split; [lia|done]).
  - destruct (ag_instance_collector a) as [c|] eqn:Ei; cbn; (split; [lia|]); intros ticks; unfold collected;
      rewrite Ei; [|done]. by rewrite <- !app_assoc.
  - destruct (cpu_collector s) as [c|] eqn:Ec; [|split; [lia|]; intros ticks; by rewrite ?Ec].
    destruct (collect_and_submit c t) as [c' ms] eqn:Em. cbn. split; [lia|]. intros ticks. unfold collected.
    assert (run_collector c (cpu_ticks (CpuTick t :: ticks)) =
      (let '(c2, ms') := run_collector c' (cpu_ticks ticks) in (c2, ms ++ ms'))) as ->.
    { unfold cpu_ticks. cbn [omap list_omap run_collector]. by rewrite Em. }
    destruct (run_collector c' (cpu_ticks ticks)) as [c2 ms']. cbn [snd].
    rewrite <- !app_assoc. apply Permutation_app_head. rewrite !app_assoc. apply Permutation_app_tail.
    rewrite Permutation_app_comm. apply Permutation_app_tail. by destruct (ag_instance_collector a).
Qed.

(** Whatever the timers fire, in whatever order: every log request made for the primary
    destination is pending for the next flush, or has been delivered or refused for good,
    exactly once; nothing is pending after a flush whose sends are accepted at once; each
    flush tick flushes the metrics when they can be; and the metrics submitted are those
    of the instance collector and of the CPU collector for their own ticks. *)
Theorem main_loop_spec (a : Agent) ticks :
  let s := main_loop cloneable compress_zstd a ticks in
  requested s ≡ₚ pending_log_retries s ++ (settled s).*1 ∧
  Forall (λ x, final x.2) (settled s) ∧
  (∀ batches net, is_Some (ag_log_agent a) → (∀ id, net id 1 = Ok 202) →
     pending_log_retries (on_tick cloneable compress_zstd a s (FlushTick batches net)) = []) ∧
  metrics_flushes s =
    (if is_present (ag_metrics_flusher a) then length (List.filter is_flush ticks) else 0%nat) ∧
  submitted s ≡ₚ collected a (ag_cpu_collector a) ticks.
Proof.
  cbv zeta. set (s := main_loop _ _ a ticks).
  assert (∀ ticks s, requested s ≡ₚ pending_log_retries s ++ (settled s).*1 → Forall (λ x, final x.2) (settled s) →
    let s' := fold_left (on_tick cloneable compress_zstd a) ticks s in
    requested s' ≡ₚ pending_log_retries s' ++ (settled s').*1 ∧ Forall (λ x, final x.2) (settled s') ∧
    metrics_flushes s' = (metrics_flushes s + if is_present (ag_metrics_flusher a)
                                              then length (List.filter is_flush ticks) else 0)%nat ∧
    submitted s' ≡ₚ submitted s ++ collected a (cpu_collector s) ticks) as Hrun.
  { clear -Hclone. induction ticks as [|t ticks IH]; intros s Hp Hf; cbn [fold_left].
    { split_and!; try done; [destruct (is_present _); simpl; lia|]. unfold collected, instance_metrics.
      destruct (ag_instance_collector a), (cpu_collector s); cbn; by rewrite app_nil_r. }
    destruct (on_tick_logs a s t Hp Hf) as [Hp' Hf']. destruct (IH _ Hp' Hf') as (? & ? & Hn & Hs).
    destruct (on_tick_runs a s t) as [Hm Hsub]. split_and!; try done.
    - rewrite Hn, Hm. cbn [List.filter]. destruct (is_present _), (is_flush t); simpl; lia.
    - by rewrite Hs, Hsub. }
  destruct (Hrun ticks (loop_init a)) as (Hp & Hf & Hn & Hs); [done|done|]. split_and!; try done.
  intros batches net [l Hl] Hnet. cbn [on_tick]. unfold on_flush. rewrite Hl. cbn [pending_log_retries].
  rewrite flush_failed. by apply sends_delivered.
Qed.
End LoopFacts.

Section StartupFacts.
Context `{!UstrOrd, !Hasher, !DDSketch, !HashTable Metric, !Encoders, !AppServices}.
Context `{!ConfigEnv, !UdpSockets, !Tls, !HttpEnv, !StartupEnv}.
Context (var : string → option string).

(** The metrics can be flushed: there is a client and the site is one. *)
Definition can_flush (s : Settings) : bool :=
  is_present (dd_api_key s) && is_ok (build_metrics_client (proxy_setting s) DOGSTATSD_TIMEOUT_DURATION)
  && site_re (site_setting s).

Lemma make_metrics_flusher_spec s :
  ∃ f, make_metrics_flusher (dd_api_key s) (site_setting s) (proxy_setting s) = Some f ∧
    is_present f = can_flush s ∧
    ∀ m, f = Some m → dd_api_key s = Some (mf_api_key m) ∧
      mf_url_prefix m = "https://api." +:+ site_setting s.
Proof.
  unfold make_metrics_flusher, can_flush, site_new.
  destruct (dd_api_key s) as [key|]; [|by exists None].
  destruct (build_metrics_client _ _) as [client|]; [|by exists None].
  destruct (site_re (site_setting s)); [|by exists None]. eexists. split; [done|]. split; [done|].
  by intros m [= <-].
Qed.

Lemma start_aggregator_spec s :
  ∃ f handle, start_aggregator (dd_api_key s) (site_setting s) (proxy_setting s) (dogstatsd_tags s)
                = Some (f, handle) ∧
    is_present f = can_flush s ∧
    ∀ m, f = Some m → dd_api_key s = Some (mf_api_key m) ∧
      mf_url_prefix m = "https://api." +:+ site_setting s.
Proof.
  unfold start_aggregator, aggregator_service_new, aggregator_new.
  assert (MAX_CONTEXTS <? CONTEXTS = false) as -> by reflexivity. cbn [result_bind].
  destruct (make_metrics_flusher_spec s) as (f & -> & ?). eauto.
Qed.

(** The UDP address of the settings, and what can listen there. *)
Definition udp_listener (s : Settings) : option UdpSocket :=
  result_ok (create_udp_socket (AGENT_HOST +:+ ":" +:+ show_Z (dogstatsd_port_setting s)) None).

Definition expected_transport (s : Settings) : option Transport :=
  match dogstatsd_pipe_name s with
  | Some p => Some (NamedPipe p (if dogstatsd_port_setting s =? 0 then None else udp_listener s))
  | None => Reader <$> udp_listener s
  end.

Lemma read_settings_spec s :
  read_settings var = Some s →
  ∃ name, read_cloud_env = Some (name, platform s) ∧ dd_api_key s = var "DD_API_KEY" ∧
    (dogstatsd_pipe_name s ≠ None → windows_pipes = true) ∧
    site_setting s = TraceConfig.site var ∧
    dogstatsd_port_setting s = dogstatsd_port (var "DD_DOGSTATSD_PORT") (dogstatsd_pipe_name s) ∧
    dogstatsd_pipe_name s =
      (if windows_pipes then normalize_pipe_name <$> var "DD_DOGSTATSD_WINDOWS_PIPE_NAME" else None) ∧
    proxy_setting s = match var "DD_PROXY_HTTPS" with Some u => Some u | None => var "HTTPS_PROXY" end ∧
    instance_metric_enabled s = is_azure_function (platform s) ∧
    (dd_enhanced_metrics s = true → instance_metric_enabled s = true).
Proof.
  unfold read_settings. destruct read_cloud_env as [[name ty]|]; [|done]. intros [= <-]. cbn.
  exists name. split_and!; try done.
  - by destruct windows_pipes.
  - unfold decide_dogstatsd_port, dogstatsd_port. destruct (_ ≫= parse_uint u16_max); [done|].
    destruct (if windows_pipes then _ else _); [by rewrite bool_decide_true|]. by rewrite bool_decide_false by (by intros []).
  - by intros [? _]%andb_true_iff.
Qed.

Lemma start_listener_spec s :
  read_settings var = Some s →
  (transport <$> start_dogstatsd_listener (dogstatsd_port_setting s) (dd_statsd_metric_namespace s)
     (dogstatsd_pipe_name s)) = expected_transport s.
Proof.
  intros (_ & _ & _ & Hw & _)%read_settings_spec.
  unfold start_dogstatsd_listener, dogstatsd_new, expected_transport, udp_listener.
  cbn [windows_pipe_name so_rcvbuf host port].
  destruct (dogstatsd_pipe_name s) as [p|].
  - rewrite Hw by done. cbn. by destruct (dogstatsd_port_setting s =? 0).
  - assert ((if windows_pipes then None else None) = @None string) as -> by (by destruct windows_pipes).
    by destruct (result_ok _).
Qed.

(** The decisions of [start_metrics]: [None] exactly when the listener cannot start. *)
Lemma start_metrics_spec s :
  read_settings var = Some s →
  let enabled := decide_metrics_components (dd_use_dogstatsd s) (instance_metric_enabled s) (dd_enhanced_metrics s) in
  match start_metrics s enabled with
  | None => dd_use_dogstatsd s = true ∧ expected_transport s = None
  | Some (f, handle, server) =>
      is_present handle = (dd_use_dogstatsd s || is_azure_function (platform s)) ∧
      is_present f = (is_present handle && can_flush s) ∧
      transport <$> server = (if dd_use_dogstatsd s then expected_transport s else None) ∧
      (dd_use_dogstatsd s = true → is_Some server) ∧
      ∀ m, f = Some m → dd_api_key s = Some (mf_api_key m) ∧
        mf_url_prefix m = "https://api." +:+ site_setting s
  end.
Proof.
  intros Hs. pose proof (start_listener_spec s Hs) as Hl.
  apply read_settings_spec in Hs as (_ & _ & _ & _ & _ & _ & _ & _ & Hi & He).
  cbv zeta. unfold start_metrics, decide_metrics_components.
  cbn [start_metrics_aggregator_and_flusher start_dogstatsd_listener_flag].
  assert (dd_use_dogstatsd s || instance_metric_enabled s || dd_enhanced_metrics s =
    dd_use_dogstatsd s || is_azure_function (platform s)) as ->.
  { rewrite Hi in *. destruct (dd_enhanced_metrics s); [|by rewrite orb_false_r].
    rewrite (He eq_refl). by rewrite !orb_true_r. }
  destruct (dd_use_dogstatsd s) eqn:Eu; cbn [orb].
  - destruct (start_aggregator_spec s) as (f & handle & -> & Hf & Hm).
    destruct (start_dogstatsd_listener _ _ _) as [server|]; cbn in Hl |- *; [|done]. split_and!; eauto.
  - destruct (is_azure_function (platform s)); [|by split_and!].
    destruct (start_aggregator_spec s) as (f & handle & -> & Hf & Hm). by split_and!.
Qed.

(** The fields of the trace agent's configuration that [main] reads again by itself. *)
Lemma config_fields c :
  config_new var = Some (Ok c) →
  let pipe := if windows_pipes then normalize_pipe_name <$> var "DD_DOGSTATSD_WINDOWS_PIPE_NAME" else None in
  ∃ key, var "DD_API_KEY" = Some key ∧
    TraceConfig.dd_site c = TraceConfig.site var ∧
    TraceConfig.dd_dogstatsd_port c = dogstatsd_port (var "DD_DOGSTATSD_PORT") pipe ∧
    dd_dogstatsd_windows_pipe_name c = pipe ∧
    Forall (λ e, TraceConfig.ep_api_key e = Some key)
      [trace_intake c; trace_stats_intake c; dsm_intake c; profiling_intake c].
Proof.
  unfold config_new. destruct (var "DD_API_KEY") as [key|]; [|done].
  destruct read_cloud_env as [[name ty]|]; [|done]. cbv zeta.
  destruct obfuscation_from_env; [|done]. destruct (negb _); [done|].
  destruct (peer_tag_keys _); [|done]. intros [= <-]. exists key. split_and!; try done. by repeat constructor.
Qed.

(** C39: How the start ends: it stops when the platform is not identified or the
    configuration is an error, and panics exactly when the log filter is not valid, an
    intake URL is not one, or DogStatsD is enabled and neither a pipe nor the UDP port can
    be listened on; no setting of the metrics or of the logs alone stops it. *)
Theorem startup_outcome_spec :
  (main_startup var = Unidentified ↔ read_cloud_env = None) ∧
  (∀ e, main_startup var = ConfigError e ↔
     ∃ s, read_settings var = Some s ∧ log_filter_valid (env_filter s) = true ∧ config_new var = Some (Err e)) ∧
  (main_startup var = Panicked ↔
     ∃ s, read_settings var = Some s ∧
       (log_filter_valid (env_filter s) = false ∨ config_new var = None ∨
        (∃ c, config_new var = Some (Ok c)) ∧ dd_use_dogstatsd s = true ∧
          dogstatsd_pipe_name s = None ∧ udp_listener s = None)).
Proof.
  unfold main_startup. destruct (read_settings var) as [s|] eqn:Es; cycle 1.
  { unfold read_settings in Es. destruct read_cloud_env as [[]|]; [done|]. naive_solver. }
  assert (read_cloud_env ≠ None) as Hcloud by (by apply read_settings_spec in Es as (? & -> & _)).
  (* a failure other than an error of the configuration, and the start of the others *)
  assert (∀ r : Startup, r ≠ Unidentified → (r = Unidentified ↔ read_cloud_env = None)) as Hun by done.
  destruct (log_filter_valid (env_filter s)) eqn:El; cbn [negb]; cycle 1.
  { split_and!; [by apply Hun|intros e; split; [done|]; intros (s' & [= <-] & ? & _); congruence|].
    split; [|done]. eauto. }
  destruct (config_new var) as [[c|e]|] eqn:Ec; cycle 1.
  { split_and!; [by apply Hun|intros e'; split; [intros [= <-]; eauto|by intros (s' & _ & _ & [= <-])]|].
    split; [done|]. intros (s' & [= <-] & [?|[?|((c & ?) & _)]]); congruence. }
  { split_and!; [by apply Hun|intros e'; split; [done|by intros (s' & _ & _ & ?)]|]. split; [|done]. eauto. }
  pose proof (start_metrics_spec s Es) as Hm. cbv zeta in Hm.
  destruct (start_metrics s _) as [[[f handle] server]|].
  - destruct Hm as (_ & _ & Ht & Hp & _).
    split_and!; [by apply Hun|intros e'; split; [done|by intros (s' & _ & _ & ?)]|]. split; [done|].
    intros (s' & [= <-] & [?|[?|(_ & Hu & Hpipe & Hl)]]); [congruence|done|].
    destruct (Hp Hu) as [sv ->]. rewrite Hu in Ht. unfold expected_transport in Ht. by rewrite Hpipe, Hl in Ht.
  - destruct Hm as [Hu Ht].
    split_and!; [by apply Hun|intros e'; split; [done|by intros (s' & _ & _ & ?)]|]. split; [intros _|done].
    exists s. split; [done|]. right. right. unfold expected_transport in Ht.
    destruct (dogstatsd_pipe_name s); [done|]. split_and!; eauto. by destruct (udp_listener s).
Qed.

Lemma log_agent_spec s :
  is_present (start_log_agent var endpoints_json (dd_api_key s) (proxy_setting s) (dd_logs_port s)) =
    is_present (dd_api_key s) && is_present (build_log_client (proxy_setting s))
    && negb (opw_without_url (mode (LogsFlusher.from_env endpoints_json var))) ∧
  ∀ l, start_log_agent var endpoints_json (dd_api_key s) (proxy_setting s) (dd_logs_port s) = Some l →
    dd_api_key s = Some (cfg_api_key (la_config l)) ∧ la_port l = dd_logs_port s ∧
    opw_without_url (mode (la_config l)) = false.
Proof.
  unfold start_log_agent. destruct (dd_api_key s) as [key|]; [|done]. cbn [mbind option_bind].
  destruct (build_log_client (proxy_setting s)) as [client|]; [|done]. cbn [is_present andb].
  change (mode (log_config var endpoints_json key)) with (mode (LogsFlusher.from_env endpoints_json var)).
  destruct (opw_without_url _) eqn:E; [done|]. cbn. split; [done|]. by intros l [= <-].
Qed.

(** C38: What runs in an agent that has started.  It has an API key, which the metrics, the
    logs and the four trace intakes share; the metrics go to the site of the traces;
    DogStatsD listens exactly when it is enabled, on the pipe and the port the trace agent
    tells the tracers; the aggregator runs for DogStatsD or on Azure Functions, the metrics
    are flushed when they can be, and only then do the collectors run, on Azure Functions;
    the log agent runs when it is enabled and has a client and a destination. *)
Theorem running_agent_spec a :
  main_startup var = Running a →
  let s := ag_settings a in
  let c := ag_config a in
  read_settings var = Some s ∧ config_new var = Some (Ok c) ∧
  (∃ key, var "DD_API_KEY" = Some key ∧
     (∀ m, ag_metrics_flusher a = Some m →
        mf_api_key m = key ∧ mf_url_prefix m = "https://api." +:+ TraceConfig.dd_site c) ∧
     (∀ l, ag_log_agent a = Some l →
        cfg_api_key (la_config l) = key ∧ opw_without_url (mode (la_config l)) = false) ∧
     Forall (λ e, TraceConfig.ep_api_key e = Some key)
       [trace_intake c; trace_stats_intake c; dsm_intake c; profiling_intake c]) ∧
  dogstatsd_port_setting s = TraceConfig.dd_dogstatsd_port c ∧
  dogstatsd_pipe_name s = dd_dogstatsd_windows_pipe_name c ∧
  transport <$> ag_dogstatsd a = (if dd_use_dogstatsd s then expected_transport s else None) ∧
  (dd_use_dogstatsd s = true → is_Some (ag_dogstatsd a)) ∧
  is_present (ag_aggregator a) = (dd_use_dogstatsd s || is_azure_function (platform s)) ∧
  is_present (ag_metrics_flusher a) = (is_present (ag_aggregator a) && can_flush s) ∧
  ag_instance_collector a =
    (if is_azure_function (platform s) && can_flush s
     then instance_collector_new (new_function var) (build_enhanced_metrics_tags var) else None) ∧
  is_present (ag_cpu_collector a) = (dd_enhanced_metrics s && can_flush s) ∧
  is_present (ag_log_agent a) =
    (dd_logs_enabled s && is_present (build_log_client (proxy_setting s))
     && negb (opw_without_url (mode (LogsFlusher.from_env endpoints_json var)))).
Proof.
  unfold main_startup. destruct (read_settings var) as [s|] eqn:Es; [|done].
  destruct (log_filter_valid (env_filter s)); cbn [negb]; [|done].
  destruct (config_new var) as [[c|]|] eqn:Ec; [|done..].
  pose proof (start_metrics_spec s Es) as Hm. cbv zeta in Hm.
  destruct (start_metrics s _) as [[[f handle] server]|]; [|done].
  intros [= <-]. cbn [ag_settings ag_config ag_metrics_flusher ag_aggregator ag_dogstatsd
    ag_instance_collector ag_cpu_collector ag_log_agent].
  destruct Hm as (Hh & Hf & Ht & Hserver & Hkey).
  destruct (read_settings_spec s Es) as (name & Hcloud & Hk & _ & Hsite & Hport & Hpipe & _ & Hi & He).
  destruct (log_agent_spec s) as [Hl Hlk].
  destruct (config_fields c Ec) as (key & Ek & Esite & Eport & Epipe & Eint).
  rewrite Ek in Hk.
  assert (is_present handle = true ∨ is_azure_function (platform s) = false) as Haz.
  { rewrite Hh. destruct (is_azure_function _); auto. left. apply orb_true_r. }
  split_and!; try done.
  - exists key. split_and!; try done.
    + intros m Hfm. destruct (Hkey m Hfm) as [Hmk ->]. rewrite Esite, <- Hsite. split; [congruence|done].
    + intros l. destruct (dd_logs_enabled s); [|done]. intros Hla. destruct (Hlk l Hla) as (? & _ & ?). split; [congruence|done].
  - by rewrite Hport, Hpipe, Eport.
  - by rewrite Hpipe, Epipe.
  - unfold start_instance_collector. cbn [start_instance_metrics_collector decide_metrics_components].
    rewrite Hi, Hf. destruct (is_azure_function _); [|done]. destruct Haz as [Haz|]; [|done].
    rewrite Haz. cbn [andb]. by destruct handle.
  - unfold start_cpu_collector. cbn [start_cpu_metrics_collector decide_metrics_components].
    rewrite Hf. destruct (dd_enhanced_metrics s) eqn:Ee; [|done]. rewrite <- Hi, He in Haz by done.
    destruct Haz as [Haz|]; [|done]. rewrite Haz. cbn [andb]. destruct (can_flush s); [|done]. by destruct handle.
  - destruct (dd_logs_enabled s); [|done]. cbn [andb]. by rewrite Hl, Hk.
Qed.
End StartupFacts.

(** * Examples *)
Module CompatMainExamples.
#[local] Existing Instances Concrete.ustr_ord Concrete.hasher Concrete.ddsketch
  AggregatorExamples.table AggregatorExamples.encoders AppServicesModel.app_services
  DogStatsDServerExamples.sockets FipsExamples.tls.

#[local] Instance azure_env : ConfigEnv := {|
  obfuscation_config := unit;
  read_cloud_env := Some ("fn", AzureFunction);
  trace_intake_url site := "https://trace.agent." +:+ site +:+ "/api/v0.2/traces";
  trace_stats_url site := "https://trace.agent." +:+ site +:+ "/api/v0.2/stats";
  trace_intake_url_prefixed p := p +:+ "/api/v0.2/traces";
  trace_stats_url_prefixed p := p +:+ "/api/v0.2/stats";
  obfuscation_from_env := Ok tt;
  uri_valid s := negb (contains_char " " s);
  uri_to_string s := s;
  peer_tag_mappings := Ok ∅;
  consts_os := "linux";
  windows_pipes := false;
|}.

(** A process in FIPS mode with one good native root; proxies are URLs over HTTP. *)
#[local] Instance http_env : HttpEnv := {|
  fips_feature := true; default_provider := (Some true : option Provider);
  native_certs := ([Some FipsExamples.good] : list CertificateDer);
  webpki_build := FipsExamples.webpki_build; versions_ok _ := true; config_fips _ := true;
  add_root := FipsExamples.add_root;
  Proxy := string; Client := option string;
  proxy_https p := if starts_with "http" p then Ok p else Err "not a URL";
  build_client _ _ p := Ok p;
|}.

#[local] Instance startup_env : StartupEnv := {|
  log_filter_valid _ := true; endpoints_json _ := Err "none"; Url := string; parse_url := Ok;
  metadata_client := true; metadata_get _ := Err "none"; build_metadata_client _ := Ok tt;
  VerifiedMetadata := unit; verified := Some tt; bind_receiver _ := Ok tt; start_instant := 0;
|}.

Definition vars (l : list (string * string)) (k : string) : option string := find_key k l.
Definition azure_vars (more : list (string * string)) : string → option string :=
  vars (more ++ [("DD_API_KEY", "key"); ("DD_DOGSTATSD_PORT", "9125")]).

(** The components of the agent: DogStatsD, the metrics flusher, the CPU collector and the
    log agent, with the proxy of its client. *)
Definition parts (more : list (string * string)) : option (bool * bool * bool * option (option string)) :=
  match main_startup (azure_vars more) with
  | Running a => Some (is_present (ag_dogstatsd a), is_present (ag_metrics_flusher a),
                       is_present (ag_cpu_collector a),
                       match ag_log_agent a with Some l => Some (la_client l) | None => None end)
  | _ => None
  end.

(** A proxy that does not parse turns the metrics off; the logs go out without it. *)
Example invalid_proxy :
  parts [("DD_LOGS_ENABLED", "True"); ("DD_PROXY_HTTPS", "http://p")] = Some (true, true, true, Some (Some "http://p")) ∧
  parts [("DD_LOGS_ENABLED", "True"); ("DD_PROXY_HTTPS", "oops")] = Some (true, false, false, Some None).
Proof. vm_compute. split; reflexivity. Qed.

(** A taken port stops everything, unless DogStatsD is off. *)
Example taken_port_panics :
  match main_startup (vars [("DD_API_KEY", "key")]) with Panicked => true | _ => false end = true ∧
  parts [("DD_DOGSTATSD_PORT", "8125"); ("DD_USE_DOGSTATSD", "FALSE")] = Some (false, true, true, None).
Proof. vm_compute. split; reflexivity. Qed.

Lemma running_agent_spec_witness :
  ∃ a, main_startup (azure_vars []) = Running a ∧
    dogstatsd_port_setting (ag_settings a) = TraceConfig.dd_dogstatsd_port (ag_config a) ∧
    is_present (ag_aggregator a) = true.
Proof.
  destruct (main_startup (azure_vars [])) as [|e| |a] eqn:E; [discriminate E..|].
  destruct (running_agent_spec (azure_vars []) a E) as (Hs & _ & _ & Hp & _ & _ & _ & Ha & _).
  exists a. split_and!; [reflexivity|exact Hp|]. rewrite Ha.
  revert Hs. unfold read_settings. cbn. intros [= <-]. reflexivity.
Defined.

(** A flush whose primary request times out leaves it pending; the next one delivers it. *)
Definition agent : option Agent :=
  match main_startup (azure_vars [("DD_LOGS_ENABLED", "true")]) with Running a => Some a | _ => None end.
Definition slow (id : Send) (n : Z) : result Z unit := match id with Primary 0 => Err tt | _ => Ok 202 end.
Definition ticks : list Tick :=
  [FlushTick (Ok ["a"; "b"]) slow; InstanceTick 100 100; FlushTick (Ok ["c"]) (λ _ _, Ok 202)].

Definition no_zstd (s : string) (_ : Z) : result string string := Ok s.
Definition pending_bodies (ts : list Tick) : option (list string) :=
  (λ a, lr_body <$> pending_log_retries (main_loop (λ _, true) no_zstd a ts)) <$> agent.
Example pending_example : pending_bodies (take 2 ticks) = Some ["a"] ∧ pending_bodies ticks = Some [].
Proof. vm_compute. split; reflexivity. Qed.

Lemma main_loop_spec_witness :
  match agent with
  | Some a => requested (main_loop (λ _, true) no_zstd a ticks) ≡ₚ
                (settled (main_loop (λ _, true) no_zstd a ticks)).*1
  | None => False
  end.
Proof.
  destruct agent as [a|] eqn:E; [|discriminate E].
  destruct (main_loop_spec (λ _, true) no_zstd (λ _, eq_refl) a ticks) as (Hp & _).
  rewrite Hp. assert (pending_log_retries (main_loop (λ _, true) no_zstd a ticks) = []) as ->; [|reflexivity].
  assert (pending_bodies ticks = Some []) as H by (vm_compute; reflexivity).
  unfold pending_bodies in H. rewrite E in H. injection H as H. by apply fmap_nil_inv in H.
Defined.
End CompatMainExamples.
