(* ===== verification/MockSummary.v ===== *)
(** Statistics by grouping key: the second half of [datadog-mock-intake/src/lib.rs].

    The key of a statistics group with its derived order, the map of the hits by key, and
    the one-line text of a key.  The map is the sorted association list a [BTreeMap]
    iterates over; the JSON text of a string and the names of [pb::Trilean] are
    parameters. *)
From Stdlib Require Import Ascii.
From stdpp Require Import pretty.
From S2P Require Import Prelude RStr.

(** * Derived orders *)

(** [Ord] and what [derive] relies on. *)
Class Ordered (A : Type) := cmp : A → A → comparison.

Class OrderedLaws (A : Type) `{!Ordered A} := {
  cmp_eq (x y : A) : cmp x y = Eq ↔ x = y;
  cmp_flip (x y : A) : cmp y x = CompOpp (cmp x y);
  cmp_trans (x y z : A) : cmp x y = Lt → cmp y z = Lt → cmp x z = Lt;
}.

#[global] Instance string_ordered : Ordered string := String.compare.
#[global] Instance int_ordered : Ordered Z := Z.compare.
#[global] Instance bool_ordered : Ordered bool := λ a b,
  match a, b with false, true => Lt | true, false => Gt | _, _ => Eq end.

Definition then_cmp (c d : comparison) : comparison := match c with Eq => d | _ => c end.

(** [Vec] and tuples are compared lexicographically. *)
Fixpoint list_cmp {A} `{!Ordered A} (l l' : list A) : comparison :=
  match l, l' with
  | [], [] => Eq
  | [], _ :: _ => Lt
  | _ :: _, [] => Gt
  | x :: l, y :: l' => then_cmp (cmp x y) (list_cmp l l')
  end.
#[global] Instance list_ordered {A} `{!Ordered A} : Ordered (list A) := list_cmp.

(** * The payload *)

(** The fields the intake reads of [pb::ClientGroupedStats] and
    [pb::ClientStatsPayload]; the others are kept for the dumps. *)
Class StatsRest := { grouped_rest : Type; bucket_rest : Type; client_rest : Type; payload_rest : Type }.

Section Payload.
Context `{!StatsRest}.

Record ClientGroupedStats := {
  g_service : string;
  g_name : string;
  g_resource : string;
  g_type : string;
  g_db_type : string;
  g_http_status_code : Z;
  g_grpc_status_code : string;
  g_http_method : string;
  g_http_endpoint : string;
  g_span_kind : string;
  g_synthetics : bool;
  g_is_trace_root : Z;
  g_service_source : string;
  g_peer_tags : list string;
  g_span_derived_primary_tags : list string;
  g_additional_metric_tags : list string;
  hits : Z;
  g_rest : grouped_rest;
}.

Record ClientStatsBucket := { b_stats : list ClientGroupedStats; b_rest : bucket_rest }.

Record ClientStatsPayload := {
  c_service : string;
  c_env : string;
  c_version : string;
  c_hostname : string;
  c_container_id : string;
  c_tags : list string;
  c_git_commit_sha : string;
  c_image_tag : string;
  c_process_tags : string;
  c_process_tags_hash : Z;
  c_agent_aggregation : string;
  c_stats : list ClientStatsBucket;
  c_rest : client_rest;
}.

Record StatsPayload := { p_stats : list ClientStatsPayload; p_rest : payload_rest }.
End Payload.

(** * Keys *)

Record StatsGroupKey := {
  client_service : string;
  client_env : string;
  client_version : string;
  client_hostname : string;
  client_container_id : string;
  client_tags : list string;
  client_git_commit_sha : string;
  client_image_tag : string;
  client_process_tags : string;
  client_process_tags_hash : Z;
  client_agent_aggregation : string;
  stats_service : string;
  stats_name : string;
  stats_resource : string;
  stats_type : string;
  stats_db_type : string;
  stats_http_status_code : Z;
  stats_grpc_status_code : string;
  stats_http_method : string;
  stats_http_endpoint : string;
  stats_span_kind : string;
  stats_synthetics : bool;
  stats_is_trace_root : Z;
  stats_service_source : string;
  stats_peer_tags : list string;
  stats_span_derived_primary_tags : list string;
  stats_additional_metric_tags : list string;
}.

Definition sorted_tags (tags : list string) : list string := merge_sort String.le tags.

Definition group_key_new `{!StatsRest} (client : ClientStatsPayload) (grouped : ClientGroupedStats) : StatsGroupKey :=
  {| client_service := c_service client;
     client_env := c_env client;
     client_version := c_version client;
     client_hostname := c_hostname client;
     client_container_id := c_container_id client;
     client_tags := sorted_tags (c_tags client);
     client_git_commit_sha := c_git_commit_sha client;
     client_image_tag := c_image_tag client;
     client_process_tags := c_process_tags client;
     client_process_tags_hash := c_process_tags_hash client;
     client_agent_aggregation := c_agent_aggregation client;
     stats_service := g_service grouped;
     stats_name := g_name grouped;
     stats_resource := g_resource grouped;
     stats_type := g_type grouped;
     stats_db_type := g_db_type grouped;
     stats_http_status_code := g_http_status_code grouped;
     stats_grpc_status_code := g_grpc_status_code grouped;
     stats_http_method := g_http_method grouped;
     stats_http_endpoint := g_http_endpoint grouped;
     stats_span_kind := g_span_kind grouped;
     stats_synthetics := g_synthetics grouped;
     stats_is_trace_root := g_is_trace_root grouped;
     stats_service_source := g_service_source grouped;
     stats_peer_tags := sorted_tags (g_peer_tags grouped);
     stats_span_derived_primary_tags := sorted_tags (g_span_derived_primary_tags grouped);
     stats_additional_metric_tags := sorted_tags (g_additional_metric_tags grouped) |}.

(** A field of a key; [FTri] is the number of a [pb::Trilean]. *)
Inductive KeyField :=
  | FStr (s : string)
  | FNum (n : Z)
  | FBool (b : bool)
  | FTri (n : Z)
  | FTags (l : list string).

(** The fields in the order of the structure, which is that of [render], with their
    names there. *)
Definition key_fields (k : StatsGroupKey) : list (string * KeyField) :=
  [("client.service", FStr (client_service k));
   ("client.env", FStr (client_env k));
   ("client.version", FStr (client_version k));
   ("client.hostname", FStr (client_hostname k));
   ("client.container_id", FStr (client_container_id k));
   ("client.tags", FTags (client_tags k));
   ("client.git_commit_sha", FStr (client_git_commit_sha k));
   ("client.image_tag", FStr (client_image_tag k));
   ("client.process_tags", FStr (client_process_tags k));
   ("client.process_tags_hash", FNum (client_process_tags_hash k));
   ("client.agent_aggregation", FStr (client_agent_aggregation k));
   ("stats.service", FStr (stats_service k));
   ("stats.name", FStr (stats_name k));
   ("stats.resource", FStr (stats_resource k));
   ("stats.type", FStr (stats_type k));
   ("stats.db_type", FStr (stats_db_type k));
   ("stats.http_status_code", FNum (stats_http_status_code k));
   ("stats.grpc_status_code", FStr (stats_grpc_status_code k));
   ("stats.http_method", FStr (stats_http_method k));
   ("stats.http_endpoint", FStr (stats_http_endpoint k));
   ("stats.span_kind", FStr (stats_span_kind k));
   ("stats.synthetics", FBool (stats_synthetics k));
   ("stats.is_trace_root", FTri (stats_is_trace_root k));
   ("stats.service_source", FStr (stats_service_source k));
   ("stats.peer_tags", FTags (stats_peer_tags k));
   ("stats.span_derived_primary_tags", FTags (stats_span_derived_primary_tags k));
   ("stats.additional_metric_tags", FTags (stats_additional_metric_tags k))].

Definition field_rank (f : KeyField) : Z :=
  match f with FStr _ => 0 | FNum _ => 1 | FBool _ => 2 | FTri _ => 3 | FTags _ => 4 end.

Definition field_cmp (f g : KeyField) : comparison :=
  match f, g with
  | FStr s, FStr t => cmp s t
  | FNum m, FNum n => cmp m n
  | FBool b, FBool c => cmp b c
  | FTri m, FTri n => cmp m n
  | FTags l, FTags l' => cmp l l'
  | _, _ => cmp (field_rank f) (field_rank g)
  end.
#[global] Instance field_ordered : Ordered KeyField := field_cmp.

(** [derive(Ord)]: the fields one after the other. *)
#[global] Instance key_ordered : Ordered StatsGroupKey :=
  λ k k', list_cmp (snd <$> key_fields k) (snd <$> key_fields k').

(** * Hits by key *)

Section Groups.
Context {K : Type} `{!Ordered K}.
(** The build checks for overflows. *)
Context (overflow_checks : bool).

Definition add_u64 (a b : Z) : option Z :=
  if u64_max <? a + b then if overflow_checks then None else Some (wrap64 (a + b)) else Some (a + b).

(** [*groups.entry(key).or_insert(0) += hits]; [None] is a panic. *)
Fixpoint entry_add (key : K) (hits : Z) (groups : list (K * Z)) : option (list (K * Z)) :=
  match groups with
  | [] => n ← add_u64 0 hits; Some [(key, n)]
  | (k, n) :: rest =>
      match cmp key k with
      | Lt => n' ← add_u64 0 hits; Some ((key, n') :: groups)
      | Eq => n' ← add_u64 n hits; Some ((k, n') :: rest)
      | Gt => rest' ← entry_add key hits rest; Some ((k, n) :: rest')
      end
  end.

Fixpoint add_groups (groups : list (K * Z)) (entries : list (K * Z)) : option (list (K * Z)) :=
  match entries with
  | [] => Some groups
  | (key, hits) :: entries => groups' ← entry_add key hits groups; add_groups groups' entries
  end.
End Groups.

(** What the three loops go through. *)
Definition group_entries `{!StatsRest} (payload : StatsPayload) : list (StatsGroupKey * Z) :=
  p_stats payload ≫= λ client, c_stats client ≫= λ bucket,
    (λ grouped, (group_key_new client grouped, hits grouped)) <$> b_stats bucket.

Definition stats_hits_by_key `{!StatsRest} (overflow_checks : bool) (payload : StatsPayload) :
    option (list (StatsGroupKey * Z)) :=
  add_groups overflow_checks [] (group_entries payload).

(** * Text *)

(** [serde_json::to_string] of a string, and [pb::Trilean::try_from] with [as_str_name]. *)
Class KeyText := {
  escape : string → string;
  trilean_as_str : Z → option string;
}.

Section Text.
Context `{!KeyText}.

Definition render_tags (tags : list string) : string := "[" +:+ join "," (escape <$> tags) +:+ "]".

Definition trilean_name (value : Z) : string := default (show_Z value) (trilean_as_str value).

Definition field_text (f : KeyField) : string :=
  match f with
  | FStr s => escape s
  | FNum n => show_Z n
  | FBool b => if b then "true" else "false"
  | FTri n => escape (trilean_name n)
  | FTags l => render_tags l
  end.

Definition render (k : StatsGroupKey) : string :=
  join " " ((λ f : string * KeyField, f.1 +:+ "=" +:+ field_text f.2) <$> key_fields k).
End Text.

(** * Facts *)

(** ** The derived orders are total orders *)

#[global] Instance int_ordered_laws : OrderedLaws Z.
Proof.
  split; unfold cmp, int_ordered.
  - apply Z.compare_eq_iff.
  - intros. apply Z.compare_antisym.
  - intros x y z. rewrite !Z.compare_lt_iff. lia.
Qed.

#[global] Instance bool_ordered_laws : OrderedLaws bool.
Proof. split; [intros [] []; by split|by intros [] []|by intros [] [] []]. Qed.

Lemma string_lt_le (x y : string) : String.compare x y = Lt ↔ String.le x y ∧ x ≠ y.
Proof.
  unfold String.le, String.leb. split.
  - intros E. rewrite E. split; [done|]. intros ->.
    assert (String.compare y y = Eq) by (pose proof (String.compare_antisym y y); by destruct (String.compare y y)).
    congruence.
  - intros [Hle Hne]. destruct (String.compare x y) eqn:E; [|done|done]. by apply String.compare_eq_iff in E.
Qed.

#[global] Instance string_ordered_laws : OrderedLaws string.
Proof.
  split; unfold cmp, string_ordered.
  - intros x y. split; [apply String.compare_eq_iff|]. intros ->.
    pose proof (String.compare_antisym y y). by destruct (String.compare y y).
  - intros. apply String.compare_antisym.
  - intros x y z [Hxy Hne]%string_lt_le [Hyz Hne']%string_lt_le. apply string_lt_le. split; [by etrans|].
    intros ->. by destruct (anti_symm String.le z y Hxy Hyz).
Qed.

Lemma cmp_refl {A} `{OrderedLaws A} (x : A) : cmp x x = Eq.
Proof. by apply cmp_eq. Qed.

#[global] Instance list_ordered_laws {A} `{OrderedLaws A} : OrderedLaws (list A).
Proof.
  split; unfold cmp, list_ordered.
  - intros x. induction x as [|a x IH]; intros [|b y]; try done. simpl.
    destruct (cmp a b) eqn:E; simpl.
    + apply cmp_eq in E as ->. rewrite IH. naive_solver.
    + split; [done|]. intros [= -> _]. by rewrite cmp_refl in E.
    + split; [done|]. intros [= -> _]. by rewrite cmp_refl in E.
  - intros x. induction x as [|a x IH]; intros [|b y]; try done. simpl.
    rewrite (cmp_flip a b). destruct (cmp a b); simpl; auto.
  - intros x. induction x as [|a x IH]; intros [|b y] [|c z]; try done. simpl.
    destruct (cmp a b) eqn:E1; simpl; [|intros _|done]; destruct (cmp b c) eqn:E2; simpl; try done.
    + apply cmp_eq in E1 as ->. apply cmp_eq in E2 as ->. rewrite cmp_refl. simpl. apply IH.
    + apply cmp_eq in E1 as ->. by rewrite E2.
    + apply cmp_eq in E2 as ->. by rewrite E1.
    + by rewrite (cmp_trans a b c).
Qed.

#[global] Instance field_ordered_laws : OrderedLaws KeyField.
Proof.
  split.
  - change (∀ f g, field_cmp f g = Eq ↔ f = g).
    intros [s|m|b|m|l] [s'|m'|b'|m'|l']; cbn [field_cmp field_rank]; try (by split);
      (etrans; [apply cmp_eq|split; congruence]).
  - change (∀ f g, field_cmp g f = CompOpp (field_cmp f g)).
    intros [s|m|b|m|l] [s'|m'|b'|m'|l']; cbn [field_cmp field_rank]; apply cmp_flip.
  - change (∀ f g h, field_cmp f g = Lt → field_cmp g h = Lt → field_cmp f h = Lt).
    intros [s|m|b|m|l] [s'|m'|b'|m'|l'] [s''|m''|b''|m''|l'']; cbn [field_cmp field_rank];
      try done; apply cmp_trans.
Qed.

Lemma key_fields_inj k k' : snd <$> key_fields k = snd <$> key_fields k' → k = k'.
Proof. destruct k, k'. cbn. intros E. by simplify_eq. Qed.

#[global] Instance key_ordered_laws : OrderedLaws StatsGroupKey.
Proof.
  split; unfold cmp, key_ordered.
  - intros k k'. change (list_cmp ?l ?l') with (cmp l l'). rewrite cmp_eq. split; [apply key_fields_inj|by intros ->].
  - intros k k'. apply (cmp_flip (A := list KeyField)).
  - intros k k' k''. apply (cmp_trans (A := list KeyField)).
Qed.

(** ** Hits *)
Section GroupFacts.
Context {K : Type} `{OrderedLaws K}.
Implicit Types (k : K) (m l : list (K * Z)).

Definition key_lt (k k' : K) : Prop := cmp k k' = Lt.
#[local] Instance key_lt_trans : Transitive key_lt.
Proof. intros x y z. apply cmp_trans. Qed.
Lemma key_lt_irrefl k : ¬ key_lt k k.
Proof. unfold key_lt. by rewrite cmp_refl. Qed.

(** The value of a key, and the hits of a key among entries. *)
Fixpoint value_of (k : K) (m : list (K * Z)) : Z :=
  match m with
  | [] => 0
  | (k', n) :: m => match cmp k k' with Eq => n | _ => value_of k m end
  end.
Definition total (k : K) (l : list (K * Z)) : Z :=
  sum_size (λ e : K * Z, match cmp k e.1 with Eq => e.2 | _ => 0 end) l.

Lemma value_of_absent k m : k ∉ m.*1 → value_of k m = 0.
Proof.
  induction m as [|[k' n] m IH]; [done|]. rewrite fmap_cons, not_elem_of_cons. intros [Hne Hm]. simpl.
  destruct (cmp k k') eqn:E; auto. by apply cmp_eq in E.
Qed.

Lemma sorted_below k m : StronglySorted key_lt m.*1 → (∀ k', k' ∈ m.*1 → key_lt k k') → k ∉ m.*1.
Proof. intros _ Hb Hin. by apply (key_lt_irrefl k), Hb. Qed.

Record added (checks : bool) (k : K) (h : Z) (m m' : list (K * Z)) : Prop := {
  ad_sorted : StronglySorted key_lt m'.*1;
  ad_keys k' : k' ∈ m'.*1 ↔ k' = k ∨ k' ∈ m.*1;
  ad_value k' : value_of k' m' = match cmp k' k with Eq => wrap64 (value_of k m + h) | _ => value_of k' m end;
  ad_fits : checks = true → value_of k m + h ≤ u64_max;
}.

Lemma add_u64_some checks a b c :
  0 ≤ a → 0 ≤ b → add_u64 checks a b = Some c → c = wrap64 (a + b) ∧ (checks = true → a + b ≤ u64_max).
Proof.
  intros Ha Hb. unfold add_u64. destruct (Z.ltb_spec u64_max (a + b)).
  - destruct checks; [done|]. by intros [= <-].
  - intros [= <-]. rewrite wrap64_small; [done|]. unfold u64_max in *. lia.
Qed.

Lemma add_u64_none checks a b : add_u64 checks a b = None → checks = true ∧ u64_max < a + b.
Proof. unfold add_u64. destruct (Z.ltb_spec u64_max (a + b)); [|done]. by destruct checks. Qed.

Lemma entry_add_spec checks k h m :
  StronglySorted key_lt m.*1 → (∀ k', 0 ≤ value_of k' m) → 0 ≤ h →
  match entry_add checks k h m with
  | Some m' => added checks k h m m'
  | None => checks = true ∧ u64_max < value_of k m + h
  end.
Proof.
  intros Hs Hv Hh. induction m as [|[k0 n] m IH]; cbn [entry_add].
  { destruct (add_u64 checks 0 h) as [c|] eqn:E; cbn [mbind option_bind]; [|by apply add_u64_none in E].
    apply add_u64_some in E as [-> ?]; [|lia..]. split; simpl; [by repeat constructor| |done|done].
    intros k'. set_solver. }
  inversion Hs as [|? ? Hs' Hall]; subst. rewrite Forall_forall in Hall.
  assert (value_of k0 m = 0) as H0 by (apply value_of_absent, sorted_below; auto).
  destruct (cmp k k0) eqn:Ek.
  - apply cmp_eq in Ek as ->. specialize (Hv k0) as Hn. simpl in Hn |- *. rewrite cmp_refl in *.
    destruct (add_u64 checks n h) as [c|] eqn:E; cbn [mbind option_bind]; [|by apply add_u64_none in E].
    apply add_u64_some in E as [-> ?]; [|lia..]. split; simpl; rewrite ?cmp_refl; [done| | |done].
    + intros k'. set_solver.
    + intros k'. by destruct (cmp k' k0).
  - assert (k ∉ ((k0, n) :: m).*1) as Hk.
    { apply sorted_below; [done|]. intros k'. simpl. intros [->|Hin]%elem_of_cons; [done|].
      etrans; [exact Ek|]. by apply Hall. }
    rewrite (value_of_absent _ _ Hk).
    destruct (add_u64 checks 0 h) as [c|] eqn:E; cbn [mbind option_bind]; [|by apply add_u64_none in E].
    apply add_u64_some in E as [-> ?]; [|lia..]. split; rewrite ?(value_of_absent _ _ Hk); [| | |done].
    + simpl. constructor; [done|]. constructor; [done|]. apply Forall_forall. intros k' Hk'.
      etrans; [exact Ek|]. by apply Hall.
    + intros k'. simpl. set_solver.
    + intros k'. cbn [value_of]. by destruct (cmp k' k).
  - assert (∀ k', 0 ≤ value_of k' m) as Hv'.
    { intros k'. specialize (Hv k'). simpl in Hv. destruct (cmp k' k0) eqn:E; auto.
      apply cmp_eq in E as ->. lia. }
    specialize (IH Hs' Hv'). simpl. rewrite Ek.
    destruct (entry_add checks k h m) as [m'|]; cbn [mbind option_bind]; [|done].
    destruct IH as [Hs1 Hk1 Hv1 Hf1]. split; simpl; rewrite ?Ek; [| | |done].
    + constructor; [done|]. apply Forall_forall. intros k' [->|Hk']%Hk1; [|by apply Hall].
      unfold key_lt. by rewrite cmp_flip, Ek.
    + intros k'. rewrite !elem_of_cons, Hk1. tauto.
    + intros k'. destruct (cmp k' k0) eqn:E; [|apply Hv1..]. apply cmp_eq in E as ->.
      by rewrite cmp_flip, Ek.
Qed.

Lemma total_cons k k0 h l :
  total k ((k0, h) :: l) = match cmp k k0 with Eq => h | _ => 0 end + total k l.
Proof. done. Qed.

Lemma total_nonneg k l : Forall (λ e, 0 ≤ e.2) l → 0 ≤ total k l.
Proof.
  intros Hl. apply sum_size_nonneg. intros e He. rewrite Forall_forall in Hl. specialize (Hl e He).
  destruct (cmp k e.1); lia.
Qed.

Lemma add_groups_spec checks m l :
  StronglySorted key_lt m.*1 → (∀ k, 0 ≤ value_of k m ≤ u64_max) → Forall (λ e, 0 ≤ e.2) l →
  match add_groups checks m l with
  | Some m' =>
      StronglySorted key_lt m'.*1 ∧ (∀ k, k ∈ m'.*1 ↔ k ∈ m.*1 ∨ k ∈ l.*1) ∧
      (∀ k, value_of k m' = wrap64 (value_of k m + total k l)) ∧
      (checks = true → ∀ k, value_of k m + total k l ≤ u64_max)
  | None => checks = true ∧ ∃ k, u64_max < value_of k m + total k l
  end.
Proof.
  revert m. induction l as [|[k0 h] l IH]; intros m Hs Hv Hl; cbn [add_groups].
  { split_and!; [done|set_solver| |]; intros; specialize (Hv k); unfold total; simpl; rewrite Z.add_0_r; [|lia].
    symmetry. apply wrap64_small. unfold u64_max in Hv. lia. }
  inversion Hl as [|? ? Hh Hl']; subst. simpl in Hh.
  pose proof (entry_add_spec checks k0 h m Hs (λ k, proj1 (Hv k)) Hh) as Ha.
  destruct (entry_add checks k0 h m) as [m1|]; cbn [mbind option_bind].
  - destruct Ha as [Hs1 Hk1 Hv1 Hf1]. specialize (IH m1 Hs1).
    assert (∀ k, 0 ≤ value_of k m1 ≤ u64_max) as Hv1'.
    { intros k. rewrite Hv1. destruct (cmp k k0); auto. pose proof (wrap64_range (value_of k0 m + h)).
      unfold u64_max. lia. }
    specialize (IH Hv1' Hl').
    assert (∀ k, checks = true → value_of k m1 + total k l = value_of k m + total k ((k0, h) :: l)) as Heq.
    { intros k Hc. rewrite Hv1, total_cons. destruct (cmp k k0) eqn:E; [|lia..]. apply cmp_eq in E as ->.
      specialize (Hf1 Hc). specialize (Hv k0). rewrite wrap64_small; [lia|]. unfold u64_max in *. lia. }
    destruct (add_groups checks m1 l) as [m'|].
    + destruct IH as (? & Hk & Hv' & Hf). split_and!; [done| | |].
      * intros k. rewrite Hk, Hk1. simpl. set_solver.
      * intros k. rewrite Hv', Hv1, total_cons. destruct (cmp k k0) eqn:E; [|by rewrite Z.add_0_l..].
        apply cmp_eq in E as ->. unfold wrap64. rewrite Zplus_mod_idemp_l. f_equal. lia.
      * intros Hc k. rewrite <- Heq by done. by apply Hf.
    + destruct IH as [Hc [k Hk]]. split; [done|]. exists k. by rewrite <- Heq.
  - destruct Ha as [Hc Ha]. split; [done|]. exists k0. rewrite total_cons, cmp_refl.
    pose proof (total_nonneg k0 l Hl'). lia.
Qed.

Lemma value_of_elem m k n : StronglySorted key_lt m.*1 → (k, n) ∈ m → value_of k m = n.
Proof.
  induction m as [|[k0 n0] m IH]; [by intros _ ?%elem_of_nil|]. simpl.
  intros Hs [[= -> ->]|Hin]%elem_of_cons; [by rewrite cmp_refl|]. inversion Hs as [|? ? Hs' Hall]; subst.
  rewrite Forall_forall in Hall. specialize (Hall k ltac:(apply list_elem_of_fmap; by exists (k, n))).
  unfold key_lt in Hall. rewrite (cmp_flip k0 k), Hall. simpl. auto.
Qed.

Lemma map_of_keys m : StronglySorted key_lt m.*1 → m = (λ k, (k, value_of k m)) <$> m.*1.
Proof.
  intros Hs. rewrite <- list_fmap_compose. etrans; [symmetry; apply list_fmap_id|].
  apply list_fmap_ext. intros i [k n] Hi. simpl.
  by rewrite (value_of_elem m k n Hs (list_elem_of_lookup_2 _ _ _ Hi)).
Qed.

Lemma sorted_nodup (ks : list K) : StronglySorted key_lt ks → NoDup ks.
Proof.
  induction 1 as [|k ks _ IH Hall]; constructor; [|done]. rewrite Forall_forall in Hall.
  intros Hin. by apply (key_lt_irrefl k), Hall.
Qed.

(** Maps with the same keys and values are the same list. *)
Lemma sorted_map_ext m m' :
  StronglySorted key_lt m.*1 → StronglySorted key_lt m'.*1 →
  (∀ k, k ∈ m.*1 ↔ k ∈ m'.*1) → (∀ k, value_of k m = value_of k m') → m = m'.
Proof.
  intros Hs Hs' Hk Hv. rewrite (map_of_keys m Hs), (map_of_keys m' Hs').
  assert (m.*1 = m'.*1) as ->; [|apply list_fmap_ext; intros; by rewrite Hv].
  assert (AntiSymm (=) key_lt) as Hanti.
  { intros x y Hxy Hyx. exfalso. apply (key_lt_irrefl x). by etrans. }
  apply (StronglySorted_unique key_lt); [done..|].
  apply NoDup_Permutation; [by apply sorted_nodup..|done].
Qed.

Lemma total_perm k l l' : l ≡ₚ l' → total k l = total k l'.
Proof.
  unfold total. induction 1; simpl; [done|lia|lia|congruence].
Qed.

Lemma add_groups_perm checks l l' :
  Forall (λ e, 0 ≤ e.2) l → l ≡ₚ l' → add_groups checks [] l = add_groups checks [] l'.
Proof.
  intros Hl Hp. assert (Forall (λ e, 0 ≤ e.2) l') as Hl' by (by rewrite <- Hp).
  assert (∀ k : K, 0 ≤ value_of k [] ≤ u64_max) as H0 by (intros k; simpl; unfold u64_max; lia).
  pose proof (add_groups_spec checks [] l (SSorted_nil _) H0 Hl) as Hr.
  pose proof (add_groups_spec checks [] l' (SSorted_nil _) H0 Hl') as Hr'.
  assert (∀ k, total k l = total k l') as Ht by (intros k; by apply total_perm).
  destruct (add_groups checks [] l) as [m|], (add_groups checks [] l') as [m'|].
  - destruct Hr as (Hs & Hk & Hv & _), Hr' as (Hs' & Hk' & Hv' & _). f_equal. apply sorted_map_ext; [done..| |].
    + intros k. rewrite Hk, Hk'. by rewrite Hp.
    + intros k. by rewrite Hv, Hv', Ht.
  - destruct Hr as (_ & _ & _ & Hf), Hr' as [Hc [k Hk]]. specialize (Hf Hc k). rewrite Ht in Hf. lia.
  - destruct Hr as [Hc [k Hk]], Hr' as (_ & _ & _ & Hf). specialize (Hf Hc k). rewrite <- Ht in Hf. lia.
  - done.
Qed.
End GroupFacts.

(** The hits by key are those of the payload: the keys are strictly sorted and are the
    keys of the groups of the payload, each with the sum of its hits modulo 2^64; a build
    that checks overflows panics exactly when a sum does not fit; and neither depends on
    how the groups are spread over clients and buckets, nor on their order. *)
Theorem stats_hits_by_key_spec `{!StatsRest} (overflow_checks : bool) (payload : StatsPayload) :
  let entries := group_entries payload in
  Forall (λ e, 0 ≤ e.2) entries →
  match stats_hits_by_key overflow_checks payload with
  | Some groups =>
      StronglySorted key_lt groups.*1 ∧ (∀ k, k ∈ groups.*1 ↔ k ∈ entries.*1) ∧
      (∀ k n, (k, n) ∈ groups → n = wrap64 (total k entries)) ∧
      (overflow_checks = true → ∀ k, total k entries ≤ u64_max)
  | None => overflow_checks = true ∧ ∃ k, u64_max < total k entries
  end ∧
  ∀ payload' : StatsPayload, group_entries payload' ≡ₚ entries →
    stats_hits_by_key overflow_checks payload' = stats_hits_by_key overflow_checks payload.
Proof.
  cbv zeta. intros Hl. unfold stats_hits_by_key. split.
  - assert (∀ k : StatsGroupKey, 0 ≤ value_of k [] ≤ u64_max) as H0 by (intros k; simpl; unfold u64_max; lia).
    pose proof (add_groups_spec overflow_checks [] _ (SSorted_nil _) H0 Hl) as Hr.
    destruct (add_groups _ [] _) as [m|]; [|exact Hr]. destruct Hr as (Hs & Hk & Hv & Hf). split_and!; [done| | |done].
    + intros k. rewrite Hk. split; [by intros [?%elem_of_nil|]|auto].
    + intros k n Hin. rewrite <- (value_of_elem m k n Hs Hin). apply Hv.
  - intros payload' Hp. symmetry. by apply add_groups_perm.
Qed.

(** ** The text of a key *)

(** What [serde_json] and [pb::Trilean] guarantee: a JSON string starts with a quote and
    shows where it ends; names are not numbers and differ. *)
Class KeyTextLaws `{!KeyText} := {
  escape_delimited a b s t : escape a +:+ s = escape b +:+ t → a = b ∧ s = t;
  escape_quote a : ∃ r, escape a = String "034" r;
  trilean_inj v w n : trilean_as_str v = Some n → trilean_as_str w = Some n → v = w;
  trilean_not_number v n w : trilean_as_str v = Some n → n ≠ show_Z w;
}.

(** The end of the text, or a space. *)
Definition space_next (s : string) : Prop := s = EmptyString ∨ ∃ r, s = String " " r.

Lemma until_space a b s t :
  contains_char " " a = false → contains_char " " b = false → space_next s → space_next t →
  a +:+ s = b +:+ t → a = b ∧ s = t.
Proof.
  revert b. induction a as [|x a IH]; intros [|y b]; rewrite ?app_cons, ?app_nil_l; simpl.
  - done.
  - intros _ Hb [->|[r ->]] _; [done|]. intros [= <- _]. done.
  - intros Ha _ _ [->|[r ->]]; [done|]. by intros [= -> _].
  - destruct (decide (x = " "%char)) as [->|]; [done|].
    intros Ha%orb_false_iff Hb%orb_false_iff Hs Ht [= -> E].
    destruct (IH b) as [-> ->]; tauto.
Qed.

Lemma show_Z_inj n m : show_Z n = show_Z m → n = m.
Proof. apply (inj pretty). Qed.

Lemma show_Z_no_space n : 0 ≤ n → contains_char " " (show_Z n) = false.
Proof. intros Hn. by eapply (digits_val_no_char 0); [apply digits_val_show|]. Qed.

Section TextFacts.
Context `{!KeyText, !KeyTextLaws}.

Fixpoint tags_rest (l : list string) : string :=
  match l with [] => EmptyString | b :: l => "," +:+ escape b +:+ tags_rest l end.

Lemma join_tags a l : join "," (escape <$> (a :: l)) = escape a +:+ tags_rest l.
Proof.
  revert a. induction l as [|b l IH]; intros a; [by rewrite app_nil_str|].
  rewrite fmap_cons, join_cons by done. by rewrite IH.
Qed.

Lemma tags_rest_delimited l l' s t : tags_rest l +:+ "]" +:+ s = tags_rest l' +:+ "]" +:+ t → l = l' ∧ s = t.
Proof.
  revert l'. induction l as [|b l IH]; intros [|b' l']; simpl; rewrite ?app_assoc_str, ?app_nil_l, ?app_cons, ?app_nil_l;
    [by intros [= ->]|done|done|].
  intros [= E]. rewrite ?app_nil_l in E. apply escape_delimited in E as [-> E]. by destruct (IH l' E) as [-> ->].
Qed.

Lemma tags_delimited l l' s t : render_tags l +:+ s = render_tags l' +:+ t → l = l' ∧ s = t.
Proof.
  unfold render_tags. rewrite !app_assoc_str, !app_cons, !app_nil_l. intros [= E]. revert E.
  destruct l as [|a l], l' as [|a' l']; rewrite ?join_tags, ?app_assoc_str; simpl.
  - intros E. rewrite ?app_nil_l, ?app_cons, ?app_nil_l in E. by injection E as ->.
  - destruct (escape_quote a') as [r ->]. by rewrite ?app_nil_l, !app_cons.
  - destruct (escape_quote a) as [r ->]. by rewrite ?app_nil_l, !app_cons.
  - intros [-> E]%escape_delimited. by apply tags_rest_delimited in E as [-> ->].
Qed.

Lemma trilean_name_inj v w : trilean_name v = trilean_name w → v = w.
Proof.
  unfold trilean_name. destruct (trilean_as_str v) eqn:Ev, (trilean_as_str w) eqn:Ew; simpl.
  - intros ->. by eapply trilean_inj.
  - intros ->. by apply trilean_not_number with (w := w) in Ev.
  - intros <-. by apply trilean_not_number with (w := v) in Ew.
  - by intros ?%show_Z_inj.
Qed.

Definition same_shape (f g : KeyField) : Prop := field_rank f = field_rank g.
Definition field_ok (f : KeyField) : Prop := match f with FNum n => 0 ≤ n | _ => True end.

Lemma field_delimited f g s t :
  same_shape f g → field_ok f → field_ok g → space_next s → space_next t →
  field_text f +:+ s = field_text g +:+ t → f = g ∧ s = t.
Proof.
  unfold same_shape. intros Hr Hf Hg Hs Ht.
  destruct f as [a|n|b|v|l], g as [a'|n'|b'|v'|l']; try done; simpl in *.
  - by intros [-> ->]%escape_delimited.
  - intros [E ->]%until_space; [|by auto using show_Z_no_space..]. by apply show_Z_inj in E as ->.
  - intros [E ->]%until_space; [|by destruct b|by destruct b'|done..]. by destruct b, b'.
  - intros [E ->]%escape_delimited. by apply trilean_name_inj in E as ->.
  - by intros [-> ->]%tags_delimited.
Qed.

Definition field_line (f : string * KeyField) : string := f.1 +:+ "=" +:+ field_text f.2.

Lemma fields_injective l l' :
  Forall2 (λ f g, f.1 = g.1 ∧ same_shape f.2 g.2) l l' →
  Forall (λ f, field_ok f.2) l → Forall (λ f, field_ok f.2) l' →
  join " " (field_line <$> l) = join " " (field_line <$> l') → l = l'.
Proof.
  induction 1 as [|[n f] [n' g] l l' [Hn Hsh] Hl IH]; [done|]. simpl in Hn, Hsh. subst n'.
  intros [Hf Hf']%Forall_cons [Hg Hg']%Forall_cons. simpl in Hf, Hg.
  assert (∀ s t, space_next s → space_next t → field_line (n, f) +:+ s = field_line (n, g) +:+ t →
    f = g ∧ s = t) as Hd.
  { intros s t Hs Ht. unfold field_line. simpl. rewrite !app_assoc_str. intros E%(inj _)%(inj _).
    by apply field_delimited in E. }
  rewrite !fmap_cons. destruct l as [|f1 l], l' as [|g1 l']; try by inversion Hl.
  - intros E. destruct (Hd EmptyString EmptyString) as [-> _]; [by left..| |done]. by rewrite !app_nil_str.
  - rewrite !join_cons by done. intros E. apply Hd in E as [-> E]; [|by right; eexists..].
    apply (inj _) in E. by rewrite IH.
Qed.

Definition key_ok (k : StatsGroupKey) : Prop :=
  0 ≤ client_process_tags_hash k ∧ 0 ≤ stats_http_status_code k.

(** The line of a key tells it from every other one. *)
Theorem render_injective k k' : key_ok k → key_ok k' → render k = render k' → k = k'.
Proof.
  intros [? ?] [? ?] E. apply key_fields_inj.
  assert (key_fields k = key_fields k') as ->; [|done]. apply fields_injective; [| | |exact E].
  - unfold key_fields. repeat constructor.
  - unfold key_fields. repeat constructor; simpl; assumption || exact I.
  - unfold key_fields. repeat constructor; simpl; assumption || exact I.
Qed.
End TextFacts.

(** * Examples *)
Module MockSummaryExamples.
#[local] Instance no_rest : StatsRest :=
  {| grouped_rest := unit; bucket_rest := unit; client_rest := unit; payload_rest := unit |}.

(** JSON text without control characters. *)
Definition is_special (c : ascii) : bool := bool_decide (c = "034"%char) || bool_decide (c = "\"%char).
Fixpoint json_body (s : string) : string :=
  match s with
  | EmptyString => String "034" EmptyString
  | String c s => if is_special c then String "\" (String c (json_body s)) else String c (json_body s)
  end.
#[local] Instance text : KeyText := {|
  escape s := String "034" (json_body s);
  trilean_as_str v :=
    if v =? 0 then Some "NOT_SET" else if v =? 1 then Some "TRUE" else if v =? 2 then Some "FALSE" else None |}.

Lemma json_body_delimited a b s t : json_body a +:+ s = json_body b +:+ t → a = b ∧ s = t.
Proof.
  revert b. induction a as [|x a IH]; intros [|y b]; simpl.
  - rewrite !app_cons, ?app_nil_l. by intros [= ->].
  - destruct (is_special y) eqn:Ey; rewrite !app_cons; [done|]. intros [= <- _]. done.
  - destruct (is_special x) eqn:Ex; rewrite !app_cons; [done|]. intros [= -> _]. done.
  - destruct (is_special x) eqn:Ex, (is_special y) eqn:Ey; rewrite !app_cons.
    + intros [= -> E]. destruct (IH b E) as [-> ->]. done.
    + intros [= <- _]. done.
    + intros [= -> _]. done.
    + intros [= -> E]. destruct (IH b E) as [-> ->]. done.
Qed.

#[local] Instance text_laws : KeyTextLaws.
Proof.
  split; cbn.
  - intros a b s t. rewrite !app_cons. intros [= E]. by apply json_body_delimited.
  - eauto.
  - intros v w n. repeat case_match; intros; simplify_eq; lia.
  - assert (∀ n c r, n = String c r → c ≠ "-"%char → digits_val 0 n = None → ∀ w, n ≠ show_Z w) as Hn.
    { intros n c r -> Hc Hd w E. destruct w as [|p|p].
      - by rewrite E in Hd.
      - rewrite E, digits_val_show in Hd; [done|lia].
      - unfold show_Z, pretty, pretty_Z in E. rewrite app_cons in E. by injection E as ->. }
    intros v n w. repeat case_match; intros [= <-]; by eapply Hn.
Qed.

Definition grouped (name : string) (tags : list string) (n : Z) : ClientGroupedStats :=
  {| g_service := "web"; g_name := name; g_resource := "GET /"; g_type := "web"; g_db_type := "";
     g_http_status_code := 200; g_grpc_status_code := ""; g_http_method := "GET"; g_http_endpoint := "/";
     g_span_kind := "server"; g_synthetics := false; g_is_trace_root := 1; g_service_source := "";
     g_peer_tags := tags; g_span_derived_primary_tags := []; g_additional_metric_tags := [];
     hits := n; g_rest := (tt : grouped_rest) |}.
Definition client (buckets : list (list ClientGroupedStats)) : ClientStatsPayload :=
  {| c_service := "web"; c_env := "prod"; c_version := ""; c_hostname := ""; c_container_id := "";
     c_tags := []; c_git_commit_sha := ""; c_image_tag := ""; c_process_tags := "";
     c_process_tags_hash := 0; c_agent_aggregation := "";
     c_stats := (λ l, {| b_stats := l; b_rest := (tt : bucket_rest) |}) <$> buckets;
     c_rest := (tt : client_rest) |}.
Definition payload (clients : list ClientStatsPayload) : StatsPayload :=
  {| p_stats := clients; p_rest := (tt : payload_rest) |}.

(** The same key in two buckets and with its tags in another order. *)
Definition two_keys : StatsPayload :=
  payload [client [[grouped "b" ["y:1"; "x:2"] 3; grouped "a" [] 1]; [grouped "b" ["x:2"; "y:1"] 4]]].
Definition summary (p : StatsPayload) : option (list (string * Z)) :=
  match stats_hits_by_key true p with
  | Some groups => Some (map (λ e, (stats_name e.1, e.2)) groups)
  | None => None
  end.

Example hits_example : summary two_keys = Some [("a", 1); ("b", 7)].
Proof. vm_compute. reflexivity. Qed.

(** Two counts that do not fit panic in a checked build and wrap in another one. *)
Example overflow_example :
  let p := payload [client [[grouped "a" [] u64_max; grouped "a" [] 2]]] in
  stats_hits_by_key true p = None ∧
  (map snd <$> stats_hits_by_key false p) = Some [1].
Proof. vm_compute. split; reflexivity. Qed.

Definition key_b : StatsGroupKey := group_key_new (client []) (grouped "b" ["x:2"; "y:1"] 0).

Lemma stats_hits_by_key_spec_witness :
  match stats_hits_by_key true two_keys with
  | Some groups => StronglySorted key_lt groups.*1 ∧ key_b ∈ groups.*1
  | None => False
  end.
Proof.
  destruct (stats_hits_by_key_spec true two_keys) as [H _]; [repeat constructor; simpl; lia|].
  destruct (stats_hits_by_key true two_keys) as [groups|] eqn:E; [|vm_compute in E; discriminate E].
  destruct H as (Hs & Hk & _ & _). split; [exact Hs|]. apply Hk.
  apply (list_elem_of_lookup_2 _ 0). vm_compute. reflexivity.
Defined.

Lemma render_injective_witness :
  render (group_key_new (client []) (grouped "a" ["x:1"] 1)) ≠ render (group_key_new (client []) (grouped "a" ["x:1,y:2"] 1)).
Proof.
  intros E. apply render_injective in E; [discriminate E|split; vm_compute; discriminate..].
Defined.
End MockSummaryExamples.
