(* ===== verification/MockIntake.v ===== *)
(** The mock intake: [datadog-mock-intake/src/lib.rs].

    The decoding of the bodies, the handlers of the three endpoints, the captures, and the
    requests in flight as a transition system; module [Registry] is the accept loop with
    the shutdown.  The sockets, the decompressors and the decoders are parameters.  The
    summaries by key are in [MockSummary]. *)
From Stdlib Require Import Ascii SpecFloat.
From S2P Require Import Prelude RStr Float MockSummary.

Definition MAX_BODY_SIZE : Z := 2097152.
Definition MAX_DECOMPRESSED_SIZE : Z := 64 * 1024 * 1024.

(** * Bodies *)

(** [String::from_utf8_lossy]: a maximal prefix of a sequence that is not one is replaced by
    [U+FFFD]. [valid_prefix] gives the length of the sequence at the head of the bytes, or
    the length of what is replaced. *)
Definition valid_prefix (l : list ascii) : result nat nat :=
  match l with
  | [] => Err 0%nat
  | a :: l =>
      let second (c : ascii) : bool :=
        if in_range 224 224 a then in_range 160 191 c
        else if in_range 237 237 a then in_range 128 159 c
        else if in_range 240 240 a then in_range 144 191 c
        else if in_range 244 244 a then in_range 128 143 c
        else cont_byte c in
      if in_range 0 127 a then Ok 1%nat else
      if negb (in_range 194 244 a) then Err 1%nat else
      match l with
      | [] => Err 1%nat
      | b :: l =>
          if negb (second b) then Err 1%nat else
          if in_range 194 223 a then Ok 2%nat else
          match l with
          | [] => Err 2%nat
          | c :: l =>
              if negb (cont_byte c) then Err 2%nat else
              if in_range 224 239 a then Ok 3%nat else
              match l with
              | [] => Err 3%nat
              | d :: _ => if cont_byte d then Ok 4%nat else Err 3%nat
              end
          end
      end
  end.

Definition replacement : list ascii := ["239"%char; "191"%char; "189"%char].

Fixpoint lossy (fuel : nat) (l : list ascii) : list ascii :=
  match fuel, l with
  | O, _ | _, [] => []
  | S fuel, _ =>
      match valid_prefix l with
      | Ok n => take n l ++ lossy fuel (drop n l)
      | Err n => replacement ++ lossy fuel (drop n l)
      end
  end.
Definition from_utf8_lossy (l : list ascii) : string := str_of (lossy (length l) l).

(** [hyper::HeaderMap]: lower-case names, in the order of arrival. *)
Definition HeaderMap : Type := list (string * list ascii).
Definition header_get (headers : HeaderMap) (name : string) : option (list ascii) :=
  snd <$> find (λ h, String.eqb h.1 name) headers.

Definition content_encoding (headers : HeaderMap) : string :=
  match header_get headers "content-encoding" with
  | None => "identity"
  | Some v => from_utf8_lossy v
  end.

Inductive DecompressError := UnsupportedEncoding (encoding : string) | Decode (e : string).

Definition decompress_failure_status (err : DecompressError) : Z :=
  match err with UnsupportedEncoding _ => 415 | Decode _ => 400 end.

(** A reader: the bytes it gives, then its end or an error. *)
Record Reader := { r_bytes : list ascii; r_end : result unit string }.

(** [Read::take] and [read_to_end]: the reader is not read past the limit. *)
Definition take_to_end (limit : Z) (reader : Reader) : result (list ascii) string :=
  if limit <=? zlen (r_bytes reader) then Ok (take (Z.to_nat limit) (r_bytes reader))
  else let? _ := r_end reader in Ok (r_bytes reader).

Definition read_capped (reader : Reader) (cap : Z) : result (list ascii) string :=
  match take_to_end (cap + 1) reader with
  | Err e => Err ("read failed: " +:+ e)
  | Ok out =>
      if cap <? zlen out then
        Err ("decompressed body exceeds " +:+ show_Z cap
             +:+ " byte cap, rejecting as a likely decompression bomb")
      else Ok out
  end.

(** flate2 and zstd. *)
Class Decoders := {
  gzip_decoder : list ascii → Reader;
  zstd_decoder : list ascii → result Reader string;
}.

Definition decompress `{!Decoders} (headers : HeaderMap) (body : list ascii) :
    result (list ascii) DecompressError :=
  let encoding := to_lowercase (content_encoding headers) in
  let decode {A} (what : string) (r : result A string) : result A DecompressError :=
    match r with Ok a => Ok a | Err e => Err (Decode ("mock_intake: " +:+ what +:+ " failed: " +:+ e)) end in
  if is_empty encoding || String.eqb encoding "identity" then Ok body
  else if String.eqb encoding "gzip" then
    decode "gzip decode" (read_capped (gzip_decoder body) MAX_DECOMPRESSED_SIZE)
  else if String.eqb encoding "zstd" then
    let? decoder := decode "zstd decoder init" (zstd_decoder body) in
    decode "zstd decode" (read_capped decoder MAX_DECOMPRESSED_SIZE)
  else Err (UnsupportedEncoding encoding).

(** * Payloads *)

Record PipelineStatsPoint := { hash : Z; parent_hash : Z; edge_tags : list string }.
Record PipelineStatsBucket := { pb_stats : list PipelineStatsPoint }.
Record PipelineStatsPayload := {
  ps_env : string;
  ps_service : string;
  ps_tracer_version : string;
  ps_version : string;
  ps_tags : list string;
  ps_stats : list PipelineStatsBucket;
}.

(** JSON, with what serde makes of the third-party structures; the encoder orders the
    keys of an object. *)
Inductive Json (E : Type) :=
  | JNull
  | JBool (b : bool)
  | JInt (n : Z)
  | JFloat (f : spec_float)
  | JString (s : string)
  | JArray (l : list (Json E))
  | JObject (l : list (string * Json E))
  | JEmbed (e : E).
Arguments JNull {E}.
Arguments JBool {E} b.
Arguments JInt {E} n.
Arguments JFloat {E} f.
Arguments JString {E} s.
Arguments JArray {E} l.
Arguments JObject {E} l.
Arguments JEmbed {E} e.

(** A number that is not finite is [null]. *)
Definition json_f64 {E} (f : spec_float) : Json E := if is_finite f then JFloat f else JNull.
Definition json_strings {E} (l : list string) : Json E := JArray (map JString l).

(** The protobuf structures, the decoders of msgpack and protobuf, and the encoder. *)
Class Codec `{!StatsRest} := {
  TracerPayload : Type;
  IdxTracerPayload : Type;
  embedded : Type;
  embed_stats : StatsPayload → option (Json embedded);
  embed_tracer : TracerPayload → Json embedded;
  embed_idx : IdxTracerPayload → Json embedded;
  stats_from_msgpack : list ascii → result StatsPayload string;
  pipeline_from_msgpack : list ascii → result PipelineStatsPayload string;
  to_vec_pretty : Json embedded → option string;
}.

Section Agent.
Context `{!StatsRest, !Codec}.
Record AgentPayload := {
  host_name : string;
  ap_env : string;
  tracer_payloads : list TracerPayload;
  ap_tags : list (string * string);
  agent_version : string;
  target_tps : spec_float;
  error_tps : spec_float;
  rare_sampler_enabled : bool;
  idx_tracer_payloads : list IdxTracerPayload;
}.

Definition agent_payload_to_json (payload : AgentPayload) : Json embedded :=
  JObject [("host_name", JString (host_name payload));
           ("env", JString (ap_env payload));
           ("tracer_payloads", JArray (map embed_tracer (tracer_payloads payload)));
           ("tags", JObject (map (λ kv, (kv.1, JString kv.2)) (ap_tags payload)));
           ("agent_version", JString (agent_version payload));
           ("target_tps", json_f64 (target_tps payload));
           ("error_tps", json_f64 (error_tps payload));
           ("rare_sampler_enabled", JBool (rare_sampler_enabled payload));
           ("idx_tracer_payloads", JArray (map embed_idx (idx_tracer_payloads payload)))].
End Agent.

(** [derive(Serialize)] of [PipelineStatsPayload], with its renamed fields. *)
Definition pipeline_to_json {E} (payload : PipelineStatsPayload) : Json E :=
  let point p := JObject [("Hash", JInt (hash p)); ("ParentHash", JInt (parent_hash p));
                          ("EdgeTags", json_strings (edge_tags p))] in
  let bucket b := JObject [("Stats", JArray (map point (pb_stats b)))] in
  JObject [("Env", JString (ps_env payload)); ("Service", JString (ps_service payload));
           ("TracerVersion", JString (ps_tracer_version payload)); ("Version", JString (ps_version payload));
           ("Tags", json_strings (ps_tags payload)); ("Stats", JArray (map bucket (ps_stats payload)))].

(** * Captures *)

Record MockIntakeOptions := {
  port : Z;
  request_summaries : bool;
  fail_stats_first_n : Z;
  dump_dir : option string;
}.

Record CapturedRequest := {
  cr_method : string;
  cr_path : string;
  cr_headers : list (string * string);
  cr_body : list ascii;
}.

Inductive Endpoint := Stats | Traces | PipelineStats.

Definition from_path (path : string) : option Endpoint :=
  if String.eqb path "/api/v0.2/stats" then Some Stats
  else if String.eqb path "/api/v0.2/traces" then Some Traces
  else if String.eqb path "/api/v0.1/pipeline_stats" then Some PipelineStats
  else None.

(** [partition_point] of the identifiers below [request_id], in a sorted vector. *)
Fixpoint partition_point {T} (request_id : Z) (entries : list (Z * T)) : nat :=
  match entries with
  | [] => 0%nat
  | (id, _) :: entries => if id <? request_id then S (partition_point request_id entries) else 0%nat
  end.

Definition insert_sorted {T} (entries : list (Z * T)) (request_id : Z) (item : T) : list (Z * T) :=
  let index := partition_point request_id entries in
  take index entries ++ (request_id, item) :: drop index entries.

Definition items {T} (entries : list (Z * T)) : list T := snd <$> entries.

Section Captures.
Context `{!StatsRest, !Codec}.

Inductive Accepted :=
  | AcceptedStats (payload : StatsPayload)
  | AcceptedTraces (payload : AgentPayload)
  | AcceptedPipelineStats (payload : PipelineStatsPayload).

Record Captured := {
  requests : list (Z * CapturedRequest);
  stats : list (Z * StatsPayload);
  traces : list (Z * AgentPayload);
  pipeline_stats : list (Z * PipelineStatsPayload);
}.

Definition captured_default : Captured :=
  {| requests := []; stats := []; traces := []; pipeline_stats := [] |}.

Definition record (self : Captured) (request_id : Z) (request : CapturedRequest)
    (accepted : option Accepted) : Captured :=
  let requests := insert_sorted (requests self) request_id request in
  match accepted with
  | Some (AcceptedStats payload) =>
      {| requests := requests; stats := insert_sorted (stats self) request_id payload;
         traces := traces self; pipeline_stats := pipeline_stats self |}
  | Some (AcceptedTraces payload) =>
      {| requests := requests; stats := stats self;
         traces := insert_sorted (traces self) request_id payload; pipeline_stats := pipeline_stats self |}
  | Some (AcceptedPipelineStats payload) =>
      {| requests := requests; stats := stats self; traces := traces self;
         pipeline_stats := insert_sorted (pipeline_stats self) request_id payload |}
  | None =>
      {| requests := requests; stats := stats self; traces := traces self;
         pipeline_stats := pipeline_stats self |}
  end.

(** The queries of [MockIntake]. *)
Definition requests_for_path (self : Captured) (path : string) : list CapturedRequest :=
  filter (λ r, cr_path r = path) (items (requests self)).
Definition stats_payloads (self : Captured) : list StatsPayload := items (stats self).
Definition trace_payloads (self : Captured) : list AgentPayload := items (traces self).
Definition pipeline_stats_payloads (self : Captured) : list PipelineStatsPayload := items (pipeline_stats self).
End Captures.

(** * Handlers *)

Definition failure_status (inject_failure : bool) : Z := if inject_failure then 500 else 400.

Section Handlers.
Context `{!StatsRest, !Codec, !Decoders, !KeyText}.
Context (agent_decode : list ascii → result AgentPayload string).
Context (overflow_checks : bool) (options : MockIntakeOptions).

(** What a handler does: its answer, the line on stderr and the payload to dump. *)
Record Outcome := {
  status : Z;
  accepted : option Accepted;
  summary : option string;
  dump : option (Json embedded);
}.

Definition log_summary (request_id : Z) (endpoint : string) (headers : HeaderMap) (status : Z)
    (payload_count : Z) (groups : option (list (StatsGroupKey * Z))) : string :=
  let line := "mock-intake: request " +:+ show_Z request_id +:+ " | POST " +:+ endpoint +:+ " | encoding="
    +:+ content_encoding headers +:+ " | status=" +:+ show_Z status +:+ " | payloads=" +:+ show_Z payload_count in
  match groups with
  | None => line
  | Some groups =>
      let rendered := map (λ g : StatsGroupKey * Z, "hits=" +:+ show_Z g.2 +:+ " " +:+ render g.1) groups in
      line +:+ " | groups=" +:+ show_Z (zlen groups) +:+ " | " +:+ join "; " rendered
  end.

Definition dumped (payload : Json embedded) : option (Json embedded) :=
  match dump_dir options with Some _ => Some payload | None => None end.

(** [handle_stats], from the attempts made before; [None] is a panic. *)
Definition handle_stats (stats_attempts request_id : Z) (headers : HeaderMap) (body : list ascii) :
    Z * option Outcome :=
  let '(stats_attempts, st, decoded) :=
    match decompress headers body with
    | Err (UnsupportedEncoding _) => (stats_attempts, 415, None)
    | result =>
        let attempt := stats_attempts + 1 in
        let inject_failure := attempt <=? fail_stats_first_n options in
        match result with
        | Ok d =>
            match stats_from_msgpack d with
            | Ok payload => (attempt, if inject_failure then 500 else 202, Some payload)
            | Err _ => (attempt, failure_status inject_failure, None)
            end
        | Err _ => (attempt, failure_status inject_failure, None)
        end
    end in
  (* [None]: the sum of the hits overflowed *)
  let groups := match decoded with
                | Some p => match stats_hits_by_key overflow_checks p with
                            | Some g => Some (Some g) | None => None end
                | None => Some None
                end in
  let outcome line :=
    {| status := st;
       accepted := match decoded with
                   | Some p => if st =? 202 then Some (AcceptedStats p) else None
                   | None => None
                   end;
       summary := line;
       dump := match decoded with
               | Some p => dumped (default JNull (embed_stats p))
               | None => None
               end |} in
  (stats_attempts,
   if request_summaries options then
     match groups with
     | None => None
     | Some groups =>
         Some (outcome (Some (log_summary request_id "/api/v0.2/stats" headers st
           (match decoded with Some p => zlen (p_stats p) | None => 0 end) groups)))
     end
   else Some (outcome None)).

(** The two other handlers differ by their decoder and what they make of the payload. *)
Definition handle_decoded {A} (path : string) (decode : list ascii → result A string)
    (count : A → Z) (accept : A → Accepted) (json : A → Json embedded)
    (request_id : Z) (headers : HeaderMap) (body : list ascii) : Outcome :=
  let '(st, decoded) :=
    match decompress headers body with
    | Ok d => match decode d with Ok payload => (202, Some payload) | Err _ => (400, None) end
    | Err e => (decompress_failure_status e, None)
    end in
  {| status := st;
     accepted := match decoded with Some p => if st =? 202 then Some (accept p) else None | None => None end;
     summary :=
       if request_summaries options
       then Some (log_summary request_id path headers st
              (match decoded with Some p => count p | None => 0 end) None)
       else None;
     dump := match decoded with Some p => dumped (json p) | None => None end |}.

Definition handle_traces : Z → HeaderMap → list ascii → Outcome :=
  handle_decoded "/api/v0.2/traces" agent_decode
    (λ p, zlen (tracer_payloads p) + zlen (idx_tracer_payloads p)) AcceptedTraces agent_payload_to_json.

Definition handle_pipeline_stats : Z → HeaderMap → list ascii → Outcome :=
  handle_decoded "/api/v0.1/pipeline_stats" pipeline_from_msgpack
    (λ p, sum_size (λ b, zlen (pb_stats b)) (ps_stats p)) AcceptedPipelineStats pipeline_to_json.

(** The blocking task of [handle_request]: a panic is caught. *)
Definition run_handler (endpoint : Endpoint) (stats_attempts request_id : Z) (headers : HeaderMap)
    (body : list ascii) : Z * (Z * option Accepted) :=
  match endpoint with
  | Stats =>
      let '(attempts, outcome) := handle_stats stats_attempts request_id headers body in
      (attempts, match outcome with Some o => (status o, accepted o) | None => (500, None) end)
  | Traces =>
      let o := handle_traces request_id headers body in (stats_attempts, (status o, accepted o))
  | PipelineStats =>
      let o := handle_pipeline_stats request_id headers body in (stats_attempts, (status o, accepted o))
  end.
End Handlers.

(** * Dumps *)

(** [{request_id:04}] *)
Definition pad4 (n : Z) : string :=
  let s := show_Z n in str_of (replicate (4 - String.length s) "0"%char) +:+ s.

(** The name of a dump, without its suffix. *)
Definition dump_base (endpoint : string) (request_id pid nanos : Z) : string :=
  replace_char "/" "_" endpoint +:+ "-" +:+ pad4 request_id +:+ "-" +:+ show_Z pid +:+ "-" +:+ show_Z nanos.

Definition dump_path (dir base : string) (suffix : Z) : string :=
  dir +:+ "/" +:+ (if suffix =? 0 then base +:+ ".json" else base +:+ "-" +:+ show_Z suffix +:+ ".json").

Definition dump_envelope {E} (request_id : Z) (endpoint : string) (headers : HeaderMap) (status : Z)
    (payload : Json E) : Json E :=
  JObject [("request_id", JInt request_id); ("endpoint", JString endpoint);
           ("encoding", JString (content_encoding headers)); ("status", JInt status); ("payload", payload)].

Inductive DumpOutcome := Written (path : string) | Refused (path : string) | GaveUp | NotDumped.

Section Dump.
(** What other processes do to the files before an attempt, the paths that cannot be
    created, and what a write leaves in a file. *)
Context (others : Z → gmap string string → gmap string string).
Context (refused : string → bool) (write_all : string → string).

Fixpoint dump_loop (fuel : nat) (fs : gmap string string) (dir base json : string) (suffix : Z) :
    option (gmap string string * DumpOutcome) :=
  match fuel with
  | O => None
  | S fuel =>
      let path := dump_path dir base suffix in
      let fs := others suffix fs in
      match fs !! path with
      | Some _ =>
          let suffix := suffix + 1 in
          if 1000 <? suffix then Some (fs, GaveUp) else dump_loop fuel fs dir base json suffix
      | None =>
          if refused path then Some (fs, Refused path)
          else Some (<[path := write_all json]> fs, Written path)
      end
  end.

(** [dump_request], of the text of the envelope. *)
Definition dump_request (dir : option string) (json : option string) (base : string)
    (fs : gmap string string) : option (gmap string string * DumpOutcome) :=
  match dir, json with
  | Some dir, Some json => dump_loop 1001 fs dir base (json +:+ String "010" EmptyString) 0
  | _, _ => Some (fs, NotDumped)
  end.
End Dump.

(** * Requests in flight *)

Section Intake.
Context `{!StatsRest, !Codec, !Decoders, !KeyText}.
Context (agent_decode : list ascii → result AgentPayload string).
Context (overflow_checks : bool) (options : MockIntakeOptions).

(** A request routed to an endpoint: its body is being read, the blocking task has it, its
    fate is decided, it is captured and answered, or it ended before its body was read,
    with an answer or without. *)
Inductive Pc :=
  | Reading
  | Handling (body : list ascii)
  | Decided (body : list ascii) (status : Z) (accepted : option Accepted)
  | Responded (body : list ascii) (status : Z) (accepted : option Accepted)
  | Gone (status : option Z).

Record Task := { t_path : string; t_endpoint : Endpoint; t_headers : HeaderMap; t_pc : Pc }.

(** The task of index [i] has the identifier [i + 1].  The ghost [decoded] lists the
    statistics requests that used an attempt, in the order of their attempts. *)
Record State := {
  request_counter : Z;
  stats_attempts : Z;
  captured : Captured;
  tasks : list Task;
  decoded : list nat;
}.

Definition init : State :=
  {| request_counter := 0; stats_attempts := 0; captured := captured_default; tasks := []; decoded := [] |}.

Definition request_id (i : nat) : Z := Z.of_nat i + 1.

(** [handle_request] up to the body: the status of a request that is not routed. *)
Definition route (path method : string) : result Endpoint Z :=
  let? endpoint := ok_or (from_path path) 404 in
  if String.eqb method "POST" then Ok endpoint else Err 405.

Definition captured_request (t : Task) (body : list ascii) : CapturedRequest :=
  {| cr_method := "POST"; cr_path := t_path t;
     cr_headers := map (λ h : string * list ascii, (h.1, from_utf8_lossy h.2)) (t_headers t);
     cr_body := body |}.

Definition at_pc (t : Task) (pc : Pc) : Task :=
  {| t_path := t_path t; t_endpoint := t_endpoint t; t_headers := t_headers t; t_pc := pc |}.

Definition with_task (s : State) (i : nat) (t : Task) : State :=
  {| request_counter := request_counter s; stats_attempts := stats_attempts s; captured := captured s;
     tasks := <[i := t]> (tasks s); decoded := decoded s |}.

Definition arrive (s : State) (path : string) (endpoint : Endpoint) (headers : HeaderMap) : State :=
  {| request_counter := request_counter s + 1; stats_attempts := stats_attempts s; captured := captured s;
     tasks := tasks s ++ [{| t_path := path; t_endpoint := endpoint; t_headers := headers; t_pc := Reading |}];
     decoded := decoded s |}.

Definition handle (s : State) (i : nat) (t : Task) (body : list ascii) : State :=
  let '(attempts, (st, acc)) :=
    run_handler agent_decode overflow_checks options (t_endpoint t) (stats_attempts s) (request_id i)
      (t_headers t) body in
  {| request_counter := request_counter s; stats_attempts := attempts; captured := captured s;
     tasks := <[i := at_pc t (Decided body st acc)]> (tasks s);
     decoded := if attempts =? stats_attempts s then decoded s else decoded s ++ [i] |}.

Definition capture (s : State) (i : nat) (t : Task) (body : list ascii) (st : Z) (acc : option Accepted) : State :=
  {| request_counter := request_counter s; stats_attempts := stats_attempts s;
     captured := record (captured s) (request_id i) (captured_request t body) acc;
     tasks := <[i := at_pc t (Responded body st acc)]> (tasks s); decoded := decoded s |}.

Inductive step : State → State → Prop :=
  | arrives s path method headers endpoint :
      route path method = Ok endpoint → step s (arrive s path endpoint headers)
  | body_read s i t body :
      tasks s !! i = Some t → t_pc t = Reading → zlen body ≤ MAX_BODY_SIZE →
      step s (with_task s i (at_pc t (Handling body)))
  | body_refused s i t st :
      tasks s !! i = Some t → t_pc t = Reading → st = Some 413 ∨ st = Some 400 ∨ st = None →
      step s (with_task s i (at_pc t (Gone st)))
  | handled s i t body :
      tasks s !! i = Some t → t_pc t = Handling body → step s (handle s i t body)
  | recorded s i t body st acc :
      tasks s !! i = Some t → t_pc t = Decided body st acc → step s (capture s i t body st acc).
End Intake.

(** * Connections *)
Module Registry.

(** A connection: served, over, or aborted. *)
Inductive Conn := Serving | Over | Aborted.

(** The accept loop: waiting, between the spawn of a connection and its registration, or
    stopped. *)
Inductive Accept := Waiting | Spawned (i : nat) | Stopped.

(** [Drop]: not begun, the loop signalled and aborted, the connections aborted. *)
Inductive Dropping := Alive | Signalled | Dropped.

(** The connections of the intake, with the registry. *)
Record State := {
  conns : list Conn;
  shutting_down : bool;
  handles : list nat;
  accept : Accept;
  dropping : Dropping;
}.

Definition init : State :=
  {| conns := []; shutting_down := false; handles := []; accept := Waiting; dropping := Alive |}.

Definition is_finished (s : State) (i : nat) : bool :=
  match conns s !! i with Some Serving => false | _ => true end.

Definition abort_one (cs : list Conn) (i : nat) : list Conn :=
  match cs !! i with Some Serving => <[i := Aborted]> cs | _ => cs end.

Definition spawn (s : State) : State :=
  {| conns := conns s ++ [Serving]; shutting_down := shutting_down s; handles := handles s;
     accept := Spawned (length (conns s)); dropping := dropping s |}.

(** The critical section that registers a connection. *)
Definition register (s : State) (i : nat) : State :=
  if shutting_down s then
    {| conns := abort_one (conns s) i; shutting_down := true; handles := handles s; accept := Waiting;
       dropping := dropping s |}
  else
    {| conns := conns s; shutting_down := false;
       handles := List.filter (λ h, negb (is_finished s h)) (handles s) ++ [i]; accept := Waiting;
       dropping := dropping s |}.

Definition conn_over (s : State) (i : nat) : State :=
  {| conns := <[i := Over]> (conns s); shutting_down := shutting_down s; handles := handles s;
     accept := accept s; dropping := dropping s |}.

Definition signal (s : State) : State :=
  {| conns := conns s; shutting_down := shutting_down s; handles := handles s; accept := accept s;
     dropping := Signalled |}.

(** The critical section of [Drop]. *)
Definition drop_connections (s : State) : State :=
  {| conns := fold_left abort_one (handles s) (conns s); shutting_down := true; handles := [];
     accept := accept s; dropping := Dropped |}.

Definition stop_accept (s : State) : State :=
  {| conns := conns s; shutting_down := shutting_down s; handles := handles s; accept := Stopped;
     dropping := dropping s |}.

Inductive step : State → State → Prop :=
  | accepts s : accept s = Waiting → step s (spawn s)
  | registers s i : accept s = Spawned i → step s (register s i)
  | conn_ends s i : conns s !! i = Some Serving → step s (conn_over s i)
  | drop_signals s : dropping s = Alive → step s (signal s)
  | drop_aborts s : dropping s = Signalled → step s (drop_connections s)
  | accept_stops s : accept s = Waiting → dropping s ≠ Alive → step s (stop_accept s).
End Registry.

(** * Facts *)

(** ** Bodies *)

Lemma in_range_ascii a : in_range 0 127 a = false → in_range 194 244 a = false →
  in_range 194 223 a = false ∧ in_range 224 224 a = false ∧ in_range 237 237 a = false ∧
  in_range 225 239 a = false ∧ in_range 240 240 a = false ∧ in_range 244 244 a = false ∧
  in_range 241 243 a = false ∧ in_range 224 239 a = false.
Proof.
  unfold in_range. intros _ H. apply andb_false_iff in H.
  split_and!; apply andb_false_iff; rewrite ?Z.leb_gt in *; lia.
Qed.

(** Valid text starts with a sequence that [valid_prefix] accepts. *)
Lemma valid_prefix_valid l : utf8_valid l = true → l ≠ [] →
  ∃ n, valid_prefix l = Ok (S n) ∧ utf8_valid (drop (S n) l) = true.
Proof.
  destruct l as [|a l]; [done|]. intros Hv _. cbn [utf8_valid valid_prefix] in *. cbv zeta.
  destruct (in_range 0 127 a) eqn:E0; [by exists 0%nat|].
  destruct (in_range 194 244 a) eqn:Elead; cbn [negb]; cycle 1.
  { destruct (in_range_ascii a E0 Elead) as (E1 & E2 & E3 & E4 & E5 & E6 & E7 & _).
    rewrite E1, E2, E3, E4, E5, E6, E7 in Hv. destruct l as [|b [|c [|d l]]]; done. }
  destruct l as [|b l]; [done|]. cbn [utf8_valid] in Hv.
  destruct (in_range 194 223 a) eqn:E1.
  { assert (in_range 224 224 a = false ∧ in_range 237 237 a = false ∧ in_range 240 240 a = false ∧
      in_range 244 244 a = false) as (-> & -> & -> & ->).
    { unfold in_range in *. apply andb_true_iff in E1. split_and!; apply andb_false_iff; rewrite ?Z.leb_gt; lia. }
    apply andb_true_iff in Hv as [-> Hv]. by exists 1%nat. }
  destruct l as [|c l].
  { destruct (in_range 224 224 a), (in_range 237 237 a), (in_range 225 239 a); done. }
  destruct (in_range 224 224 a) eqn:E2.
  { assert (in_range 224 239 a = true) as -> by (unfold in_range in *; apply andb_true_iff in E2; apply andb_true_iff; lia).
    apply andb_true_iff in Hv as [[-> ->]%andb_true_iff Hv]. by exists 2%nat. }
  destruct (in_range 237 237 a) eqn:E3.
  { assert (in_range 224 239 a = true) as -> by (unfold in_range in *; apply andb_true_iff in E3; apply andb_true_iff; lia).
    apply andb_true_iff in Hv as [[-> ->]%andb_true_iff Hv]. by exists 2%nat. }
  destruct (in_range 225 239 a) eqn:E4.
  { assert (in_range 240 240 a = false ∧ in_range 244 244 a = false ∧ in_range 224 239 a = true) as (-> & -> & ->).
    { unfold in_range in *. apply andb_true_iff in E4. rewrite !andb_false_iff, !andb_true_iff, !Z.leb_gt. lia. }
    apply andb_true_iff in Hv as [[-> ->]%andb_true_iff Hv]. by exists 2%nat. }
  assert (in_range 224 239 a = false) as ->.
  { unfold in_range in *. rewrite !andb_false_iff, !Z.leb_gt in *. lia. }
  destruct l as [|d l]; [done|].
  destruct (in_range 240 240 a) eqn:E5.
  { apply andb_true_iff in Hv as [[[-> ->]%andb_true_iff ->]%andb_true_iff Hv]. by exists 3%nat. }
  destruct (in_range 244 244 a) eqn:E6.
  { apply andb_true_iff in Hv as [[[-> ->]%andb_true_iff ->]%andb_true_iff Hv]. by exists 3%nat. }
  destruct (in_range 241 243 a) eqn:E7; [|done].
  apply andb_true_iff in Hv as [[[-> ->]%andb_true_iff ->]%andb_true_iff Hv]. by exists 3%nat.
Qed.

(** Text is kept as it is. *)
Lemma lossy_valid l : utf8_valid l = true → from_utf8_lossy l = str_of l.
Proof.
  intros Hv. unfold from_utf8_lossy. f_equal.
  assert (∀ fuel l, (length l ≤ fuel)%nat → utf8_valid l = true → lossy fuel l = l) as H; [|by apply H].
  clear. induction fuel as [|fuel IH]; intros [|a l] Hl Hv; try done; [simpl in Hl; lia|]. cbn [lossy].
  destruct (valid_prefix_valid (a :: l) Hv) as (n & -> & Hv'); [done|].
  rewrite IH; [apply take_drop| |done]. rewrite length_drop. simpl in *. lia.
Qed.

(** Reading within a cap gives exactly the bytes of a reader that ends within it. *)
Lemma read_capped_ok reader cap out :
  0 ≤ cap → read_capped reader cap = Ok out ↔ out = r_bytes reader ∧ is_ok (r_end reader) = true ∧ zlen out ≤ cap.
Proof.
  intros Hc. unfold read_capped, take_to_end.
  destruct (Z.leb_spec (cap + 1) (zlen (r_bytes reader))) as [Hl|Hl].
  - destruct (Z.ltb_spec cap (zlen (take (Z.to_nat (cap + 1)) (r_bytes reader)))) as [|Hn].
    + split; [done|]. intros (-> & _ & ?). lia.
    + rewrite length_take in Hn. lia.
  - destruct (r_end reader) as [[]|e]; cbn [result_bind]; [|naive_solver].
    destruct (Z.ltb_spec cap (zlen (r_bytes reader))); [lia|]. split; [intros [= <-]; auto|].
    by intros (-> & _).
Qed.

(** A body is decoded within the cap, and only with an encoding the intake knows. *)
Theorem decompress_spec `{!Decoders} headers body :
  let encoding := to_lowercase (content_encoding headers) in
  match decompress headers body with
  | Ok d =>
      (encoding = EmptyString ∨ encoding = "identity") ∧ d = body ∨
      zlen d ≤ MAX_DECOMPRESSED_SIZE ∧
        (encoding = "gzip" ∧ d = r_bytes (gzip_decoder body) ∨
         encoding = "zstd" ∧ ∃ r, zstd_decoder body = Ok r ∧ d = r_bytes r)
  | Err (UnsupportedEncoding e) =>
      e = encoding ∧ encoding ∉ [EmptyString; "identity"; "gzip"; "zstd"]
  | Err (Decode _) => encoding = "gzip" ∨ encoding = "zstd"
  end.
Proof.
  cbv zeta. unfold decompress. cbv zeta. set (encoding := to_lowercase _).
  destruct (is_empty encoding) eqn:E0; cbn [orb].
  { left. split; [left; by destruct encoding|done]. }
  destruct (String.eqb_spec encoding "identity") as [|E1]; [left; auto|].
  assert (0 ≤ MAX_DECOMPRESSED_SIZE) as Hm by (unfold MAX_DECOMPRESSED_SIZE; lia).
  destruct (String.eqb_spec encoding "gzip") as [|E2].
  { destruct (read_capped _ _) as [d|] eqn:Er; [|auto]. apply read_capped_ok in Er as (-> & _ & ?); [|done]. auto 6. }
  destruct (String.eqb_spec encoding "zstd") as [|E3].
  { destruct (zstd_decoder body) as [r|]; cbn [result_bind]; [|auto].
    destruct (read_capped _ _) as [d|] eqn:Er; [|auto]. apply read_capped_ok in Er as (-> & _ & ?); [|done]. eauto 8. }
  split; [done|]. intros Hin. repeat (apply elem_of_cons in Hin as [Hin|Hin]; [by try rewrite Hin in E0|]).
  by apply elem_of_nil in Hin.
Qed.

(** ** Captures *)

Lemma insert_sorted_elem {T} (l : list (Z * T)) id x e : e ∈ insert_sorted l id x ↔ e = (id, x) ∨ e ∈ l.
Proof.
  unfold insert_sorted. cbv zeta. set (n := partition_point id l). clearbody n.
  assert (e ∈ l ↔ e ∈ take n l ∨ e ∈ drop n l) as -> by (by rewrite <- elem_of_app, take_drop).
  rewrite elem_of_app, elem_of_cons. tauto.
Qed.

Lemma insert_sorted_sorted {T} (l : list (Z * T)) id x :
  StronglySorted Z.lt l.*1 → id ∉ l.*1 → StronglySorted Z.lt (insert_sorted l id x).*1.
Proof.
  intros Hs. unfold insert_sorted. induction l as [|[i y] l IH]; intros Hid.
  { simpl. by repeat constructor. }
  rewrite fmap_cons, not_elem_of_cons in Hid. destruct Hid as [Hne Hid].
  inversion Hs as [|? ? Hs' Hall]; subst. rewrite Forall_forall in Hall. simpl in *.
  destruct (Z.ltb_spec i id); simpl.
  - specialize (IH Hs' Hid). constructor; [done|]. apply Forall_forall. intros j Hj.
    apply list_elem_of_fmap in Hj as ([j' z] & -> & Hj). fold (insert_sorted l id x) in Hj.
    apply insert_sorted_elem in Hj as [[= -> ->]|Hj]; [simpl; lia|].
    apply Hall, list_elem_of_fmap. eauto.
  - constructor; [exact Hs|]. constructor; [lia|]. apply Forall_forall. intros j Hj.
    specialize (Hall j Hj). lia.
Qed.

Lemma request_id_inj i j : request_id i = request_id j → i = j.
Proof. unfold request_id. lia. Qed.

Section Holds.
Context `{!StatsRest, !Codec} {T : Type} (f : Task → option T).

(** A sorted list of what the tasks hold, each under its identifier. *)
Definition holds (l : list (Z * T)) (ts : list Task) : Prop :=
  StronglySorted Z.lt l.*1 ∧
  ∀ id x, (id, x) ∈ l ↔ ∃ i t, ts !! i = Some t ∧ id = request_id i ∧ f t = Some x.

Lemma holds_append l ts t : holds l ts → f t = None → holds l (ts ++ [t]).
Proof.
  intros [Hs Hl] Ht. split; [done|]. intros id x. rewrite Hl. split.
  - intros (i & t' & Hi & ? & ?). exists i, t'. split; [by apply lookup_app_l_Some|done].
  - intros (i & t' & Hi & ? & Hf). exists i, t'. split; [|done].
    apply lookup_app_Some in Hi as [|[Hlen Hi]]; [done|]. apply list_lookup_singleton_Some in Hi as [_ ->].
    by rewrite Ht in Hf.
Qed.

Lemma holds_update l ts i t t' :
  holds l ts → ts !! i = Some t → f t = None → f t' = None → holds l (<[i := t']> ts).
Proof.
  intros [Hs Hl] Hi Ht Ht'. split; [done|]. intros id x. rewrite Hl.
  split; intros (j & u & Hj & Hid & Hu); exists j, u; (split; [|done]).
  - rewrite list_lookup_insert_ne; [done|]. intros ->. congruence.
  - apply list_lookup_insert_Some in Hj as [(-> & -> & _)|[_ Hj]]; [congruence|done].
Qed.

Lemma holds_insert l ts i t t' x :
  holds l ts → ts !! i = Some t → f t = None → f t' = Some x →
  holds (insert_sorted l (request_id i) x) (<[i := t']> ts).
Proof.
  intros [Hs Hl] Hi Ht Ht'. split.
  - apply insert_sorted_sorted; [done|]. intros ([id y] & E & Hin)%list_elem_of_fmap. simpl in E. subst id.
    apply Hl in Hin as (j & u & Hj & ->%request_id_inj & Hu). congruence.
  - intros id y. rewrite insert_sorted_elem, Hl. split.
    + intros [[= -> ->]|(j & u & Hj & Hid & Hu)].
      * exists i, t'. split; [|done]. apply list_lookup_insert_eq. by eapply lookup_lt_Some.
      * exists j, u. split; [|done]. rewrite list_lookup_insert_ne; [done|]. intros ->. congruence.
    + intros (j & u & Hj & -> & Hu). apply list_lookup_insert_Some in Hj as [(-> & -> & _)|[Hne Hj]].
      * left. congruence.
      * right. eauto.
Qed.
End Holds.

Section IntakeFacts.
Context `{!StatsRest, !Codec, !Decoders, !KeyText}.
Context (agent_decode : list ascii → result AgentPayload string).
Context (overflow_checks : bool) (options : MockIntakeOptions).
#[local] Abbreviation step := (step agent_decode overflow_checks options).
#[local] Abbreviation run := (run_handler agent_decode overflow_checks options).

(** What a task holds once it is answered. *)
Definition request_of (t : Task) : option CapturedRequest :=
  match t_pc t with Responded body _ _ => Some (captured_request t body) | _ => None end.
Definition accepted_of (t : Task) : option Accepted :=
  match t_pc t with Responded _ _ acc => acc | _ => None end.
Definition stats_of (t : Task) : option StatsPayload :=
  match accepted_of t with Some (AcceptedStats p) => Some p | _ => None end.
Definition traces_of (t : Task) : option AgentPayload :=
  match accepted_of t with Some (AcceptedTraces p) => Some p | _ => None end.
Definition pipeline_of (t : Task) : option PipelineStatsPayload :=
  match accepted_of t with Some (AcceptedPipelineStats p) => Some p | _ => None end.

(** The body and the fate of a task whose handler ran. *)
Definition fate_of (t : Task) : option (list ascii * (Z * option Accepted)) :=
  match t_pc t with
  | Decided body st acc | Responded body st acc => Some (body, (st, acc))
  | _ => None
  end.

(** The requests that use an attempt. *)
Definition uses_attempt (t : Task) (body : list ascii) : bool :=
  match t_endpoint t with
  | Stats => match decompress (t_headers t) body with Err (UnsupportedEncoding _) => false | _ => true end
  | _ => false
  end.

Record captures_inv (c : Captured) (ts : list Task) : Prop := {
  ci_requests : holds request_of (requests c) ts;
  ci_stats : holds stats_of (stats c) ts;
  ci_traces : holds traces_of (traces c) ts;
  ci_pipeline : holds pipeline_of (pipeline_stats c) ts;
}.

Record intake_inv (s : State) : Prop := {
  ii_counter : request_counter s = zlen (tasks s);
  ii_captures : captures_inv (captured s) (tasks s);
  ii_routed : Forall (λ t, from_path (t_path t) = Some (t_endpoint t)) (tasks s);
  ii_attempts : stats_attempts s = zlen (decoded s);
  ii_nodup : NoDup (decoded s);
  ii_decoded i : i ∈ decoded s → ∃ t body r, tasks s !! i = Some t ∧ fate_of t = Some (body, r) ∧
    uses_attempt t body = true;
  ii_fate i t body r : tasks s !! i = Some t → fate_of t = Some (body, r) →
    ∃ n : nat, (run (t_endpoint t) (Z.of_nat n) (request_id i) (t_headers t) body).2 = r ∧
      (uses_attempt t body = true → decoded s !! n = Some i);
}.

Lemma run_attempts t n id body :
  (run (t_endpoint t) n id (t_headers t) body).1 = if uses_attempt t body then n + 1 else n.
Proof.
  unfold run_handler, uses_attempt. destruct (t_endpoint t); try done. unfold handle_stats.
  destruct (decompress (t_headers t) body) as [d|[e|e]]; [|done|done]. by destruct (stats_from_msgpack d).
Qed.

Lemma captures_append c ts t : captures_inv c ts → t_pc t = Reading → captures_inv c (ts ++ [t]).
Proof.
  intros [? ? ? ?] Ht.
  split; apply holds_append; try done; unfold request_of, stats_of, traces_of, pipeline_of, accepted_of; by rewrite Ht.
Qed.

Lemma captures_update c ts i t t' :
  captures_inv c ts → ts !! i = Some t → request_of t = None → request_of t' = None →
  captures_inv c (<[i := t']> ts).
Proof.
  intros [? ? ? ?] Hi Ht Ht'.
  assert (∀ u, request_of u = None → accepted_of u = None) as Ha.
  { intros u. unfold request_of, accepted_of. by destruct (t_pc u). }
  split; (eapply holds_update; [done|exact Hi| |]);
    unfold stats_of, traces_of, pipeline_of; rewrite ?Ha; done.
Qed.

Lemma captures_record c ts i t body st acc :
  captures_inv c ts → ts !! i = Some t → t_pc t = Decided body st acc →
  captures_inv (record c (request_id i) (captured_request t body) acc) (<[i := at_pc t (Responded body st acc)]> ts).
Proof.
  intros [Hr Hs Ht Hp] Hi Hpc. unfold record.
  assert (request_of t = None ∧ stats_of t = None ∧ traces_of t = None ∧ pipeline_of t = None) as (? & ? & ? & ?).
  { unfold stats_of, traces_of, pipeline_of, request_of, accepted_of. by rewrite Hpc. }
  destruct acc as [[p|p|p]|]; split; simpl;
    (by eapply holds_update) || (by eapply holds_insert).
Qed.

Lemma fate_kept (s : State) ts' d' i t t' :
  intake_inv s → tasks s !! i = Some t → fate_of t' = fate_of t → t_endpoint t' = t_endpoint t →
  t_headers t' = t_headers t → ts' = <[i := t']> (tasks s) → d' = decoded s →
  (∀ j, j ∈ d' → ∃ u body r, ts' !! j = Some u ∧ fate_of u = Some (body, r) ∧ uses_attempt u body = true) ∧
  (∀ j u body r, ts' !! j = Some u → fate_of u = Some (body, r) →
    ∃ n : nat, (run (t_endpoint u) (Z.of_nat n) (request_id j) (t_headers u) body).2 = r ∧
      (uses_attempt u body = true → d' !! n = Some j)).
Proof.
  intros Hinv Hi Hf He Hh -> ->.
  assert (∀ body, uses_attempt t' body = uses_attempt t body) as Hu by (intros; unfold uses_attempt; by rewrite He, Hh).
  split.
  - intros j Hj. destruct (ii_decoded _ Hinv j Hj) as (u & body & r & Hu' & Hfu & Hat).
    destruct (decide (i = j)) as [<-|Hne].
    + exists t', body, r. assert (u = t) as -> by congruence. split_and!; [|congruence|by rewrite Hu].
      apply list_lookup_insert_eq. by eapply lookup_lt_Some.
    + exists u, body, r. by rewrite list_lookup_insert_ne.
  - intros j u body r Hj Hfu. apply list_lookup_insert_Some in Hj as [(-> & -> & _)|[_ Hj]].
    + rewrite He, Hh, Hu. apply (ii_fate _ Hinv); [done|congruence].
    + by apply (ii_fate _ Hinv).
Qed.

Lemma routed_update ts i t t' :
  Forall (λ t, from_path (t_path t) = Some (t_endpoint t)) ts → ts !! i = Some t → t_path t' = t_path t →
  t_endpoint t' = t_endpoint t → Forall (λ t, from_path (t_path t) = Some (t_endpoint t)) (<[i := t']> ts).
Proof.
  intros Hf Hi Hp He. apply Forall_insert; [done|]. rewrite Hp, He.
  rewrite Forall_lookup in Hf. by apply (Hf i).
Qed.

Lemma arrive_inv s path method headers endpoint :
  intake_inv s → route path method = Ok endpoint → intake_inv (arrive s path endpoint headers).
Proof.
  intros Hinv Hr. pose proof Hinv as [Hc Hcap Hrt Ha Hnd Hd Hf]. split; simpl; try done.
  - rewrite length_app. simpl. lia.
  - by apply captures_append.
  - apply Forall_app. split; [done|]. repeat constructor. simpl. unfold route in Hr.
    destruct (from_path path) as [e|]; cbn [ok_or result_bind] in Hr; [|done].
    destruct (String.eqb method "POST"); [|done]. congruence.
  - intros i Hi. destruct (Hd i Hi) as (t & body & r & ? & ?). exists t, body, r.
    split; [by apply lookup_app_l_Some|done].
  - intros i t body r Hi Hfi. apply lookup_app_Some in Hi as [Hi|[_ Hi]]; [by apply Hf|].
    apply list_lookup_singleton_Some in Hi as [_ <-]. done.
Qed.

(** A task whose handler has not run, or only records what it decided, keeps the rest. *)
Lemma with_task_inv s i t t' :
  intake_inv s → tasks s !! i = Some t → fate_of t' = fate_of t → request_of t = None → request_of t' = None →
  t_path t' = t_path t → t_endpoint t' = t_endpoint t → t_headers t' = t_headers t →
  intake_inv (with_task s i t').
Proof.
  intros Hinv Hi Hf Hr Hr' Hp He Hh. pose proof Hinv as [Hc Hcap Hrt Ha Hnd Hd Hfa].
  destruct (fate_kept s _ _ i t t' Hinv Hi Hf He Hh eq_refl eq_refl) as [Hd' Hfa'].
  split; simpl; try done.
  - by rewrite length_insert.
  - by eapply captures_update.
  - by eapply routed_update.
Qed.

Lemma capture_inv s i t body st acc :
  intake_inv s → tasks s !! i = Some t → t_pc t = Decided body st acc →
  intake_inv (capture s i t body st acc).
Proof.
  intros Hinv Hi Hpc. pose proof Hinv as [Hc Hcap Hrt Ha Hnd Hd Hfa].
  assert (fate_of (at_pc t (Responded body st acc)) = fate_of t) as Hf by (unfold fate_of; by rewrite Hpc).
  destruct (fate_kept s _ _ i t _ Hinv Hi Hf eq_refl eq_refl eq_refl eq_refl) as [Hd' Hfa'].
  split; simpl; try done.
  - by rewrite length_insert.
  - by apply captures_record.
  - by eapply routed_update.
Qed.

Lemma handle_inv s i t body :
  intake_inv s → tasks s !! i = Some t → t_pc t = Handling body →
  intake_inv (handle agent_decode overflow_checks options s i t body).
Proof.
  intros Hinv Hi Hpc. pose proof Hinv as [Hc Hcap Hrt Ha Hnd Hd Hfa]. unfold handle.
  pose proof (run_attempts t (stats_attempts s) (request_id i) body) as Hra.
  destruct (run (t_endpoint t) _ _ _ body) as [attempts [st acc]] eqn:Er. simpl in Hra.
  set (t' := at_pc t (Decided body st acc)).
  assert (uses_attempt t' body = uses_attempt t body) as Hut by done.
  assert (fate_of t = None) as Hft by (unfold fate_of; by rewrite Hpc).
  assert (request_of t = None) as Hrt' by (unfold request_of; by rewrite Hpc).
  assert (i ∉ decoded s) as Hni.
  { intros (u & b & r & Hu & Hfu & _)%Hd. congruence. }
  assert (∀ j u, j ≠ i → <[i := t']> (tasks s) !! j = Some u ↔ tasks s !! j = Some u) as Hoth
    by (intros j u Hne; by rewrite list_lookup_insert_ne by done).
  assert (<[i := t']> (tasks s) !! i = Some t') as Hself
    by (apply list_lookup_insert_eq; by eapply lookup_lt_Some).
  destruct (uses_attempt t body) eqn:Eu; subst attempts.
  - assert (stats_attempts s + 1 =? stats_attempts s = false) as -> by lia. split; simpl.
    + by rewrite length_insert.
    + by eapply captures_update.
    + by eapply routed_update.
    + rewrite length_app. simpl. lia.
    + apply NoDup_app. split_and!; [done| |apply NoDup_singleton]. intros j Hj Hj'. apply list_elem_of_singleton in Hj'. by subst j.
    + intros j [Hj|Hj]%elem_of_app; cycle 1.
      { apply list_elem_of_singleton in Hj as ->. by exists t', body, (st, acc). }
      destruct (Hd j Hj) as (u & b & r & ?). exists u, b, r. rewrite Hoth; [done|]. by intros ->.
    + intros j u b r Hj Hfu. destruct (decide (j = i)) as [->|Hne].
      * assert (u = t') as -> by congruence. injection Hfu as <- <-. exists (length (decoded s)).
        rewrite <- Ha. split; [unfold t'; cbn [at_pc t_endpoint t_headers]; by rewrite Er|]. intros _. by apply list_lookup_middle.
      * apply Hoth in Hj; [|done]. destruct (Hfa j u b r Hj Hfu) as (n & ? & Hn). exists n. split; [done|].
        intros Hub. apply lookup_app_l_Some. auto.
  - rewrite Z.eqb_refl. split; simpl; try done.
    + by rewrite length_insert.
    + by eapply captures_update.
    + by eapply routed_update.
    + intros j Hj. destruct (Hd j Hj) as (u & b & r & ?). exists u, b, r. rewrite Hoth; [done|]. by intros ->.
    + intros j u b r Hj Hfu. destruct (decide (j = i)) as [->|Hne].
      * assert (u = t') as -> by congruence. injection Hfu as <- <-. exists (length (decoded s)).
        rewrite <- Ha. split; [unfold t'; cbn [at_pc t_endpoint t_headers]; by rewrite Er|]. by rewrite Hut.
      * apply Hoth in Hj; [|done]. eauto.
Qed.

Lemma intake_step_inv s s' : intake_inv s → step s s' → intake_inv s'.
Proof.
  intros Hinv Hs.
  destruct Hs as [s path method headers e Hr|s i t body Hi Hpc _|s i t st Hi Hpc _|s i t body Hi Hpc|s i t body st acc Hi Hpc].
  - by eapply arrive_inv.
  - eapply with_task_inv; try done; unfold fate_of, request_of; simpl; by rewrite Hpc.
  - eapply with_task_inv; try done; unfold fate_of, request_of; simpl; by rewrite Hpc.
  - by apply handle_inv.
  - by apply capture_inv.
Qed.

Lemma intake_reach s : rtc step init s → intake_inv s.
Proof.
  assert (intake_inv init) as Hi.
  { split; simpl; try done; [|constructor|by intros i ?%elem_of_nil].
    split; (split; [constructor|]); intros id x; (split; [by intros ?%elem_of_nil|by intros (i & t & ? & _)]). }
  revert Hi. generalize (@init _ _). induction 2 as [|x y z Hxy _ IH]; [done|]. apply IH. by eapply intake_step_inv.
Qed.

Lemma typed_ids {T} (f : Task → option T) l rs ts :
  holds f l ts → holds request_of rs ts → (∀ t, is_Some (f t) → is_Some (accepted_of t)) →
  ∀ id, id ∈ l.*1 → id ∈ rs.*1.
Proof.
  intros [_ Hl] [_ Hr] Hf id ([id' x] & -> & Hin)%list_elem_of_fmap. apply Hl in Hin as (i & t & Hi & -> & Hx).
  destruct (Hf t) as [a Ha]; [by eexists|]. unfold accepted_of in Ha.
  destruct (t_pc t) as [|body|body st acc|body st acc|st] eqn:Hpc; try done.
  apply list_elem_of_fmap. exists (request_id i, captured_request t body). split; [done|]. apply Hr.
  exists i, t. split_and!; try done. unfold request_of. by rewrite Hpc.
Qed.

(** C40: Under every interleaving of the arrivals, the reads, the handlers and the
    disconnections: each query gives what the answered requests hold and nothing else,
    once each and in the order of their arrival; a typed payload is never seen without
    its raw request; and a request whose body was read can be captured whatever the
    others do, so none hides another. *)
Theorem captures_spec s :
  rtc step init s →
  holds request_of (requests (captured s)) (tasks s) ∧
  holds stats_of (stats (captured s)) (tasks s) ∧
  holds traces_of (traces (captured s)) (tasks s) ∧
  holds pipeline_of (pipeline_stats (captured s)) (tasks s) ∧
  (∀ id, id ∈ (stats (captured s)).*1 ++ (traces (captured s)).*1 ++ (pipeline_stats (captured s)).*1 →
     id ∈ (requests (captured s)).*1) ∧
  (∀ i t, tasks s !! i = Some t →
     (∃ body, t_pc t = Handling body) ∨ (∃ body st acc, t_pc t = Decided body st acc) →
     ∃ s' t', rtc step s s' ∧ tasks s' !! i = Some t' ∧ is_Some (request_of t') ∧
       ∀ j, j ≠ i → tasks s' !! j = tasks s !! j).
Proof.
  intros Hinv%intake_reach. destruct (ii_captures _ Hinv) as [Hr Hs Ht Hp]. split_and!; try done.
  - intros id. rewrite !elem_of_app. intros [Hin|[Hin|Hin]].
    + apply (typed_ids _ _ _ _ Hs Hr); [|done]. intros t. unfold stats_of. destruct (accepted_of t); [eauto|by intros []].
    + apply (typed_ids _ _ _ _ Ht Hr); [|done]. intros t. unfold traces_of. destruct (accepted_of t); [eauto|by intros []].
    + apply (typed_ids _ _ _ _ Hp Hr); [|done]. intros t. unfold pipeline_of. destruct (accepted_of t); [eauto|by intros []].
  - intros i t Hi Hpc.
    assert (∀ s t body st acc, tasks s !! i = Some t → t_pc t = Decided body st acc →
      ∃ s' t', rtc step s s' ∧ tasks s' !! i = Some t' ∧ is_Some (request_of t') ∧
        ∀ j, j ≠ i → tasks s' !! j = tasks s !! j) as Hdec.
    { clear. intros s t body st acc Hi Hpc. eexists _, _. split; [apply rtc_once; by eapply recorded|]. simpl.
      split_and!; [apply list_lookup_insert_eq; by eapply lookup_lt_Some|by eexists|].
      intros j Hj. by rewrite list_lookup_insert_ne. }
    destruct Hpc as [[body Hb]|(body & st & acc & Hd)]; [|by eapply Hdec].
    pose proof (handled agent_decode overflow_checks options s i t body Hi Hb) as Hstep.
    revert Hstep. unfold handle. destruct (run _ _ _ _ _) as [attempts [st acc]]. intros Hstep.
    match type of Hstep with step _ ?s1 => destruct (Hdec s1 (at_pc t (Decided body st acc)) body st acc)
      as (s2 & t2 & Hr2 & Hi2 & Hq & Ho) end; [|done|].
    { simpl. apply list_lookup_insert_eq. by eapply lookup_lt_Some. }
    exists s2, t2. split_and!; [by eapply rtc_l|done|done|]. intros j Hj. rewrite Ho by done. simpl.
    by rewrite list_lookup_insert_ne.
Qed.

(** The answer to a statistics request that is the [n]th to use an attempt, from 0. *)
Definition stats_verdict (n : nat) (r : result (list ascii) DecompressError) : Z * option Accepted :=
  match r with
  | Ok d =>
      match stats_from_msgpack d with
      | Ok p =>
          if (Z.of_nat n <? fail_stats_first_n options) ||
             (request_summaries options && negb (bool_decide (is_Some (stats_hits_by_key overflow_checks p))))
          then (500, None) else (202, Some (AcceptedStats p))
      | Err _ => (if Z.of_nat n <? fail_stats_first_n options then 500 else 400, None)
      end
  | Err _ => (if Z.of_nat n <? fail_stats_first_n options then 500 else 400, None)
  end.

Lemma stats_run n id headers body :
  (run Stats (Z.of_nat n) id headers body).2 =
    match decompress headers body with
    | Err (UnsupportedEncoding _) => (415, None)
    | r => stats_verdict n r
    end.
Proof.
  unfold run_handler, handle_stats, stats_verdict.
  assert (Z.of_nat n + 1 <=? fail_stats_first_n options = (Z.of_nat n <? fail_stats_first_n options)) as Hn by lia.
  destruct (decompress headers body) as [d|[e|e]].
  - rewrite Hn. destruct (stats_from_msgpack d) as [p|e].
    + destruct (request_summaries options); cbn [andb].
      * destruct (stats_hits_by_key overflow_checks p) as [g|].
        -- rewrite bool_decide_true by done. cbn [negb]. rewrite orb_false_r. by destruct (Z.of_nat n <? _).
        -- rewrite bool_decide_false by (by intros []). cbn [negb]. by rewrite orb_true_r.
      * rewrite orb_false_r. by destruct (Z.of_nat n <? _).
    + unfold failure_status. by destruct (Z.of_nat n <? _), (request_summaries options).
  - by destruct (request_summaries options).
  - rewrite Hn. unfold failure_status. by destruct (Z.of_nat n <? _), (request_summaries options).
Qed.

(** The injected failures are exactly the first [fail_stats_first_n] attempts, whatever
    the interleaving: attempts are numbered without a gap in the order the handlers make
    them, each statistics request makes one unless its encoding is not supported, which is
    answered 415 and uses none, and its answer is the one of its number. *)
Theorem stats_injection_exact s :
  rtc step init s →
  stats_attempts s = zlen (decoded s) ∧ NoDup (decoded s) ∧
  ∀ i t body st acc, tasks s !! i = Some t → t_endpoint t = Stats → fate_of t = Some (body, (st, acc)) →
    match decompress (t_headers t) body with
    | Err (UnsupportedEncoding _) => st = 415 ∧ acc = None ∧ i ∉ decoded s
    | r => ∃ n, decoded s !! n = Some i ∧ (st, acc) = stats_verdict n r ∧
             (Z.of_nat n < fail_stats_first_n options → st = 500 ∧ acc = None)
    end.
Proof.
  intros Hinv%intake_reach. pose proof Hinv as [_ _ _ Ha Hnd Hd Hf]. split_and!; try done.
  intros i t body st acc Hi He Hfate. destruct (Hf i t body _ Hi Hfate) as (n & Hr & Hn).
  rewrite He, stats_run in Hr. unfold uses_attempt in Hn. rewrite He in Hn.
  assert (∀ r, (st, acc) = stats_verdict n r → Z.of_nat n < fail_stats_first_n options → st = 500 ∧ acc = None) as Hv.
  { intros r Hv Hlt. unfold stats_verdict in Hv. rewrite (proj2 (Z.ltb_lt _ _) Hlt) in Hv. cbn [orb] in Hv.
    destruct r as [d|e]; [|by simplify_eq]. destruct (stats_from_msgpack d); by simplify_eq. }
  destruct (decompress (t_headers t) body) as [d|[e|e]] eqn:Ed.
  - exists n. split; [by apply Hn|]. split; [done|]. by eapply Hv.
  - simplify_eq. split_and!; try done. intros (u & b & r & Hu & Hfu & Hat)%Hd. simplify_eq.
    unfold uses_attempt in Hat. by rewrite He, Ed in Hat.
  - exists n. split; [by apply Hn|]. split; [done|]. by eapply Hv.
Qed.
End IntakeFacts.

(** ** Dumps *)

Section DumpFacts.
Context (others : Z → gmap string string → gmap string string).
Context (refused : string → bool) (write_all : string → string).
Context (Hothers : ∀ n fs, fs ⊆ others n fs).

(** A dump always ends and never touches a file that exists: it writes to one of the 1001
    names of its request that was free, or gives up when none was. *)
Theorem dump_never_overwrites fuel fs dir base json suffix :
  0 ≤ suffix ≤ 1000 → 1000 - suffix < Z.of_nat fuel →
  ∃ fs' o, dump_loop others refused write_all fuel fs dir base json suffix = Some (fs', o) ∧ fs ⊆ fs' ∧
    match o with
    | Written p => fs !! p = None ∧ fs' !! p = Some (write_all json) ∧
                   ∃ k, suffix ≤ k ≤ 1000 ∧ p = dump_path dir base k
    | Refused p => refused p = true
    | GaveUp => ∀ k, suffix ≤ k ≤ 1000 → is_Some (fs' !! dump_path dir base k)
    | NotDumped => False
    end.
Proof.
  revert fs suffix. induction fuel as [|fuel IH]; intros fs suffix Hs Hf; [lia|]. cbn [dump_loop].
  pose proof (Hothers suffix fs) as Hsub. set (fs1 := others suffix fs) in *.
  set (p := dump_path dir base suffix). destruct (fs1 !! p) as [content|] eqn:Ep.
  - destruct (Z.ltb_spec 1000 (suffix + 1)).
    + exists fs1, GaveUp. split_and!; try done. intros k Hk. assert (k = suffix) as -> by lia. by exists content.
    + destruct (IH fs1 (suffix + 1)) as (fs' & o & -> & Hsub' & Ho); [lia..|]. exists fs', o.
      split_and!; [done|by etrans|]. destruct o as [q|q| |]; try done.
      * destruct Ho as (Hq & ? & k & Hk & ->). split_and!; [by eapply lookup_weaken_None|done|]. exists k. split; [lia|done].
      * intros k Hk. destruct (decide (k = suffix)) as [->|]; [|apply Ho; lia].
        exists content. by eapply lookup_weaken.
  - destruct (refused p) eqn:Er; [by exists fs1, (Refused p)|].
    exists (<[p := write_all json]> fs1), (Written p). split_and!; [done| | | |].
    + etrans; [done|]. by apply insert_subseteq.
    + by eapply lookup_weaken_None.
    + by rewrite lookup_insert_eq.
    + exists suffix. split; [lia|done].
Qed.
End DumpFacts.

(** ** Connections *)
Module RegistryFacts.
Import Registry.

Lemma abort_one_serving cs i j : abort_one cs i !! j = Some Serving ↔ cs !! j = Some Serving ∧ j ≠ i.
Proof.
  unfold abort_one. destruct (decide (j = i)) as [->|Hne].
  - split; [|by intros [_ ?]]. intros H. exfalso.
    destruct (cs !! i) as [[]|] eqn:E; rewrite ?E in H; try done.
    rewrite list_lookup_insert_eq in H; [done|by eapply lookup_lt_Some].
  - destruct (cs !! i) as [[]|]; rewrite ?list_lookup_insert_ne by done; tauto.
Qed.

Lemma abort_all_serving hs cs j : fold_left abort_one hs cs !! j = Some Serving ↔ cs !! j = Some Serving ∧ j ∉ hs.
Proof.
  revert cs. induction hs as [|h hs IH]; intros cs; cbn [fold_left].
  - split; [|tauto]. intros ?. split; [done|]. by intros ?%elem_of_nil.
  - rewrite IH, abort_one_serving, not_elem_of_cons. tauto.
Qed.

Record registry_inv (s : State) : Prop := {
  ri_flag : shutting_down s = true ↔ dropping s = Dropped;
  ri_serving i : conns s !! i = Some Serving →
    accept s = Spawned i ∨ shutting_down s = false ∧ i ∈ handles s;
}.

Lemma registry_step_inv s s' : registry_inv s → step s s' → registry_inv s'.
Proof.
  intros [Hf Hs] Hstep. destruct Hstep as [s Ha|s i Ha|s i Hi|s Hd|s Hd|s Ha Hd]; split; simpl; try done.
  - intros i Hi. apply lookup_app_Some in Hi as [Hi|[Hlen Hi]].
    + destruct (Hs i Hi) as [?|?]; [congruence|by right].
    + apply list_lookup_singleton_Some in Hi as [Hi _]. left. f_equal. lia.
  - unfold register. by destruct (shutting_down s).
  - intros j. unfold register. destruct (shutting_down s) eqn:Esd; cbn [conns accept shutting_down handles].
    + rewrite abort_one_serving. intros [Hj Hne]. destruct (Hs j Hj) as [E|[? _]]; [|done].
      rewrite Ha in E. by injection E as ->.
    + intros Hj. right. split; [done|]. rewrite elem_of_app. destruct (Hs j Hj) as [E|[_ Hin]].
      * rewrite Ha in E. injection E as ->. right. by apply list_elem_of_singleton.
      * left. apply list_elem_of_In, filter_In. split; [by apply list_elem_of_In|].
        unfold is_finished. by rewrite Hj.
  - intros j Hj. apply Hs. apply list_lookup_insert_Some in Hj as [(_ & ? & _)|[_ ?]]; done.
  - rewrite Hf, Hd. done.
  - intros j Hj. apply abort_all_serving in Hj as [Hj Hn]. destruct (Hs j Hj) as [?|[_ ?]]; [by left|done].
  - intros j Hj. destruct (Hs j Hj) as [?|?]; [congruence|by right].
Qed.

(** Once the intake is dropped no connection is served, but for the one the accept loop
    has just spawned, which it aborts when it registers it: the loop can then stop with
    every connection over. *)
Theorem no_connection_after_drop s :
  rtc step init s → dropping s = Dropped →
  (∀ i, conns s !! i = Some Serving → accept s = Spawned i) ∧
  ∃ s', rtc step s s' ∧ accept s' = Stopped ∧ ∀ i, conns s' !! i ≠ Some Serving.
Proof.
  intros Hr Hd. assert (registry_inv s) as Hinv.
  { assert (registry_inv init) as Hi by (split; [by split|by intros [|i]]). clear Hd. revert Hi.
    induction Hr as [|x y z Hxy _ IH]; [done|]. intros Hi. apply IH. by eapply registry_step_inv. }
  destruct Hinv as [Hf Hs]. pose proof (proj2 Hf Hd) as Hsd.
  assert (∀ i, conns s !! i = Some Serving → accept s = Spawned i) as Hsp.
  { intros i Hi. destruct (Hs i Hi) as [?|[? _]]; congruence. }
  split; [done|]. destruct (accept s) as [|i|] eqn:Ea.
  - exists (stop_accept s). split; [apply rtc_once, accept_stops; congruence|]. split; [done|].
    intros i Hi. specialize (Hsp i Hi). done.
  - exists (stop_accept (register s i)). split_and!; [|done|].
    + eapply rtc_l; [by apply registers|]. apply rtc_once, accept_stops; unfold register; rewrite Hsd; simpl; congruence.
    + intros j. unfold register. rewrite Hsd. simpl. rewrite abort_one_serving. intros [Hj Hne].
      apply Hne. specialize (Hsp j Hj). congruence.
  - exists s. split_and!; [done|done|]. intros i Hi. specialize (Hsp i Hi). done.
Qed.
End RegistryFacts.

(** * Examples *)
Module MockIntakeExamples.
#[local] Existing Instances MockSummaryExamples.no_rest MockSummaryExamples.text.

(** A body of statistics is a count of hits in decimal; compressed bodies are plain text
    and a zstd body must not be empty. *)
#[local] Instance codec : Codec := {|
  TracerPayload := unit; IdxTracerPayload := unit; embedded := unit;
  embed_stats _ := None; embed_tracer _ := JNull; embed_idx _ := JNull;
  stats_from_msgpack d :=
    match parse_uint u64_max (str_of d) with
    | Some n => Ok (MockSummaryExamples.payload
                      [MockSummaryExamples.client [[MockSummaryExamples.grouped "op" [] n]]])
    | None => Err "not a number"
    end;
  pipeline_from_msgpack _ := Err "none";
  to_vec_pretty _ := None;
|}.
#[local] Instance decoders : Decoders := {|
  gzip_decoder b := {| r_bytes := b; r_end := Ok tt |};
  zstd_decoder b := match b with [] => Err "empty" | _ => Ok {| r_bytes := b; r_end := Ok tt |} end;
|}.
Definition no_agent (_ : list ascii) : result AgentPayload string := Err "none".
Definition fail_first : MockIntakeOptions :=
  {| port := 0; request_summaries := true; fail_stats_first_n := 1; dump_dir := None |}.

(** Three requests whose bodies are read in the reverse order: the last one takes the
    injected failure, the one with an unknown encoding uses no attempt. *)
Definition headers (encoding : string) : HeaderMap := [("content-encoding", bytes_of encoding)].
Definition arrived : State :=
  fold_left (λ s e, arrive s "/api/v0.2/stats" Stats (headers e)) ["gzip"; "br"; "GZIP"] init.
Definition task (s : State) (i : nat) : Task :=
  default {| t_path := ""; t_endpoint := Stats; t_headers := []; t_pc := Reading |} (tasks s !! i).
Definition read (s : State) (i : nat) (body : string) : State :=
  with_task s i (at_pc (task s i) (Handling (bytes_of body))).
Definition run_task (s : State) (i : nat) (body : string) : State :=
  let s := handle no_agent true fail_first s i (task s i) (bytes_of body) in
  match fate_of (task s i) with
  | Some (b, (st, acc)) => capture s i (task s i) b st acc
  | None => s
  end.
Definition all_read : State := read (read (read arrived 2 "7") 1 "8") 0 "9".
Definition served_one : State := run_task all_read 2 "7".
Definition served_two : State := run_task served_one 1 "8".
Definition served : State := run_task served_two 0 "9".

Example served_answers :
  map (λ i, match fate_of (task served i) with Some (_, (st, _)) => st | None => 0 end) [0; 1; 2]%nat
    = [202; 415; 500] ∧
  map fst (requests (captured served)) = [1; 2; 3] ∧ map fst (stats (captured served)) = [1] ∧
  decoded served = [2; 0]%nat.
Proof. vm_compute. split_and!; reflexivity. Qed.

Lemma served_reachable : rtc (step no_agent true fail_first) init served.
Proof.
  assert (∀ s e, step no_agent true fail_first s (arrive s "/api/v0.2/stats" Stats (headers e))) as Ha
    by (intros s e; by eapply arrives with (method := "POST")).
  eapply rtc_l; [apply (Ha _ "gzip")|]. eapply rtc_l; [apply (Ha _ "br")|]. eapply rtc_l; [apply (Ha _ "GZIP")|].
  change (arrive (arrive (arrive init _ _ _) _ _ _) _ _ _) with arrived.
  eapply rtc_l; [apply (body_read no_agent true fail_first arrived 2 (task arrived 2) (bytes_of "7")); [done|done|by vm_compute]|].
  eapply rtc_l; [apply (body_read _ _ _ (read arrived 2 "7") 1 (task (read arrived 2 "7") 1) (bytes_of "8")); [done|done|by vm_compute]|].
  eapply rtc_l; [apply (body_read _ _ _ (read (read arrived 2 "7") 1 "8") 0 (task (read (read arrived 2 "7") 1 "8") 0) (bytes_of "9"));
    [done|done|by vm_compute]|].
  change (with_task _ 0 _) with all_read.
  assert (∀ s i b, tasks s !! i = Some (task s i) → t_pc (task s i) = Handling (bytes_of b) →
    rtc (step no_agent true fail_first) s (run_task s i b)) as Hrun.
  { intros s i b Hi Hpc. unfold run_task. eapply rtc_l; [by apply (handled no_agent true fail_first s i (task s i))|].
    set (s1 := handle _ _ _ _ _ _ _). destruct (fate_of (task s1 i)) as [[b' [st acc]]|] eqn:Ef; [|done].
    assert (∃ st acc, tasks s1 !! i = Some (at_pc (task s i) (Decided (bytes_of b) st acc))) as (st' & acc' & Hi1).
    { subst s1. unfold handle. destruct (run_handler _ _ _ _ _ _ _ _) as [a [st' acc']]. simpl.
      exists st', acc'. apply list_lookup_insert_eq. by eapply lookup_lt_Some. }
    assert (task s1 i = at_pc (task s i) (Decided (bytes_of b) st' acc')) as Ht by (unfold task at 1; by rewrite Hi1).
    rewrite Ht in Ef |- *. injection Ef as <- <- <-. apply rtc_once. by apply recorded. }
  transitivity served_one; [apply (Hrun all_read 2%nat "7"); reflexivity|].
  transitivity served_two; [apply (Hrun served_one 1%nat "8"); reflexivity|].
  apply (Hrun served_two 0%nat "9"); reflexivity.
Qed.

Lemma captures_spec_witness :
  holds stats_of (stats (captured served)) (tasks served) ∧
  ∀ id, id ∈ (stats (captured served)).*1 → id ∈ (requests (captured served)).*1.
Proof.
  destruct (captures_spec no_agent true fail_first served served_reachable) as (_ & Hs & _ & _ & Hids & _).
  split; [exact Hs|]. intros id Hid. apply Hids. apply elem_of_app. by left.
Defined.

Lemma stats_injection_exact_witness :
  ∃ n, decoded served !! n = Some 2%nat ∧
    (500, None) = stats_verdict true fail_first n (Ok (bytes_of "7")).
Proof.
  destruct (stats_injection_exact no_agent true fail_first served served_reachable) as (_ & _ & H).
  specialize (H 2%nat (task served 2) (bytes_of "7") 500 None eq_refl eq_refl eq_refl).
  assert (decompress (t_headers (task served 2)) (bytes_of "7") = Ok (bytes_of "7")) as E by reflexivity.
  rewrite E in H. destruct H as (n & Hn & Hv & _). exists n. split; [exact Hn|exact Hv].
Defined.

(** An invalid byte of a header is replaced, so the encoding is not taken for another. *)
Example lossy_example :
  from_utf8_lossy ["g"%char; "255"%char; "z"%char] = String "g" (str_of (replacement ++ ["z"%char])) ∧
  zlen (lossy 3 ["226"%char; "130"%char; "("%char]) = 4.
Proof. vm_compute. split; reflexivity. Qed.

(** One byte more than the cap is refused, even if an error follows. *)
Example cap_example :
  is_ok (read_capped {| r_bytes := bytes_of "abc"; r_end := Ok tt |} 3) = true ∧
  read_capped {| r_bytes := bytes_of "abcd"; r_end := Err "broken" |} 3 =
    Err "decompressed body exceeds 3 byte cap, rejecting as a likely decompression bomb".
Proof. vm_compute. split; reflexivity. Qed.

Example dump_name :
  dump_path "d" (dump_base "/api/v0.2/stats" 7 12 345) 0 = "d/_api_v0.2_stats-0007-12-345.json" ∧
  dump_path "d" (dump_base "/api/v0.2/stats" 7 12 345) 2 = "d/_api_v0.2_stats-0007-12-345-2.json".
Proof. vm_compute. split; reflexivity. Qed.

Lemma dump_never_overwrites_witness :
  ∃ fs', dump_loop (λ _ fs, fs) (λ _, false) id 1001 {["d/b.json" := "old"]} "d" "b" "new" 0
           = Some (fs', Written "d/b-1.json") ∧ fs' !! "d/b.json" = Some "old".
Proof.
  destruct (dump_never_overwrites (λ _ fs, fs) (λ _, false) id (λ _ fs, reflexivity fs) 1001
    {["d/b.json" := "old"]} "d" "b" "new" 0) as (fs' & o & E & Hsub & Ho); [lia|lia|].
  assert (snd <$> dump_loop (λ _ fs, fs) (λ _, false) id 1001 {["d/b.json" := "old"]} "d" "b" "new" 0
    = Some (Written "d/b-1.json")) as E' by (vm_compute; reflexivity).
  rewrite E in E'. injection E' as ->. exists fs'. split; [exact E|]. eapply lookup_weaken; [|exact Hsub]. reflexivity.
Defined.
End MockIntakeExamples.
